(* ===== verification/_CoqProject ===== *)
-Q . S2P
Prelude.v
GoLib.v
GoFloat.v
FloatBounds.v
Kms.v
Tink.v
KmsModel.v
Fake.v
Lease.v
Cmek.v
Tenant.v
Prog.v
Manager.v
Api.v
Interleaving.v
TenantInv.v
Rows.v
Safety.v
Exec.v
Demo.v
Sealing.v
Guarantees.v
Transitions.v
Store.v
StoreInv.v
StoreOps.v
Queue.v
QueueSpec.v
Admit.v
Ingest.v
Scheduler.v
Workers.v
Pool.v
PoolSpec.v
Sink.v
Checker.v
CheckerSpec.v
Metrics.v
Hist.v
Latency.v
Hub.v
Tick.v
Generator.v
Params.v
World.v
Scenarios.v
Footprint.v
ScenarioDemo.v
Control.v
ScenarioSpec.v
Holder.v
Pages.v
HistSpec.v
TickSpec.v
Readings.v
Tiles.v
TickDemo.v
TimelineSpec.v
Server.v
ServerInv.v
ServerSpec.v
Wiring.v
Streams.v
Answers.v
ServerDemo.v
WorldTick.v
Throttle.v
Database.v
Lifecycle.v
WorldCheck.v
Loops.v
Main.v
Zipf.v
