(* ===== verification/Prelude.v ===== *)
(** * Killswitch: a verification library

    The program under src/ is a multi-tenant webhook relay with customer-managed
    encryption keys.  Every event is sealed at the door under a data key (DEK)
    that the tenant's own key (KEK, in a key service) wraps, stored in a SQLite
    queue, opened by a worker and delivered.  A tenant that revokes its key must
    become unreadable within one lease; a provider outage shorter than the lease
    must go unnoticed; other tenants must not suffer.  Around this core stand an
    admission gate, a fair scheduler, an independent checker, a metrics registry,
    a load generator, and a World that wires them and runs scripted faults.

    ** The parts and their files

    Ground: [Prelude] (this file: lemmas on integers and lists, tactics, hint
    databases), [GoLib] (int64, time.Time and time.Duration, map iteration
    order, strings and bytes), [GoFloat] (float64 on the standard library's
    executable IEEE 754), [FloatBounds] (how far a product or a quotient of
    integers is from the real one after rounding), [Throttle] (internal/logx: the
    throttled error logger, a call as atomic actions of goroutines).

    Key services, internal/kms: [Kms] (codes, Go error values, the text frame of
    kms.go, faults, the event log), [Fake] (fake.go: keys, faults, revoke and
    restore, the gate), [Latency] (the gate's injected latency, raced against the
    caller's context on a clock).  [KmsModel] is the interface of internal/kms/kms.go as a
    transition system, a class with its laws, against which the core is proved;
    [Fake.fake_model] is its instance.  [Tink] is the class of what the code uses
    of github.com/tink-crypto/tink-go, its laws, and a toy instance that shows
    the laws can hold.

    The core, internal/cmek: [Lease] (lease.go), [Cmek] (types.go, classify.go,
    envelope.go), [Tenant] (the fields of a tenant and every critical section of
    fetcher.go), [Prog] (a program is a tree of actions: one section of the
    tenant's mutex, one atomic, one singleflight or KMS call), [Manager] and [Api]
    (the methods of manager.go and fetcher.go as such programs), [Interleaving]
    (goroutines running programs, one action per step, between clock advances and
    changes of the key service; a weakest-precondition logic over it).
    [TenantInv], [Rows] and [Safety] hold the invariant and its preservation;
    [Exec] and [Demo] run the core on concrete schedules.

    The queue, internal/queue: [Store] (the ten prepared statements of store.go
    over a table of rows, the in-memory ledger, each call with its failing
    variants), [Database] (its Open and Close, as calls out of which any may
    fail), [StoreInv], [StoreOps], [Queue] (runs of calls), [Scheduler]
    (scheduler.go), [Workers] (one turn of the loop of workers.go as a list of
    actions that is executed on store and sink), [Pool] (all workers of [Run],
    interleaved call by call with one another and with everybody else who uses
    the store; its invariant) and [PoolSpec] (its theorems).

    The edges: [Admit] (internal/admit/gate.go; the ledger through the class
    [Backlogs], golang.org/x/time/rate through [RateLimit]), [Ingest]
    (internal/world/ingest.go), [Sink], [Generator] and [Zipf]
    (internal/traffic), [Checker] (internal/check/checker.go).

    The metrics, internal/metrics: [Metrics] (the aggregates of registry.go),
    [Hist] (hist.go: the latency buckets and their windowed percentile), [Hub]
    (hub.go), [Tick] (the rest of registry.go: the tick, its snapshot, readings,
    peaks and the streams), [HistSpec], [TickSpec], [Readings], [Tiles] and
    [TimelineSpec] (their theorems), [TickDemo] (runs).

    The World, internal/world: [Params] (params.go), [World] (world.go: the
    wiring and the control calls), [WorldTick] and [WorldCheck] (what a World's
    tick reads, and its checker), [Lifecycle] (New's failures, Start, the wait
    groups and Stop, statement by statement), [Loops] (the loops that wait: of the
    registry, the checker, the sweep and the generator), [Scenarios] (scenarios.go: the eight scripts
    and the runner), [Holder] (holder.go: which World is current), [Pages] (the
    read models of world.go).

    The service, cmd/killswitch: [Server] (every handler of server.go and the
    stream of sse.go, as steps of connections on the holder), [ServerInv] (who
    holds a World), [ServerSpec], [Streams], [Answers], and [ServerDemo] (runs);
    [Main] (main.go: the environment, boot and shutdown).

    ** How they interact

    [Ingest] calls [Admit], [Api.EncryptKey], [Cmek.Seal], [Store.Insert] in the
    code's order; [Workers] calls [Api.DecryptKey], [Cmek.Open], [Sink.Deliver]
    and the [Store]; [Pool] makes those calls one at a time ([Pool.process_next],
    [PoolSpec.turn_is_pool_run]); [Scheduler] reads the [Store]'s ledger, [Api.Hot] and
    [Admit.WithinShare]; [Checker] reads rows, deliveries and the key service's
    log.  [World] hands the core its configuration and turns control requests
    into calls of [Fake], [Generator], [Api] and [Metrics]; a [Tick] reads the core's
    states, the [Store]'s ledger, the [Generator]'s rate and the bulkheads, and
    broadcasts on the [Hub]; a pass of the [Checker] reports to the registry the
    next tick reads; [Scenarios] drives those calls from a runner goroutine;
    [Holder] connects the [Hub]'s viewer count to the [World]'s watcher, and with
    it to the [Generator]'s gate, which the loops of [Loops] obey; [Lifecycle]
    opens and closes the [Database] around all of them.  A
    handler of [Server] refuses, or asks the [Holder] for a World, calls it and
    releases it, with the steps of other handlers and of the World in between.

    ** What is proved

    - Revocation ([Guarantees], [Wiring]): under any interleaving every handle
      ever issued ends within one lease less the early margin of the instant the
      provider logs the revocation, 29 seconds in the deployed configuration; a
      parked or cacheless tenant holds no primitive; the states, the grid cell and
      the audit log agree; no section dereferences nil.
    - The tenant's transition table, the sweep, the purge ([Transitions]); sealing
      round trips, and a moved or altered message is poison ([Sealing]).
    - The queue ([QueueSpec]): a message is in exactly one place from insert to
      delivery or dead letter, the ledger equals the table, a row's life, claim
      order, claim and release are inverse.  The worker ([Workers]) follows the
      protocol, settles its batch on every path, and delivers what was ingested.
      The pool ([PoolSpec]): whatever the interleaving and whichever statements
      fail, what was acknowledged was delivered, and nothing was delivered twice
      but after a lapsed claim; one worker holds a message; Run returns; a turn of
      one worker left alone is a run of the pool.
    - Fairness: overload sheds only tenants above their share ([Admit]), no
      tenant starves ([Scheduler]).
    - Ingest ([Ingest]): one count per request, a refusal leaves the queue alone.
    - The checker ([CheckerSpec]) and the fake's log ([Fake]): windows are the
      log's disabled intervals, S3 counts violations only, S4 accepts an exact
      ledger; the sink's index ([Sink]) answers range queries exactly.  A slow key
      service cannot hold a call past its context ([Latency]).
    - Metrics: nothing is counted twice or forgotten ([TickSpec]); the percentile
      a viewer reads is that of the deliveries, to within a bucket, though it is
      computed in floats ([HistSpec], [Readings]); recovery and rates are those of
      the ticks ([Readings]); the grid, the tiles and the peaks agree ([Tiles]);
      the events are one story ([TimelineSpec]); detections, the transition flush
      and the order of what viewers receive ([Metrics], [Hub]); the snapshot of a
      World shows that World ([WorldTick]) and its lights are the checker's
      counters ([WorldCheck]).
    - The database: Open is all or nothing and Close undoes it, whatever fails
      ([Database]).  The logger: no flood, and no error goes silent ([Throttle]).
    - The generator: a payload names its tenant, no catch-up burst, numbers
      without gaps; the demo's load fits its limits ([Zipf]); a pause stops the
      sends and the parked loops return ([Loops]), as the ticking loops keep their
      pace and the sweep its intervals.
    - The World: one scenario at a time, every run ends, a run leaves the World
      calm ([Footprint], [ScenarioSpec]); the contract of a fault request
      ([Control]); traffic follows the viewers and nobody is moved off a World
      someone watches ([Holder]); New opens its store or fails clean, the wait
      groups count who runs, a Stop that is not cut short leaves nothing running
      but key fetches, and every Stop closes the store ([Lifecycle]).
    - The service: a World counts exactly the open connections it must wait for,
      and its viewers are the open streams ([ServerSpec]); a stream is a numbered
      subsequence of what was broadcast ([Streams]); a status says what the call
      did, a refusal changes nothing, and which World a request gets ([Answers]);
      what the environment may change, and a clean shutdown ([Main]).

    Some theorems state a defect on a concrete run: [Guarantees.panic_reachable],
    [CheckerSpec.s3_misses_across_episodes],
    [Ingest.overshoot_exceeds_documented_bound],
    [ScenarioSpec.Runs.late_clear_loses_next_card],
    [ScenarioSpec.Runs.no_cache_exit_forgets_sync],
    [Holder.HDemo.never_watched_never_rebuilt], [Control.accepted_latency_wraps],
    [Main.MainDemo.reset_at_shutdown_leaks_world], [Lifecycle.fetch_outlives_stop].

    ** Conventions, bounds and fuel

    An int64 is a [Z] with [wrap64] where the code can overflow; a panic is
    [None]; a Go error is an [option err] or a left injection; what the code reads
    from outside (clock, randomness, disk failures) is an argument of the
    operation.  [Kms.frame_loop] is the one recursion on fuel: it consumes at
    least four bytes per round, gets one more than the length of its text, and
    [Kms.frame_loop_fuel] shows that more changes nothing.  Every other recursive
    definition is structural.  What the code repeats until something happens is a
    step relation, with a theorem that bounds it: the runner's tail, the workers
    ([PoolSpec.work]: three steps per message left and a few more, 208 in all as
    shipped), the paused
    generator ([Loops.grank]: six steps a loop at most), Stop
    ([Lifecycle.stop_left]: its six statements).
    The order in which Go ranges over a map is a parameter ([GoLib.MapRange]), and
    so is the text fmt prints for floats and durations ([World.Fmt]).

    ** Not modelled

    The listener, the signal and the embedded page (main.go, embed.go, web): I/O
    around the calls modelled here.  What net/http and encoding/json read from a
    request is an argument of the request, and what they write is a value.  Of the
    standard library these are parameters, of which a theorem assumes at most what
    it names: the bytes encoding/json gives for a snapshot ([Tick.JSON]), math.Log
    ([Hist.GoLog]), math.Pow ([Zipf.GoPow]), strconv.ParseFloat
    ([Main.GoParseFloat]), math.Exp ([Latency.GoExp]) and the text of a wall clock
    ([WorldCheck.Clockface]); what math/rand draws is a reading.  SQLite: a
    statement's effect is what its SQL says, its failure an argument, and what the
    driver does to the files is arbitrary.  The deadline of a context,
    singleflight's sharing and the bulkheads' semaphores are actions of the core's
    programs; the scheduler of goroutines is the interleaving.  What a scenario
    runner does between two waits is one step, and so is a pass of the checker.
    In the World's life the goroutines are places and counts: what each does is in
    its own file, and no theorem puts a time on their return.  Log lines, and the
    ids New prints of its top ranks, are left out. *)

From Stdlib Require Export ZArith Lia Bool.
From stdpp Require Export base numbers option list gmap sets strings pretty.


(** ** Lists of integers *)

(** The sum of a list of integers, used by every counting argument. *)
Definition sumZ (l : list Z) : Z := foldr Z.add 0%Z l.

(** The number of elements a boolean test accepts, as the counters see it. *)
Definition countZ {A} (p : A → bool) (l : list A) : Z :=
  sumZ ((λ x, if p x then 1%Z else 0%Z) <$> l).

Section counting.
Context {A : Type}.
Implicit Types (p q : A → bool) (l k : list A) (x : A).

Lemma sumZ_cons (x : Z) (l : list Z) : sumZ (x :: l) = (x + sumZ l)%Z.
Proof. done. Qed.

Lemma sumZ_app (l k : list Z) : sumZ (l ++ k) = (sumZ l + sumZ k)%Z.
Proof. induction l; simpl; [done|]. rewrite IHl. lia. Qed.

#[export] Instance sumZ_perm : Proper (Permutation ==> (=)) sumZ.
Proof. induction 1; rewrite ?sumZ_cons; lia. Qed.

Lemma sumZ_nonneg (l : list Z) : Forall (λ z, 0 <= z)%Z l → (0 <= sumZ l)%Z.
Proof. induction 1; simpl; lia. Qed.

Lemma countZ_nil p : countZ p [] = 0%Z.
Proof. done. Qed.

Lemma countZ_cons p x l :
  countZ p (x :: l) = ((if p x then 1 else 0) + countZ p l)%Z.
Proof. done. Qed.

Lemma countZ_app p l k : countZ p (l ++ k) = (countZ p l + countZ p k)%Z.
Proof. unfold countZ. by rewrite fmap_app, sumZ_app. Qed.

#[export] Instance countZ_perm p : Proper (Permutation ==> (=)) (countZ p).
Proof.
  induction 1 as [|x l k _ IH|x y l|l k m _ IH1 _ IH2]; rewrite ?countZ_cons; [done|by rewrite IH|lia|by rewrite IH1].
Qed.

Lemma countZ_nonneg p l : (0 <= countZ p l)%Z.
Proof. induction l; [done|]. rewrite countZ_cons. case_match; lia. Qed.

Lemma countZ_le_length p l : (countZ p l <= Z.of_nat (length l))%Z.
Proof. induction l; [done|]. rewrite countZ_cons. simpl. case_match; lia. Qed.

Lemma countZ_ext p q l : (∀ x, x ∈ l → p x = q x) → countZ p l = countZ q l.
Proof.
  induction l as [|y l IH]; intros H; [done|].
  rewrite !countZ_cons, (H y) by set_solver. rewrite IH; [done|]. set_solver.
Qed.

Lemma countZ_pos_elem p l : (0 < countZ p l)%Z → ∃ x, x ∈ l ∧ p x = true.
Proof.
  induction l as [|y l IH]; [done|]. rewrite countZ_cons.
  destruct (p y) eqn:E; intros H.
  - exists y. split; [set_solver|done].
  - destruct IH as (x & ? & ?); [lia|]. exists x. set_solver.
Qed.

Lemma countZ_zero p l : countZ p l = 0%Z ↔ ∀ x, x ∈ l → p x = false.
Proof.
  induction l as [|y l IH]; [rewrite countZ_nil; set_solver|].
  rewrite countZ_cons. pose proof (countZ_nonneg p l). split.
  - intros Hz x Hx. destruct (p y) eqn:E; [lia|].
    apply elem_of_cons in Hx as [->|Hx]; [done|]. apply IH; [lia|done].
  - intros Hall. rewrite (Hall y) by set_solver.
    rewrite (proj2 IH); [done|]. set_solver.
Qed.

(** A count splits along a second test. *)
Lemma countZ_split p q l :
  countZ p l = (countZ (λ x, p x && q x) l + countZ (λ x, p x && negb (q x)) l)%Z.
Proof.
  induction l as [|y l IH]; [done|]. rewrite !countZ_cons, IH.
  destruct (p y), (q y); simpl; lia.
Qed.

Lemma countZ_fmap {B} (p : B → bool) (f : A → B) l :
  countZ p (f <$> l) = countZ (λ x, p (f x)) l.
Proof. unfold countZ. by rewrite <- list_fmap_compose. Qed.

Lemma countZ_filter p (P : A → Prop) `{!∀ x, Decision (P x)} l :
  countZ p (filter P l) = countZ (λ x, p x && bool_decide (P x)) l.
Proof.
  induction l as [|y l IH]; [done|]. rewrite filter_cons, countZ_cons.
  case_decide as Hd.
  - rewrite countZ_cons, IH, bool_decide_eq_true_2 by done. by rewrite andb_true_r.
  - rewrite bool_decide_eq_false_2 by done. rewrite andb_false_r. done.
Qed.
End counting.

(** A filter that rejects nothing. *)
Lemma filter_all {A} (P : A → Prop) `{!∀ x, Decision (P x)} (l : list A) :
  (∀ x, x ∈ l → P x) → filter P l = l.
Proof.
  induction l as [|x l IH]; intros Hall; [done|]. rewrite filter_cons_True by (apply Hall; set_solver).
  f_equal. apply IH. intros y Hy. apply Hall. set_solver.
Qed.

(** ** Automation *)

(** The rewriting base of counting facts. *)
Create Rewrite HintDb count.
#[export] Hint Rewrite @countZ_nil @countZ_cons @countZ_app : count.

(** Changing one entry of a list changes the sum by the difference. *)
Lemma sum_list_with_insert {A} (f : A → nat) (i : nat) (x y : A) (l : list A) :
  l !! i = Some x → (sum_list_with f (<[i := y]> l) + f x = sum_list_with f l + f y)%nat.
Proof.
  revert i. induction l as [|z l IH]; intros [|i] E; [done..| |].
  - injection E as ->. cbn [insert list_insert sum_list_with]. lia.
  - specialize (IH i E). change (<[S i := y]> (z :: l)) with (z :: <[i := y]> l). cbn [sum_list_with]. lia.
Qed.

Create HintDb killswitch discriminated.
#[export] Hint Resolve countZ_nonneg sumZ_nonneg : killswitch.

(** Case analysis on every boolean integer comparison in sight, keeping the
    arithmetic fact and dropping the boolean. *)
Ltac zcase :=
  repeat match goal with
  | H : context [(?a <? ?b)%Z] |- _ => destruct (Z.ltb_spec a b); simpl in *
  | H : context [(?a <=? ?b)%Z] |- _ => destruct (Z.leb_spec a b); simpl in *
  | H : context [(?a =? ?b)%Z] |- _ => destruct (Z.eqb_spec a b); simpl in *
  | |- context [(?a <? ?b)%Z] => destruct (Z.ltb_spec a b); simpl in *
  | |- context [(?a <=? ?b)%Z] => destruct (Z.leb_spec a b); simpl in *
  | |- context [(?a =? ?b)%Z] => destruct (Z.eqb_spec a b); simpl in *
  end.

(** Split every [if] and [match] of the goal or of a hypothesis, then simplify
    the equations that appear. *)
Ltac split_all := repeat (case_match; simplify_eq/=).

(** Turn the boolean connectives of the hypotheses into propositions. *)
Ltac bools :=
  repeat match goal with
  | H : _ && _ = true |- _ => apply andb_true_iff in H as [? ?]
  | H : _ || _ = false |- _ => apply orb_false_iff in H as [? ?]
  | H : negb _ = true |- _ => apply negb_true_iff in H
  | H : negb _ = false |- _ => apply negb_false_iff in H
  | H : bool_decide _ = true |- _ => apply bool_decide_eq_true in H
  | H : bool_decide _ = false |- _ => apply bool_decide_eq_false in H
  end.
