(* ===== verification/GoLib.v ===== *)
(** * The parts of Go the program uses

    Fixed-width integers, [time.Time] and [time.Duration], and the string
    helpers of packages [strings] and [strconv].  A [time.Time] is the number
    of nanoseconds since Go's zero time, so [time.Time{}] is [0] and every
    instant a clock reads is positive; a [time.Duration] is an [int64]. *)

From S2P Require Import Prelude.
From Stdlib Require Import Strings.String Strings.Ascii.
From Stdlib Require Strings.Byte.
Local Open Scope Z_scope.

(** ** Machine integers *)

Definition maxInt64 : Z := 2 ^ 63 - 1.
Definition minInt64 : Z := - 2 ^ 63.

(** Two's complement wrap-around of a 64-bit signed result. *)
Definition wrap64 (z : Z) : Z := (z + 2 ^ 63) mod 2 ^ 64 - 2 ^ 63.

(** Unsigned 64-bit conversion, [uint64(x)]. *)
Definition u64 (z : Z) : Z := z mod 2 ^ 64.

Lemma wrap64_id z : minInt64 <= z <= maxInt64 → wrap64 z = z.
Proof.
  unfold wrap64, minInt64, maxInt64. intros H.
  rewrite Z.mod_small by lia. lia.
Qed.

Lemma wrap64_range z : minInt64 <= wrap64 z <= maxInt64.
Proof.
  unfold wrap64, minInt64, maxInt64.
  pose proof (Z.mod_pos_bound (z + 2 ^ 63) (2 ^ 64)). lia.
Qed.

Lemma wrap64_add_l a b : wrap64 (wrap64 a + b) = wrap64 (a + b).
Proof.
  unfold wrap64. f_equal. replace (_ - 2 ^ 63 + b + 2 ^ 63) with ((a + 2 ^ 63) mod 2 ^ 64 + b) by lia.
  rewrite Zplus_mod_idemp_l. f_equal. lia.
Qed.

Lemma u64_wrap64 z : u64 (wrap64 z) = u64 z.
Proof.
  unfold u64, wrap64.
  rewrite Zminus_mod, Zmod_mod, <- Zminus_mod. f_equal. lia.
Qed.

(** ** time.Time and time.Duration *)

Abbreviation Time := Z (only parsing).
Abbreviation Duration := Z (only parsing).

Definition Millisecond : Duration := 1000000.
Definition Second : Duration := 1000000000.
Definition Minute : Duration := 60 * Second.

Module Time.
Definition IsZero (t : Time) : bool := t =? 0.
Definition After (t u : Time) : bool := u <? t.
Definition Before (t u : Time) : bool := t <? u.

(** [t.Add(d)]: the seconds counter of a Time does not overflow. *)
Definition Add (t : Time) (d : Duration) : Time := t + d.

(** [t.Sub(u)] saturates at the int64 bounds. *)
Definition Sub (t u : Time) : Duration := Z.max minInt64 (Z.min maxInt64 (t - u)).

(** Seconds between Go's zero time and the Unix epoch, in nanoseconds. *)
Definition unixEpoch : Z := 62135596800 * Second.
Definition UnixMilli (t : Time) : Z := (t - unixEpoch) / Millisecond.
Definition ofUnixMilli (ms : Z) : Time := unixEpoch + ms * Millisecond.
Definition UnixNano (t : Time) : Z := wrap64 (t - unixEpoch).
End Time.

(** Duration addition and subtraction are int64 operations. *)
Definition dur_add (a b : Duration) : Duration := wrap64 (a + b).
Definition dur_sub (a b : Duration) : Duration := wrap64 (a - b).

(** A duration a configuration may hold without overflow in the sums the
    program forms (about 73 years on either side). *)
Definition dur_small (d : Duration) : Prop := - 2 ^ 61 <= d <= 2 ^ 61.

Lemma dur_add_small a b : dur_small a → dur_small b → dur_add a b = a + b.
Proof. unfold dur_small, dur_add. intros. apply wrap64_id. unfold minInt64, maxInt64. lia. Qed.

Lemma dur_sub_small a b : dur_small a → dur_small b → dur_sub a b = a - b.
Proof. unfold dur_small, dur_sub. intros. apply wrap64_id. unfold minInt64, maxInt64. lia. Qed.

(** A saturated difference compares with an int64 bound like the exact one. *)
Lemma Sub_ge t u d : minInt64 < d <= maxInt64 → d <= Time.Sub t u ↔ d <= t - u.
Proof. unfold Time.Sub, minInt64, maxInt64. lia. Qed.

Lemma Sub_small t u : minInt64 <= t - u <= maxInt64 → Time.Sub t u = t - u.
Proof. unfold Time.Sub, minInt64, maxInt64. lia. Qed.

Lemma UnixMilli_ofUnixMilli z : Time.UnixMilli (Time.ofUnixMilli z) = z.
Proof.
  unfold Time.UnixMilli, Time.ofUnixMilli.
  replace (Time.unixEpoch + z * Millisecond - Time.unixEpoch) with (z * Millisecond) by lia.
  apply Z.div_mul. done.
Qed.

(** Storing an instant in milliseconds moves it back by less than one. *)
Lemma ofUnixMilli_UnixMilli t :
  t - Millisecond < Time.ofUnixMilli (Time.UnixMilli t) <= t.
Proof.
  unfold Time.UnixMilli, Time.ofUnixMilli.
  pose proof (Z.mul_div_le (t - Time.unixEpoch) Millisecond).
  pose proof (Z.mul_succ_div_gt (t - Time.unixEpoch) Millisecond).
  unfold Millisecond in *. lia.
Qed.

Lemma UnixMilli_mono t u : t <= u → Time.UnixMilli t <= Time.UnixMilli u.
Proof. intros. unfold Time.UnixMilli. apply Z.div_le_mono; [done|lia]. Qed.

(** ** Maps *)

(** The order in which [range] visits a map: any order of its entries. *)
Class MapRange := {
  range : ∀ {K A : Type} `{Countable K}, gmap K A → list (K * A);
  range_perm : ∀ {K A : Type} `{Countable K} (m : gmap K A), range m ≡ₚ map_to_list m
}.

(** ** Strings and bytes *)

Abbreviation bytes := (list Byte.byte) (only parsing).

#[export] Instance byte_eq_dec : EqDecision Byte.byte.
Proof. intros x y. exact (Byte.byte_eq_dec x y). Defined.

Module strings.
(** [strings.Index(s, sub)]; [None] is -1. *)
Definition Index (s sub : string) : option nat := String.index 0 sub s.
Definition Contains (s sub : string) : bool := match Index s sub with Some _ => true | None => false end.
Definition HasPrefix (s pre : string) : bool := String.prefix pre s.
(** The slice [s[i:]]. *)
Fixpoint drop (n : nat) (s : string) : string :=
  match n, s with
  | O, _ => s
  | S n', String _ s' => drop n' s'
  | S _, EmptyString => EmptyString
  end.
End strings.

(** [strconv.Itoa]. *)
Definition Itoa (z : Z) : string := pretty z.

Definition bytes_of (s : string) : bytes := list_byte_of_string s.

Section string_facts.
Local Open Scope string_scope.

Lemma string_app_nil_l (b : string) : "" +:+ b = b.
Proof. reflexivity. Qed.

Lemma string_app_cons (x : ascii) (a b : string) : String x a +:+ b = String x (a +:+ b).
Proof. reflexivity. Qed.

Lemma string_app_assoc (a b c : string) : (a +:+ b) +:+ c = a +:+ (b +:+ c).
Proof. induction a as [|x a IH]; [done|]. by rewrite !string_app_cons, IH. Qed.

Lemma string_app_nil_r (s : string) : s +:+ "" = s.
Proof. induction s as [|x s IH]; [done|]. by rewrite string_app_cons, IH. Qed.

Lemma string_length_app (a b : string) :
  String.length (a +:+ b) = (String.length a + String.length b)%nat.
Proof. induction a as [|x a IH]; [done|]. rewrite string_app_cons. simpl. lia. Qed.

Lemma drop_append (p s : string) : strings.drop (String.length p) (p +:+ s) = s.
Proof. induction p as [|x p IH]; [by destruct s|]. by rewrite string_app_cons. Qed.

Lemma prefix_app (p s : string) : String.prefix p (p +:+ s) = true.
Proof.
  induction p as [|x p IH]; [by destruct s|]. rewrite string_app_cons. simpl.
  by destruct (ascii_dec x x).
Qed.

Lemma bytes_of_cons (x : ascii) (a : string) :
  bytes_of (String x a) = byte_of_ascii x :: bytes_of a.
Proof. reflexivity. Qed.

Lemma bytes_of_app (a b : string) : bytes_of (a +:+ b) = (bytes_of a ++ bytes_of b)%list.
Proof.
  induction a as [|x a IH]; [done|]. by rewrite string_app_cons, !bytes_of_cons, IH.
Qed.

Lemma bytes_of_inj (a b : string) : bytes_of a = bytes_of b → a = b.
Proof.
  intros H. rewrite <- (string_of_list_byte_of_string a),
    <- (string_of_list_byte_of_string b). unfold bytes_of in H. by rewrite H.
Qed.

Lemma length_bytes_of (s : string) : List.length (bytes_of s) = String.length s.
Proof. unfold bytes_of. induction s; simpl; [done|]. by f_equal. Qed.
End string_facts.
