(* ===== verification/GoFloat.v ===== *)
(** * Go's float64

    IEEE 754 binary64 arithmetic with round-to-nearest-even, from the
    executable specification of the standard library (no primitive floats, no
    axioms), and the conversions and the one [math] function the retry
    schedule uses.  Operations are rounded one by one: the amd64 compiler does
    not fuse them. *)

From S2P Require Import Prelude GoLib.
From Stdlib Require Export Floats.SpecFloat.
Local Open Scope Z_scope.

Abbreviation float64 := spec_float (only parsing).

Module F.
Definition prec : Z := 53.
Definition emax : Z := 1024.
Definition add : float64 → float64 → float64 := SFadd prec emax.
Definition sub : float64 → float64 → float64 := SFsub prec emax.
Definition mul : float64 → float64 → float64 := SFmul prec emax.
Definition div : float64 → float64 → float64 := SFdiv prec emax.
Definition lt (x y : float64) : bool := SFltb x y.
Definition le (x y : float64) : bool := SFleb x y.
Definition gt (x y : float64) : bool := SFltb y x.

(** [float64(z)] for an int64. *)
Definition of_Z (z : Z) : float64 := binary_normalize prec emax z 0 false.

(** The float of value m * 2^e, rounded. *)
Definition lit (m e : Z) : float64 := binary_normalize prec emax m e false.

(** [math.Pow(2, float64(k))] for a non-negative k: repeated squaring of the
    significand 1/2, so the result is the exact power, or +Inf past the range. *)
Definition pow2 (k : Z) : float64 := binary_normalize prec emax 1 k false.

(** The integer part toward zero of a finite float. *)
Definition trunc (x : float64) : option Z :=
  match x with
  | S754_zero _ => Some 0
  | S754_finite s m e =>
      let a := if 0 <=? e then Z.pos m * 2 ^ e else Z.pos m / 2 ^ (- e) in
      Some (if s then - a else a)
  | S754_infinity _ | S754_nan => None
  end.

(** [time.Duration(x)] and [int64(x)]: truncation; a value an int64 cannot
    hold gives the smallest int64 (what amd64 computes). *)
Definition to_int64 (x : float64) : Z :=
  match trunc x with
  | Some z => if (minInt64 <=? z) && (z <=? maxInt64) then z else minInt64
  | None => minInt64
  end.

(** [int(math.Floor(x))]; a value an int64 cannot hold gives the smallest. *)
Definition floor_int (x : float64) : Z :=
  match x with
  | S754_zero _ => 0
  | S754_finite s m e =>
      let m := if s then Z.neg m else Z.pos m in
      let z := if 0 <=? e then m * 2 ^ e else m / 2 ^ (- e) in
      if (minInt64 <=? z) && (z <=? maxInt64) then z else minInt64
  | S754_infinity _ | S754_nan => minInt64
  end.

(** The built-in [max]. *)
Definition max (x y : float64) : float64 :=
  match x, y with
  | S754_nan, _ | _, S754_nan => S754_nan
  | S754_zero s, S754_zero t => S754_zero (s && t)
  | _, _ => if lt x y then y else x
  end.

Definition one : float64 := of_Z 1.
Definition two : float64 := of_Z 2.
Definition half : float64 := lit 1 (-1).

(** The loop of [math.Pow] over the bits of an integral exponent: the significand
    [x1] in [1/2, 1) and its exponent [xe] are squared, the product is [a1] times
    the power [ae] of two. *)
Fixpoint pow_loop (i : positive) (a1 : float64) (ae : Z) (x1 : float64) (xe : Z) : float64 * Z :=
  if (xe <? - 2 ^ 12) || (2 ^ 12 <? xe) then (a1, ae + xe)
  else
    let x2 := mul x1 x1 in
    let '(x2, xe2) := if lt x2 half then (add x2 x2, 2 * xe - 1) else (x2, 2 * xe) in
    match i with
    | xH => (mul a1 x1, ae + xe)
    | xO i => pow_loop i a1 ae x2 xe2
    | xI i => pow_loop i (mul a1 x1) (ae + xe) x2 xe2
    end.

(** [math.Pow(x, float64(y))] for a finite positive x. *)
Definition Pow (x : float64) (y : Z) : float64 :=
  let '(x1, xe) := SFfrexp prec emax x in
  match y with
  | 0 => one
  | Z.pos i => if (i =? 1)%positive then x else let '(a1, ae) := pow_loop i one 0 x1 xe in SFldexp prec emax a1 ae
  | Z.neg i => let '(a1, ae) := pow_loop i one 0 x1 xe in SFldexp prec emax (div one a1) (- ae)
  end.
End F.

(** [Duration.Seconds]: whole seconds plus the rest. *)
Definition seconds (d : Duration) : float64 :=
  F.add (F.of_Z (Z.quot d Second)) (F.div (F.of_Z (Z.rem d Second)) (F.of_Z Second)).

(** Powers of two past the range are +Inf. *)
Lemma pow2_overflow k : 1024 <= k → F.pow2 k = S754_infinity false.
Proof.
  intros Hk. unfold F.pow2, binary_normalize, binary_round.
  replace (fexp F.prec F.emax (Z.pos (digits2_pos 1) + k)) with (k - 52)
    by (unfold fexp, emin, F.prec, F.emax; simpl; lia).
  unfold shl_align. replace (k - 52 - k) with (-52) by lia. cbn [Pos.iter].
  set (m := (4503599627370496)%positive).
  change (binary_round_aux F.prec F.emax false (Z.pos m) (k - 52) loc_Exact
          = S754_infinity false).
  unfold binary_round_aux, shr_fexp.
  replace (fexp F.prec F.emax (Zdigits2 (Z.pos m) + (k - 52)) - (k - 52)) with 0
    by (unfold fexp, emin, F.prec, F.emax, m; simpl; lia).
  cbn [shr shr_record_of_loc loc_of_shr_record shr_m round_nearest_even].
  replace (fexp F.prec F.emax (Zdigits2 (Z.pos m) + (k - 52)) - (k - 52)) with 0
    by (unfold fexp, emin, F.prec, F.emax, m; simpl; lia).
  cbn [shr shr_m].
  destruct (Z.leb_spec (k - 52) (F.emax - F.prec)); [|done].
  unfold F.emax, F.prec in *. lia.
Qed.

(** A check by computation over a range of exponents. *)
Definition forallZ (lo : Z) (n : nat) (p : Z → bool) : bool :=
  forallb p (seqZ lo (Z.of_nat n)).

Lemma forallZ_spec lo n p k :
  forallZ lo n p = true → lo <= k < lo + Z.of_nat n → p k = true.
Proof.
  unfold forallZ. rewrite List.forallb_forall. intros H Hk.
  apply H. apply list_elem_of_In, elem_of_seqZ. lia.
Qed.
