(* ===== verification/FloatBounds.v ===== *)
(** * Bounds on float64 results

    How far a rounded product can be from the exact one, by the definition of
    rounding in the standard library's executable floats. *)

From S2P Require Import Prelude GoLib GoFloat.
Local Open Scope Z_scope.

(** ** Digits *)

Lemma digits2_pos_spec p : 2 ^ (Z.pos (digits2_pos p) - 1) <= Z.pos p < 2 ^ Z.pos (digits2_pos p).
Proof.
  induction p as [p IH|p IH|]; cbn [digits2_pos]; [| |by cbn].
  all: rewrite Pos2Z.inj_succ; replace (Z.succ _ - 1) with (Z.succ (Z.pos (digits2_pos p) - 1)) by lia.
  all: rewrite !Z.pow_succ_r by lia; lia.
Qed.

Lemma digits_unique p d : 0 < d → 2 ^ (d - 1) <= Z.pos p < 2 ^ d → Z.pos (digits2_pos p) = d.
Proof.
  intros Hd H. pose proof (digits2_pos_spec p) as Hp. destruct (Z.lt_trichotomy (Z.pos (digits2_pos p)) d) as [Hc|[Hc|Hc]]; [|done|].
  - assert (2 ^ Z.pos (digits2_pos p) <= 2 ^ (d - 1)) by (apply Z.pow_le_mono_r; lia). lia.
  - assert (2 ^ d <= 2 ^ (Z.pos (digits2_pos p) - 1)) by (apply Z.pow_le_mono_r; lia). lia.
Qed.

Lemma digits_le p d : 0 <= d → Z.pos p < 2 ^ d → Z.pos (digits2_pos p) <= d.
Proof.
  intros Hd H. pose proof (digits2_pos_spec p) as [Hp _]. destruct (Z.le_gt_cases (Z.pos (digits2_pos p)) d); [done|].
  assert (2 ^ d <= 2 ^ (Z.pos (digits2_pos p) - 1)) by (apply Z.pow_le_mono_r; lia). lia.
Qed.

(** ** Rounding *)

(** A position of four units: how far the exact value lies above a significand. *)
Definition quarters (l : location) : Z :=
  match l with loc_Exact => 0 | loc_Inexact Lt => 1 | loc_Inexact Eq => 2 | loc_Inexact Gt => 3 end.

(** The record [r], one unit of which is worth [n], stands for [v]. *)
Definition stands (r : shr_record) (n v : Z) : Prop :=
  0 <= shr_m r ∧ 0 <= v - shr_m r * n < n ∧
  match loc_of_shr_record r with
  | loc_Exact => v = shr_m r * n
  | loc_Inexact Lt => 0 < 2 * (v - shr_m r * n) < n
  | loc_Inexact Eq => 2 * (v - shr_m r * n) = n
  | loc_Inexact Gt => n < 2 * (v - shr_m r * n)
  end.

Lemma stands_start m l : 0 <= m → stands (shr_record_of_loc m l) 4 (4 * m + quarters l).
Proof. intros Hm. unfold stands. destruct l as [|[]]; cbn [shr_record_of_loc shr_m loc_of_shr_record quarters]; lia. Qed.

Lemma stands_shr_1 r n v : 0 < n → stands r n v → stands (shr_1 r) (2 * n) v.
Proof.
  intros Hn (Hm & Hv & Hl). unfold stands. destruct r as [m r s]. cbn [shr_m] in *.
  assert (m * n = 2 * (m / 2 * n) + m mod 2 * n) as E by (rewrite (Z.div_mod m 2) at 1 by lia; ring).
  assert (shr_1 (Build_shr_record m r s) = Build_shr_record (m / 2) (Z.odd m) (r || s)) as ->.
  { destruct m as [|[p|p|]|p]; [done| | |done|lia]; cbn [shr_1 Z.odd]; f_equal.
    - apply (Z.div_unique _ _ _ 1); lia.
    - apply (Z.div_unique _ _ _ 0); lia. }
  cbn [shr_m]. assert (m / 2 * (2 * n) = 2 * (m / 2 * n)) as -> by ring. rewrite E in *.
  pose proof (Z.mod_pos_bound m 2 ltac:(lia)). generalize dependent (m / 2 * n). intros y E Hv Hl.
  assert (0 <= m / 2) by (apply Z.div_pos; lia). split; [done|].
  rewrite Zmod_odd in *. destruct (Z.odd m); (split; [lia|]); destruct r, s; cbn [orb loc_of_shr_record] in *; lia.
Qed.

Lemma stands_iter p r n v : 0 < n → stands r n v → stands (iter_pos shr_1 p r) (n * 2 ^ Z.pos p) v.
Proof.
  revert r n. induction p as [p IH|p IH|]; intros r n Hn H; cbn [iter_pos].
  - replace (n * 2 ^ Z.pos p~1) with (2 * n * 2 ^ Z.pos p * 2 ^ Z.pos p).
    2:{ assert (2 ^ Z.pos p~1 = 2 * (2 ^ Z.pos p * 2 ^ Z.pos p)) as -> by (rewrite <- Z.pow_add_r, <- Z.pow_succ_r by lia; f_equal; lia). ring. }
    apply IH; [nia|]. apply IH; [lia|]. by apply stands_shr_1.
  - replace (n * 2 ^ Z.pos p~0) with (n * 2 ^ Z.pos p * 2 ^ Z.pos p).
    2:{ assert (2 ^ Z.pos p~0 = 2 ^ Z.pos p * 2 ^ Z.pos p) as -> by (rewrite <- Z.pow_add_r by lia; f_equal; lia). ring. }
    apply IH; [nia|]. by apply IH.
  - replace (n * 2 ^ 1) with (2 * n) by lia. by apply stands_shr_1.
Qed.

Lemma stands_shr m e l sh : 0 <= m → 0 <= sh →
  ∃ r, shr (shr_record_of_loc m l) e sh = (r, e + sh) ∧ stands r (4 * 2 ^ sh) (4 * m + quarters l).
Proof.
  intros Hm Hs. pose proof (stands_start m l Hm) as H. destruct sh as [|p|p]; [| |lia]; cbn [shr]; eexists; (split; [f_equal; lia|]).
  - exact H.
  - apply stands_iter; [lia|exact H].
Qed.

(** To nearest: off by half a unit at most. *)
Lemma stands_round r n v : 0 < n → stands r n v →
  let x := round_nearest_even (shr_m r) (loc_of_shr_record r) in
  2 * v - n <= 2 * (x * n) <= 2 * v + n ∧ shr_m r <= x <= shr_m r + 1.
Proof.
  intros Hn (Hm & Hv & Hl). cbv zeta. unfold round_nearest_even. destruct (loc_of_shr_record r) as [|[]]; [lia| |lia|lia].
  destruct (Z.even _); lia.
Qed.

Lemma fexp_mid d e : -1074 <= e → 53 <= d → fexp F.prec F.emax (d + e) - e = d - 53.
Proof. unfold fexp, emin, F.prec, F.emax. lia. Qed.

(** Rounding a significand of at least 53 digits, away from the ends of the
    exponent range: a float of 53 digits whose value is the integer nearest to
    the exact one in units of the last place. *)
Lemma round_mid m e l : 2 ^ 52 <= m → -1074 <= e → e + Zdigits2 m <= 1000 →
  ∃ m' e' x, binary_round_aux F.prec F.emax false m e l = S754_finite false m' e' ∧
    2 ^ 52 <= Z.pos m' < 2 ^ 53 ∧ 0 <= e' - (e + (Zdigits2 m - 53)) <= 1 ∧
    Z.pos m' * 2 ^ (e' - e) = x * 2 ^ (Zdigits2 m - 53) ∧
    2 * (4 * m + quarters l) - 4 * 2 ^ (Zdigits2 m - 53) <= 2 * (x * (4 * 2 ^ (Zdigits2 m - 53)))
      <= 2 * (4 * m + quarters l) + 4 * 2 ^ (Zdigits2 m - 53).
Proof.
  intros Hm He Hd. destruct m as [|p|p]; [lia| |lia]. cbn [Zdigits2] in *. pose proof (digits2_pos_spec p) as Hp.
  set (d := Z.pos (digits2_pos p)) in *.
  assert (53 <= d) as Hd53.
  { destruct (Z.le_gt_cases 53 d); [done|]. assert (2 ^ d <= 2 ^ 52) by (apply Z.pow_le_mono_r; lia). lia. }
  unfold binary_round_aux, shr_fexp. cbn [Zdigits2]. fold d. rewrite fexp_mid by lia.
  destruct (stands_shr (Z.pos p) e l (d - 53) ltac:(lia) ltac:(lia)) as (r & -> & Hr).
  set (n := 2 ^ (d - 53)) in *. assert (0 < n) as Hn by lia.
  assert (2 ^ d = 2 ^ 53 * n) as Ed by (unfold n; rewrite <- Z.pow_add_r by lia; f_equal; lia).
  assert (2 ^ (d - 1) = 2 ^ 52 * n) as Ed1 by (unfold n; rewrite <- Z.pow_add_r by lia; f_equal; lia).
  assert (2 ^ 52 <= shr_m r < 2 ^ 53) as Hrm.
  { destruct Hr as (H0 & H1 & _). assert (0 <= quarters l <= 3) by (destruct l as [|[]]; cbn; lia). nia. }
  destruct (stands_round r (4 * n) _ ltac:(lia) Hr) as [Hx Hxm]. set (x := round_nearest_even _ _) in *.
  destruct (Z.eq_dec x (2 ^ 53)) as [Ex|Hne].
  - rewrite Ex. change (Zdigits2 (2 ^ 53)) with 54. rewrite fexp_mid by lia. change (54 - 53) with 1.
    change (shr (shr_record_of_loc (2 ^ 53) loc_Exact) (e + (d - 53)) 1)
      with (Build_shr_record (2 ^ 52) false false, e + (d - 53) + 1). cbn [shr_m].
    change (2 ^ 52) with (Z.pos (2 ^ 52)%positive). cbn match. destruct (Z.leb_spec (e + (d - 53) + 1) (F.emax - F.prec)) as [_|Hc];
      [|unfold F.emax, F.prec in Hc; lia].
    exists (2 ^ 52)%positive, (e + (d - 53) + 1), x. split; [done|]. split; [done|]. split; [lia|]. split; [|lia].
    rewrite Ex. replace (e + (d - 53) + 1 - e) with (1 + (d - 53)) by lia. rewrite Z.pow_add_r by lia. fold n. change (Z.pos (2 ^ 52)) with (2 ^ 52). lia.
  - assert (2 ^ 52 <= x < 2 ^ 53) as Hx2 by lia. destruct x as [|q|q] eqn:Eq; [lia| |lia]. cbn [Zdigits2].
    rewrite (digits_unique q 53) by (try exact Hx2; lia). rewrite fexp_mid by lia.
    change (shr (shr_record_of_loc (Z.pos q) loc_Exact) (e + (d - 53)) (53 - 53))
      with (Build_shr_record (Z.pos q) false false, e + (d - 53)). cbn [shr_m].
    destruct (Z.leb_spec (e + (d - 53)) (F.emax - F.prec)) as [_|Hc]; [|unfold F.emax, F.prec in Hc; lia].
    exists q, (e + (d - 53)), (Z.pos q). split; [done|]. split; [exact Hx2|]. split; [lia|]. split; [|lia].
    by replace (e + (d - 53) - e) with (d - 53) by lia.
Qed.

(** An integer of at most 53 bits is a float64, with this significand. *)
Lemma of_Z_exact n : 0 < n < 2 ^ 53 → ∃ k m, 0 <= k ∧ F.of_Z n = S754_finite false m (- k) ∧ Z.pos m = n * 2 ^ k ∧ 2 ^ 52 <= Z.pos m < 2 ^ 53.
Proof.
  intros Hn. destruct n as [|p|]; try lia. pose proof (digits_le p 53 ltac:(lia) ltac:(lia)) as Hd. pose proof (digits2_pos_spec p) as Hp.
  set (k := 53 - Z.pos (digits2_pos p)). exists k.
  assert (∃ m, shl_align p 0 (fexp F.prec F.emax (Z.pos (digits2_pos p) + 0)) = (m, - k) ∧ Z.pos m = Z.pos p * 2 ^ k) as (m & Hm & Em).
  { assert (fexp F.prec F.emax (Z.pos (digits2_pos p) + 0) = - k) as -> by (unfold fexp, emin, F.prec, F.emax; lia).
    unfold shl_align. rewrite Z.sub_0_r. destruct k as [|d|d] eqn:Ek; [exists p; split; [done|lia]| |lia].
    eexists. split; [done|]. clear. induction d using Pos.peano_ind; [cbn; lia|]. rewrite Pos.iter_succ, Pos2Z.inj_succ, Z.pow_succ_r by lia.
    rewrite Pos2Z.inj_xO, IHd. lia. }
  assert (2 ^ 52 <= Z.pos m < 2 ^ 53) as Hb.
  { rewrite Em. assert (2 ^ 52 = 2 ^ (Z.pos (digits2_pos p) - 1) * 2 ^ k) as -> by (rewrite <- Z.pow_add_r by lia; f_equal; lia).
    assert (2 ^ 53 = 2 ^ Z.pos (digits2_pos p) * 2 ^ k) as -> by (rewrite <- Z.pow_add_r by lia; f_equal; lia). nia. }
  exists m. split; [lia|]. split; [|done]. unfold F.of_Z, binary_normalize, binary_round. rewrite Hm.
  assert (Z.pos (digits2_pos m) = 53) as Hdm by (apply digits_unique; [lia|exact Hb]).
  assert (fexp F.prec F.emax (Z.pos (digits2_pos m) + - k) - - k = 0) as Hs by (rewrite Hdm; unfold fexp, emin, F.prec, F.emax; lia).
  unfold binary_round_aux, shr_fexp. cbn [Zdigits2]. rewrite Hs. cbn [shr shr_record_of_loc shr_m loc_of_shr_record round_nearest_even Zdigits2].
  rewrite Hs. cbn [shr shr_m]. destruct (Z.leb_spec (- k) (F.emax - F.prec)) as [_|H]; [done|]. unfold F.emax, F.prec in H. lia.
Qed.


(** [int(math.Floor(x))] of a positive float, at a scale of its own. *)
Lemma floor_int_scaled m' e' e : e <= 0 → e <= e' → Z.pos m' * 2 ^ (e' - e) < 2 ^ (63 - e) →
  F.floor_int (S754_finite false m' e') = Z.pos m' * 2 ^ (e' - e) / 2 ^ (- e).
Proof.
  intros He Hee Hlt. cbn [F.floor_int]. set (z := if 0 <=? e' then _ else _).
  assert (z = Z.pos m' * 2 ^ (e' - e) / 2 ^ (- e)) as Ez.
  { subst z. destruct (Z.leb_spec 0 e') as [H|H].
    - replace (e' - e) with (e' + - e) by lia. rewrite Z.pow_add_r, Z.mul_assoc, Z.div_mul by lia. done.
    - replace (2 ^ (- e)) with (2 ^ (e' - e) * 2 ^ (- e')) by (rewrite <- Z.pow_add_r by lia; f_equal; lia).
      by rewrite (Z.mul_comm (Z.pos m')), Z.div_mul_cancel_l by lia. }
  rewrite <- Ez. assert (0 <= z < 2 ^ 63) as Hz.
  { rewrite Ez. split; [apply Z.div_pos; lia|]. apply Z.div_lt_upper_bound; [lia|]. rewrite <- Z.pow_add_r by lia.
    by replace (- e + 63) with (63 - e) by lia. }
  unfold minInt64, maxInt64. destruct (Z.leb_spec (- 2 ^ 63) z), (Z.leb_spec z (2 ^ 63 - 1)); cbn [andb]; lia.
Qed.

(** ** Ninety-nine hundredths *)

(** The constant 0.99. *)
Definition c99 : float64 := F.div (F.of_Z 99) (F.of_Z 100).

Lemma c99_bits : c99 = S754_finite false 8917127262193582 (-53).
Proof. vm_compute. reflexivity. Qed.

(** The rounded product with 0.99 rounds down to the exact integer. *)
Lemma floor_99 n : 0 < n < 2 ^ 40 → F.floor_int (F.mul c99 (F.of_Z n)) = 99 * n / 100.
Proof.
  intros Hn. rewrite c99_bits. destruct (of_Z_exact n ltac:(lia)) as (k & mn & Hk & -> & Emn & Hmn). unfold F.mul, SFmul. cbn [xorb].
  assert (12 < k) as Hk12.
  { destruct (Z.le_gt_cases k 12) as [H|]; [|lia]. assert (2 ^ k <= 2 ^ 12) by (apply Z.pow_le_mono_r; lia). nia. }
  assert (k <= 52) as Hk52.
  { destruct (Z.le_gt_cases k 52) as [|H]; [done|]. assert (2 ^ 53 <= 2 ^ k) by (apply Z.pow_le_mono_r; lia). nia. }
  set (c := 8917127262193582%positive). set (p := Z.pos (c * mn)). assert (p = Z.pos c * Z.pos mn) as Ep by (subst p; lia).
  pose proof (digits2_pos_spec (c * mn)) as Hdp. fold p in Hdp. set (d := Z.pos (digits2_pos (c * mn))) in *.
  assert (d = 105 ∨ d = 106) as Hd.
  { assert (104 < d) as H1.
    { destruct (Z.le_gt_cases d 104) as [H|]; [|lia]. assert (2 ^ d <= 2 ^ 104) by (apply Z.pow_le_mono_r; lia).
      change (Z.pos c) with 8917127262193582 in Ep. lia. }
    assert (d - 1 < 106) as H2.
    { destruct (Z.le_gt_cases 106 (d - 1)) as [H|]; [|lia]. assert (2 ^ 106 <= 2 ^ (d - 1)) by (apply Z.pow_le_mono_r; lia).
      change (Z.pos c) with 8917127262193582 in Ep. lia. }
    lia. }
  destruct (round_mid p (-53 + - k) loc_Exact) as (m' & e' & x & -> & Hm' & He' & Ex & Hx);
    [change (Z.pos c) with 8917127262193582 in Ep; lia|lia|change (Zdigits2 p) with d; lia|].
  change (Zdigits2 p) with d in *. cbn [quarters] in Hx.
  rewrite (floor_int_scaled m' e' (-53 + - k)) by
    (try lia; rewrite Ex; replace (63 - (-53 + - k)) with (63 + (53 + k)) by lia; rewrite Z.pow_add_r by lia;
     assert (2 ^ (53 + k) = 2 ^ 53 * 2 ^ k) as -> by (rewrite Z.pow_add_r by lia; done);
     assert (2 ^ (d - 53) <= 2 ^ 53) by (apply Z.pow_le_mono_r; lia); change (Z.pos c) with 8917127262193582 in Ep; lia).
  rewrite Ex. replace (- (-53 + - k)) with ((53 + k - (d - 53)) + (d - 53)) by lia. rewrite Z.pow_add_r by lia.
  rewrite (Z.mul_comm x), (Z.mul_comm (2 ^ (53 + k - (d - 53)))), Z.div_mul_cancel_l by lia.
  set (W := 2 ^ (53 + k - (d - 53))). set (U := 2 ^ (d - 53)) in *. set (N := 99 * n / 100).
  assert (W * U = 2 ^ 53 * 2 ^ k) as HWU by (unfold W, U; rewrite <- !Z.pow_add_r by lia; f_equal; lia).
  assert (2 ^ 12 <= W) as HW by (apply Z.pow_le_mono_r; lia). assert (2 ^ 52 <= U) as HU by (apply Z.pow_le_mono_r; lia).
  pose proof (Z.div_mod (99 * n) 100 ltac:(lia)) as HN. fold N in HN. pose proof (Z.mod_pos_bound (99 * n) 100 ltac:(lia)) as Hr.
  set (r := (99 * n) mod 100) in *.
  assert (100 * p = W * U * (100 * N + r) - 8 * Z.pos mn) as H100.
  { rewrite Ep, <- HN, HWU, Emn. change (Z.pos c) with 8917127262193582. ring. }
  symmetry. apply (Z.div_unique _ _ _ (x - W * N)); [|lia]. left.
  assert (0 <= x - W * N) as Hlo.
  { assert (100 * (W * N - x) < 100); [|lia]. assert (100 * (W * N - x) * U < 100 * U) as H; [|nia].
    replace (100 * (W * N - x) * U) with (100 * N * (W * U) - 100 * (x * U)) by ring. nia. }
  split; [done|]. assert (100 * (x - W * N) < 100 * W); [|lia]. assert (100 * (x - W * N) * U < 100 * W * U) as H; [|nia].
  replace (100 * (x - W * N) * U) with (100 * (x * U) - 100 * N * (W * U)) by ring.
  assert (100 * (x * U) <= 100 * p + 50 * U) by lia. assert (r * (W * U) <= 99 * (W * U)) by nia. nia.
Qed.

(** ** Chains of operations

    Each operation on positive floats raises the exact result by one part in
    [2 ^ 52] at most.  Values are compared in fixed point, with 300 fractional
    bits. *)

Definition fx (x : float64) : Z := match x with S754_finite false m e => Z.pos m * 2 ^ (e + 300) | _ => 0 end.

(** A positive float of 53 digits with its exponent from [lo] to [hi]. *)
Definition normal (lo hi : Z) (x : float64) : Prop :=
  ∃ m e, x = S754_finite false m e ∧ 2 ^ 52 <= Z.pos m < 2 ^ 53 ∧ lo <= e <= hi.

Lemma normal_weaken l h l' h' x : l' <= l → h <= h' → normal l h x → normal l' h' x.
Proof. intros Hl Hh (m & e & -> & Hm & He). exists m, e. repeat split; try done; lia. Qed.

Lemma normal_of_Z n : 0 < n < 2 ^ 53 → normal (-52) 0 (F.of_Z n) ∧ fx (F.of_Z n) = n * 2 ^ 300.
Proof.
  intros Hn. destruct (of_Z_exact n Hn) as (k & m & Hk & -> & Em & Hm).
  assert (k <= 52).
  { destruct (Z.le_gt_cases k 52) as [|H]; [done|]. assert (2 ^ 53 <= 2 ^ k) by (apply Z.pow_le_mono_r; lia). nia. }
  split; [exists m, (- k); repeat split; try done; lia|]. cbn [fx]. rewrite Em, <- Z.mul_assoc, <- Z.pow_add_r by lia. f_equal. f_equal. lia.
Qed.

(** Rounding up to one part in [2 ^ 52]. *)
Lemma round_normal m e l : 2 ^ 52 <= m < 2 ^ 120 → -300 <= e <= 300 →
  let x := binary_round_aux F.prec F.emax false m e l in
  normal e (e + 68) x ∧ fx x * 2 ^ 52 <= m * 2 ^ (e + 300) * (2 ^ 52 + 1).
Proof.
  intros Hm He. cbv zeta. pose proof (proj1 Hm) as Hm0. destruct m as [|p|p]; [lia| |lia].
  pose proof (digits2_pos_spec p) as Hp. pose proof (digits_le p 120 ltac:(lia) (proj2 Hm)) as Hd.
  destruct (round_mid (Z.pos p) e l) as (m' & e' & x & -> & Hm' & He' & Ex & Hx); [lia|lia|cbn [Zdigits2]; lia|]. cbn [Zdigits2] in *.
  set (d := Z.pos (digits2_pos p)) in *.
  assert (52 < d) as Hd52.
  { destruct (Z.le_gt_cases d 52) as [H|]; [|lia]. assert (2 ^ d <= 2 ^ 52) by (apply Z.pow_le_mono_r; lia). lia. }
  split; [exists m', e'; repeat split; try done; lia|]. cbn [fx].
  replace (e' + 300) with (e' - e + (e + 300)) by lia. rewrite Z.pow_add_r, Z.mul_assoc, Ex by lia.
  assert (2 ^ (d - 53) * 2 ^ 52 <= Z.pos p) as Hu by (rewrite <- Z.pow_add_r by lia; replace (d - 53 + 52) with (d - 1) by lia; lia).
  assert (0 <= quarters l <= 3) as Hq by (destruct l as [|[]]; cbn; lia).
  assert (x * 2 ^ (d - 53) <= Z.pos p + 2 ^ (d - 53)) as Hxu.
  { destruct (Z.eq_dec (d - 53) 0) as [E|E]; [rewrite E in *; lia|].
    assert (2 <= 2 ^ (d - 53)) by (change 2 with (2 ^ 1) at 1; apply Z.pow_le_mono_r; lia). lia. }
  assert (0 < 2 ^ (e + 300)) by lia. assert (x * 2 ^ (d - 53) * 2 ^ 52 <= Z.pos p * (2 ^ 52 + 1)) as H2 by lia.
  rewrite (Z.mul_comm _ (2 ^ (e + 300))), <- Z.mul_assoc. rewrite (Z.mul_comm (Z.pos p)), <- (Z.mul_assoc (2 ^ (e + 300))).
  by apply Z.mul_le_mono_nonneg_l; [lia|].
Qed.

Lemma mul_normal l1 h1 l2 h2 x y : normal l1 h1 x → normal l2 h2 y → -300 <= l1 + l2 → h1 + h2 <= 300 → -300 <= l1 → -300 <= l2 →
  normal (l1 + l2) (h1 + h2 + 68) (F.mul x y) ∧ fx (F.mul x y) * 2 ^ 352 <= fx x * fx y * (2 ^ 52 + 1).
Proof.
  intros (m1 & e1 & -> & H1 & He1) (m2 & e2 & -> & H2 & He2) Hl Hh Hl1 Hl2. unfold F.mul, SFmul. cbn [xorb].
  destruct (round_normal (Z.pos (m1 * m2)) (e1 + e2) loc_Exact) as [Hn Hf]; [nia|lia|]. split; [revert Hn; apply normal_weaken; lia|].
  cbv zeta in Hf. set (z := fx (binary_round_aux _ _ _ _ _ _)) in *. cbn [fx].
  replace (2 ^ 352) with (2 ^ 52 * 2 ^ 300) by (rewrite <- Z.pow_add_r; lia).
  replace (Z.pos m1 * 2 ^ (e1 + 300) * (Z.pos m2 * 2 ^ (e2 + 300)) * (2 ^ 52 + 1))
    with (Z.pos (m1 * m2) * 2 ^ (e1 + e2 + 300) * (2 ^ 52 + 1) * 2 ^ 300); [nia|].
  rewrite Pos2Z.inj_mul. assert (2 ^ (e1 + e2 + 300) * 2 ^ 300 = 2 ^ (e1 + 300) * 2 ^ (e2 + 300)) as E
    by (rewrite <- !Z.pow_add_r by lia; f_equal; lia).
  transitivity (Z.pos m1 * Z.pos m2 * (2 ^ (e1 + e2 + 300) * 2 ^ 300) * (2 ^ 52 + 1)); [ring|]. rewrite E. ring.
Qed.

Lemma div_normal l1 h1 l2 h2 x y : normal l1 h1 x → normal l2 h2 y → -240 <= l1 - h2 → h1 - l2 <= 240 → -300 <= l1 → -300 <= l2 →
  normal (l1 - h2 - 53) (h1 - l2 + 15) (F.div x y) ∧ fx (F.div x y) * fx y * 2 ^ 52 <= fx x * 2 ^ 300 * (2 ^ 52 + 1).
Proof.
  intros (m1 & e1 & -> & H1 & He1) (m2 & e2 & -> & H2 & He2) Hl Hh Hl1 Hl2. unfold F.div, SFdiv, SFdiv_core_binary. cbn [xorb Zdigits2].
  rewrite (digits_unique m1 53), (digits_unique m2 53) by (try done; lia).
  replace (Z.min _ _) with (e1 - e2 - 53) by (unfold fexp, emin, F.prec, F.emax; lia).
  replace (e1 - e2 - (e1 - e2 - 53)) with 53 by lia. rewrite Z.shiftl_mul_pow2 by lia.
  pose proof (Z_div_mod (Z.pos m1 * 2 ^ 53) (Z.pos m2) ltac:(lia)) as Hq. destruct (Z.div_eucl _ _) as [q r]. destruct Hq as [Eq Hr].
  assert (2 ^ 52 <= q < 2 ^ 60) as Hq by nia.
  destruct (round_normal q (e1 - e2 - 53) (new_location (Z.pos m2) r)) as [Hn Hf]; [lia|lia|].
  cbv zeta in Hn, Hf. split; [revert Hn; apply normal_weaken; lia|].
  set (z := fx (binary_round_aux _ _ _ _ _ _)) in *. cbn [fx].
  assert (2 ^ (e1 - e2 - 53 + 300) * 2 ^ (e2 + 300) * 2 ^ 53 = 2 ^ (e1 + 300) * 2 ^ 300) as E by (rewrite <- !Z.pow_add_r by lia; f_equal; lia).
  set (X := 2 ^ (e1 - e2 - 53 + 300)) in *. assert (0 < 2 ^ (e2 + 300)) as HY by lia. set (Y := 2 ^ (e2 + 300)) in *.
  replace (z * (Z.pos m2 * Y) * 2 ^ 52) with (z * 2 ^ 52 * (Z.pos m2 * Y)) by ring.
  replace (Z.pos m1 * 2 ^ (e1 + 300) * 2 ^ 300 * (2 ^ 52 + 1)) with (Z.pos m1 * 2 ^ 53 * (X * Y) * (2 ^ 52 + 1)).
  2:{ transitivity (Z.pos m1 * (X * Y * 2 ^ 53) * (2 ^ 52 + 1)); [ring|]. rewrite E. ring. }
  transitivity (q * X * (2 ^ 52 + 1) * (Z.pos m2 * Y)); [apply Z.mul_le_mono_nonneg_r; [nia|exact Hf]|].
  replace (q * X * (2 ^ 52 + 1) * (Z.pos m2 * Y)) with (q * Z.pos m2 * (X * Y) * (2 ^ 52 + 1)) by ring.
  apply Z.mul_le_mono_nonneg_r; [lia|]. apply Z.mul_le_mono_nonneg_r; [subst X Y; nia|]. nia.
Qed.

(** [float64(k) - 0.5]. *)
Lemma sub_half_normal k : 0 < k < 2 ^ 50 →
  normal (-53) 15 (F.sub (F.of_Z k) F.half) ∧ fx (F.sub (F.of_Z k) F.half) * 2 ^ 53 <= (2 * k - 1) * 2 ^ 300 * (2 ^ 52 + 1).
Proof.
  intros Hk. destruct (of_Z_exact k ltac:(lia)) as (j & m & Hj & -> & Em & Hm).
  assert (j <= 52) as Hj52.
  { destruct (Z.le_gt_cases j 52) as [|H]; [done|]. assert (2 ^ 53 <= 2 ^ j) by (apply Z.pow_le_mono_r; lia). nia. }
  change F.half with (S754_finite false (2 ^ 52)%positive (-53)). unfold F.sub, SFsub. replace (Z.min (- j) (-53)) with (-53) by lia.
  assert (∀ d, Z.pos (Pos.iter xO m d) = Z.pos m * 2 ^ Z.pos d) as Hiter.
  { intros d. clear. induction d using Pos.peano_ind; [cbn; lia|]. rewrite Pos.iter_succ, Pos2Z.inj_succ, Z.pow_succ_r by lia. rewrite Pos2Z.inj_xO, IHd. lia. }
  assert (Z.pos (fst (shl_align m (- j) (-53))) = k * 2 ^ 53) as Ea.
  { unfold shl_align. destruct (-53 - - j) as [|d|d] eqn:Ed; [lia|lia|]. cbn [fst]. rewrite Hiter, Em.
    rewrite <- Z.mul_assoc, <- Z.pow_add_r by lia. f_equal. f_equal. lia. }
  assert (fst (shl_align (2 ^ 52) (-53) (-53)) = (2 ^ 52)%positive) as -> by done. cbn [cond_Zopp]. rewrite Ea.
  replace (k * 2 ^ 53 - Z.pos (2 ^ 52)) with ((2 * k - 1) * 2 ^ 52) by (change (Z.pos (2 ^ 52)) with (2 ^ 52); lia).
  destruct ((2 * k - 1) * 2 ^ 52) as [|p|p] eqn:Ep; [lia| |lia]. unfold binary_normalize, binary_round.
  pose proof (digits2_pos_spec p) as Hp.
  assert (52 < Z.pos (digits2_pos p)) as Hd.
  { destruct (Z.le_gt_cases (Z.pos (digits2_pos p)) 52) as [H|]; [|lia]. assert (2 ^ Z.pos (digits2_pos p) <= 2 ^ 52) by (apply Z.pow_le_mono_r; lia). lia. }
  pose proof (fexp_mid (Z.pos (digits2_pos p)) (-53) ltac:(lia) ltac:(lia)) as Hf.
  unfold shl_align. destruct (fexp F.prec F.emax (Z.pos (digits2_pos p) + -53) - -53) as [|d|d] eqn:Ed; [| |lia].
  all: destruct (round_normal (Z.pos p) (-53) loc_Exact) as [Hn Hfx]; [rewrite <- Ep; lia|lia|]; cbv zeta in Hn, Hfx; split; [exact Hn|].
  all: set (z := fx (binary_round_aux _ _ _ _ _ _)) in *; rewrite <- Ep in Hfx; change (2 ^ (-53 + 300)) with (2 ^ 247) in Hfx.
  all: replace ((2 * k - 1) * 2 ^ 300 * (2 ^ 52 + 1)) with ((2 * k - 1) * 2 ^ 52 * 2 ^ 247 * (2 ^ 52 + 1) * 2) by (replace (2 ^ 300) with (2 ^ 52 * 2 ^ 247 * 2) by done; ring).
  all: clearbody z; change (2 ^ 53) with (2 ^ 52 * 2); lia.
Qed.

(** Truncation of a positive float. *)
Lemma to_int64_normal l h x n : normal l h x → -300 <= l → 0 < n < 2 ^ 62 → fx x < n * 2 ^ 300 → 0 <= F.to_int64 x < n.
Proof.
  intros (m & e & -> & Hm & He) Hl Hn Hf. cbn [fx] in Hf. unfold F.to_int64. cbn [F.trunc]. set (z := if 0 <=? e then _ else _).
  assert (0 <= z < n) as Hz.
  { subst z. destruct (Z.leb_spec 0 e) as [H|H].
    - rewrite Z.pow_add_r in Hf by lia. split; [lia|]. nia.
    - split; [apply Z.div_pos; lia|]. apply Z.div_lt_upper_bound; [lia|].
      assert (2 ^ 300 = 2 ^ (- e) * 2 ^ (e + 300)) as E by (rewrite <- Z.pow_add_r by lia; f_equal; lia). rewrite E in Hf.
      assert (0 < 2 ^ (e + 300)) by lia. nia. }
  unfold minInt64, maxInt64. destruct (Z.leb_spec (- 2 ^ 63) z), (Z.leb_spec z (2 ^ 63 - 1)); cbn [andb]; lia.
Qed.

(** The [(k - 1/2) / c] part of a width [w], truncated, lies below [w]. *)
Lemma interpolate_bounds w k c : 0 < w < 2 ^ 40 → 0 < k <= c → c < 2 ^ 40 →
  0 <= F.to_int64 (F.div (F.mul (F.of_Z w) (F.sub (F.of_Z k) F.half)) (F.of_Z c)) < w.
Proof.
  intros Hw Hk Hc. destruct (normal_of_Z w ltac:(lia)) as [Hw1 Hw2]. destruct (normal_of_Z c ltac:(lia)) as [Hc1 Hc2].
  destruct (sub_half_normal k ltac:(lia)) as [Hk1 Hk2]. destruct (mul_normal _ _ _ _ _ _ Hw1 Hk1 ltac:(lia) ltac:(lia) ltac:(lia) ltac:(lia)) as [Hm1 Hm2].
  destruct (div_normal _ _ _ _ _ _ Hm1 Hc1 ltac:(lia) ltac:(lia) ltac:(lia) ltac:(lia)) as [Hd1 Hd2].
  apply (to_int64_normal _ _ _ w Hd1); [lia|lia|]. rewrite Hw2 in Hm2. rewrite Hc2 in Hd2.
  set (D := fx (F.div _ _)) in *. set (M := fx (F.mul _ _)) in *. set (B := fx (F.sub _ _)) in *. clearbody D M B.
  assert (M * 2 ^ 105 <= w * (2 * k - 1) * 2 ^ 300 * (2 ^ 52 + 1) * (2 ^ 52 + 1)) as HM.
  { assert (M * 2 ^ 352 * 2 ^ 53 <= w * 2 ^ 300 * (B * 2 ^ 53) * (2 ^ 52 + 1)) as H1 by nia.
    assert (w * 2 ^ 300 * (B * 2 ^ 53) * (2 ^ 52 + 1) <= w * 2 ^ 300 * ((2 * k - 1) * 2 ^ 300 * (2 ^ 52 + 1)) * (2 ^ 52 + 1)) as H2 by nia.
    apply (Z.mul_le_mono_pos_r _ _ (2 ^ 300)); [lia|]. assert (2 ^ 105 * 2 ^ 300 = 2 ^ 352 * 2 ^ 53) as E by done. nia. }
  assert (D * c * 2 ^ 157 <= w * (2 * k - 1) * 2 ^ 300 * ((2 ^ 52 + 1) * (2 ^ 52 + 1) * (2 ^ 52 + 1))) as HD.
  { apply (Z.mul_le_mono_pos_r _ _ (2 ^ 300)); [lia|].
    assert (D * (c * 2 ^ 300) * 2 ^ 52 * 2 ^ 105 <= M * 2 ^ 105 * 2 ^ 300 * (2 ^ 52 + 1)) as H1 by nia.
    assert (M * 2 ^ 105 * 2 ^ 300 * (2 ^ 52 + 1) <= w * (2 * k - 1) * 2 ^ 300 * (2 ^ 52 + 1) * (2 ^ 52 + 1) * 2 ^ 300 * (2 ^ 52 + 1)) as H2 by nia.
    assert (2 ^ 52 * 2 ^ 105 = 2 ^ 157) as E by done. nia. }
  assert ((2 * k - 1) * ((2 ^ 52 + 1) * (2 ^ 52 + 1) * (2 ^ 52 + 1)) < c * 2 ^ 157) as Hk3.
  { assert ((2 ^ 52 + 1) * (2 ^ 52 + 1) * (2 ^ 52 + 1) <= 2 ^ 156 + 2 ^ 106) as E by done.
    assert (2 ^ 157 = 2 * 2 ^ 156) as E2 by done. assert (2 * 2 ^ 40 * 2 ^ 106 < 2 ^ 156) as E3 by done. nia. }
  assert (0 < w * 2 ^ 300) as Hpos by lia.
  assert (w * 2 ^ 300 * ((2 * k - 1) * ((2 ^ 52 + 1) * (2 ^ 52 + 1) * (2 ^ 52 + 1))) < w * 2 ^ 300 * (c * 2 ^ 157)) as Hlt
    by (apply Z.mul_lt_mono_pos_l; [exact Hpos|exact Hk3]).
  apply (Z.mul_lt_mono_pos_r (c * 2 ^ 157)); [lia|]. lia.
Qed.
