(* ===== verification/Kms.v ===== *)
(** * internal/kms: error codes, the text frame, faults and ground truth

    [kms.go], [fault.go] and [truth.go], and Go's error values as the program
    builds and inspects them (sentinels, [*kms.Error], [fmt.Errorf] with [%w]
    and errors known only by their text). *)

From S2P Require Import Prelude GoLib GoFloat.
From Stdlib Require Strings.String Strings.Ascii.
Local Open Scope Z_scope.
Local Open Scope string_scope.

(** ** Provider-neutral error codes *)

Inductive Code :=
| Timeout
| Unavailable
| AccessDenied
| KeyDisabled
| CodeOther (n : Z). (* any other uint8, the zero value included *)

#[export] Instance Code_eq_dec : EqDecision Code.
Proof. solve_decision. Defined.

Definition Code_String (c : Code) : string :=
  match c with
  | Timeout => "Timeout"
  | Unavailable => "Unavailable"
  | AccessDenied => "AccessDenied"
  | KeyDisabled => "KeyDisabled"
  | CodeOther _ => "Unknown"
  end.

(** [kms.Error], every failure a KMS returns. *)
Record Error := mkError { e_Code : Code; e_Provider : string; e_Msg : string }.

#[export] Instance Error_eq_dec : EqDecision Error.
Proof. solve_decision. Defined.

Definition Error_Error (e : Error) : string :=
  "kms " +:+ e_Provider e +:+ ": " +:+ Code_String (e_Code e) +:+ ": " +:+ e_Msg e.

(** ** Go error values *)

Inductive err :=
| Sentinel (name text : string)               (* a package variable made by errors.New *)
| KmsError (e : Error)                         (* a *kms.Error *)
| Errorf (pre : string) (inner : err) (post : string) (* fmt.Errorf("pre%wpost", inner) *)
| ErrText (s : string).                        (* an error the program knows by its text only *)

#[export] Instance err_eq_dec : EqDecision err.
Proof. solve_decision. Defined.

(** [err.Error()]. *)
Fixpoint err_text (e : err) : string :=
  match e with
  | Sentinel _ t => t
  | KmsError e => Error_Error e
  | Errorf pre i post => pre +:+ err_text i +:+ post
  | ErrText s => s
  end.

Module errors.
(** [errors.Is(e, target)] for a sentinel target (compared by identity). *)
Fixpoint Is (e target : err) : bool :=
  match e with
  | Errorf _ i _ => Is i target
  | Sentinel n _ => match target with Sentinel m _ => bool_decide (n = m) | _ => false end
  | _ => false
  end.

(** [errors.As(e, *kms.Error)]. *)
Fixpoint AsKms (e : err) : option Error :=
  match e with
  | KmsError k => Some k
  | Errorf _ i _ => AsKms i
  | _ => None
  end.
End errors.

Definition DeadlineExceeded : err := Sentinel "context.DeadlineExceeded" "context deadline exceeded".
Definition Canceled : err := Sentinel "context.Canceled" "context canceled".

(** ** The text frame "kms <provider>: <Code>: " *)

Definition codes : list Code := [Timeout; Unavailable; AccessDenied; KeyDisabled].

(** The inner loop of [frame]: the first code whose name and ": " start [rest]. *)
Fixpoint match_code (cs : list Code) (rest : string) : option Code :=
  match cs with
  | [] => None
  | c :: cs' =>
      if strings.HasPrefix rest (Code_String c +:+ ": ") then Some c else match_code cs' rest
  end.

(** One round of [frame]'s outer loop at [rem = s[off:]]; [fuel] bounds the
    rounds, each of which consumes at least four bytes. *)
Fixpoint frame_loop (fuel off : nat) (rem : string) : option (nat * Code) :=
  match fuel with
  | O => None
  | S fuel' =>
      if bool_decide (rem = "") then None
      else
        match strings.Index rem "kms " with
        | None => None
        | Some j =>
            let at_ := (off + j)%nat in
            let rest := strings.drop (j + 4) rem in
            match match strings.Index rest ": " with
                  | Some k => match_code codes (strings.drop (k + 2) rest)
                  | None => None
                  end with
            | Some c => Some (at_, c)
            | None => frame_loop fuel' (at_ + 4) rest
            end
        end
  end.

Definition frame (s : string) : option (nat * Code) := frame_loop (S (String.length s)) 0 s.

(** [CodeFromText(err)]; [None] on the nil error or when ok is false. *)
Definition CodeFromText (e : option err) : option Code :=
  match e with
  | None => None
  | Some e =>
      let s := err_text e in
      match frame s with
      | Some (_, c) => Some c
      | None =>
          if strings.Contains s (err_text DeadlineExceeded) then Some Timeout else None
      end
  end.

(** [Cause(err)]. *)
Definition Cause (e : option err) : string :=
  match e with
  | None => ""
  | Some e =>
      let s := err_text e in
      match frame s with
      | Some (i, _) => strings.drop i s
      | None =>
          match strings.Index s (err_text DeadlineExceeded) with
          | Some i => strings.drop i s
          | None => s
          end
      end
  end.

(** ** Ground truth (truth.go) *)

Record KeyEvent := mkKeyEvent { ev_KEKID : string; ev_Idx : Z; ev_At : Time; ev_Enabled : bool }.

#[export] Instance KeyEvent_eq_dec : EqDecision KeyEvent.
Proof. solve_decision. Defined.

(** [Truth] is the event log; [append] adds at the end, [KeyEvents] copies it. *)
Abbreviation Truth := (list KeyEvent) (only parsing).
Definition Truth_append (t : Truth) (e : KeyEvent) : Truth := (t ++ [e])%list.
Definition KeyEvents (t : Truth) : list KeyEvent := t.

(** ** Faults (fault.go) *)

Inductive Mode := ModeOK | ModeFastFail.

#[export] Instance Mode_eq_dec : EqDecision Mode.
Proof. solve_decision. Defined.

Record Fault := mkFault { f_Mode : Mode; f_P50 : Duration; f_P99 : Duration; f_ErrorRate : float64 }.
Definition zeroFault : Fault := mkFault ModeOK 0 0 (S754_zero false).

(** [f == Fault{}], field by field; a negative zero rate equals zero. *)
Definition Fault_IsZero (f : Fault) : bool :=
  bool_decide (f_Mode f = ModeOK) && (f_P50 f =? 0)%Z && (f_P99 f =? 0)%Z
  && SFeqb (f_ErrorRate f) (S754_zero false).

Record Scope := mkScope { s_Provider : string; s_KEKID : string }.

Definition positive_rate (x : float64) : bool := F.gt x (S754_zero false).

(** [resolve(prov, kek)]: the KEK fault over the provider's, field by field. *)
Definition resolve (prov kek : Fault) : Fault :=
  mkFault
    (if bool_decide (f_Mode kek = ModeOK) then f_Mode prov else f_Mode kek)
    (if (0 <? f_P50 kek)%Z then f_P50 kek else f_P50 prov)
    (if (0 <? f_P99 kek)%Z then f_P99 kek else f_P99 prov)
    (if positive_rate (f_ErrorRate kek) then f_ErrorRate kek else f_ErrorRate prov).

(** ** Facts about the string search *)

Lemma prefix_app_long (sub s t : string) :
  (String.length sub <= String.length s)%nat →
  String.prefix sub (s +:+ t) = String.prefix sub s.
Proof.
  revert sub. induction s as [|x s IH]; intros [|y sub] H; rewrite ?string_app_cons;
    try (by destruct t); try (simpl in H; lia); try reflexivity.
  - simpl in *. destruct (Ascii.ascii_dec y x); [|done]. apply IH. lia.
Qed.

(** A search that first succeeds at the end of [pre] in [pre ++ sub] first
    succeeds there whatever follows. *)
Lemma Index_first (sub pre t : string) :
  strings.Index (pre +:+ sub) sub = Some (String.length pre) →
  strings.Index (pre +:+ sub +:+ t) sub = Some (String.length pre).
Proof.
  unfold strings.Index. induction pre as [|x pre IH].
  - rewrite !string_app_nil_l. intros _. simpl.
    pose proof (prefix_app sub t) as Hp.
    destruct (sub +:+ t) as [|y u] eqn:E; simpl in *.
    + by destruct sub.
    + by rewrite Hp.
  - rewrite !string_app_cons. cbn [String.index String.length].
    destruct (String.prefix sub (String.String x (pre +:+ sub))) eqn:Hp; [done|].
    replace (String.String x (pre +:+ sub +:+ t)) with (String.String x (pre +:+ sub) +:+ t)
      by (by rewrite string_app_cons, string_app_assoc).
    rewrite prefix_app_long, Hp by (simpl; rewrite string_length_app; lia).
    destruct (String.index 0 sub (pre +:+ sub)) as [n|] eqn:E; [|done].
    intros [= ->]. rewrite IH; done.
Qed.

Lemma drop_app_plus (p q s : string) :
  strings.drop (String.length p + String.length q) (p +:+ q +:+ s) = s.
Proof. rewrite <- string_app_assoc, <- string_length_app. apply drop_append. Qed.

(** A code name the frame recognises. *)
Definition known (c : Code) : Prop := c ∈ codes.

Lemma match_code_known c msg :
  known c → match_code codes (Code_String c +:+ ": " +:+ msg) = Some c.
Proof.
  unfold known, codes. rewrite !elem_of_cons, elem_of_nil.
  intros [->|[->|[->|[->|[]]]]]; destruct msg; reflexivity.
Qed.

(** [pre] is a text in front of an adapter error that holds no frame opening
    of its own, and a provider name that holds no ": ". *)
Definition clean_prefix (pre : string) : Prop :=
  strings.Index (pre +:+ "kms ") "kms " = Some (String.length pre).
Definition clean_provider (p : string) : Prop :=
  strings.Index (p +:+ ": ") ": " = Some (String.length p).

Lemma frame_found (pre p msg : string) (c : Code) :
  clean_prefix pre → clean_provider p → known c →
  frame (pre +:+ Error_Error (mkError c p msg)) = Some (String.length pre, c).
Proof.
  intros Hpre Hp Hc. unfold frame, Error_Error. cbn [e_Code e_Provider e_Msg].
  set (tail := p +:+ ": " +:+ Code_String c +:+ ": " +:+ msg).
  cbn [frame_loop]. case_bool_decide as Hempty.
  { apply (f_equal String.length) in Hempty. rewrite !string_length_app in Hempty.
    simpl in Hempty. lia. }
  rewrite (Index_first _ _ tail Hpre).
  change 4%nat with (String.length "kms "). rewrite drop_app_plus. unfold tail.
  rewrite (Index_first _ _ _ Hp).
  change 2%nat with (String.length ": "). rewrite drop_app_plus.
  by rewrite match_code_known.
Qed.

(** More fuel than bytes never changes the answer. *)
Lemma frame_loop_fuel (n m off : nat) (rem : string) :
  (String.length rem < n)%nat → (n <= m)%nat →
  frame_loop n off rem = frame_loop m off rem.
Proof.
  revert m off rem. induction n as [|n IH]; intros m off rem Hn Hm; [lia|].
  destruct m as [|m]; [lia|]. cbn [frame_loop].
  case_bool_decide as Hrem; [done|].
  destruct (strings.Index rem "kms ") as [j|]; [|done].
  case_match; [done|]. apply IH; [|lia].
  assert (∀ k s, String.length (strings.drop k s) = String.length s - k)%nat as Hlen.
  { induction k as [|k IHk]; intros [|x s]; simpl; [lia..|]. apply IHk. }
  rewrite Hlen. destruct rem as [|x rem]; [done|]. simpl in *. lia.
Qed.
