(* ===== verification/Tink.v ===== *)
(** * Tink, as the program relies on it

    github.com/tink-crypto/tink-go is not under src/: its operations are the
    fields of a class every client takes as a parameter, and the documented
    behaviour the proofs use is a second class of laws.  A small concrete
    instance at the end shows the laws can hold. *)

From S2P Require Import Prelude GoLib Kms.
Local Open Scope Z_scope.
Local Open Scope string_scope.

(** The operations.  Randomness (IVs, key material) is an argument; an error
    is known by its text. *)
Class Tink := {
  (** [tink.AEAD], one authenticated-encryption primitive *)
  AEAD : Type;
  Encrypt : AEAD → bytes → bytes → bytes → string + bytes;   (* IV, plaintext, AAD *)
  Decrypt : AEAD → bytes → bytes → string + bytes;           (* ciphertext, AAD *)
  (** [keyset.Handle] and its binary form *)
  Keyset : Type;
  NewHandle : bytes → string + Keyset;                       (* from fresh key material *)
  serialize : Keyset → bytes;
  parse : bytes → string + Keyset;
  aead_New : Keyset → string + AEAD;
  (** the EncryptedKeyset frame around the wrapped bytes *)
  frame_write : bytes → bytes;
  frame_read : bytes → string + bytes;
  (** the text the keyset helpers put around a remote AEAD's error text *)
  write_error : string → string;
  read_error : string → string
}.

(** What the program relies on. *)
Class TinkLaws (TK : Tink) := {
  decrypt_encrypt : ∀ p iv pt ad ct, Encrypt p iv pt ad = inr ct → Decrypt p ct ad = inr pt;
  (** integrity: what opens under some associated data was sealed under it *)
  decrypt_authentic : ∀ p iv pt ad ct ad' pt',
    Encrypt p iv pt ad = inr ct → Decrypt p ct ad' = inr pt' → ad' = ad ∧ pt' = pt;
  parse_serialize : ∀ k, parse (serialize k) = inr k;
  frame_round : ∀ b, frame_read (frame_write b) = inr b;
  (** the helpers format the cause's text at the end, behind a text of their own
      that opens no "kms " frame *)
  write_error_frame : ∀ s, ∃ pre, clean_prefix pre ∧ write_error s = pre +:+ s;
  read_error_frame : ∀ s, ∃ pre, clean_prefix pre ∧ read_error s = pre +:+ s
}.

(** ** A concrete instance

    A primitive is its key bytes; a ciphertext is the length-prefixed triple of
    key, associated data and plaintext, so decryption compares what was bound.
    It is no cipher: it only shows that the laws are consistent. *)
Module Toy.
Definition len_bytes (b : bytes) : bytes := replicate (length b) Byte.x01 ++ [Byte.x00].

Definition pack (b : bytes) : bytes := len_bytes b ++ b.

Fixpoint unpack_len (b : bytes) : option (nat * bytes) :=
  match b with
  | [] => None
  | Byte.x00 :: r => Some (0%nat, r)
  | Byte.x01 :: r => match unpack_len r with Some (n, r') => Some (S n, r') | None => None end
  | _ => None
  end.

Definition unpack (b : bytes) : option (bytes * bytes) :=
  match unpack_len b with
  | Some (n, r) => Some (take n r, drop n r)
  | None => None
  end.

Lemma unpack_pack b r : unpack (pack b ++ r)%list = Some (b, r).
Proof.
  unfold unpack, pack, len_bytes.
  assert (∀ n s, unpack_len (replicate n Byte.x01 ++ Byte.x00 :: s) = Some (n, s)) as Hl.
  { induction n as [|n IH]; intros s; simpl; [done|]. by rewrite IH. }
  rewrite <- !app_assoc. simpl. rewrite Hl, take_app_length, drop_app_length. done.
Qed.

Definition encrypt (k iv pt ad : bytes) : string + bytes :=
  inr (pack k ++ pack ad ++ pt)%list.

Definition decrypt (k ct ad : bytes) : string + bytes :=
  match unpack ct with
  | Some (k', r) =>
      match unpack r with
      | Some (ad', pt) =>
          if bool_decide (k' = k ∧ ad' = ad) then inr pt else inl "aead: message authentication failed"
      | None => inl "aead: short ciphertext"
      end
  | None => inl "aead: short ciphertext"
  end.

#[export] Instance tink : Tink := {|
  AEAD := bytes; Encrypt := encrypt; Decrypt := decrypt;
  Keyset := bytes; NewHandle := inr; serialize := id; parse := inr; aead_New := inr;
  frame_write := id; frame_read := inr;
  write_error := λ s, "keyset.Handle: encryption failed: " +:+ s;
  read_error := λ s, "keyset.Handle: decryption failed: " +:+ s
|}.

#[export] Instance laws : TinkLaws tink.
Proof.
  split; simpl.
  - intros p iv pt ad ct [= <-]. unfold decrypt. rewrite !unpack_pack.
    by rewrite bool_decide_eq_true_2.
  - intros p iv pt ad ct ad' pt' [= <-]. unfold decrypt. rewrite !unpack_pack.
    case_bool_decide as H; [|done]. destruct H as [_ <-]. by intros [= <-].
  - done.
  - done.
  - intros s. eexists. split; [|done]. reflexivity.
  - intros s. eexists. split; [|done]. reflexivity.
Qed.
End Toy.
