(* ===== verification/KmsModel.v ===== *)
(** * The key service as the CMEK core sees it

    [kms.KMS] is an interface: the core looks a KEK up and asks its remote AEAD
    to wrap or unwrap a keyset.  This class is that interface as a transition
    system, together with the one promise the revocation bound rests on: a
    positive answer is given while the key is enabled.  [Fake.v] holds the
    instance the program runs against. *)

From S2P Require Import Prelude GoLib Kms.
Local Open Scope Z_scope.

Class KMSModel := {
  kms_state : Type;
  (** [KMS.KEK]: the offline lookup; [None] is a usable KEK *)
  kms_KEK : kms_state → string → option err;
  (** the answers the service may give at the instant it checks the key *)
  kms_encrypt : kms_state → string → bytes → bytes → (err + bytes) → Prop;
  kms_decrypt : kms_state → string → bytes → bytes → (err + bytes) → Prop;
  (** what happens to the service on its own: revokes, restores, faults *)
  kms_step : Time → kms_state → kms_state → Prop;
  (** a consistent state at a given instant *)
  kms_ok : kms_state → Time → Prop;
  (** the latest instant at which the key is known to have been enabled *)
  horizon : kms_state → Time → string → Time
}.

Class KMSLaws (K : KMSModel) := {
  kms_ok_step : ∀ now st st', kms_ok st now → kms_step now st st' → kms_ok st' now;
  kms_ok_time : ∀ now now' st, kms_ok st now → now <= now' → kms_ok st now';
  horizon_le_now : ∀ now st k, kms_ok st now → horizon st now k <= now;
  horizon_time : ∀ now now' st k, kms_ok st now → now <= now' →
    horizon st now k <= horizon st now' k;
  horizon_step : ∀ now st st' k, kms_ok st now → kms_step now st st' →
    horizon st now k <= horizon st' now k;
  encrypt_live : ∀ now st k pt ad ct, kms_ok st now →
    kms_encrypt st k pt ad (inr ct) → horizon st now k = now;
  decrypt_live : ∀ now st k ct ad pt, kms_ok st now →
    kms_decrypt st k ct ad (inr pt) → horizon st now k = now
}.
