(* ===== verification/Fake.v ===== *)
(** * internal/kms/fake.go: the in-process providers

    The fake's state (keys, faults, ground-truth log), the remote AEAD gate
    with its fault, latency and revocation checks, and the log discipline the
    checker depends on.  At the end, the interface [KMSModel] through which the
    CMEK core sees a key service, and the fake's instance of it. *)

From S2P Require Import Prelude GoLib GoFloat Kms Tink KmsModel.
Local Open Scope Z_scope.
Local Open Scope string_scope.

Record KEKSpec := mkKEKSpec { ks_ID : string; ks_Provider : string; ks_Idx : Z }.

Section Fake.
Context `{TK : Tink}.

(** ** State *)

Record kek := mkKek { k_prim : AEAD; k_provider : string; k_idx : Z; k_enabled : bool }.

Record Fake := mkFake {
  keks : gmap string kek;
  provFaults : gmap string Fault;
  kekFaults : gmap string Fault;
  truth : Truth
}.

Definition set_enabled (k : kek) (b : bool) : kek :=
  mkKek (k_prim k) (k_provider k) (k_idx k) b.

(** [NewFake]: one fresh keyset per KEK from the given key material; a keyset
    error panics ([None]). *)
Fixpoint NewFake_keks (specs : list KEKSpec) (material : list bytes) (m : gmap string kek)
  : option (gmap string kek) :=
  match specs, material with
  | [], _ => Some m
  | _ :: _, [] => None
  | s :: specs', b :: material' =>
      match NewHandle b with
      | inl _ => None
      | inr h =>
          match aead_New h with
          | inl _ => None
          | inr prim =>
              NewFake_keks specs' material'
                (<[ks_ID s := mkKek prim (ks_Provider s) (ks_Idx s) true]> m)
          end
      end
  end.

Definition NewFake (specs : list KEKSpec) (material : list bytes) : option Fake :=
  m ← NewFake_keks specs material ∅; Some (mkFake m ∅ ∅ []).

Definition unknown_key (kekID : string) : err :=
  KmsError (mkError AccessDenied "?" ("unknown key " +:+ kekID)).

(** [Fake.KEK]: the offline lookup. *)
Definition Fake_KEK (f : Fake) (kekID : string) : option err :=
  match keks f !! kekID with
  | None => Some (unknown_key kekID)
  | Some _ => None
  end.

(** [SetFault]: a zero fault clears the scope; a KEK scope wins over a provider. *)
Definition SetFault (f : Fake) (s : Scope) (fault : Fault) : Fake :=
  if negb (bool_decide (s_KEKID s = "")) then
    mkFake (keks f) (provFaults f)
      (if Fault_IsZero fault then delete (s_KEKID s) (kekFaults f)
       else <[s_KEKID s := fault]> (kekFaults f)) (truth f)
  else
    mkFake (keks f)
      (if Fault_IsZero fault then delete (s_Provider s) (provFaults f)
       else <[s_Provider s := fault]> (provFaults f)) (kekFaults f) (truth f).

(** [flip], behind Revoke and Restore; [now] is the clock read inside the
    critical section, after the flip. *)
Definition flip (f : Fake) (kekID : string) (enabled : bool) (now : Time) : Fake :=
  match keks f !! kekID with
  | None => f
  | Some k =>
      if Bool.eqb (k_enabled k) enabled then f
      else mkFake (<[kekID := set_enabled k enabled]> (keks f)) (provFaults f) (kekFaults f)
             (Truth_append (truth f) (mkKeyEvent kekID (k_idx k) now enabled))
  end.

Definition Revoke (f : Fake) (kekID : string) (now : Time) : Fake := flip f kekID false now.
Definition Restore (f : Fake) (kekID : string) (now : Time) : Fake := flip f kekID true now.

(** [begin]: [f1] is the state at the first read lock (key and fault), [u] the
    uniform draw, [race] the context's error when it ends before the injected
    latency, [f2] the state at the second read lock, where enabled is read. *)
Definition begin (f1 : Fake) (u : float64) (race : option err) (f2 : Fake) (kekID : string)
  : err + kek :=
  match keks f1 !! kekID with
  | None => inl (unknown_key kekID)
  | Some k =>
      let fault := resolve (default zeroFault (provFaults f1 !! k_provider k))
                           (default zeroFault (kekFaults f1 !! kekID)) in
      if bool_decide (f_Mode fault = ModeFastFail)
         || (positive_rate (f_ErrorRate fault) && F.lt u (f_ErrorRate fault))
      then inl (KmsError (mkError Unavailable (k_provider k) "injected fault"))
      else
        match (if (0 <? f_P50 fault)%Z then race else None) with
        | Some e => inl e
        | None =>
            let enabled := match keks f2 !! kekID with
                           | Some k2 => k_enabled k2
                           | None => k_enabled k
                           end in
            if enabled then inr k
            else inl (KmsError (mkError KeyDisabled (k_provider k) (kekID +:+ " is disabled")))
        end
  end.

(** [gate.EncryptWithContext] and [gate.DecryptWithContext]. *)
Definition EncryptWithContext (f1 : Fake) (u : float64) (race : option err) (f2 : Fake)
    (kekID : string) (iv plaintext ad : bytes) : err + bytes :=
  match begin f1 u race f2 kekID with
  | inl e => inl e
  | inr k =>
      match Encrypt (k_prim k) iv plaintext ad with
      | inl msg => inl (KmsError (mkError Unavailable (k_provider k) msg))
      | inr ct => inr ct
      end
  end.

Definition DecryptWithContext (f1 : Fake) (u : float64) (race : option err) (f2 : Fake)
    (kekID : string) (ciphertext ad : bytes) : err + bytes :=
  match begin f1 u race f2 kekID with
  | inl e => inl e
  | inr k =>
      match Decrypt (k_prim k) ciphertext ad with
      | inl _ => inl (KmsError (mkError AccessDenied (k_provider k) "wrapped key does not verify"))
      | inr pt => inr pt
      end
  end.

(** ** The log discipline *)

(** The last event of one key, newest first in the fold. *)
Definition last_event (t : Truth) (kekID : string) : option KeyEvent :=
  last (filter (λ e, ev_KEKID e = kekID) t).

Lemma last_event_snoc t e kekID :
  last_event (t ++ [e])%list kekID
  = if decide (ev_KEKID e = kekID) then Some e else last_event t kekID.
Proof.
  unfold last_event. rewrite filter_app, filter_cons, filter_nil.
  case_decide; [apply last_snoc|]. by rewrite app_nil_r.
Qed.

(** What the log says about a key now. *)
Definition logged_enabled (t : Truth) (kekID : string) : bool :=
  match last_event t kekID with Some e => ev_Enabled e | None => true end.

(** The flags agree with the log. *)
Definition truth_agrees (f : Fake) : Prop :=
  ∀ kekID k, keks f !! kekID = Some k → k_enabled k = logged_enabled (truth f) kekID.

(** Per key, the log alternates and starts with a revoke. *)
Fixpoint alternates (b : bool) (l : list KeyEvent) : Prop :=
  match l with
  | [] => True
  | e :: l' => ev_Enabled e = negb b ∧ alternates (ev_Enabled e) l'
  end.

Definition truth_alternates (t : Truth) : Prop :=
  ∀ kekID, alternates true (filter (λ e, ev_KEKID e = kekID) t).

Lemma alternates_snoc b l e :
  alternates b l →
  ev_Enabled e = negb (match last l with Some x => ev_Enabled x | None => b end) →
  alternates b (l ++ [e])%list.
Proof.
  revert b. induction l as [|x l IH]; intros b; simpl; [naive_solver|].
  intros [Hx Hl] He. split; [done|]. apply IH; [done|].
  rewrite last_cons in He. by destruct (last l).
Qed.

Lemma flip_truth_agrees f kekID b now :
  truth_agrees f → truth_agrees (flip f kekID b now).
Proof.
  intros H. unfold flip. destruct (keks f !! kekID) as [k|] eqn:Hk; [|done].
  destruct (Bool.eqb (k_enabled k) b) eqn:Hb; [done|].
  intros id k'. cbn [keks truth]. unfold logged_enabled, Truth_append.
  rewrite last_event_snoc. cbn [ev_KEKID].
  destruct (decide (kekID = id)) as [->|Hne].
  - rewrite lookup_insert_eq. by intros [= <-].
  - rewrite lookup_insert_ne by done. intros Hk'. by apply H.
Qed.

Lemma flip_truth_alternates f kekID b now :
  truth_agrees f → truth_alternates (truth f) → truth_alternates (truth (flip f kekID b now)).
Proof.
  intros Ha Ht. unfold flip. destruct (keks f !! kekID) as [k|] eqn:Hk; [|done].
  destruct (Bool.eqb (k_enabled k) b) eqn:Hb; [done|].
  intros id. cbn [truth]. unfold Truth_append. rewrite filter_app, filter_cons, filter_nil.
  cbn [ev_KEKID]. case_decide as Hid; [|rewrite app_nil_r; apply Ht].
  apply alternates_snoc; [apply Ht|]. cbn [ev_Enabled]. subst id.
  pose proof (Ha _ _ Hk) as He. unfold logged_enabled, last_event in He.
  rewrite <- He. by destruct b, (k_enabled k).
Qed.

Lemma SetFault_truth f s x : truth (SetFault f s x) = truth f ∧ keks (SetFault f s x) = keks f.
Proof. unfold SetFault. by case_match. Qed.

(** A gate that lets a call through read an enabled key at its second lock. *)
Lemma begin_ok f1 u race f2 kekID k :
  begin f1 u race f2 kekID = inr k →
  keks f1 !! kekID = Some k ∧
  (∀ k2, keks f2 !! kekID = Some k2 → k_enabled k2 = true).
Proof.
  unfold begin. destruct (keks f1 !! kekID) as [k1|] eqn:Hk1; [|done].
  destruct (_ || _); [done|].
  destruct (if (0 <? _)%Z then race else None); [done|].
  destruct (keks f2 !! kekID) as [k2|] eqn:Hk2.
  - destruct (k_enabled k2) eqn:He; [|done]. intros [= <-]. split; [done|].
    intros k3 [= <-]. done.
  - destruct (k_enabled k1); [|done]. intros [= <-]. split; [done|]. done.
Qed.
End Fake.


(** ** The fake as a key service *)

Section FakeModel.
Context `{TK : Tink}.

(** KEKs are fixed when the fake is built: two states of one fake hold the
    same primitives for the same ids. *)
Definition same_keks (f1 f2 : Fake) : Prop :=
  ∀ id, k_prim <$> (keks f1 !! id) = k_prim <$> (keks f2 !! id).

Definition ctx_race (r : option err) : Prop :=
  r = None ∨ r = Some DeadlineExceeded ∨ r = Some Canceled.

Definition last_ok (f : Fake) (now : Time) (kekID : string) : Time :=
  match last_event (truth f) kekID with
  | Some e => if ev_Enabled e then now else ev_At e
  | None => now
  end.

#[export] Instance fake_model : KMSModel := {|
  kms_state := Fake;
  kms_KEK := Fake_KEK;
  kms_encrypt f2 k pt ad r := ∃ f1 u race iv,
    same_keks f1 f2 ∧ ctx_race race ∧ r = EncryptWithContext f1 u race f2 k iv pt ad;
  kms_decrypt f2 k ct ad r := ∃ f1 u race,
    same_keks f1 f2 ∧ ctx_race race ∧ r = DecryptWithContext f1 u race f2 k ct ad;
  kms_step now f f' :=
    (∃ k b, f' = flip f k b now) ∨ (∃ s x, f' = SetFault f s x);
  kms_ok f now := truth_agrees f ∧ Forall (λ e, ev_At e <= now) (truth f);
  horizon := last_ok
|}.

Lemma last_event_elem t k e : last_event t k = Some e → e ∈ t.
Proof.
  unfold last_event. intros H. apply last_Some in H as [l H].
  assert (e ∈ filter (λ e, ev_KEKID e = k) t) as He by (rewrite H; set_solver).
  by apply list_elem_of_filter in He as [_ ?].
Qed.

Lemma begin_live f1 u race f2 k kk now :
  truth_agrees f2 → same_keks f1 f2 → begin f1 u race f2 k = inr kk → last_ok f2 now k = now.
Proof.
  intros Ha Hs Hb. apply begin_ok in Hb as [H1 H2]. specialize (Hs k).
  rewrite H1 in Hs. destruct (keks f2 !! k) as [k2|] eqn:Hk; [|done].
  specialize (H2 _ eq_refl). rewrite (Ha _ _ Hk) in H2.
  unfold logged_enabled in H2. unfold last_ok.
  destruct (last_event (truth f2) k); [|done]. by rewrite H2.
Qed.

Lemma last_ok_flip f k b now id :
  Forall (λ e, ev_At e <= now) (truth f) →
  last_ok f now id <= last_ok (flip f k b now) now id.
Proof.
  intros Ht. assert (last_ok f now id <= now) as Hle.
  { unfold last_ok. destruct (last_event (truth f) id) as [e|] eqn:He; [|lia].
    apply last_event_elem in He. rewrite Forall_forall in Ht. specialize (Ht _ He).
    simpl in Ht. case_match; lia. }
  unfold flip. destruct (keks f !! k) as [kk|]; [|lia].
  destruct (Bool.eqb _ _); [lia|]. unfold last_ok at 2, Truth_append. cbn [truth].
  rewrite last_event_snoc. cbn [ev_KEKID]. case_decide; cbn; [case_match; lia|].
  fold (last_ok f now id). lia.
Qed.

#[export] Instance fake_laws : KMSLaws fake_model.
Proof.
  split; cbn.
  - intros now st st' [Ha Ht] [(k & b & ->)|(s & x & ->)]; split.
    + by apply flip_truth_agrees.
    + unfold flip. repeat case_match; try done. cbn. apply Forall_app. split; [done|].
      by repeat constructor.
    + intros id k Hk. destruct (SetFault_truth st s x) as [Et Ek]. rewrite Et.
      rewrite Ek in Hk. by apply Ha.
    + by destruct (SetFault_truth st s x) as [-> _].
  - intros now now' st [Ha Ht] Hle. split; [done|].
    eapply Forall_impl; [done|]. simpl. lia.
  - intros now st k [Ha Ht]. unfold last_ok.
    destruct (last_event (truth st) k) as [e|] eqn:He; [|lia].
    apply last_event_elem in He. rewrite Forall_forall in Ht. specialize (Ht _ He).
    simpl in Ht. case_match; lia.
  - intros now now' st k _ Hle. unfold last_ok. repeat case_match; lia.
  - intros now st st' k [Ha Ht] [(k' & b & ->)|(s & x & ->)].
    + by apply last_ok_flip.
    + unfold last_ok. destruct (SetFault_truth st s x) as [-> _]. lia.
  - intros now st k pt ad ct [Ha _] (f1 & u & race & iv & Hs & _ & Hr).
    unfold EncryptWithContext in Hr. destruct (begin f1 u race st k) eqn:Hb; [done|].
    by eapply begin_live.
  - intros now st k ct ad pt [Ha _] (f1 & u & race & Hs & _ & Hr).
    unfold DecryptWithContext in Hr. destruct (begin f1 u race st k) eqn:Hb; [done|].
    by eapply begin_live.
Qed.
End FakeModel.

(** The answers the core treats as an authoritative no. *)
Definition Classify_deny (e : err) : bool :=
  match errors.AsKms e with
  | Some ke => bool_decide (e_Code ke = AccessDenied) || bool_decide (e_Code ke = KeyDisabled)
  | None => false
  end.

(** ** Sequences of operator actions *)

Inductive fake_op :=
| OpFlip (kekID : string) (enabled : bool) (now : Time)
| OpFault (s : Scope) (fault : Fault).

Definition fake_do `{TK : Tink} (f : Fake) (o : fake_op) : Fake :=
  match o with
  | OpFlip k b now => flip f k b now
  | OpFault s x => SetFault f s x
  end.

Lemma NewFake_keks_enabled `{TK : Tink} specs material m m' :
  NewFake_keks specs material m = Some m' →
  (∀ id k, m !! id = Some k → k_enabled k = true) → ∀ id k, m' !! id = Some k → k_enabled k = true.
Proof.
  revert material m. induction specs as [|s specs IH]; intros material m; cbn; [by intros [= ->]|].
  destruct material as [|b material]; [done|].
  destruct (NewHandle b) as [|h]; [done|]. destruct (aead_New h) as [|prim]; [done|].
  intros Hn Hm. apply (IH _ _ Hn). intros id k. rewrite lookup_insert_Some.
  intros [[_ <-]|[_ Hk]]; [done|by eapply Hm].
Qed.

Lemma NewFake_log `{TK : Tink} specs material f :
  NewFake specs material = Some f → truth_agrees f ∧ truth_alternates (truth f).
Proof.
  unfold NewFake. destruct (NewFake_keks specs material ∅) as [m|] eqn:E; [|done].
  intros [= <-]. split; [|by intros id].
  intros id k Hk. cbn in *. refine (NewFake_keks_enabled _ _ _ _ E _ id k Hk).
  intros id' k'. by rewrite lookup_empty.
Qed.

Lemma fake_do_log `{TK : Tink} f o :
  truth_agrees f → truth_alternates (truth f) →
  truth_agrees (fake_do f o) ∧ truth_alternates (truth (fake_do f o)).
Proof.
  intros Ha Ht. destruct o as [k b now|s x]; cbn.
  - split; [by apply flip_truth_agrees|by apply flip_truth_alternates].
  - destruct (SetFault_truth f s x) as [Et Ek]. unfold truth_agrees. rewrite Et, Ek. done.
Qed.

(** The ground-truth log is exact.  Whatever revokes, restores and faults an
    operator applies to freshly built providers, repeats included, the log
    alternates per key and starts with a revoke, and a key is enabled exactly
    when its last event says so, or when it has none. *)
Theorem truth_log_exact `{TK : Tink} specs material f ops :
  NewFake specs material = Some f →
  let g := foldl fake_do f ops in
  truth_alternates (truth g) ∧
  ∀ kekID k, keks g !! kekID = Some k → k_enabled k = logged_enabled (truth g) kekID.
Proof.
  intros Hn. destruct (NewFake_log _ _ _ Hn) as [Ha Ht]. clear Hn. revert f Ha Ht.
  induction ops as [|o ops IH]; intros f Ha Ht; cbn; [done|].
  destruct (fake_do_log f o Ha Ht) as [Ha' Ht']. by apply IH.
Qed.

Example truth_log_exact_witness :
  ∃ f, NewFake (TK := Toy.tink) [mkKEKSpec "kek1" "aws" 0] [[Byte.x01]] = Some f ∧
    truth (foldl fake_do f [OpFlip "kek1" false 5; OpFlip "kek1" false 6; OpFlip "kek1" true 7])
    = [mkKeyEvent "kek1" 0 5 false; mkKeyEvent "kek1" 0 7 true] ∧
    truth_alternates (truth (foldl fake_do f [OpFlip "kek1" false 5; OpFlip "kek1" false 6; OpFlip "kek1" true 7])).
Proof.
  eexists. split; [reflexivity|]. split; [vm_compute; reflexivity|].
  refine (proj1 (truth_log_exact (TK := Toy.tink) [mkKEKSpec "kek1" "aws" 0] [[Byte.x01]] _ _ _)).
  reflexivity.
Defined.

(** The gate tells the truth.  At the instant the gate answers, a positive
    answer means the log says the key is enabled, and a KeyDisabled answer, the
    authoritative deny that revokes a tenant, means the log says it is disabled;
    no fault, error rate or slow call is ever reported as a deny. *)
Theorem gate_truthful `{TK : Tink} f1 u race f2 kekID :
  truth_agrees f2 → same_keks f1 f2 → ctx_race race → is_Some (keks f1 !! kekID) →
  match begin f1 u race f2 kekID with
  | inr _ => logged_enabled (truth f2) kekID = true
  | inl e => Classify_deny e = true → logged_enabled (truth f2) kekID = false
  end.
Proof.
  intros Ha Hs Hr [k1 H1]. specialize (Hs kekID). rewrite H1 in Hs.
  destruct (keks f2 !! kekID) as [k2|] eqn:H2; [|done]. pose proof (Ha _ _ H2) as He.
  unfold begin. rewrite H1, H2. destruct (_ || _); [done|].
  destruct (if (0 <? _)%Z then race else None) as [e|] eqn:E.
  { case_match; [|done]. subst race. by destruct Hr as [|[[= ->]|[= ->]]]. }
  by destruct (k_enabled k2).
Qed.

Definition one_key : @Fake Toy.tink :=
  @mkFake Toy.tink (<["kek1" := @mkKek Toy.tink [Byte.x01] "aws" 0 true]> ∅) ∅ ∅ [].

(** A call in flight when the key is revoked at instant 5 is told so. *)
Example gate_truthful_witness :
  logged_enabled (truth (Revoke one_key "kek1" 5)) "kek1" = false ∧ is_Some (keks one_key !! "kek1").
Proof.
  assert (is_Some (keks one_key !! "kek1")) as Hk by (vm_compute; eauto).
  split; [|exact Hk].
  refine (gate_truthful (TK := Toy.tink) one_key F.half None (Revoke one_key "kek1" 5) "kek1" _ _ _ Hk _).
  - apply flip_truth_agrees. intros id k. cbn. rewrite lookup_insert_Some.
    intros [[_ <-]|[_ H]]; [reflexivity|by rewrite lookup_empty in H].
  - intros id. destruct (decide (id = "kek1")) as [->|Hne]; [reflexivity|].
    change (keks (Revoke one_key "kek1" 5))
      with (<["kek1" := @mkKek Toy.tink [Byte.x01] "aws" 0 false]> (keks one_key)).
    by rewrite lookup_insert_ne.
  - by left.
  - reflexivity.
Defined.
