(* ===== verification/Lease.v ===== *)
(** * internal/cmek/lease.go: the key lease and the retry schedule

    A lease is the window in which cached keys may be used.  [Backoff] is the
    transient-failure schedule, in the float64 arithmetic the code uses. *)

From S2P Require Import Prelude GoLib GoFloat.
Local Open Scope Z_scope.

Record Lease := mkLease { SentAt : Time; TTL : Duration; SoftTTL : Duration; Early : Duration }.

(** [Renew] moves SentAt forward only; false when sentAt is not later. *)
Definition Renew (l : Lease) (sentAt : Time) : bool * Lease :=
  if negb (Time.After sentAt (SentAt l)) then (false, l)
  else (true, mkLease sentAt (TTL l) (SoftTTL l) (Early l)).

(** [l.SentAt = time.Time{}]: the deny row drops the lease, the TTLs stay. *)
Definition drop_lease (l : Lease) : Lease := mkLease 0 (TTL l) (SoftTTL l) (Early l).

Definition Until (l : Lease) : Time := Time.Add (SentAt l) (dur_sub (TTL l) (Early l)).

Definition Usable (l : Lease) (now : Time) : bool :=
  negb (Time.IsZero (SentAt l)) && Time.Before now (Until l).

Definition SoftDue (l : Lease) (now : Time) : bool :=
  negb (Time.Before now (Time.Add (SentAt l) (SoftTTL l))).

Definition Remaining (l : Lease) (now : Time) : Duration :=
  if Time.IsZero (SentAt l) then 0 else Time.Sub (Until l) now.

(** [Backoff(n, min, max, jitter, u)]. *)
Definition Backoff (n : Z) (min max : Duration) (jitter u : float64) : Duration :=
  let n := if n <? 1 then 1 else n in
  let base := F.mul (F.of_Z min) (F.pow2 (n - 1)) in
  let base := if F.gt base (F.of_Z max) then F.of_Z max else base in
  F.to_int64 (F.mul base (F.add F.one (F.mul jitter (F.sub (F.mul F.two u) F.one)))).

(** ** Facts *)

(** The durations a lease is built from. *)
Definition lease_ok (l : Lease) : Prop :=
  0 < Early l < TTL l ∧ TTL l <= 2 ^ 60 ∧ 0 < SoftTTL l < TTL l - Early l.

Lemma Until_eq l : lease_ok l → Until l = SentAt l + (TTL l - Early l).
Proof.
  intros [H1 [H2 H3]]. unfold Until, Time.Add. rewrite dur_sub_small; [done|..];
    unfold dur_small; lia.
Qed.

Lemma Usable_spec l now :
  lease_ok l → Usable l now = true ↔ SentAt l ≠ 0 ∧ now < SentAt l + (TTL l - Early l).
Proof.
  intros Hl. unfold Usable, Time.IsZero, Time.Before. rewrite Until_eq by done. lia.
Qed.

Lemma Renew_ok l s b l' : lease_ok l → Renew l s = (b, l') → lease_ok l'.
Proof. unfold Renew. case_match; intros Hl [= <- <-]; exact Hl. Qed.

Lemma drop_lease_ok l : lease_ok l → lease_ok (drop_lease l).
Proof. done. Qed.

Lemma drop_lease_unusable l now : Usable (drop_lease l) now = false.
Proof. done. Qed.

(** The window never moves back. *)
Lemma Renew_mono l s : SentAt l <= SentAt (Renew l s).2 ∧ Until l <= Until (Renew l s).2.
Proof.
  unfold Renew, Time.After. case_match; simpl; [lia|].
  unfold Until, Time.Add. simpl. lia.
Qed.

Lemma Renew_SentAt l s : SentAt (Renew l s).2 = Z.max (SentAt l) s.
Proof. unfold Renew, Time.After. case_match; simpl; lia. Qed.

#[export] Hint Resolve Renew_ok drop_lease_ok : killswitch.

(** ** The demonstration schedule, by exponent range *)

Definition demoMin : Duration := 500 * Millisecond.
Definition demoMax : Duration := 8 * Second.
Definition demoJitter : float64 := F.half.

(** The un-jittered delay (u = 1/2) of attempt [k + 1] from the fifth on. *)
Lemma Backoff_cap_range :
  forallZ 4 1020 (λ k, Backoff (k + 1) demoMin demoMax demoJitter F.half =? demoMax) = true.
Proof. vm_compute. reflexivity. Qed.

Lemma Backoff_cap_far k :
  1024 <= k → Backoff (k + 1) demoMin demoMax demoJitter F.half = demoMax.
Proof.
  intros Hk. unfold Backoff. destruct (Z.ltb_spec (k + 1) 1); [lia|].
  replace (k + 1 - 1) with k by lia. rewrite pow2_overflow by done. vm_compute. reflexivity.
Qed.
