(* ===== verification/Cmek.v ===== *)
(** * internal/cmek: types.go, classify.go, envelope.go

    The tenant states, the outcome classes, the sentinels, the configuration,
    the classifier and the sealing of one message. *)

From S2P Require Import Prelude GoLib GoFloat Kms Tink Lease.
Local Open Scope string_scope.
Local Open Scope Z_scope.

(** ** types.go *)

Inductive State := Active | RidingThrough | KeyUnavailable | Revoked.

#[export] Instance State_eq_dec : EqDecision State.
Proof. solve_decision. Defined.

Definition State_String (s : State) : string :=
  match s with
  | Active => "ACTIVE"
  | RidingThrough => "RIDING_THROUGH"
  | KeyUnavailable => "KEY_UNAVAILABLE"
  | Revoked => "REVOKED"
  end.

Inductive Class_ := OK | Transient | Deny | Poison.

#[export] Instance Class_eq_dec : EqDecision Class_.
Proof. solve_decision. Defined.

Definition Class_String (c : Class_) : string :=
  match c with OK => "ok" | Transient => "transient" | Deny => "deny" | Poison => "poison" end.

Record Envelope := mkEnvelope { env_DEKID : string; env_Ciphertext : bytes }.

Record WrappedDEK := mkWrapped {
  w_ID : string; w_Tenant : string; w_KEKID : string;
  w_KEKVersion : Z; w_Wrapped : bytes; w_CreatedAt : Time }.

Record Audit := mkAudit {
  a_At : Time; a_Tenant : string; a_Op : string; a_Outcome : string; a_Detail : string;
  a_KEKVersion : Z; a_Class : Class_; a_From : State; a_To : State;
  a_Latency : Duration; a_Purged : Z }.

Record TenantInfo := mkInfo {
  i_State : State; i_LeaseAge : Duration; i_LeaseRemaining : Duration; i_NextProbeIn : Duration;
  i_ActiveDEK : string; i_DEKs : Z; i_HotDEKs : Z; i_Pending : Z; i_Attempt : Z; i_Waiters : Z;
  i_Probing : bool }.

Record TenantSpec := mkSpec { ts_ID : string; ts_Provider : string; ts_KEKID : string }.

Definition ErrKeyUnavailable : err := Sentinel "cmek.ErrKeyUnavailable" "cmek: key unavailable".
Definition ErrKeyRevoked : err := Sentinel "cmek.ErrKeyRevoked" "cmek: key revoked".
Definition ErrLeaseExpired : err := Sentinel "cmek.ErrLeaseExpired" "cmek: lease expired".
Definition ErrDEKCold : err := Sentinel "cmek.ErrDEKCold" "cmek: dek not cached".
Definition ErrPoison : err := Sentinel "cmek.ErrPoison" "cmek: authentication failed".
(** fetcher.go's two unclassified outcomes. *)
Definition errBusy : err := Sentinel "cmek.errBusy" "cmek: tenant inflight cap".
Definition errStore : err := Sentinel "cmek.errStore" "cmek: dek store".

(** [Config]: the parameters the core reads.  [HasJitter] and [HasLogger] say
    whether the optional dependencies are set; Keys, Store, Audit, Clock and
    Spawn are the events of the programs in [Manager.v]. *)
Record Config := mkConfig {
  c_Tenants : list TenantSpec; c_Providers : list string; c_HasJitter : bool;
  c_Lease : Duration; c_SoftTTL : Duration; c_EarlyExpiry : Duration; c_KMSTimeout : Duration;
  c_BackoffMin : Duration; c_BackoffMax : Duration; c_RevokedReprobe : Duration;
  c_DEKMaxAge : Duration; c_SweepInterval : Duration; c_BackoffJitter : float64;
  c_DEKMaxMessages : Z; c_ProviderInflight : Z; c_TenantInflight : Z; c_IngestWaiters : Z }.

(** ** classify.go *)

Definition Classify (e : option err) : Class_ :=
  match e with
  | None => OK
  | Some e =>
      if errors.Is e ErrPoison then Poison
      else
        let code := match errors.AsKms e with
                    | Some ke => Some (e_Code ke)
                    | None => CodeFromText (Some e)
                    end in
        match code with
        | Some AccessDenied | Some KeyDisabled => Deny
        | _ => Transient
        end
  end.

(** ** envelope.go *)

Definition byte_of_Z (z : Z) : Byte.byte :=
  match Byte.of_N (Z.to_N (Z.land z 255)) with Some b => b | None => Byte.x00 end.

(** [binary.BigEndian.AppendUint64]. *)
Definition be64 (v : Z) : bytes :=
  (λ i, byte_of_Z (Z.shiftr v (56 - 8 * i))) <$> [0; 1; 2; 3; 4; 5; 6; 7].

Definition aad (tenant : string) (msgID : Z) (dekID : string) : bytes :=
  (bytes_of tenant ++ be64 (u64 msgID) ++ bytes_of dekID)%list.

Section Envelope.
Context `{TK : Tink}.

(** [Handle]: one usable primitive until [h_ValidUntil]; [None] is nil. *)
Record Handle := mkHandle { h_DEKID : string; h_ValidUntil : Time; h_prim : option AEAD }.

Definition Zero (h : Handle) : Handle := mkHandle (h_DEKID h) (h_ValidUntil h) None.

(** [%q] of an id, which holds no character the verb escapes. *)
Definition quoted (s : string) : string :=
  String.String (Ascii.ascii_of_nat 34) (s +:+ String.String (Ascii.ascii_of_nat 34) "").

(** [Seal]; [iv] is the IV Tink draws. *)
Definition Seal (h : Handle) (now : Time) (tenant : string) (msgID : Z) (iv plaintext : bytes)
  : err + Envelope :=
  if negb (Time.Before now (h_ValidUntil h)) then inl ErrLeaseExpired
  else match h_prim h with
       | None => inl (Errorf "cmek: seal: " ErrDEKCold "")
       | Some prim =>
           match Encrypt prim iv plaintext (aad tenant msgID (h_DEKID h)) with
           | inl e => inl (Errorf "cmek: seal: " (ErrText e) "")
           | inr ct => inr (mkEnvelope (h_DEKID h) ct)
           end
       end.

Definition Open (h : Handle) (now : Time) (tenant : string) (msgID : Z) (env : Envelope)
  : err + bytes :=
  if negb (Time.Before now (h_ValidUntil h)) then inl ErrLeaseExpired
  else if negb (bool_decide (h_DEKID h = env_DEKID env)) then
    inl (Errorf "" ErrPoison
           (": handle " +:+ quoted (h_DEKID h) +:+ ", envelope " +:+ quoted (env_DEKID env)))
  else match h_prim h with
       | None => inl (Errorf "cmek: open: " ErrDEKCold "")
       | Some prim =>
           match Decrypt prim (env_Ciphertext env) (aad tenant msgID (env_DEKID env)) with
           | inl e => inl (Errorf "" ErrPoison (": " +:+ e))
           | inr pt => inr pt
           end
       end.
End Envelope.

(** ** Facts about the byte layout *)

(** Big-endian reading, the inverse of [be64]. *)
Definition be_read (b : bytes) : Z :=
  foldl (λ acc x, acc * 256 + Z.of_N (Byte.to_N x)) 0 b.

Lemma byte_of_Z_val z : Z.of_N (Byte.to_N (byte_of_Z z)) = z mod 256.
Proof.
  unfold byte_of_Z. replace 255 with (Z.ones 8) by done. rewrite Z.land_ones by lia.
  change (2 ^ 8) with 256. pose proof (Z.mod_pos_bound z 256 eq_refl) as Hb.
  destruct (Byte.of_N (Z.to_N (z mod 256))) as [b|] eqn:E.
  - apply Byte.to_of_N in E. rewrite E. lia.
  - apply Byte.of_N_None_iff in E. lia.
Qed.

Lemma be64_read v : 0 <= v < 2 ^ 64 → be_read (be64 v) = v.
Proof.
  intros Hv. unfold be_read, be64. cbn [fmap list_fmap foldl].
  rewrite !byte_of_Z_val, !Z.shiftr_div_pow2 by lia.
  change (2 ^ (56 - 8 * 7)) with 1. rewrite Z.div_1_r.
  assert (∀ n, 0 <= n → v / 2 ^ (8 * (n + 1)) = v / 2 ^ (8 * n) / 256) as Hstep.
  { intros n Hn. replace (8 * (n + 1)) with (8 * n + 8) by lia.
    rewrite Z.pow_add_r by lia. by rewrite Z.div_div by lia. }
  pose proof (Hstep 0 ltac:(lia)) as H0. pose proof (Hstep 1 ltac:(lia)) as H1.
  pose proof (Hstep 2 ltac:(lia)) as H2. pose proof (Hstep 3 ltac:(lia)) as H3.
  pose proof (Hstep 4 ltac:(lia)) as H4. pose proof (Hstep 5 ltac:(lia)) as H5.
  pose proof (Hstep 6 ltac:(lia)) as H6. clear Hstep.
  assert (0 <= v / 2 ^ (56 - 8 * 0) < 256) as Htop.
  { split; [apply Z.div_pos; lia|]. apply Z.div_lt_upper_bound; lia. }
  rewrite Z.mul_0_r, Z.pow_0_r, Z.div_1_r in H0.
  repeat match goal with
  | H : context [2 ^ ?e] |- _ => let c := eval compute in (2 ^ e) in change (2 ^ e) with c in *
  | |- context [2 ^ ?e] => let c := eval compute in (2 ^ e) in change (2 ^ e) with c in *
  end.
  clear H0 Hv. revert H1 H2 H3 H4 H5 H6 Htop.
  generalize (v / 72057594037927936) (v / 281474976710656) (v / 1099511627776)
    (v / 4294967296) (v / 16777216) (v / 65536).
  intros a b c d e f H1 H2 H3 H4 H5 H6 Ha. rewrite (Z.mod_small a) by done.
  assert (∀ z, z = 256 * (z / 256) + z mod 256) as D by (intros; apply Z.div_mod; lia).
  pose proof (D v) as Dv. pose proof (D (v / 256)) as D1. rewrite <- H1 in D1.
  pose proof (D f) as D2. rewrite <- H2 in D2. pose proof (D e) as D3. rewrite <- H3 in D3.
  pose proof (D d) as D4. rewrite <- H4 in D4. pose proof (D c) as D5. rewrite <- H5 in D5.
  pose proof (D b) as D6. rewrite <- H6 in D6. clear - Dv D1 D2 D3 D4 D5 D6.
  generalize dependent (v mod 256). generalize dependent (v / 256).
  intros q D1. generalize dependent (q mod 256). generalize dependent (f mod 256).
  generalize dependent (e mod 256). generalize dependent (d mod 256).
  generalize dependent (c mod 256). generalize dependent (b mod 256). intros. lia.
Qed.

Lemma be64_inj v w : 0 <= v < 2 ^ 64 → 0 <= w < 2 ^ 64 → be64 v = be64 w → v = w.
Proof. intros Hv Hw E. rewrite <- (be64_read v), <- (be64_read w) by done. by rewrite E. Qed.

Lemma u64_inj v w :
  minInt64 <= v <= maxInt64 → minInt64 <= w <= maxInt64 → u64 v = u64 w → v = w.
Proof.
  unfold u64, minInt64, maxInt64. intros Hv Hw E.
  pose proof (Z.div_mod v (2 ^ 64)). pose proof (Z.div_mod w (2 ^ 64)). lia.
Qed.

(** Within one width of tenant ids, the associated data determines all three
    parts. *)
Lemma aad_inj t m d t' m' d' :
  String.length t = String.length t' →
  minInt64 <= m <= maxInt64 → minInt64 <= m' <= maxInt64 →
  aad t m d = aad t' m' d' → t = t' ∧ m = m' ∧ d = d'.
Proof.
  unfold aad. intros Hlen Hm Hm' E.
  apply app_inj_1 in E as [Et E]; [|by rewrite !length_bytes_of].
  apply app_inj_1 in E as [Em Ed]; [|done].
  apply be64_inj in Em; [|unfold u64; apply Z.mod_pos_bound; lia..].
  split_and!; [by apply bytes_of_inj|by apply u64_inj|by apply bytes_of_inj].
Qed.
