(* ===== verification/Tenant.v ===== *)
(** * internal/cmek: the tenant's state and its critical sections

    [tenant] and [dek] of [lease.go] with the pointer structure made explicit
    (a heap of DEKs, the map from ids to pointers, the active pointer), and
    every piece of [manager.go] and [fetcher.go] that runs between Lock and
    Unlock of [t.mu]: [purge], [handle], [setState], [apply], the sections of
    the public calls and of the sweep.  A section is a function on [local]: the
    tenant, its cell of the lock-free grid array and the audit lines emitted.
    [None] is a nil dereference. *)

From S2P Require Import Prelude GoLib GoFloat Kms Tink Lease Cmek.
Local Open Scope string_scope.
Local Open Scope Z_scope.

(** Where a tenant's KMS calls run. *)
Inductive Fetch := FetchAsync | FetchSync | FetchPassThrough | FetchNaive.

#[export] Instance Fetch_eq_dec : EqDecision Fetch.
Proof. solve_decision. Defined.

(** The kinds of authorization call. *)
Inductive op := OpUnwrap | OpGenerate | OpWarm.

#[export] Instance op_eq_dec : EqDecision op.
Proof. solve_decision. Defined.

Definition op_name (o : op) : string :=
  match o with OpUnwrap => "unwrap" | OpGenerate => "generate" | OpWarm => "warm" end.

Section Tenant.
Context `{TK : Tink} `{MR : MapRange}.

(** A pointer to a DEK: its allocation number within the tenant. *)
#[local] Abbreviation ptr := Z (only parsing).

Record dek := mkDek {
  d_id : string; d_wrapped : bytes; d_kekVersion : Z; d_prim : option AEAD;
  d_msgs : Z; d_createdAt : Time; d_hotSince : Time }.

Definition set_prim (p : option AEAD) (d : dek) : dek :=
  mkDek (d_id d) (d_wrapped d) (d_kekVersion d) p (d_msgs d) (d_createdAt d) (d_hotSince d).
Definition set_msgs (n : Z) (d : dek) : dek :=
  mkDek (d_id d) (d_wrapped d) (d_kekVersion d) (d_prim d) n (d_createdAt d) (d_hotSince d).
Definition set_hotSince (h : Time) (d : dek) : dek :=
  mkDek (d_id d) (d_wrapped d) (d_kekVersion d) (d_prim d) (d_msgs d) (d_createdAt d) h.
Definition zeroDek : dek := mkDek "" [] 0 None 0 0 0.

Record tenant := mkTenant {
  t_idx : nat;
  t_spec : TenantSpec;
  t_seq : Z;
  t_state : State;
  t_lease : Lease;
  t_heap : gmap Z dek;
  t_deks : gmap string ptr;
  t_active : option ptr;
  t_attempt : Z;
  t_nextProbeAt : Time;
  t_deniedAt : Time;
  t_probing : bool;
  t_pending : gmap string Time;
  t_waiters : Z;
  t_inflight : Z;
  t_fetch : Fetch
}.

(** Field updates, one per mutable field. *)
Definition set_seq (x : Z) (t : tenant) : tenant :=
  mkTenant (t_idx t) (t_spec t) x (t_state t) (t_lease t) (t_heap t) (t_deks t) (t_active t) (t_attempt t) (t_nextProbeAt t) (t_deniedAt t) (t_probing t) (t_pending t) (t_waiters t) (t_inflight t) (t_fetch t).
Definition set_state (x : State) (t : tenant) : tenant :=
  mkTenant (t_idx t) (t_spec t) (t_seq t) x (t_lease t) (t_heap t) (t_deks t) (t_active t) (t_attempt t) (t_nextProbeAt t) (t_deniedAt t) (t_probing t) (t_pending t) (t_waiters t) (t_inflight t) (t_fetch t).
Definition set_lease (x : Lease) (t : tenant) : tenant :=
  mkTenant (t_idx t) (t_spec t) (t_seq t) (t_state t) x (t_heap t) (t_deks t) (t_active t) (t_attempt t) (t_nextProbeAt t) (t_deniedAt t) (t_probing t) (t_pending t) (t_waiters t) (t_inflight t) (t_fetch t).
Definition set_heap (x : gmap Z dek) (t : tenant) : tenant :=
  mkTenant (t_idx t) (t_spec t) (t_seq t) (t_state t) (t_lease t) x (t_deks t) (t_active t) (t_attempt t) (t_nextProbeAt t) (t_deniedAt t) (t_probing t) (t_pending t) (t_waiters t) (t_inflight t) (t_fetch t).
Definition set_deks (x : gmap string ptr) (t : tenant) : tenant :=
  mkTenant (t_idx t) (t_spec t) (t_seq t) (t_state t) (t_lease t) (t_heap t) x (t_active t) (t_attempt t) (t_nextProbeAt t) (t_deniedAt t) (t_probing t) (t_pending t) (t_waiters t) (t_inflight t) (t_fetch t).
Definition set_active (x : option ptr) (t : tenant) : tenant :=
  mkTenant (t_idx t) (t_spec t) (t_seq t) (t_state t) (t_lease t) (t_heap t) (t_deks t) x (t_attempt t) (t_nextProbeAt t) (t_deniedAt t) (t_probing t) (t_pending t) (t_waiters t) (t_inflight t) (t_fetch t).
Definition set_attempt (x : Z) (t : tenant) : tenant :=
  mkTenant (t_idx t) (t_spec t) (t_seq t) (t_state t) (t_lease t) (t_heap t) (t_deks t) (t_active t) x (t_nextProbeAt t) (t_deniedAt t) (t_probing t) (t_pending t) (t_waiters t) (t_inflight t) (t_fetch t).
Definition set_nextProbeAt (x : Time) (t : tenant) : tenant :=
  mkTenant (t_idx t) (t_spec t) (t_seq t) (t_state t) (t_lease t) (t_heap t) (t_deks t) (t_active t) (t_attempt t) x (t_deniedAt t) (t_probing t) (t_pending t) (t_waiters t) (t_inflight t) (t_fetch t).
Definition set_deniedAt (x : Time) (t : tenant) : tenant :=
  mkTenant (t_idx t) (t_spec t) (t_seq t) (t_state t) (t_lease t) (t_heap t) (t_deks t) (t_active t) (t_attempt t) (t_nextProbeAt t) x (t_probing t) (t_pending t) (t_waiters t) (t_inflight t) (t_fetch t).
Definition set_probing (x : bool) (t : tenant) : tenant :=
  mkTenant (t_idx t) (t_spec t) (t_seq t) (t_state t) (t_lease t) (t_heap t) (t_deks t) (t_active t) (t_attempt t) (t_nextProbeAt t) (t_deniedAt t) x (t_pending t) (t_waiters t) (t_inflight t) (t_fetch t).
Definition set_pending (x : gmap string Time) (t : tenant) : tenant :=
  mkTenant (t_idx t) (t_spec t) (t_seq t) (t_state t) (t_lease t) (t_heap t) (t_deks t) (t_active t) (t_attempt t) (t_nextProbeAt t) (t_deniedAt t) (t_probing t) x (t_waiters t) (t_inflight t) (t_fetch t).
Definition set_waiters (x : Z) (t : tenant) : tenant :=
  mkTenant (t_idx t) (t_spec t) (t_seq t) (t_state t) (t_lease t) (t_heap t) (t_deks t) (t_active t) (t_attempt t) (t_nextProbeAt t) (t_deniedAt t) (t_probing t) (t_pending t) x (t_inflight t) (t_fetch t).
Definition set_inflight (x : Z) (t : tenant) : tenant :=
  mkTenant (t_idx t) (t_spec t) (t_seq t) (t_state t) (t_lease t) (t_heap t) (t_deks t) (t_active t) (t_attempt t) (t_nextProbeAt t) (t_deniedAt t) (t_probing t) (t_pending t) (t_waiters t) x (t_fetch t).
Definition set_fetch (x : Fetch) (t : tenant) : tenant :=
  mkTenant (t_idx t) (t_spec t) (t_seq t) (t_state t) (t_lease t) (t_heap t) (t_deks t) (t_active t) (t_attempt t) (t_nextProbeAt t) (t_deniedAt t) (t_probing t) (t_pending t) (t_waiters t) (t_inflight t) x.

(** The grid cell [m.states[t.idx]] and the audit lines travel with the tenant. *)
Record local := mkLocal { l_t : tenant; l_cell : State; l_log : list Audit }.

Definition upd (f : tenant → tenant) (l : local) : local := mkLocal (f (l_t l)) (l_cell l) (l_log l).

(** Dereferencing; a pointer the heap does not hold reads as a zero DEK. *)
Definition deref (t : tenant) (p : ptr) : dek := default zeroDek (t_heap t !! p).
Definition modify (p : ptr) (f : dek → dek) (t : tenant) : tenant := set_heap (alter f p (t_heap t)) t.

(** ** lease.go: tenant methods *)

Definition direct (t : tenant) : bool :=
  bool_decide (t_fetch t = FetchPassThrough) || bool_decide (t_fetch t = FetchNaive).

Definition is_hot (d : dek) : bool := match d_prim d with Some _ => true | None => false end.

Definition hot (t : tenant) : Z := countZ (λ '(_, p), is_hot (deref t p)) (range (t_deks t)).

(** One round of [purge]'s loop over the map. *)
Definition purge_step (acc : Z * tenant) (e : string * ptr) : Z * tenant :=
  let '(n, t) := acc in
  let '(_, p) := e in
  if is_hot (deref t p) then (n + 1, modify p (set_prim None) t) else (n, t).

(** [purge]: drop every primitive of the map, count those that were there,
    clear pending. *)
Definition purge (t : tenant) : Z * tenant :=
  let '(n, t') := foldl purge_step (0, t) (range (t_deks t)) in
  (n, set_pending ∅ t').

(** ** manager.go and fetcher.go: shared pieces *)

Context (cfg : Config).

Definition exhausted (d : dek) (now : Time) : bool :=
  (c_DEKMaxMessages cfg <=? d_msgs d) || (c_DEKMaxAge cfg <=? Time.Sub now (d_createdAt d)).

Definition audit (a : Audit) (l : local) : local := mkLocal (l_t l) (l_cell l) (l_log l ++ [a])%list.

(** An audit line with the fields every call site sets. *)
Definition line (now : Time) (t : tenant) (o outcome detail : string) : Audit :=
  mkAudit now (ts_ID (t_spec t)) o outcome detail 0 OK Active Active 0 0.
Definition with_purged (n : Z) (a : Audit) : Audit :=
  mkAudit (a_At a) (a_Tenant a) (a_Op a) (a_Outcome a) (a_Detail a) (a_KEKVersion a) (a_Class a)
    (a_From a) (a_To a) (a_Latency a) n.
Definition with_call (c : Class_) (kekVersion : Z) (latency : Duration) (a : Audit) : Audit :=
  mkAudit (a_At a) (a_Tenant a) (a_Op a) (a_Outcome a) (a_Detail a) kekVersion c
    (a_From a) (a_To a) latency (a_Purged a).
Definition with_states (from to : State) (a : Audit) : Audit :=
  mkAudit (a_At a) (a_Tenant a) (a_Op a) (a_Outcome a) (a_Detail a) (a_KEKVersion a) (a_Class a)
    from to (a_Latency a) (a_Purged a).

Definition fmtPurged (why : string) (n : Z) : string := why +:+ ", " +:+ Itoa n +:+ " DEKs purged".

(** [setState]: the state, the grid cell and the audit line move together. *)
Definition setState (to : State) (now : Time) (why : string) (purged : Z) (l : local) : local :=
  let from := t_state (l_t l) in
  let t := set_state to (l_t l) in
  audit (with_purged purged (with_states from to
           (line now t "state" (State_String from +:+ "→" +:+ State_String to) why)))
    (mkLocal t to (l_log l)).

(** [handle]: the active primitive when the tenant may seal now; counts the seal. *)
Definition handle (now : Time) (l : local) : option Handle * local :=
  let t := l_t l in
  match t_active t with
  | None => (None, l)
  | Some p =>
      let d := deref t p in
      if negb (is_hot d) || direct t || negb (Usable (t_lease t) now)
         || (bool_decide (t_state t = Active) && exhausted d now)
      then (None, l)
      else (Some (mkHandle (d_id d) (Until (t_lease t)) (d_prim d)),
            upd (modify p (λ d, set_msgs (d_msgs d + 1) d)) l)
  end.

(** One KMS outcome as [apply] consumes it. *)
Record result := mkResult {
  r_sentAt : Time; r_class : Class_; r_err : option err; r_prim : option AEAD;
  r_wrapped : bytes; r_latency : Duration }.

Definition is_err (r : result) (target : err) : bool :=
  match r_err r with Some e => errors.Is e target | None => false end.

(** [backoff] with the jitter draw [u]. *)
Definition backoff (n : Z) (u : float64) : Duration :=
  Backoff n (c_BackoffMin cfg) (c_BackoffMax cfg) (c_BackoffJitter cfg) u.

(** [apply]'s rows.  The OK row on a nil DEK would dereference it. *)
Definition apply_OK (o : op) (d : option ptr) (r : result) (now : Time) (detail : string)
    (l : local) : option local :=
  let t := l_t l in
  let auditOp := if decide (o = OpWarm) then "unwrap" else op_name o in
  if Time.Before (r_sentAt r) (t_deniedAt t) then
    Some (audit (with_call OK 0 (r_latency r) (line now t auditOp "stale ok ignored" detail)) l)
  else
    match d with
    | None => None
    | Some p =>
        let id := d_id (deref t p) in
        let l := audit (with_call OK (d_kekVersion (deref t p)) (r_latency r)
                          (line now t auditOp "ok" detail)) l in
        let l := upd (λ t, set_lease (Renew (t_lease t) (r_sentAt r)).2 t) l in
        let l := if decide (o = OpGenerate)
                 then upd (λ t, set_active (Some p) (set_deks (<[id := p]> (t_deks t)) t)) l
                 else l in
        let l := if direct (l_t l) then l else upd (modify p (set_prim (r_prim r))) l in
        let l := upd (modify p (set_hotSince now)) l in
        let l := upd (set_attempt 0) l in
        let l := upd (λ t, set_pending (delete id (t_pending t)) t) l in
        if decide (t_state (l_t l) = Active) then Some l
        else Some (setState Active now "authorization renewed" 0 l)
    end.

Definition apply_Deny (o : op) (r : result) (now : Time) (l : local) : local :=
  let auditOp := if decide (o = OpWarm) then "unwrap" else op_name o in
  let l := audit (with_call Deny 0 (r_latency r)
                    (line now (l_t l) auditOp "denied" (Cause (r_err r)))) l in
  let '(purged, t) := purge (l_t l) in
  let l := upd (λ _, t) l in
  let l := upd (set_deniedAt now) l in
  let l := upd (λ t, set_lease (drop_lease (t_lease t)) t) l in
  let l := upd (set_nextProbeAt (Time.Add now (c_RevokedReprobe cfg))) l in
  if decide (t_state (l_t l) = Revoked) then l
  else setState Revoked now (fmtPurged "key revoked" purged) purged l.

Definition apply_Transient (o : op) (r : result) (now : Time) (u : float64) (l : local) : local :=
  let auditOp := if decide (o = OpWarm) then "unwrap" else op_name o in
  let l := audit (with_call (r_class r) 0 (r_latency r)
                    (line now (l_t l) auditOp "error" (Cause (r_err r)))) l in
  let l := upd (λ t, set_attempt (t_attempt t + 1) t) l in
  let l := upd (λ t, set_nextProbeAt (Time.Add now (backoff (t_attempt t) u)) t) l in
  let l := upd (λ t, set_pending ((λ _, t_nextProbeAt t) <$> t_pending t) t) l in
  let usable := Usable (t_lease (l_t l)) now && negb (direct (l_t l)) in
  match t_state (l_t l), usable with
  | Active, true => setState RidingThrough now "renewal failed" 0 l
  | Active, false =>
      let '(purged, t) := purge (l_t l) in
      let why := if direct t then "no cache: call failed" else "cold fetch failed" in
      setState KeyUnavailable now why purged (upd (λ _, t) l)
  | RidingThrough, false =>
      let '(purged, t) := purge (l_t l) in
      setState KeyUnavailable now (fmtPurged "lease expired" purged) purged (upd (λ _, t) l)
  | _, _ => l
  end.

Definition apply (o : op) (d : option ptr) (r : result) (now : Time) (u : float64)
    (l : local) : option local :=
  if is_err r errBusy || is_err r errStore then
    match o, d with
    | OpWarm, Some p =>
        Some (upd (λ t, set_pending (<[d_id (deref t p) := Time.Add now (c_SweepInterval cfg)]>
                                       (t_pending t)) t) l)
    | _, _ => Some l
    end
  else
    let detail := match d with
                  | Some p => if decide (o = OpWarm) then "warm " +:+ d_id (deref (l_t l) p) else ""
                  | None => ""
                  end in
    match r_class r with
    | OK => apply_OK o d r now detail l
    | Deny => Some (apply_Deny o r now l)
    | Transient | Poison => Some (apply_Transient o r now u l)
    end.
End Tenant.
