(* ===== verification/Prog.v ===== *)
(** * Programs of the core: sequences of atomic actions

    The methods of [cmek.Manager] run concurrently: each is a sequence of
    critical sections on one tenant, clock reads, KMS round trips and calls to
    singleflight.  A method is a program over these actions; [Manager.v] writes
    the methods, [Interleaving.v] runs any number of programs together, one
    action at a time. *)

From S2P Require Import Prelude GoLib GoFloat Kms Tink Lease Cmek Tenant.
Local Open Scope string_scope.
Local Open Scope Z_scope.

(** What [cfg.Spawn] is ever given: [m.probe(t)] or [m.warm(t, d)]. *)
Inductive task := TProbe (i : nat) | TWarm (i : nat) (p : Z).

Section Prog.
Context `{TK : Tink}.

(** What a singleflight call returns: its [any] value (nil, or the
    [generated] struct of [passThroughEncrypt]) and its error. *)
Inductive fval := FNil | FGenerated (d : option Z) (r : result).
Record fres := mkFres { f_val : fval; f_err : option err }.

Inductive ev : Type → Type :=
| ENow : ev Time                                          (* cfg.Clock.Now() *)
| EJitter : ev spec_float                                  (* cfg.Jitter.Float64() *)
| ECrit (i : nat) (B : Type) (f : local → option (B * local)) : ev B
    (* t.mu.Lock(); f; t.mu.Unlock() on tenant i; None is a panic inside *)
| ESem (p : string) : ev bool                              (* sem <- struct{}{} (true) raced against ctx.Done() (false) *)
| ESemRel (p : string) : ev unit                           (* <-sem *)
| EInfl (p : string) (n : Z) : ev unit                     (* m.inflight[p].Add(n) *)
| EKEK (k : string) : ev (option err)                      (* cfg.Keys.KEK(k) *)
| EEncrypt (k : string) (pt ad : bytes) : ev (err + bytes) (* the wrap round trip *)
| EDecrypt (k : string) (ct ad : bytes) : ev (err + bytes) (* the unwrap round trip *)
| ERand : ev bytes                                         (* fresh key material *)
| EPutDEK (d : WrappedDEK) : ev (option err)               (* cfg.Store.PutDEK *)
| EBegin (key : string) : ev (nat + nat)                   (* sf.Do: lead call c, or join call c *)
| EEnd (key : string) (c : nat) (r : fres) : ev unit       (* the leader's function returned *)
| EWait (c : nat) : ev fres                                (* a joiner's wait *)
| ESpawn (t : task) : ev unit                              (* cfg.Spawn *)
| EIssue (i : nat) (h : Handle) : ev unit                  (* a handle reaches the caller *)
| EPanic (A : Type) : ev A.                                (* a run-time panic *)

Inductive prog (A : Type) : Type :=
| Ret (a : A)
| Do {X : Type} (e : ev X) (k : X → prog A).
#[global] Arguments Ret {A}.
#[global] Arguments Do {A X}.

Fixpoint bind {A B} (p : prog A) (f : A → prog B) : prog B :=
  match p with
  | Ret a => f a
  | Do e k => Do e (λ x, bind (k x) f)
  end.

Definition act {X} (e : ev X) : prog X := Do e Ret.

(** A critical section that cannot panic. *)
Definition section {B} (i : nat) (f : local → B * local) : prog B :=
  act (ECrit i B (λ l, Some (f l))).
End Prog.

Declare Scope prog_scope.
Delimit Scope prog_scope with prog.
Bind Scope prog_scope with prog.
Notation "x ←ₚ c ; k" := (bind c (λ x, k))
  (at level 20, c at level 100, k at level 200, right associativity) : prog_scope.
Notation "' p ←ₚ c ; k" := (bind c (λ x, match x with p => k end))
  (at level 20, p pattern, c at level 100, k at level 200, right associativity) : prog_scope.
Notation "c ;;ₚ k" := (bind c (λ _, k))
  (at level 100, k at level 200, right associativity) : prog_scope.
