(* ===== verification/Manager.v ===== *)
(** * internal/cmek: manager.go and fetcher.go

    The methods of [cmek.Manager] as programs: construction, the fetcher
    ([call], [newDEK], [openDEK], [renew], [satisfied], [probe], [warm],
    [generate], [apply]) and the public calls.  Tenants are addressed by grid
    index; [m.tenants[id]] is [find_tenant]. *)

From S2P Require Import Prelude GoLib GoFloat Kms Tink Lease Cmek Tenant Prog.
Local Open Scope string_scope.
Local Open Scope Z_scope.
Local Open Scope prog_scope.

Section Manager.
Context `{TK : Tink} `{MR : MapRange}.

(** ** New *)

Definition def_ (d v : Duration) : Duration := if d <=? 0 then v else d.

Definition withDefaults (c : Config) : Config :=
  mkConfig (c_Tenants c) (c_Providers c) (c_HasJitter c)
    (def_ (c_Lease c) (30 * Second)) (def_ (c_SoftTTL c) (15 * Second))
    (def_ (c_EarlyExpiry c) Second) (def_ (c_KMSTimeout c) (500 * Millisecond))
    (def_ (c_BackoffMin c) (500 * Millisecond)) (def_ (c_BackoffMax c) (8 * Second))
    (def_ (c_RevokedReprobe c) (5 * Second)) (def_ (c_DEKMaxAge c) (10 * Minute))
    (def_ (c_SweepInterval c) (250 * Millisecond)) (c_BackoffJitter c)
    (if c_DEKMaxMessages c <=? 0 then 10000 else c_DEKMaxMessages c)
    (if c_ProviderInflight c <=? 0 then 32 else c_ProviderInflight c)
    (c_TenantInflight c)
    (if c_IngestWaiters c <=? 0 then 4 else c_IngestWaiters c).

Definition new_tenant (c : Config) (i : nat) (spec : TenantSpec) : tenant :=
  mkTenant i spec 0 Active (mkLease 0 (c_Lease c) (c_SoftTTL c) (c_EarlyExpiry c))
    ∅ ∅ None 0 0 0 false ∅ 0 0 FetchAsync.

(** [provider(p)]: the bulkhead and the in-flight counter of one provider. *)
Definition provider (p : string) (m : gmap string Z) : gmap string Z :=
  match m !! p with Some _ => m | None => <[p := 0]> m end.

(** [New]: the tenants in grid order and one zero counter per provider; [c]
    has its defaults applied. *)
Definition New (c : Config) : list local * gmap string Z :=
  (imap (λ i s, mkLocal (new_tenant c i s) Active []) (c_Tenants c),
   foldl (λ m s, provider (ts_Provider s) m) (foldl (λ m p, provider p m) ∅ (c_Providers c))
     (c_Tenants c)).

Context (cfg : Config).

(** [m.tenants[id]]: a later spec with the same id overwrites an earlier one. *)
Definition find_tenant (id : string) : option (nat * TenantSpec) :=
  foldl (λ acc '(i, s), if bool_decide (ts_ID s = id) then Some (i, s) else acc) None
    (imap pair (c_Tenants cfg)).

(** ** The fetcher *)

(** [newDEK]: a fresh keyset wrapped under the KEK with one KMS call. *)
Definition newDEK (kekID : string) : prog (err + (bytes * AEAD)) :=
  material ←ₚ act ERand;
  match NewHandle material with
  | inl s => Ret (inl (Errorf "cmek: new keyset: " (ErrText s) ""))
  | inr h =>
      r ←ₚ act (EEncrypt kekID (serialize h) (bytes_of kekID));
      match r with
      | inl e => Ret (inl (ErrText (write_error (err_text e))))
      | inr ct =>
          match aead_New h with
          | inl s => Ret (inl (Errorf "cmek: aead: " (ErrText s) ""))
          | inr prim => Ret (inr (frame_write ct, prim))
          end
      end
  end.

(** [openDEK]: the primitive from the wrapped keyset with one KMS call. *)
Definition openDEK (kekID : string) (wrapped : bytes) : prog (err + AEAD) :=
  match frame_read wrapped with
  | inl s => Ret (inl (ErrText s))
  | inr ct =>
      r ←ₚ act (EDecrypt kekID ct (bytes_of kekID));
      match r with
      | inl e => Ret (inl (ErrText (read_error (err_text e))))
      | inr pt =>
          match parse pt with
          | inl s => Ret (inl (ErrText s))
          | inr h => match aead_New h with
                     | inl s => Ret (inl (ErrText s))
                     | inr prim => Ret (inr prim)
                     end
          end
      end
  end.

(** [d.wrapped], an immutable field read through the pointer. *)
Definition read_wrapped (i : nat) (d : option Z) : prog bytes :=
  act (ECrit i bytes (λ l, match d with
                           | Some p => Some (d_wrapped (deref (l_t l) p), l)
                           | None => None
                           end)).

(** The tenant-cap section of [call]: naive? admitted? counted? *)
Definition call_enter (l : local) : (bool * bool * bool) * local :=
  let t := l_t l in
  let naive := bool_decide (t_fetch t = FetchNaive) in
  if negb naive && (0 <? c_TenantInflight cfg) then
    if c_TenantInflight cfg <=? t_inflight t then ((naive, false, false), l)
    else ((naive, true, true), upd (set_inflight (t_inflight t + 1)) l)
  else ((naive, true, false), l).

Definition call_leave (l : local) : unit * local :=
  (tt, upd (λ t, set_inflight (t_inflight t - 1) t) l).

(** [call] past the tenant cap. *)
Definition call_body (i : nat) (spec : TenantSpec) (naive : bool) (o : op) (d : option Z)
  : prog result :=
  let prov := ts_Provider spec in
  acquired ←ₚ (if naive then Ret true else act (ESem prov));
  if negb acquired then
    now ←ₚ act ENow;
    Ret (mkResult now Transient (Some (Errorf ("bulkhead " +:+ prov +:+ ": ") DeadlineExceeded ""))
           None [] 0)
  else
    act (EInfl prov 1) ;;ₚ
    sentAt ←ₚ act ENow;
    kek ←ₚ act (EKEK (ts_KEKID spec));
    '(e, prim, wrapped) ←ₚ
      match kek with
      | Some e => Ret (Some e, None, [])
      | None =>
          if decide (o = OpGenerate) then
            x ←ₚ newDEK (ts_KEKID spec);
            match x with
            | inl e => Ret (Some e, None, [])
            | inr (w, prim) => Ret (None, Some prim, w)
            end
          else
            w ←ₚ read_wrapped i d;
            x ←ₚ openDEK (ts_KEKID spec) w;
            match x with
            | inl e => Ret (Some e, None, [])
            | inr prim => Ret (None, Some prim, [])
            end
      end;
    done_ ←ₚ act ENow;
    act (EInfl prov (-1)) ;;ₚ
    (if naive then Ret tt else act (ESemRel prov)) ;;ₚ
    Ret (mkResult sentAt (Classify e) e prim wrapped (Time.Sub done_ sentAt)).

(** [call]: the only path to the KMS. *)
Definition call (i : nat) (spec : TenantSpec) (o : op) (d : option Z) : prog result :=
  '(naive, admitted, counted) ←ₚ section i call_enter;
  if negb admitted then Ret (mkResult 0 OK (Some errBusy) None [] 0)
  else
    r ←ₚ call_body i spec naive o d;
    (if counted : bool then section i call_leave else Ret tt) ;;ₚ
    Ret r.

(** Whether [apply] takes the transient row, the one that draws jitter. *)
Definition transient_row (r : result) : bool :=
  negb (is_err r errBusy || is_err r errStore)
  && (bool_decide (r_class r = Transient) || bool_decide (r_class r = Poison)).

Definition draw (r : result) : prog spec_float :=
  if transient_row r && c_HasJitter cfg then act EJitter else Ret F.half.

(** [apply]: the only state mutator. *)
Definition apply_call (i : nat) (o : op) (d : option Z) (r : result) : prog unit :=
  now ←ₚ act ENow;
  u ←ₚ draw r;
  act (ECrit i unit (λ l, (λ l', (tt, l')) <$> apply cfg o d r now u l)).

(** Allocation of "<t>/<seq+1>" in [generate]. *)
Definition alloc_dek (spec : TenantSpec) (wrapped : bytes) (now : Time) (l : local) : Z * local :=
  let p := t_seq (l_t l) + 1 in
  let d := mkDek (ts_ID spec +:+ "/" +:+ Itoa p) wrapped 1 None 0 now 0 in
  (p, upd (λ t, set_heap (<[p := d]> (t_heap t)) (set_seq p t)) l).

(** [generate]: persist before install. *)
Definition generate (i : nat) (spec : TenantSpec) : prog (option Z * result) :=
  r ←ₚ call i spec OpGenerate None;
  match r_err r with
  | Some _ => apply_call i OpGenerate None r ;;ₚ Ret (None, r)
  | None =>
      now ←ₚ act ENow;
      p ←ₚ section i (alloc_dek spec (r_wrapped r) now);
      e ←ₚ act (EPutDEK (mkWrapped (ts_ID spec +:+ "/" +:+ Itoa p) (ts_ID spec) (ts_KEKID spec) 1
                           (r_wrapped r) now));
      match e with
      | Some e =>
          let r := mkResult (r_sentAt r) (r_class r)
                     (Some (Errorf "" errStore (": " +:+ err_text e)))
                     (r_prim r) (r_wrapped r) (r_latency r) in
          apply_call i OpGenerate (Some p) r ;;ₚ Ret (None, r)
      | None => apply_call i OpGenerate (Some p) r ;;ₚ Ret (Some p, r)
      end
  end.

(** [sf.Do(key, f)]: lead the flight or join the one in progress. *)
Definition sf_Do (key : string) (f : prog fres) : prog fres :=
  c ←ₚ act (EBegin key);
  match c with
  | inl c => r ←ₚ f; act (EEnd key c r) ;;ₚ Ret r
  | inr c => act (EWait c)
  end.

(** [satisfied]. *)
Definition satisfied_at (cold : bool) (now : Time) (t : tenant) : bool :=
  let fresh := match t_active t with
               | None => false
               | Some p =>
                   is_hot (deref t p) && Usable (t_lease t) now
                   && negb (bool_decide (t_state t = Active) && exhausted cfg (deref t p) now)
               end in
  if cold then fresh
  else bool_decide (t_state t = Active) && fresh && negb (SoftDue (t_lease t) now).

Definition satisfied (i : nat) (cold : bool) : prog bool :=
  now ←ₚ act ENow;
  section i (λ l, (satisfied_at cold now (l_t l), l)).

(** The decision section of [renew] and of [passThroughEncrypt]'s [needGen]. *)
Definition need (cold : bool) (now : Time) (t : tenant) : option Z * bool :=
  (t_active t,
   match t_active t with
   | None => true
   | Some p => cold && bool_decide (t_state t = Active) && exhausted cfg (deref t p) now
   end).

Definition key_active (spec : TenantSpec) : string := ts_ID spec +:+ "/active".
Definition key_generate (spec : TenantSpec) : string := ts_ID spec +:+ "/generate".

(** [renew]: one authorization call behind singleflight. *)
Definition renew (i : nat) (spec : TenantSpec) (cold : bool) : prog (option err) :=
  now ←ₚ act ENow;
  '(d, gen) ←ₚ section i (λ l, (need cold now (l_t l), l));
  r ←ₚ sf_Do (if gen : bool then key_generate spec else key_active spec)
    (s ←ₚ satisfied i cold;
     if s : bool then Ret (mkFres FNil None)
     else if gen : bool then
       '(_, r) ←ₚ generate i spec;
       Ret (mkFres FNil (r_err r))
     else
       r ←ₚ call i spec OpUnwrap d;
       apply_call i OpUnwrap d r ;;ₚ
       Ret (mkFres FNil (r_err r)));
  Ret (f_err r).

Definition clearProbing (i : nat) : prog unit :=
  section i (λ l, (tt, upd (set_probing false) l)).

Definition probe (i : nat) (spec : TenantSpec) : prog unit :=
  renew i spec false ;;ₚ clearProbing i.

(** The check section of [warm]: already hot? then no longer pending. *)
Definition warm_check (p : Z) (l : local) : bool * local :=
  let d := deref (l_t l) p in
  if is_hot d then (true, upd (λ t, set_pending (delete (d_id d) (t_pending t)) t) l)
  else (false, l).

Definition read_id (i : nat) (p : Z) : prog string :=
  section i (λ l, (d_id (deref (l_t l) p), l)).

Definition warm (i : nat) (spec : TenantSpec) (p : Z) : prog unit :=
  id ←ₚ read_id i p;
  sf_Do (ts_ID spec +:+ "/" +:+ id)
    (h ←ₚ section i (warm_check p);
     if h : bool then Ret (mkFres FNil None)
     else
       r ←ₚ call i spec OpUnwrap (Some p);
       apply_call i OpWarm (Some p) r ;;ₚ
       Ret (mkFres FNil (r_err r))) ;;ₚ
  clearProbing i.

(** What a spawned goroutine runs. *)
Definition run_task (t : task) : prog unit :=
  match t with
  | TProbe i => match c_Tenants cfg !! i with Some spec => probe i spec | None => Ret tt end
  | TWarm i p => match c_Tenants cfg !! i with Some spec => warm i spec p | None => Ret tt end
  end.
End Manager.
