(* ===== verification/Api.v ===== *)
(** * internal/cmek/manager.go: the public calls

    [SetFetch] and its two wrappers, the pass-through path, [EncryptKey],
    [DecryptKey], [Hot], [Warm], [Tick], [Info], [States] and [Inflight], each
    a program over the sections defined next to it. *)

From S2P Require Import Prelude GoLib GoFloat Kms Tink Lease Cmek Tenant Prog Manager.
Local Open Scope string_scope.
Local Open Scope Z_scope.
Local Open Scope prog_scope.

Section Api.
Context `{TK : Tink} `{MR : MapRange}.
Context (cfg : Config).

(** ** SetFetch *)

Definition set_fetch_section (mode : Fetch) (now : Time) (l : local) : unit * local :=
  if decide (t_fetch (l_t l) = mode) then (tt, l)
  else
    let was := direct (l_t l) in
    let l := upd (set_fetch mode) l in
    if direct (l_t l) && negb was then
      let '(purged, t) := purge (l_t l) in
      let l := upd (λ _, t) l in
      if 0 <? purged
      then (tt, audit (with_purged purged (line now t "purge" "cache off" "per-request KMS calls")) l)
      else (tt, l)
    else (tt, l).

Definition SetFetch (id : string) (mode : Fetch) : prog unit :=
  match find_tenant cfg id with
  | None => Ret tt
  | Some (i, _) => now ←ₚ act ENow; section i (set_fetch_section mode now)
  end.

Definition SetPassThrough (id : string) (on : bool) : prog unit :=
  if on then SetFetch id FetchPassThrough else SetFetch id FetchAsync.

Definition SetNaive (id : string) (on : bool) : prog unit :=
  if on then SetFetch id FetchNaive else SetFetch id FetchAsync.

(** ** The pass-through path *)

(** The success section of [passThroughHandle]; a nil DEK would be dereferenced. *)
Definition ptHandle_section (d : option Z) (r : result) (count : bool) (now : Time) (l : local)
  : option ((err + Handle) * local) :=
  let t := l_t l in
  if decide (t_state t = Revoked) then Some (inl ErrKeyRevoked, l)
  else if negb (Usable (t_lease t) now) then Some (inl ErrKeyUnavailable, l)
  else match d with
       | None => None
       | Some p =>
           let l := if count then upd (modify p (λ d, set_msgs (d_msgs d + 1) d)) l else l in
           Some (inr (mkHandle (d_id (deref t p)) (Until (t_lease t)) (r_prim r)), l)
       end.

Definition passThroughHandle (i : nat) (d : option Z) (r : result) (count : bool)
  : prog (err + Handle) :=
  match r_err r with
  | None => now ←ₚ act ENow; act (ECrit i _ (ptHandle_section d r count now))
  | Some e =>
      if decide (r_class r = Deny) then Ret (inl ErrKeyRevoked)
      else if errors.Is e errStore then Ret (inl e)
      else Ret (inl ErrKeyUnavailable)
  end.

Definition needGen (i : nat) : prog (option Z * bool) :=
  now ←ₚ act ENow; section i (λ l, (need cfg true now (l_t l), l)).

(** [v.(generated)] panics when a joined flight returned nil. *)
Definition passThroughEncrypt (i : nat) (spec : TenantSpec) : prog (err + Handle) :=
  '(d, gen) ←ₚ needGen i;
  if negb gen then
    r ←ₚ call cfg i spec OpUnwrap d;
    apply_call cfg i OpUnwrap d r ;;ₚ
    passThroughHandle i d r true
  else
    v ←ₚ sf_Do (key_generate spec)
      ('(d, still) ←ₚ needGen i;
       if negb still then
         r ←ₚ call cfg i spec OpUnwrap d;
         apply_call cfg i OpUnwrap d r ;;ₚ
         Ret (mkFres (FGenerated d r) None)
       else
         '(d, r) ←ₚ generate cfg i spec;
         Ret (mkFres (FGenerated d r) None));
    match f_val v with
    | FGenerated d r => passThroughHandle i d r true
    | FNil => act (EPanic _)
    end.

(** ** EncryptKey *)

Inductive enc_next :=
| EncProbe                        (* sync fetch: probe inline, then decide *)
| EncFail (e : err)               (* a parked state or the waiter cap *)
| EncDirect                       (* no cache: passThroughEncrypt *)
| EncHot (h : Handle) (kick : bool)
| EncCold.                        (* one synchronous fetch *)

(** From the state switch to the unlock. *)
Definition enc_decide (now : Time) (l : local) : enc_next * local :=
  match t_state (l_t l) with
  | Revoked => (EncFail ErrKeyRevoked, l)
  | KeyUnavailable => (EncFail ErrKeyUnavailable, l)
  | Active | RidingThrough =>
      if direct (l_t l) then (EncDirect, l)
      else
        match handle cfg now l with
        | (Some h, l) =>
            let t := l_t l in
            let kick := bool_decide (t_state t = Active) && SoftDue (t_lease t) now
                        && negb (t_probing t) && negb (bool_decide (t_fetch t = FetchSync)) in
            (EncHot h kick, if kick then upd (set_probing true) l else l)
        | (None, l) =>
            if c_IngestWaiters cfg <=? t_waiters (l_t l) then (EncFail ErrKeyUnavailable, l)
            else (EncCold, upd (λ t, set_waiters (t_waiters t + 1) t) l)
        end
  end.

Definition probe_due (now : Time) (t : tenant) : bool :=
  negb (t_probing t) && negb (bool_decide (t_state t = Active))
  && negb (Time.Before now (t_nextProbeAt t)).

(** The first lock: an inline probe, or the decision at once. *)
Definition enc_first (now : Time) (l : local) : enc_next * local :=
  if bool_decide (t_fetch (l_t l) = FetchSync) && probe_due now (l_t l)
  then (EncProbe, upd (set_probing true) l)
  else enc_decide now l.

(** After the cold fetch. *)
Definition enc_last (e : option err) (now : Time) (l : local) : (err + Handle) * local :=
  let l := upd (λ t, set_waiters (t_waiters t - 1) t) l in
  if decide (t_state (l_t l) = Revoked) then (inl ErrKeyRevoked, l)
  else match handle cfg now l with
       | (Some h, l) => (inr h, l)
       | (None, l) =>
           match e with
           | Some e => if errors.Is e errStore then (inl e, l) else (inl ErrKeyUnavailable, l)
           | None => (inl ErrKeyUnavailable, l)
           end
       end.

Definition enc_continue (i : nat) (spec : TenantSpec) (n : enc_next) : prog (err + Handle) :=
  match n with
  | EncProbe => act (EPanic _) (* enc_decide never asks for a probe *)
  | EncFail e => Ret (inl e)
  | EncDirect => passThroughEncrypt i spec
  | EncHot h kick =>
      (if kick then act (ESpawn (TProbe i)) else Ret tt) ;;ₚ Ret (inr h)
  | EncCold =>
      e ←ₚ renew cfg i spec true;
      now ←ₚ act ENow;
      section i (enc_last e now)
  end.

Definition EncryptKey (id : string) : prog (err + Handle) :=
  match find_tenant cfg id with
  | None => Ret (inl ErrKeyUnavailable)
  | Some (i, spec) =>
      now ←ₚ act ENow;
      n ←ₚ section i (enc_first now);
      match n with
      | EncProbe =>
          probe cfg i spec ;;ₚ
          now ←ₚ act ENow;
          n ←ₚ section i (enc_decide now);
          enc_continue i spec n
      | _ => enc_continue i spec n
      end
  end.

(** ** DecryptKey *)

Inductive dec_next :=
| DecProbe | DecWarm (p : Z)      (* sync fetch: work inline, then decide *)
| DecFail (e : err)
| DecDirect (p : Z)
| DecOk (h : Handle).

Definition dec_decide (dekID : string) (p : Z) (now : Time) (l : local) : dec_next * local :=
  let t := l_t l in
  match t_state t with
  | Revoked => (DecFail ErrKeyRevoked, l)
  | KeyUnavailable => (DecFail ErrLeaseExpired, l)
  | Active | RidingThrough =>
      if direct t then (DecDirect p, l)
      else if negb (Usable (t_lease t) now) then (DecFail ErrLeaseExpired, l)
      else match d_prim (deref t p) with
           | None => (DecFail ErrDEKCold, l)
           | Some prim => (DecOk (mkHandle dekID (Until (t_lease t)) (Some prim)), l)
           end
  end.

(** The sync-fetch switch: which inline work, if any. *)
Definition dec_inline (p : Z) (now : Time) (t : tenant) : option dec_next :=
  if negb (bool_decide (t_fetch t = FetchSync)) || t_probing t then None
  else if bool_decide (t_state t = Active) && SoftDue (t_lease t) now then Some DecProbe
  else if negb (bool_decide (t_state t = Active)) && negb (Time.Before now (t_nextProbeAt t))
  then Some DecProbe
  else if (bool_decide (t_state t = Active) || bool_decide (t_state t = RidingThrough))
          && Usable (t_lease t) now && negb (is_hot (deref t p))
  then Some (DecWarm p)
  else None.

Definition dec_first (dekID : string) (now : Time) (l : local) : (dec_next * Z) * local :=
  match t_deks (l_t l) !! dekID with
  | None => ((DecFail ErrPoison, 0), l)
  | Some p =>
      match dec_inline p now (l_t l) with
      | Some n => ((n, p), upd (set_probing true) l)
      | None => let '(n, l) := dec_decide dekID p now l in ((n, p), l)
      end
  end.

Definition dec_continue (i : nat) (spec : TenantSpec) (n : dec_next) : prog (err + Handle) :=
  match n with
  | DecProbe | DecWarm _ => act (EPanic _) (* dec_decide never asks for inline work *)
  | DecFail e => Ret (inl e)
  | DecDirect p =>
      r ←ₚ call cfg i spec OpUnwrap (Some p);
      apply_call cfg i OpUnwrap (Some p) r ;;ₚ
      passThroughHandle i (Some p) r false
  | DecOk h => Ret (inr h)
  end.

Definition DecryptKey (id dekID : string) : prog (err + Handle) :=
  match find_tenant cfg id with
  | None => Ret (inl ErrPoison)
  | Some (i, spec) =>
      now ←ₚ act ENow;
      '(n, p) ←ₚ section i (dec_first dekID now);
      match n with
      | DecProbe | DecWarm _ =>
          (match n with DecWarm p => warm cfg i spec p | _ => probe cfg i spec end) ;;ₚ
          now ←ₚ act ENow;
          n ←ₚ section i (dec_decide dekID p now);
          dec_continue i spec n
      | _ => dec_continue i spec n
      end
  end.

(** ** Hot *)

Definition hot_section (now : Time) (l : local) : (bool * bool) * local :=
  let t := l_t l in
  if direct t then ((bool_decide (t_state t = Active), false), l)
  else
    let usable := Usable (t_lease t) now in
    let active := bool_decide (t_state t = Active) in
    let hot := (active || bool_decide (t_state t = RidingThrough)) && usable
               && bool_decide (size (t_pending t) = 0%nat) in
    let kick := active && negb (t_probing t) && (negb usable || SoftDue (t_lease t) now) in
    let sync := bool_decide (t_fetch t = FetchSync) in
    let hot := if sync
               then hot || (negb (t_probing t)
                            && ((active && negb usable)
                                || (negb active && negb (Time.Before now (t_nextProbeAt t)))))
               else hot in
    let kick := if sync then false else kick in
    ((hot, kick), if kick then upd (set_probing true) l else l).

Definition Hot (id : string) : prog bool :=
  match find_tenant cfg id with
  | None => Ret false
  | Some (i, _) =>
      now ←ₚ act ENow;
      '(hot, kick) ←ₚ section i (hot_section now);
      (if kick : bool then act (ESpawn (TProbe i)) else Ret tt) ;;ₚ
      Ret hot
  end.

(** ** Warm *)

Definition warm_section (dekID : string) (now : Time) (l : local) : option Z * local :=
  let t := l_t l in
  match t_deks t !! dekID with
  | None => (None, l)
  | Some p =>
      if direct t then (None, l)
      else match t_pending t !! dekID with
           | Some _ => (None, l)
           | None =>
               let l := upd (set_pending (<[dekID := now]> (t_pending t))) l in
               if negb (t_probing t)
                  && (bool_decide (t_state t = Active) || bool_decide (t_state t = RidingThrough))
                  && Usable (t_lease t) now
               then (Some p, upd (set_probing true) l)
               else (None, l)
           end
  end.

Definition Warm (id dekID : string) : prog unit :=
  match find_tenant cfg id with
  | None => Ret tt
  | Some (i, _) =>
      now ←ₚ act ENow;
      kick ←ₚ section i (warm_section dekID now);
      match kick with
      | Some p => act (ESpawn (TWarm i p))
      | None => Ret tt
      end
  end.

(** ** Tick *)

(** 1. lease lapse *)
Definition tick_lapse (now : Time) (l : local) : local :=
  let t := l_t l in
  if negb (Time.IsZero (SentAt (t_lease t))) && negb (Usable (t_lease t) now) && (0 <? hot t) then
    let '(purged, t') := purge t in
    let l := upd (λ _, t') l in
    if decide (t_state t' = RidingThrough)
    then setState KeyUnavailable now (fmtPurged "lease expired" purged) purged l
    else audit (with_purged purged (line now t' "purge" "idle" "lease lapsed with no traffic")) l
  else l.

(** 2. ageing of non-active DEKs *)
Definition tick_age1 (now : Time) (l : local) (p : Z) : local :=
  let t := l_t l in
  let d := deref t p in
  if negb (bool_decide (t_active t = Some p)) && is_hot d
     && (dur_add (c_DEKMaxAge cfg) (c_Lease cfg) <=? Time.Sub now (d_hotSince d))
  then audit (with_purged 1 (line now t "purge" "aged" (d_id d)))
         (upd (modify p (set_prim None)) l)
  else l.

Definition tick_age (now : Time) (l : local) : local :=
  foldl (tick_age1 now) l (snd <$> range (t_deks (l_t l))).

(** 3. the due probe or the first due warm in visiting order *)
Definition tick_warm (now : Time) (t : tenant) : option Z :=
  foldr (λ '(id, at_) rest,
           match t_deks t !! id with
           | Some p => if Time.Before now at_ then rest else Some p
           | None => rest
           end) None (range (t_pending t)).

Definition tick_due (now : Time) (l : local) : option task * local :=
  let t := l_t l in
  if negb (bool_decide (t_state t = Active)) && negb (t_probing t)
     && negb (Time.Before now (t_nextProbeAt t)) && negb (bool_decide (t_fetch t = FetchSync))
  then (Some (TProbe (t_idx t)), upd (set_probing true) l)
  else if (bool_decide (t_state t = Active) || bool_decide (t_state t = RidingThrough))
          && Usable (t_lease t) now && negb (t_probing t)
  then match tick_warm now t with
       | Some p => (Some (TWarm (t_idx t) p), upd (set_probing true) l)
       | None => (None, l)
       end
  else (None, l).

Definition tick_section (now : Time) (l : local) : option task * local :=
  tick_due now (tick_age now (tick_lapse now l)).

(** One tenant after the other, each due task spawned after its unlock. *)
Fixpoint tick_from (now : Time) (order : list nat) : prog unit :=
  match order with
  | [] => Ret tt
  | i :: rest =>
      due ←ₚ section i (tick_section now);
      (match due with Some t => act (ESpawn t) | None => Ret tt end) ;;ₚ
      tick_from now rest
  end.

Definition Tick (now : Time) : prog unit := tick_from now (seq 0 (length (c_Tenants cfg))).

(** ** Read models *)

Definition info_section (now : Time) (l : local) : TenantInfo * local :=
  let t := l_t l in
  let leased := negb (Time.IsZero (SentAt (t_lease t))) in
  let rem := Remaining (t_lease t) now in
  (mkInfo (t_state t)
     (if leased then Time.Sub now (SentAt (t_lease t)) else 0)
     (if leased && (0 <? rem) then rem else 0)
     (if negb (bool_decide (t_state t = Active)) && Time.After (t_nextProbeAt t) now
      then Time.Sub (t_nextProbeAt t) now else 0)
     (match t_active t with Some p => d_id (deref t p) | None => "" end)
     (Z.of_nat (size (t_deks t))) (hot t) (Z.of_nat (size (t_pending t))) (t_attempt t)
     (t_waiters t) (t_probing t), l).

Definition zeroInfo : TenantInfo := mkInfo Active 0 0 0 "" 0 0 0 0 0 false.

Definition Info (id : string) : prog TenantInfo :=
  match find_tenant cfg id with
  | None => Ret zeroInfo
  | Some (i, _) => now ←ₚ act ENow; section i (info_section now)
  end.

(** [States(dst)]: the grid array into [dst], cell by cell, as far as it goes. *)
Definition States (ls : list local) (dst : list State) : list State :=
  imap (λ i s, match ls !! i with Some l => l_cell l | None => s end) dst.

(** [Inflight(provider)]. *)
Definition Inflight (m : gmap string Z) (p : string) : Z := default 0 (m !! p).
End Api.
