(* ===== verification/Interleaving.v ===== *)
(** * Concurrent executions of the core

    The world is the manager's shared state, the key service, the clock and a
    pool of goroutines, each a program that is part-way through a method.  A
    step runs one action of one goroutine, lets the clock advance, lets the key
    service change, or starts another call.  [wp] is the logic the safety
    theorems are proved in: a program is safe when every action it performs
    keeps a per-tenant invariant, whatever the others do in between. *)

From S2P Require Import Prelude GoLib GoFloat Kms Tink KmsModel Lease Cmek Tenant Prog Manager Api.
From stdpp Require Import relations.
Local Open Scope string_scope.
Local Open Scope Z_scope.

Section Interleaving.
Context `{TK : Tink} `{MR : MapRange} `{KM : KMSModel}.
Context (cfg : Config).

(** ** Worlds *)

Record World := mkWorld {
  w_now : Time;
  w_kms : kms_state;
  w_loc : list local;                (* one entry per tenant, grid order *)
  w_sem : gmap string Z;             (* tokens held in each provider's bulkhead *)
  w_infl : gmap string Z;            (* calls inside each provider *)
  w_flight : gmap string nat;        (* singleflight: the call in progress per key *)
  w_calls : list (string * option fres); (* singleflight calls: key, and the result once returned *)
  w_thr : list (prog unit);          (* the goroutines *)
  w_issued : list (nat * Handle);    (* every handle handed to a caller *)
  w_deks : list WrappedDEK           (* what the DEK store accepted *)
}.

Definition with_now (n : Time) (w : World) : World :=
  mkWorld n (w_kms w) (w_loc w) (w_sem w) (w_infl w) (w_flight w) (w_calls w) (w_thr w) (w_issued w) (w_deks w).
Definition with_kms (s : kms_state) (w : World) : World :=
  mkWorld (w_now w) s (w_loc w) (w_sem w) (w_infl w) (w_flight w) (w_calls w) (w_thr w) (w_issued w) (w_deks w).
Definition with_loc (ls : list local) (w : World) : World :=
  mkWorld (w_now w) (w_kms w) ls (w_sem w) (w_infl w) (w_flight w) (w_calls w) (w_thr w) (w_issued w) (w_deks w).
Definition with_sem (m : gmap string Z) (w : World) : World :=
  mkWorld (w_now w) (w_kms w) (w_loc w) m (w_infl w) (w_flight w) (w_calls w) (w_thr w) (w_issued w) (w_deks w).
Definition with_infl (m : gmap string Z) (w : World) : World :=
  mkWorld (w_now w) (w_kms w) (w_loc w) (w_sem w) m (w_flight w) (w_calls w) (w_thr w) (w_issued w) (w_deks w).
Definition with_flights (m : gmap string nat) (cs : list (string * option fres)) (w : World) : World :=
  mkWorld (w_now w) (w_kms w) (w_loc w) (w_sem w) (w_infl w) m cs (w_thr w) (w_issued w) (w_deks w).
Definition with_thr (ts : list (prog unit)) (w : World) : World :=
  mkWorld (w_now w) (w_kms w) (w_loc w) (w_sem w) (w_infl w) (w_flight w) (w_calls w) ts (w_issued w) (w_deks w).
Definition with_issued (hs : list (nat * Handle)) (w : World) : World :=
  mkWorld (w_now w) (w_kms w) (w_loc w) (w_sem w) (w_infl w) (w_flight w) (w_calls w) (w_thr w) hs (w_deks w).
Definition with_deks (ds : list WrappedDEK) (w : World) : World :=
  mkWorld (w_now w) (w_kms w) (w_loc w) (w_sem w) (w_infl w) (w_flight w) (w_calls w) (w_thr w) (w_issued w) ds.

(** ** Steps *)

(** One action; the bulkhead admits while it holds fewer tokens than its
    capacity, a wait may always time out, and a joiner waits for its call. *)
Inductive estep : ∀ X, ev X → World → X → World → Prop :=
| S_now w : estep _ ENow w (w_now w) w
| S_jitter w u : estep _ EJitter w u w
| S_crit w i B f l x l' :
    w_loc w !! i = Some l → f l = Some (x, l') →
    estep _ (ECrit i B f) w x (with_loc (<[i := l']> (w_loc w)) w)
| S_sem w p :
    default 0 (w_sem w !! p) < c_ProviderInflight cfg →
    estep _ (ESem p) w true (with_sem (<[p := default 0 (w_sem w !! p) + 1]> (w_sem w)) w)
| S_sem_timeout w p : estep _ (ESem p) w false w
| S_sem_release w p :
    estep _ (ESemRel p) w tt (with_sem (<[p := default 0 (w_sem w !! p) - 1]> (w_sem w)) w)
| S_infl w p n :
    estep _ (EInfl p n) w tt (with_infl (<[p := default 0 (w_infl w !! p) + n]> (w_infl w)) w)
| S_kek w k : estep _ (EKEK k) w (kms_KEK (w_kms w) k) w
| S_encrypt w k pt ad r :
    kms_encrypt (w_kms w) k pt ad r → estep _ (EEncrypt k pt ad) w r w
| S_decrypt w k ct ad r :
    kms_decrypt (w_kms w) k ct ad r → estep _ (EDecrypt k ct ad) w r w
| S_rand w b : estep _ ERand w b w
| S_put w d : estep _ (EPutDEK d) w None (with_deks (w_deks w ++ [d])%list w)
| S_put_error w d e : estep _ (EPutDEK d) w (Some e) w
| S_lead w key :
    w_flight w !! key = None →
    estep _ (EBegin key) w (inl (length (w_calls w)))
      (with_flights (<[key := length (w_calls w)]> (w_flight w)) (w_calls w ++ [(key, None)])%list w)
| S_join w key c :
    w_flight w !! key = Some c → estep _ (EBegin key) w (inr c) w
| S_end w key c r :
    estep _ (EEnd key c r) w tt
      (with_flights (delete key (w_flight w)) (<[c := (key, Some r)]> (w_calls w)) w)
| S_wait w c key r : w_calls w !! c = Some (key, Some r) → estep _ (EWait c) w r w
| S_spawn w t : estep _ (ESpawn t) w tt (with_thr (w_thr w ++ [run_task cfg t])%list w)
| S_issue w i h : estep _ (EIssue i h) w tt (with_issued (w_issued w ++ [(i, h)])%list w).

(** The calls the rest of the program makes. *)
Definition issue (id : string) (r : err + Handle) : prog unit :=
  match r, find_tenant cfg id with
  | inr h, Some (i, _) => act (EIssue i h)
  | _, _ => Ret tt
  end.

Inductive api : prog unit → Prop :=
| A_EncryptKey id : api (bind (EncryptKey cfg id) (issue id))
| A_DecryptKey id dekID : api (bind (DecryptKey cfg id dekID) (issue id))
| A_Hot id : api (bind (Hot cfg id) (λ _, Ret tt))
| A_Warm id dekID : api (Warm cfg id dekID)
| A_Tick : api (bind (act ENow) (Tick cfg))
| A_SetFetch id mode : api (SetFetch cfg id mode)
| A_Info id : api (bind (Info cfg id) (λ _, Ret tt)).

Inductive step : World → World → Prop :=
| St_thread w j X (e : ev X) k x w' :
    w_thr w !! j = Some (Do e k) → estep X e w x w' →
    step w (with_thr (<[j := k x]> (w_thr w')) w')
| St_time w n : w_now w <= n → step w (with_now n w)
| St_kms w st : kms_step (w_now w) (w_kms w) st → step w (with_kms st w)
| St_call w p : api p → step w (with_thr (w_thr w ++ [p])%list w).

Definition init (now : Time) (st : kms_state) : World :=
  mkWorld now st (New cfg).1 ∅ (New cfg).2 ∅ [] [] [] [].

Definition reachable (now : Time) (st : kms_state) (w : World) : Prop := rtc step (init now st) w.

(** ** The logic *)

(** What a goroutine may rely on about the past: the clock and the key
    horizons only move forward, a DEK once allocated stays allocated, one
    once installed in the tenant's map stays installed, and a flight keeps
    its key. *)
Record Hist := mkHist {
  h_now : Time; h_hor : string → Time;
  h_alloc : nat → Z → Prop; h_inst : nat → Z → Prop;
  h_call : nat → string → Prop }.

Definition allocated (l : local) (p : Z) : Prop := is_Some (t_heap (l_t l) !! p).
Definition installed (l : local) (p : Z) : Prop := ∃ id, t_deks (l_t l) !! id = Some p.

Definition hist (w : World) : Hist :=
  mkHist (w_now w) (horizon (w_kms w) (w_now w))
    (λ i p, ∃ l, w_loc w !! i = Some l ∧ allocated l p)
    (λ i p, ∃ l, w_loc w !! i = Some l ∧ installed l p)
    (λ c key, ∃ r, w_calls w !! c = Some (key, r)).

Record hle (h h' : Hist) : Prop := mkHle {
  hle_now : h_now h <= h_now h';
  hle_hor : ∀ k, h_hor h k <= h_hor h' k;
  hle_alloc : ∀ i p, h_alloc h i p → h_alloc h' i p;
  hle_inst : ∀ i p, h_inst h i p → h_inst h' i p;
  hle_call : ∀ c key, h_call h c key → h_call h' c key }.

#[export] Instance hle_preorder : PreOrder hle.
Proof.
  split; [split; intros; lia || done|].
  intros a b c [H1 H2 H2a H2b H2c] [H3 H4 H4a H4b H4c]. split; [lia| |auto..].
  intros k. specialize (H2 k). specialize (H4 k). lia.
Qed.

(** The past agrees with the tenant's pointers, and a section only adds to them. *)
Definition agrees (h : Hist) (i : nat) (l : local) : Prop :=
  (∀ p, h_alloc h i p ↔ allocated l p) ∧ (∀ p, h_inst h i p ↔ installed l p).
Definition grows (l l' : local) : Prop :=
  (∀ p, allocated l p → allocated l' p) ∧ (∀ p, installed l p → installed l' p).

Section wp.
(** The invariant of one tenant, the fact about an issued handle, the fact
    about a result that a flight of a given key shares, and what a spawned
    task relies on. *)
Context (LI : Hist → nat → local → Prop) (HI : Hist → nat → Handle → Prop)
  (FR : Hist → string → fres → Prop) (TO : Hist → task → Prop).

Definition ev_ok (h : Hist) {X} (e : ev X) : (Hist → X → Prop) → Prop :=
  match e in ev X return (Hist → X → Prop) → Prop with
  | ENow => λ K, K h (h_now h)
  | ECrit i B f => λ K, ∀ l, LI h i l → agrees h i l →
      ∃ x l', f l = Some (x, l') ∧ grows l l' ∧
        ∀ h', hle h h' → agrees h' i l' → LI h' i l' ∧ K h' x
  | EEncrypt k _ _ => λ K, ∀ r, ((∃ ct, r = inr ct) → h_hor h k = h_now h) → K h r
  | EDecrypt k _ _ => λ K, ∀ r, ((∃ pt, r = inr pt) → h_hor h k = h_now h) → K h r
  | EBegin key => λ K, ∀ c h', hle h h' →
      h_call h' (match c with inl n | inr n => n end) key → K h' c
  | EEnd key c r => λ K, h_call h c key ∧ FR h key r ∧ ∀ h', hle h h' → K h' tt
  | EWait c => λ K, ∀ r, (∀ key, h_call h c key → FR h key r) → K h r
  | ESpawn t => λ K, TO h t ∧ K h tt
  | EIssue i hd => λ K, HI h i hd ∧ K h tt
  | EPanic _ => λ K, True
  | _ => λ K, ∀ x, K h x
  end.

Fixpoint wp {A} (p : prog A) (Q : Hist → A → Prop) (h : Hist) : Prop :=
  match p with
  | Ret a => Q h a
  | Do e k => ∀ h', hle h h' → ev_ok h' e (λ h'' x, wp (k x) Q h'')
  end.

Lemma ev_ok_mono h {X} (e : ev X) (K K' : Hist → X → Prop) :
  (∀ h' x, hle h h' → K h' x → K' h' x) → ev_ok h e K → ev_ok h e K'.
Proof.
  intros HK. assert (hle h h) as Hr by reflexivity.
  destruct e; simpl; try (intros Hx x; apply HK; [done|]; apply Hx); auto.
  - intros Hc l Hl Ha. destruct (Hc l Hl Ha) as (x & l' & ? & ? & Hf).
    exists x, l'. split_and!; [done..|]. intros h' Hh Ha'.
    destruct (Hf h' Hh Ha'). auto.
  - intros (H1 & H2 & H3). auto.
  - intros [H1 H2]. auto.
  - intros [H1 H2]. auto.
Qed.

Lemma wp_weaken {A} (p : prog A) (Q Q' : Hist → A → Prop) h :
  (∀ h' a, hle h h' → Q h' a → Q' h' a) → wp p Q h → wp p Q' h.
Proof.
  revert h. induction p as [a|X e k IH]; intros h HQ; simpl; [by apply HQ|].
  intros H h' Hh. eapply ev_ok_mono; [|by apply H].
  intros h'' x Hx. apply IH. intros h3 a Hh'. apply HQ. by do 2 (etrans; [done|]).
Qed.

Lemma wp_bind {A B} (p : prog A) (f : A → prog B) (Q : Hist → B → Prop) h :
  wp p (λ h' a, wp (f a) Q h') h → wp (bind p f) Q h.
Proof.
  revert h. induction p as [a|X e k IH]; intros h; simpl; [done|].
  intros H h' Hh. eapply ev_ok_mono; [|by apply H]. intros h'' x _. apply IH.
Qed.

(** A postcondition that survives the passing of time. *)
Definition stable {A} (Q : Hist → A → Prop) : Prop :=
  ∀ h h' a, hle h h' → Q h a → Q h' a.

Lemma wp_later {A} (p : prog A) (Q : Hist → A → Prop) h h' :
  stable Q → hle h h' → wp p Q h → wp p Q h'.
Proof.
  intros HQ Hh. destruct p as [a|X e k]; simpl; [by apply HQ|].
  intros H h'' Hh'. apply H. by etrans.
Qed.

Definition safe (p : prog unit) : Prop := ∀ h, wp p (λ _ _, True) h.

(** *** Soundness *)

Hypothesis LI_mono : ∀ h h' i l, hle h h' → LI h i l → LI h' i l.
Hypothesis HI_mono : ∀ h h' i x, hle h h' → HI h i x → HI h' i x.
Hypothesis FR_mono : ∀ h h' key r, hle h h' → FR h key r → FR h' key r.
Hypothesis tasks_safe : ∀ h t, TO h t → wp (run_task cfg t) (λ _ _, True) h.
Hypothesis api_safe : ∀ p, api p → safe p.
Context {KL : KMSLaws KM}.

Record Inv (w : World) : Prop := {
  inv_kms : kms_ok (w_kms w) (w_now w);
  inv_loc : ∀ i l, w_loc w !! i = Some l → LI (hist w) i l;
  inv_thr : ∀ j p, w_thr w !! j = Some p → wp p (λ _ _, True) (hist w);
  inv_issued : ∀ i h, (i, h) ∈ w_issued w → HI (hist w) i h;
  inv_calls : ∀ c key r, w_calls w !! c = Some (key, Some r) → FR (hist w) key r;
  inv_flight : ∀ key c, w_flight w !! key = Some c → ∃ r, w_calls w !! c = Some (key, r)
}.

Lemma wp_True_later (p : prog unit) h h' :
  hle h h' → wp p (λ _ _, True) h → wp p (λ _ _, True) h'.
Proof. apply wp_later. by intros ???. Qed.

Lemma Inv_later w w' :
  Inv w → kms_ok (w_kms w') (w_now w') → hle (hist w) (hist w') →
  w_loc w' = w_loc w → w_thr w' = w_thr w → w_issued w' = w_issued w →
  (∀ c key r, w_calls w' !! c = Some (key, Some r) → FR (hist w') key r) →
  (∀ key c, w_flight w' !! key = Some c → ∃ r, w_calls w' !! c = Some (key, r)) → Inv w'.
Proof.
  intros [Hk Hl Ht Hi _ _] Hk' Hh El Et Ei Hc Hf. split; [done|..|done|done].
  - intros i l. rewrite El. intros Hil. eapply LI_mono; [exact Hh|]. by apply Hl.
  - intros j p. rewrite Et. intros Hj. eapply wp_True_later; [exact Hh|]. by eapply Ht.
  - intros i h. rewrite Ei. intros Hih. eapply HI_mono; [exact Hh|]. by apply Hi.
Qed.

Lemma hist_agrees w i l : w_loc w !! i = Some l → agrees (hist w) i l.
Proof. intros Hl. split; intros p; simpl; split; [naive_solver|eauto|naive_solver|eauto]. Qed.

Lemma hist_section w i l l' :
  w_loc w !! i = Some l → grows l l' → hle (hist w) (hist (with_loc (<[i := l']> (w_loc w)) w)).
Proof.
  intros Hl [Ha Hn]. split; simpl; [lia|intros; lia| | |done]; intros i' p (l0 & Hl0 & Hp).
  all: destruct (decide (i' = i)) as [->|Hne];
    [rewrite Hl in Hl0; injection Hl0 as <-; exists l';
     rewrite list_lookup_insert_eq by (by eapply lookup_lt_Some); auto
    |exists l0; rewrite list_lookup_insert_ne by done; auto].
Qed.

(** One section of one tenant. *)
Lemma section_Inv w i l l' :
  Inv w → w_loc w !! i = Some l → grows l l' →
  LI (hist (with_loc (<[i := l']> (w_loc w)) w)) i l' →
  Inv (with_loc (<[i := l']> (w_loc w)) w).
Proof.
  intros [Hk Hl Ht Hi Hc Hf] Hil Hg HL'. pose proof (hist_section _ _ _ _ Hil Hg) as Hh.
  split; [done|..|done].
  - intros i' l'' Hlook. cbn [w_loc with_loc] in Hlook.
    apply list_lookup_insert_Some in Hlook as [(-> & -> & _)|[_ Hlook]]; [done|].
    eapply LI_mono; [exact Hh|]. by apply Hl.
  - intros j p Hj. eapply wp_True_later; [exact Hh|]. by eapply Ht.
  - intros i' h Hih. eapply HI_mono; [exact Hh|]. by apply Hi.
  - intros c key r Hcr. eapply FR_mono; [exact Hh|]. by eapply Hc.
Qed.

(** *** Flights *)

Lemma hist_calls w fl cs :
  (∀ c key r, w_calls w !! c = Some (key, r) → ∃ r', cs !! c = Some (key, r')) →
  hle (hist w) (hist (with_flights fl cs w)).
Proof.
  intros Hcs. split; simpl; try done; try lia. intros c key [r Hr]. by eapply Hcs.
Qed.

Lemma lead_Inv w key :
  Inv w →
  Inv (with_flights (<[key := length (w_calls w)]> (w_flight w)) (w_calls w ++ [(key, None)])%list w).
Proof.
  intros HI'. pose proof HI' as [Hk Hl Ht Hi Hc Hf].
  assert (∀ c x, w_calls w !! c = Some x → (w_calls w ++ [(key, None)])%list !! c = Some x) as Happ.
  { intros c x Hx. by apply lookup_app_l_Some. }
  assert (hle (hist w) (hist (with_flights (<[key := length (w_calls w)]> (w_flight w))
            (w_calls w ++ [(key, None)])%list w))) as Hh by (apply hist_calls; eauto).
  apply (Inv_later w); try done.
  - intros c key' r Hcr. cbn [w_calls with_flights] in Hcr.
    apply lookup_app_Some in Hcr as [Hcr|[_ Hcr]];
      [eapply FR_mono; [exact Hh|]; by eapply Hc|].
    by apply list_lookup_singleton_Some in Hcr as [_ [=]].
  - intros key' c. cbn [w_flight w_calls with_flights].
    rewrite lookup_insert_Some. intros [[<- <-]|[_ Hkc]].
    + exists None. rewrite lookup_app_r by lia. by rewrite Nat.sub_diag.
    + destruct (Hf _ _ Hkc) as [r Hr]. eauto.
Qed.

Lemma end_Inv w key c r :
  Inv w → h_call (hist w) c key → FR (hist w) key r →
  hle (hist w) (hist (with_flights (delete key (w_flight w)) (<[c := (key, Some r)]> (w_calls w)) w))
  ∧ Inv (with_flights (delete key (w_flight w)) (<[c := (key, Some r)]> (w_calls w)) w).
Proof.
  intros HI' [r0 Hc0] Hr. pose proof HI' as [Hk Hl Ht Hi Hc Hf].
  assert (∀ c' key' r', w_calls w !! c' = Some (key', r') →
    ∃ r'', <[c := (key, Some r)]> (w_calls w) !! c' = Some (key', r'')) as Hkeep.
  { intros c' key' r' Hr'. destruct (decide (c' = c)) as [->|Hne].
    - rewrite Hr' in Hc0. injection Hc0 as -> ->. exists (Some r).
      apply list_lookup_insert_eq. by eapply lookup_lt_Some.
    - exists r'. by rewrite list_lookup_insert_ne. }
  assert (hle (hist w) (hist (with_flights (delete key (w_flight w))
            (<[c := (key, Some r)]> (w_calls w)) w))) as Hh by by apply hist_calls.
  split; [done|]. apply (Inv_later w); try done.
  - intros c' key' r' Hcr. cbn [w_calls with_flights] in Hcr. eapply FR_mono; [exact Hh|].
    apply list_lookup_insert_Some in Hcr as [(-> & [= <- <-] & _)|[_ Hcr]]; [done|by eapply Hc].
  - intros key' c'. cbn [w_flight w_calls with_flights]. rewrite lookup_delete_Some.
    intros [_ Hkc]. destruct (Hf _ _ Hkc) as [r' Hr']. eauto.
Qed.

(** One action: the invariant and the continuation's precondition. *)
Lemma estep_Inv w X (e : ev X) x w' K :
  estep X e w x w' → Inv w → ev_ok (hist w) e K → Inv w' ∧ K (hist w') x.
Proof.
  intros Hs HI' Hok. pose proof HI' as [Hk Hl Ht Hi Hc Hf].
  destruct Hs; simpl in Hok; try (split; [by split|by apply Hok]).
  - destruct (Hok l) as (x0 & l0 & E & Hg & Hfin); [by apply Hl|by apply hist_agrees|].
    assert (Some (x, l') = Some (x0, l0)) as [= <- <-] by congruence.
    destruct (Hfin (hist (with_loc (<[i := l']> (w_loc w)) w))) as [HL' HK];
      [by eapply hist_section| |split; [by eapply section_Inv|done]].
    apply hist_agrees. cbn [w_loc with_loc].
    apply list_lookup_insert_eq. by eapply lookup_lt_Some.
  - split; [by split|]. apply Hok. intros [? ->]. by eapply encrypt_live.
  - split; [by split|]. apply Hok. intros [? ->]. by eapply decrypt_live.
  - split; [by apply lead_Inv|]. apply Hok.
    + apply hist_calls. intros c' key' r' Hr'. exists r'. by apply lookup_app_l_Some.
    + exists None. cbn [w_calls with_flights]. rewrite lookup_app_r by lia. by rewrite Nat.sub_diag.
  - split; [by split|]. apply Hok; [reflexivity|]. by apply Hf.
  - destruct Hok as (H1 & H2 & HK). destruct (end_Inv w key c r HI' H1 H2) as [Hh Hi'].
    split; [done|]. by apply HK.
  - split; [by split|]. apply Hok. intros key' [r' Hr'].
    assert (key' = key) as -> by congruence. by eapply Hc.
  - destruct Hok as [Ht' HK]. split; [|done]. split; [done|done| |done|done|done].
    intros j p Hj. cbn [w_thr with_thr] in Hj.
    apply lookup_app_Some in Hj as [Hj|[_ Hj]]; [by eapply Ht|].
    apply list_lookup_singleton_Some in Hj as [_ <-]. by apply tasks_safe.
  - destruct Hok as [Hh HK]. split; [|done]. split; [done|done|done| |done|done].
    intros i' h' Hin. cbn [w_issued with_issued] in Hin.
    apply elem_of_app in Hin as [Hin|Hin]; [by apply Hi|].
    apply list_elem_of_singleton in Hin as [= -> ->]. done.
Qed.

Lemma step_Inv w w' : step w w' → Inv w → Inv w'.
Proof.
  intros Hs HI'. destruct Hs as [w j X e k x w' Hj He|w n Hn|w st Hst|w p Hp].
  - pose proof (inv_thr _ HI' _ _ Hj (hist w) (reflexivity _)) as Hok.
    eapply estep_Inv in Hok as (HI'' & HK); [|exact He|exact HI'].
    destruct HI'' as [Hk Hl Ht Hi Hc Hf]. split; [done|done| |done|done|done].
    intros j' p Hlook. cbn [w_thr with_thr] in Hlook.
    apply list_lookup_insert_Some in Hlook as [(-> & <- & _)|[_ Hlook]]; [done|].
    by eapply Ht.
  - pose proof HI' as [Hk _ _ _ Hc Hf].
    assert (hle (hist w) (hist (with_now n w))) as Hh.
    { split; simpl; try done. intros k. by apply horizon_time. }
    apply (Inv_later w); try done; [by eapply kms_ok_time|].
    intros c key r Hcr. eapply FR_mono; [exact Hh|by eapply Hc].
  - pose proof HI' as [Hk _ _ _ Hc Hf].
    assert (hle (hist w) (hist (with_kms st w))) as Hh.
    { split; simpl; try done. intros k. by apply (horizon_step _ _ _ _ Hk). }
    apply (Inv_later w); try done; [exact (kms_ok_step _ _ _ Hk Hst)|].
    intros c key r Hcr. eapply FR_mono; [exact Hh|by eapply Hc].
  - destruct HI' as [Hk Hl Ht Hi Hc Hf]. split; [done|done| |done|done|done].
    intros j p' Hj. cbn [w_thr with_thr] in Hj.
    apply lookup_app_Some in Hj as [Hj|[_ Hj]]; [by eapply Ht|].
    apply list_lookup_singleton_Some in Hj as [_ <-]. by apply api_safe.
Qed.

Hypothesis LI_init : ∀ h i s, c_Tenants cfg !! i = Some s →
  LI h i (mkLocal (new_tenant cfg i s) Active []).

Lemma init_Inv now st : kms_ok st now → Inv (init now st).
Proof.
  intros Hk. split; [done| |done|by intros ?? ?%elem_of_nil|done|done].
  intros i l. unfold init, New. cbn [w_loc fst]. rewrite list_lookup_imap.
  destruct (c_Tenants cfg !! i) as [s|] eqn:E; [|done]. intros [= <-]. by apply LI_init.
Qed.

Lemma reachable_Inv now st w : kms_ok st now → reachable now st w → Inv w.
Proof.
  intros Hk. apply (rtc_ind_r Inv); [by apply init_Inv|].
  intros ?? _ Hs HI'. by eapply step_Inv.
Qed.

(** A goroutine is never stuck on a nil dereference inside a section. *)
Lemma Inv_no_nil w j i B f k l :
  Inv w → w_thr w !! j = Some (Do (ECrit i B f) k) → w_loc w !! i = Some l → is_Some (f l).
Proof.
  intros [Hk Hl Ht Hi _ _] Hj Hli.
  destruct (Ht _ _ Hj (hist w) (reflexivity _) l (Hl _ _ Hli) (hist_agrees _ _ _ Hli))
    as (x & l' & E & _).
  rewrite E. eauto.
Qed.
End wp.
End Interleaving.
