(* ===== verification/TenantInv.v ===== *)
(** * The tenant invariant

    What is true of a tenant between any two critical sections: the pointer
    structure is well formed, the grid cell shows the state, the lease never
    reaches back before the last deny, a revoked tenant has no lease and a
    parked or uncached one holds no plaintext primitive.  Each section keeps
    it; the lemmas are grouped by what the section may change. *)

From S2P Require Import Prelude GoLib GoFloat Kms Tink KmsModel Lease Cmek Tenant Prog Manager Api.
From S2P Require Import Interleaving.
Local Open Scope string_scope.
Local Open Scope Z_scope.

Section TenantInv.
Context `{TK : Tink} `{MR : MapRange}.
Context (cfg : Config).
Implicit Types (t : tenant) (l : local) (i : nat) (p : Z).

Definition parked (s : State) : Prop := s = KeyUnavailable ∨ s = Revoked.

(** No primitive anywhere in the tenant's heap. *)
Definition cold t : Prop := ∀ p, is_hot (deref t p) = false.

Definition dek_name (spec : TenantSpec) (p : Z) : string := ts_ID spec +:+ "/" +:+ Itoa p.

Definition lease_params t : Prop :=
  TTL (t_lease t) = c_Lease cfg ∧ SoftTTL (t_lease t) = c_SoftTTL cfg
  ∧ Early (t_lease t) = c_EarlyExpiry cfg.

(** The waiter and in-flight counters stay within their caps. *)
Definition caps t : Prop :=
  t_waiters t <= Z.max 0 (c_IngestWaiters cfg) ∧ t_inflight t <= Z.max 0 (c_TenantInflight cfg).

Record lcore i l : Prop := mkLcore {
  li_spec : c_Tenants cfg !! i = Some (t_spec (l_t l));
  li_idx : t_idx (l_t l) = i;
  li_lease : lease_params (l_t l);
  li_grid : l_cell l = t_state (l_t l);
  li_caps : caps (l_t l);
  li_seq : ∀ p, allocated l p → p <= t_seq (l_t l);
  li_names : ∀ p d, t_heap (l_t l) !! p = Some d → d_id d = dek_name (t_spec (l_t l)) p;
  li_map : ∀ id p, t_deks (l_t l) !! id = Some p →
    id = dek_name (t_spec (l_t l)) p ∧ allocated l p;
  li_active : ∀ p, t_active (l_t l) = Some p → installed l p;
  li_hot : ∀ p, is_hot (deref (l_t l) p) = true → installed l p;
  li_denied : SentAt (t_lease (l_t l)) ≠ 0 → t_deniedAt (l_t l) <= SentAt (t_lease (l_t l));
  li_revoked : t_state (l_t l) = Revoked → SentAt (t_lease (l_t l)) = 0;
  li_parked : parked (t_state (l_t l)) → cold (l_t l) }.

Record linv i l : Prop := mkLinv {
  li_core :> lcore i l;
  li_direct : direct (l_t l) = true → cold (l_t l) }.

(** ** Heap updates *)

Lemma deref_modify t q f p :
  deref (modify q f t) p
  = if decide (p = q) then match t_heap t !! p with Some d => f d | None => zeroDek end
    else deref t p.
Proof.
  unfold deref, modify. cbn [t_heap set_heap]. rewrite lookup_alter.
  destruct (decide (q = p)) as [->|Hq]; [|by rewrite decide_False].
  rewrite decide_True by done. by destruct (t_heap t !! p).
Qed.

(** The heap keeps its cells and ids and loses heat only. *)
Definition cooler (h h' : gmap Z dek) : Prop :=
  ∀ p, match h !! p, h' !! p with
       | Some d, Some d' => d_id d' = d_id d ∧ (is_hot d' = true → is_hot d = true)
       | None, None => True
       | _, _ => False
       end.

#[export] Instance cooler_preorder : PreOrder cooler.
Proof.
  split.
  - intros h p. by destruct (h !! p).
  - intros a b c H1 H2 p. specialize (H1 p). specialize (H2 p).
    destruct (a !! p), (b !! p), (c !! p); naive_solver congruence.
Qed.

Lemma cooler_alter h p f :
  (∀ d, d_id (f d) = d_id d ∧ (is_hot (f d) = true → is_hot d = true)) → cooler h (alter f p h).
Proof.
  intros Hf q. rewrite lookup_alter. case_decide; subst; destruct (h !! q); simpl; auto.
Qed.

(** Everything the pointer invariant reads, up to cooling. *)
Record shrink t t' : Prop := mkShrink {
  sh_spec : t_spec t' = t_spec t; sh_idx : t_idx t' = t_idx t; sh_seq : t_seq t' = t_seq t;
  sh_deks : t_deks t' = t_deks t; sh_active : t_active t' = t_active t;
  sh_fetch : t_fetch t' = t_fetch t; sh_heap : cooler (t_heap t) (t_heap t');
  sh_caps : caps t → caps t' }.

#[export] Instance shrink_preorder : PreOrder shrink.
Proof.
  split; [intros t; by split|].
  intros a b c [] []. split; try congruence; [by etrans|auto].
Qed.

Lemma shrink_deref_hot t t' p :
  shrink t t' → is_hot (deref t' p) = true → is_hot (deref t p) = true.
Proof.
  intros Hs. unfold deref. pose proof (sh_heap _ _ Hs p) as H.
  destruct (t_heap t !! p), (t_heap t' !! p); simpl; naive_solver.
Qed.

Lemma shrink_cold t t' : shrink t t' → cold t → cold t'.
Proof.
  intros Hs Hc p. destruct (is_hot (deref t' p)) eqn:E; [|done].
  apply (shrink_deref_hot _ _ _ Hs) in E. by rewrite Hc in E.
Qed.

Lemma shrink_direct t t' : shrink t t' → direct t' = direct t.
Proof. intros Hs. unfold direct. by rewrite (sh_fetch _ _ Hs). Qed.

Lemma shrink_alloc l l' p : shrink (l_t l) (l_t l') → allocated l' p ↔ allocated l p.
Proof.
  intros Hs. unfold allocated. pose proof (sh_heap _ _ Hs p) as H.
  destruct (t_heap (l_t l) !! p), (t_heap (l_t l') !! p); try done; split; eauto.
Qed.

Lemma shrink_inst l l' p : shrink (l_t l) (l_t l') → installed l' p ↔ installed l p.
Proof. intros Hs. unfold installed. by rewrite (sh_deks _ _ Hs). Qed.

Lemma shrink_grows l l' : shrink (l_t l) (l_t l') → grows l l'.
Proof.
  intros Hs. split; intros p Hp; [by apply (shrink_alloc l l')|by apply (shrink_inst l l')].
Qed.

Lemma modify_shrink t p f :
  (∀ d, d_id (f d) = d_id d ∧ (is_hot (f d) = true → is_hot d = true)) → shrink t (modify p f t).
Proof. intros Hf. split; try done. by apply cooler_alter. Qed.

(** A section that changes state, lease or deny time besides shrinking. *)
Lemma lcore_shrink i l l' :
  lcore i l → shrink (l_t l) (l_t l') → lease_params (l_t l') →
  l_cell l' = t_state (l_t l') →
  (SentAt (t_lease (l_t l')) ≠ 0 → t_deniedAt (l_t l') <= SentAt (t_lease (l_t l'))) →
  (t_state (l_t l') = Revoked → SentAt (t_lease (l_t l')) = 0) →
  (parked (t_state (l_t l')) → cold (l_t l')) →
  lcore i l'.
Proof.
  intros [] Hs Hlp Hg Hd Hr Hp. split; try done.
  - by rewrite (sh_spec _ _ Hs).
  - by rewrite (sh_idx _ _ Hs).
  - by apply (sh_caps _ _ Hs).
  - intros p Ha. rewrite (sh_seq _ _ Hs). apply li_seq0. by apply (shrink_alloc l l').
  - intros p d Hpd. rewrite (sh_spec _ _ Hs). pose proof (sh_heap _ _ Hs p) as H.
    rewrite Hpd in H. destruct (t_heap (l_t l) !! p) eqn:E; [|done].
    rewrite (proj1 H). by apply li_names0.
  - intros id p Hid. rewrite (sh_spec _ _ Hs). rewrite (sh_deks _ _ Hs) in Hid.
    destruct (li_map0 _ _ Hid). split; [done|]. by apply (shrink_alloc l l').
  - intros p Ha. rewrite (sh_active _ _ Hs) in Ha. apply (shrink_inst l l'); auto.
  - intros p Hh. apply (shrink_inst l l'); [done|]. apply li_hot0. by eapply shrink_deref_hot.
Qed.

Lemma linv_shrink i l l' :
  linv i l → shrink (l_t l) (l_t l') → lease_params (l_t l') →
  l_cell l' = t_state (l_t l') →
  (SentAt (t_lease (l_t l')) ≠ 0 → t_deniedAt (l_t l') <= SentAt (t_lease (l_t l'))) →
  (t_state (l_t l') = Revoked → SentAt (t_lease (l_t l')) = 0) →
  (parked (t_state (l_t l')) → cold (l_t l')) →
  linv i l'.
Proof.
  intros Hl Hs H1 H2 H3 H4 H5. split; [by apply (lcore_shrink i l l' Hl Hs)|].
  intros Hdir. rewrite (shrink_direct _ _ Hs) in Hdir.
  eapply shrink_cold; [exact Hs|]. by apply (li_direct _ _ Hl).
Qed.

(** A quiet section leaves state, lease and deny time alone. *)
Record quiet l l' : Prop := mkQuiet {
  q_shrink : shrink (l_t l) (l_t l'); q_cell : l_cell l' = l_cell l;
  q_state : t_state (l_t l') = t_state (l_t l); q_lease : t_lease (l_t l') = t_lease (l_t l);
  q_denied : t_deniedAt (l_t l') = t_deniedAt (l_t l) }.

#[export] Instance quiet_preorder : PreOrder quiet.
Proof.
  split; [intros l; by split|].
  intros a b c [] []. split; try congruence. by etrans.
Qed.

Lemma linv_quiet i l l' : linv i l → quiet l l' → linv i l'.
Proof.
  intros Hl [Hs Hc Hst Hle Hd]. pose proof (li_core _ _ Hl) as [].
  apply (linv_shrink i l l'); rewrite ?Hst, ?Hle, ?Hd, ?Hc; try done.
  - unfold lease_params. by rewrite Hle.
  - intros Hp. eapply shrink_cold; eauto.
Qed.

(** Fields the invariant does not read. *)
Lemma quiet_upd l f :
  shrink (l_t l) (f (l_t l)) → t_state (f (l_t l)) = t_state (l_t l) →
  t_lease (f (l_t l)) = t_lease (l_t l) → t_deniedAt (f (l_t l)) = t_deniedAt (l_t l) →
  quiet l (upd f l).
Proof. intros. by split. Qed.

Lemma quiet_audit l a : quiet l (audit a l).
Proof. by split. Qed.

(** ** purge *)

Lemma purge_loop (es : list (string * Z)) n t :
  let '(n', t') := foldl purge_step (n, t) es in
  t' = set_heap (t_heap t') t ∧ cooler (t_heap t) (t_heap t') ∧
  (∀ p, p ∈ es.*2 → is_hot (deref t' p) = false).
Proof.
  revert n t. induction es as [|[id p] es IH]; intros n t.
  { simpl. split_and!; [by destruct t|reflexivity|]. intros p Hp. by apply elem_of_nil in Hp. }
  cbn [foldl purge_step]. destruct (is_hot (deref t p)) eqn:E.
  - specialize (IH (n + 1) (modify p (set_prim None) t)).
    destruct (foldl purge_step _ es) as [n' t']. destruct IH as (E1 & E2 & E3).
    assert (cooler (t_heap t) (t_heap t')) as Hc.
    { etrans; [|exact E2]. by apply cooler_alter. }
    split_and!; [by rewrite E1|done|].
    intros q [->|Hq]%elem_of_cons; [|by apply E3].
    destruct (is_hot (deref t' p)) eqn:F; [|done].
    assert (is_hot (deref (modify p (set_prim None) t) p) = true) as F'.
    { unfold deref in *. specialize (E2 p). destruct (t_heap t' !! p), (t_heap _ !! p); naive_solver. }
    rewrite deref_modify, decide_True in F' by done. by destruct (t_heap t !! p).
  - specialize (IH n t). destruct (foldl purge_step _ es) as [n' t']. destruct IH as (E1 & E2 & E3).
    split_and!; [done..|]. intros q [->|Hq]%elem_of_cons; [|by apply E3].
    destruct (is_hot (deref t' p)) eqn:F; [|done]. unfold deref in *. specialize (E2 p).
    destruct (t_heap t' !! p), (t_heap t !! p); simpl in *; naive_solver congruence.
Qed.

(** What a purge does to the tenant: it only cools the heap and empties
    [pending]; everything in the map is cold afterwards. *)
Lemma purge_spec t n t' :
  purge t = (n, t') →
  t' = set_pending ∅ (set_heap (t_heap t') t) ∧ shrink t t' ∧
  (∀ id p, t_deks t !! id = Some p → is_hot (deref t' p) = false).
Proof.
  unfold purge.
  pose proof (purge_loop (range (t_deks t)) 0 t) as H.
  destruct (foldl _ _ _) as [m t0]. destruct H as (E1 & E2 & E3). intros [= <- <-].
  split_and!.
  - by rewrite E1.
  - split; cbn; by rewrite E1.
  - intros id p Hid. apply (E3 p). rewrite range_perm.
    apply list_elem_of_fmap. exists (id, p). split; [done|]. by apply elem_of_map_to_list.
Qed.

Lemma purge_cold i l n t' : lcore i l → purge (l_t l) = (n, t') → cold t'.
Proof.
  intros Hl Hp p. apply purge_spec in Hp as (_ & Hs & Hc).
  destruct (is_hot (deref t' p)) eqn:E; [|done].
  pose proof (shrink_deref_hot _ _ _ Hs E) as Hh.
  apply (li_hot _ _ Hl) in Hh as [id Hid]. by rewrite (Hc _ _ Hid) in E.
Qed.

(** ** Quiet sections *)

Lemma quiet_fields l f :
  (∀ t, t_spec (f t) = t_spec t ∧ t_idx (f t) = t_idx t ∧ t_seq (f t) = t_seq t ∧
        t_deks (f t) = t_deks t ∧ t_active (f t) = t_active t ∧ t_fetch (f t) = t_fetch t ∧
        t_heap (f t) = t_heap t ∧ t_state (f t) = t_state t ∧ t_lease (f t) = t_lease t ∧
        t_deniedAt (f t) = t_deniedAt t) →
  (caps (l_t l) → caps (f (l_t l))) → quiet l (upd f l).
Proof.
  intros H Hcaps. destruct (H (l_t l)) as (? & ? & ? & ? & ? & ? & Hh & ? & ? & ?).
  apply quiet_upd; try done. split; try done. by rewrite Hh.
Qed.

Ltac qfields :=
  apply quiet_fields; [solve [done]|solve [done|unfold caps; simpl; lia]].

Lemma quiet_modify l p f :
  (∀ d, d_id (f d) = d_id d ∧ (is_hot (f d) = true → is_hot d = true)) →
  quiet l (upd (modify p f) l).
Proof. intros Hf. apply quiet_upd; [by apply modify_shrink|done..]. Qed.

Lemma quiet_purge l n t' : purge (l_t l) = (n, t') → quiet l (upd (λ _, t') l).
Proof.
  intros Hp. apply purge_spec in Hp as (E & Hs & _).
  apply quiet_upd; [done|by rewrite E..].
Qed.

Lemma quiet_handle now l x l' : handle cfg now l = (x, l') → quiet l l'.
Proof.
  unfold handle. intros Hh. repeat case_match; simplify_eq/=; try reflexivity.
  by apply quiet_modify.
Qed.

Lemma quiet_call_enter l x l' : call_enter cfg l = (x, l') → quiet l l'.
Proof. unfold call_enter. intros Hh. repeat case_match; simplify_eq/=; try done; qfields. Qed.

Lemma quiet_warm_check p l x l' : warm_check p l = (x, l') → quiet l l'.
Proof. unfold warm_check. intros Hh. repeat case_match; simplify_eq/=; try done; qfields. Qed.

Lemma quiet_enc_decide now l x l' : enc_decide cfg now l = (x, l') → quiet l l'.
Proof.
  unfold enc_decide. intros Hh. destruct (handle cfg now l) as [h l0] eqn:E.
  pose proof (quiet_handle _ _ _ _ E).
  repeat case_match; simplify_eq/=; try done; (etrans; [eassumption|]); try done;
    qfields.
Qed.

Lemma quiet_enc_first now l x l' : enc_first cfg now l = (x, l') → quiet l l'.
Proof.
  unfold enc_first. case_match; [|by apply quiet_enc_decide].
  intros [= <- <-]. qfields.
Qed.

Lemma quiet_enc_last e now l x l' : enc_last cfg e now l = (x, l') → quiet l l'.
Proof.
  unfold enc_last. intros Hh.
  destruct (handle cfg now _) as [h l0] eqn:E. pose proof (quiet_handle _ _ _ _ E).
  assert (quiet l (upd (λ t, set_waiters (t_waiters t - 1) t) l)) by qfields.
  repeat case_match; simplify_eq/=; try done; by etrans.
Qed.

Lemma quiet_dec_first id now l x l' : dec_first id now l = (x, l') → quiet l l'.
Proof.
  unfold dec_first, dec_decide. intros Hh. repeat case_match; simplify_eq/=; try done;
    qfields.
Qed.

Lemma quiet_dec_decide id p now l x l' : dec_decide id p now l = (x, l') → quiet l l'.
Proof. unfold dec_decide. intros Hh. by repeat case_match; simplify_eq/=. Qed.

Lemma quiet_hot_section now l x l' : hot_section now l = (x, l') → quiet l l'.
Proof.
  unfold hot_section. intros Hh. repeat case_match; simplify_eq/=; try done; qfields.
Qed.

Lemma quiet_warm_section id now l x l' : warm_section id now l = (x, l') → quiet l l'.
Proof.
  unfold warm_section. intros Hh. repeat case_match; simplify_eq/=; try done; qfields.
Qed.

Lemma quiet_ptHandle d r c now l x l' :
  ptHandle_section d r c now l = Some (x, l') → quiet l l'.
Proof.
  unfold ptHandle_section. intros Hh. repeat case_match; simplify_eq/=; try done.
  by apply quiet_modify.
Qed.

Lemma quiet_tick_age now l : quiet l (tick_age cfg now l).
Proof.
  unfold tick_age. generalize (range (t_deks (l_t l))).*2. intros ps. revert l.
  induction ps as [|p ps IH]; intros l; [done|]. cbn [foldl].
  transitivity (tick_age1 cfg now l p); [|apply IH].
  unfold tick_age1. case_match; [|done].
  etrans; [|apply quiet_audit]. by apply quiet_modify.
Qed.

Lemma quiet_tick_due now l x l' : tick_due now l = (x, l') → quiet l l'.
Proof.
  unfold tick_due. intros Hh. repeat case_match; simplify_eq/=; try done; qfields.
Qed.

(** ** Sections that move the state, the lease or the map *)

(** [setState] to anything but REVOKED, from a tenant that may enter it. *)
Lemma linv_setState i l to now why n :
  linv i l → to ≠ Revoked → (parked to → cold (l_t l)) → linv i (setState to now why n l).
Proof.
  intros Hl Hto Hc. pose proof (li_core _ _ Hl) as []. by apply (linv_shrink i l _ Hl).
Qed.

Lemma grows_setState to now why n l : grows l (setState to now why n l).
Proof. by split. Qed.

Lemma lapse_linv i l now : linv i l → linv i (tick_lapse now l).
Proof.
  intros Hl. unfold tick_lapse. case_match; [|done].
  destruct (purge (l_t l)) as [n t'] eqn:Hp.
  pose proof (quiet_purge _ _ _ Hp) as Hq. pose proof (linv_quiet _ _ _ Hl Hq) as Hl'.
  case_decide.
  - apply linv_setState; [done|done|]. intros _. exact (purge_cold i l n t' Hl Hp).
  - eapply linv_quiet; [exact Hl'|apply quiet_audit].
Qed.

Lemma lapse_lease l now :
  t_lease (l_t (tick_lapse now l)) = t_lease (l_t l)
  ∧ t_spec (l_t (tick_lapse now l)) = t_spec (l_t l) ∧ grows l (tick_lapse now l).
Proof.
  unfold tick_lapse. case_match; [|by split].
  destruct (purge (l_t l)) as [n t'] eqn:Hp.
  pose proof (quiet_purge _ _ _ Hp) as [Hs _ _ Hle _]. cbn in Hle.
  pose proof (sh_spec _ _ Hs) as Hsp. cbn in Hsp.
  assert (grows l (upd (λ _, t') l)) as Hg by by apply shrink_grows.
  case_decide; cbn; split_and!; done.
Qed.

(** The key-fetch design is read by the no-cache clause only. *)
Lemma lcore_set_fetch i l mode : lcore i l → lcore i (upd (set_fetch mode) l).
Proof. by intros []. Qed.

Lemma set_fetch_linv i l mode now x l' :
  linv i l → set_fetch_section mode now l = (x, l') → linv i l'.
Proof.
  intros Hl. unfold set_fetch_section. case_decide; [by intros [= <- <-]|].
  pose proof (lcore_set_fetch i l mode Hl) as Hl1. set (l1 := upd (set_fetch mode) l) in *.
  destruct (direct (l_t l1) && negb (direct (l_t l))) eqn:Hd.
  - destruct (purge (l_t l1)) as [n t'] eqn:Hp.
    pose proof (purge_cold _ _ _ _ Hl1 Hp) as Hcold.
    pose proof (quiet_purge _ _ _ Hp) as [Hs Hc Hst Hle Hdn].
    assert (linv i (upd (λ _, t') l1)) as Hl2.
    { split; [|done]. pose proof Hl1 as []. apply (lcore_shrink i l1); try done;
        rewrite ?Hst, ?Hle, ?Hdn, ?Hc; try done. unfold lease_params. by rewrite Hle. }
    case_match; intros [= <- <-]; [|done]. eapply linv_quiet; [exact Hl2|apply quiet_audit].
  - intros [= <- <-]. split; [done|]. intros Hdir. rewrite Hdir in Hd. bools.
    simpl in Hd. apply negb_false_iff in Hd. by apply (li_direct _ _ Hl).
Qed.

Lemma set_fetch_frame l mode now x l' :
  set_fetch_section mode now l = (x, l') →
  t_lease (l_t l') = t_lease (l_t l) ∧ t_spec (l_t l') = t_spec (l_t l) ∧ grows l l'.
Proof.
  unfold set_fetch_section. intros H. repeat case_match; simplify_eq/=; try (by split).
  all: match goal with Hp : purge _ = _ |- _ => apply purge_spec in Hp as (E & Hs & _) end.
  all: split_and!; [by rewrite E|by rewrite E|].
  all: apply (shrink_grows (upd (set_fetch mode) l)); exact Hs.
Qed.
End TenantInv.
