(* ===== verification/Rows.v ===== *)
(** * internal/cmek/fetcher.go: what each row of [apply] does to the invariant

    The OK row in closed form ([granted]), the deny and transient rows, the
    allocation of a DEK, and the summary [apply_spec] that the concurrent
    proof uses: a section of [apply] never dereferences nil, keeps the tenant
    invariant and moves the lease only to the call's send time or to none. *)

From S2P Require Import Prelude GoLib GoFloat Kms Tink KmsModel Lease Cmek Tenant Prog Manager Api.
From S2P Require Import Interleaving TenantInv.
Local Open Scope string_scope.
Local Open Scope Z_scope.

Section Rows.
Context `{TK : Tink} `{MR : MapRange}.
Context (cfg : Config).
Implicit Types (t : tenant) (l : local) (i : nat) (p : Z).

Lemma dek_name_inj spec p q : dek_name spec p = dek_name spec q → p = q.
Proof.
  unfold dek_name. intros H. apply (f_equal bytes_of) in H. rewrite !bytes_of_app in H.
  apply app_inv_head in H. simpl in H. injection H as H.
  apply bytes_of_inj in H. by apply (inj pretty).
Qed.

(** ** The tenant after a fresh OK *)
Definition granted (o : op) p (r : result) (now : Time) t : tenant :=
  let id := d_id (deref t p) in
  let t := set_lease (Renew (t_lease t) (r_sentAt r)).2 t in
  let t := if decide (o = OpGenerate)
           then set_active (Some p) (set_deks (<[id := p]> (t_deks t)) t) else t in
  let t := if direct t then t else modify p (set_prim (r_prim r)) t in
  let t := set_attempt 0 (modify p (set_hotSince now) t) in
  set_state Active (set_pending (delete id (t_pending t)) t).

Lemma apply_OK_granted o p r now detail l :
  l_cell l = t_state (l_t l) → t_deniedAt (l_t l) <= r_sentAt r →
  ∃ log, apply_OK o (Some p) r now detail l
         = Some (mkLocal (granted o p r now (l_t l)) Active log).
Proof.
  intros Hc Hd. unfold apply_OK, granted. unfold Time.Before.
  destruct (Z.ltb_spec (r_sentAt r) (t_deniedAt (l_t l))); [lia|].
  destruct l as [[] c log]. simpl in *. subst c.
  destruct (decide (o = OpGenerate)), t_fetch; simpl; case_match; simpl; subst; eauto.
Qed.

Lemma apply_OK_stale o d r now detail l :
  r_sentAt r < t_deniedAt (l_t l) →
  ∃ log, apply_OK o d r now detail l = Some (mkLocal (l_t l) (l_cell l) log).
Proof.
  intros Hd. unfold apply_OK, Time.Before.
  destruct (Z.ltb_spec (r_sentAt r) (t_deniedAt (l_t l))); [|lia]. eexists. done.
Qed.

(** The heap after the row: the same cells, heat only at [p]. *)
Lemma granted_deref o p r now t q :
  q ≠ p → deref (granted o p r now t) q = deref t q.
Proof.
  intros Hq. unfold granted. destruct (decide (o = OpGenerate)); destruct t as [? ? ? ? ? ? ? ? ? ? ? ? ? ? ? f];
    destruct f; unfold deref, modify; simpl; by rewrite ?lookup_alter_ne by done.
Qed.

Lemma granted_heap o p r now t q :
  (∃ d', t_heap (granted o p r now t) !! q = Some d' ∧
     ∃ d, t_heap t !! q = Some d ∧ d_id d' = d_id d) ∨
  (t_heap (granted o p r now t) !! q = None ∧ t_heap t !! q = None).
Proof.
  unfold granted. destruct (decide (o = OpGenerate)); destruct t as [? ? ? ? ? h ? ? ? ? ? ? ? ? ? f];
    destruct f; unfold modify; simpl; rewrite !lookup_alter;
    repeat case_decide; subst; destruct (h !! _); simpl; eauto 8.
Qed.

Lemma granted_fields o p r now t :
  let t' := granted o p r now t in
  t_spec t' = t_spec t ∧ t_idx t' = t_idx t ∧ t_seq t' = t_seq t ∧ t_fetch t' = t_fetch t ∧
  t_lease t' = (Renew (t_lease t) (r_sentAt r)).2 ∧ t_deniedAt t' = t_deniedAt t ∧
  t_waiters t' = t_waiters t ∧ t_inflight t' = t_inflight t ∧ t_state t' = Active.
Proof.
  unfold granted. destruct t as [? ? ? ? ? ? ? ? ? ? ? ? ? ? ? f].
  destruct (decide (o = OpGenerate)), f; simpl; split_and!; done.
Qed.

Lemma granted_map o p r now t :
  t_deks (granted o p r now t)
  = (if decide (o = OpGenerate) then <[d_id (deref t p) := p]> (t_deks t) else t_deks t) ∧
  t_active (granted o p r now t) = (if decide (o = OpGenerate) then Some p else t_active t).
Proof.
  unfold granted. destruct t as [? ? ? ? ? ? ? ? ? ? ? ? ? ? ? f].
  destruct (decide (o = OpGenerate)), f; simpl; done.
Qed.

(** In a no-cache design the row heats nothing. *)
Lemma granted_direct o p r now t q :
  direct t = true → is_hot (deref (granted o p r now t) q) = is_hot (deref t q).
Proof.
  intros Hd. unfold granted. destruct t as [? ? ? ? ? h ? ? ? ? ? ? ? ? ? f].
  destruct (decide (o = OpGenerate)), f; try done; unfold deref, modify; simpl;
    rewrite lookup_alter; case_decide; subst; try done; by destruct (h !! q).
Qed.
(** ** The invariant across the rows *)

Lemma granted_linv i l o p r now log :
  linv cfg i l → t_deniedAt (l_t l) <= r_sentAt r →
  allocated l p → (o ≠ OpGenerate → installed l p) →
  linv cfg i (mkLocal (granted o p r now (l_t l)) Active log)
  ∧ grows l (mkLocal (granted o p r now (l_t l)) Active log)
  ∧ (o = OpGenerate → installed (mkLocal (granted o p r now (l_t l)) Active log) p).
Proof.
  intros Hl Hd Hal Hin. pose proof (li_core _ _ _ Hl) as [].
  pose proof (granted_fields o p r now (l_t l)) as (Es & Ei & Eq & Ef & El & Ed & Ew & En & Est).
  pose proof (granted_map o p r now (l_t l)) as [Em Ea].
  destruct Hal as [d Hpd].
  assert (d_id (deref (l_t l) p) = dek_name (t_spec (l_t l)) p) as Hid.
  { unfold deref. rewrite Hpd. simpl. by apply li_names. }
  set (l' := mkLocal (granted o p r now (l_t l)) Active log).
  assert (∀ q, allocated l' q ↔ allocated l q) as Halloc.
  { intros q. unfold allocated. cbn [l' l_t].
    destruct (granted_heap o p r now (l_t l) q) as [(d1 & -> & d2 & -> & _)|[-> ->]]; split; eauto. }
  assert (∀ q, installed l q → installed l' q) as Hinst.
  { intros q [id Hq]. unfold installed. cbn [l' l_t]. rewrite Em.
    case_decide; [|by exists id]. destruct (decide (q = p)) as [->|Hne].
    - exists (d_id (deref (l_t l) p)). by rewrite lookup_insert_eq.
    - exists id. rewrite lookup_insert_ne; [done|]. rewrite Hid. intros E.
      destruct (li_map _ _ Hq) as [E' _]. rewrite E' in E. by apply dek_name_inj in E. }
  assert (installed l' p) as Hp'.
  { destruct (decide (o = OpGenerate)) as [->|Ho]; [|auto].
    exists (d_id (deref (l_t l) p)). cbn [l' l_t]. rewrite Em. simpl. by rewrite lookup_insert_eq. }
  split_and!; [|split; [intros q; apply Halloc|done]|done].
  split; [split|]; cbn [l' l_t l_cell]; rewrite ?Es, ?Ei, ?Eq, ?Ef, ?Ed, ?Est; try done.
  - unfold lease_params in *. rewrite El. unfold Renew. by destruct (negb _).
  - unfold caps in *. by rewrite Ew, En.
  - intros q Hq. apply li_seq. by apply Halloc.
  - intros q d' Hq. destruct (granted_heap o p r now (l_t l) q) as [(d1 & E1 & d2 & E2 & E3)|[E _]];
      [|by rewrite E in Hq].
    rewrite Hq in E1. injection E1 as ->. rewrite E3. by apply li_names.
  - intros id q. rewrite Em. intros Hq. rewrite Halloc. case_decide; [|by apply li_map].
    apply lookup_insert_Some in Hq as [[<- <-]|[_ Hq]]; [|by apply li_map].
    split; [done|by exists d].
  - intros q. rewrite Ea. case_decide; [|intros Hq; apply Hinst; auto]. by intros [= <-].
  - intros q Hq. destruct (decide (q = p)) as [->|Hne]; [done|].
    rewrite granted_deref in Hq by done. apply Hinst; auto.
  - rewrite El, Renew_SentAt. lia.
  - by intros [|].
  - unfold direct. cbn [l' l_t]. rewrite Ef. intros Hdir q. rewrite granted_direct by done.
    by apply (li_direct _ _ _ Hl).
Qed.

(** The tenant after a deny, from the purged one. *)
Definition denied (now : Time) t : tenant :=
  set_state Revoked (set_nextProbeAt (Time.Add now (c_RevokedReprobe cfg))
    (set_lease (drop_lease (t_lease t)) (set_deniedAt now t))).

Lemma apply_Deny_denied o r now l :
  l_cell l = t_state (l_t l) →
  ∃ log, apply_Deny cfg o r now l = mkLocal (denied now (purge (l_t l)).2) Revoked log.
Proof.
  intros Hc. unfold apply_Deny, denied. cbn [audit l_t].
  destruct (purge (l_t l)) as [n t'] eqn:Hp. pose proof (purge_spec cfg _ _ _ Hp) as (E & _ & _).
  assert (t_state t' = t_state (l_t l)) as Hst by by rewrite E.
  destruct l as [t c log]. cbn [l_t l_cell l_log upd] in *. subst c. rewrite <- Hst. clear.
  destruct t' as [? ? ? s]. simpl. destruct (decide (s = Revoked)) as [->|_]; eexists; reflexivity.
Qed.

Lemma deny_spec i l o r now :
  linv cfg i l →
  linv cfg i (apply_Deny cfg o r now l) ∧ grows l (apply_Deny cfg o r now l)
  ∧ SentAt (t_lease (l_t (apply_Deny cfg o r now l))) = 0.
Proof.
  intros Hl. pose proof (li_core _ _ _ Hl) as [].
  destruct (apply_Deny_denied o r now l li_grid) as [log ->].
  destruct (purge (l_t l)) as [n t'] eqn:Hp.
  pose proof (purge_cold _ _ _ _ _ Hl Hp) as Hc.
  pose proof (purge_spec cfg _ _ _ Hp) as (E & Hs & _).
  assert (shrink cfg (l_t l) (denied now t')) as Hs'.
  { etrans; [exact Hs|]. by split. }
  set (l' := mkLocal (denied now t') Revoked log).
  split_and!; [|exact (shrink_grows cfg l l' Hs')|done].
  apply (linv_shrink cfg i l l' Hl Hs'); try done.
  cbn. by rewrite E.
Qed.

(** The tenant a transient failure leaves before any purge. *)
Lemma transient_spec i l o r now u :
  linv cfg i l →
  linv cfg i (apply_Transient cfg o r now u l) ∧ grows l (apply_Transient cfg o r now u l)
  ∧ SentAt (t_lease (l_t (apply_Transient cfg o r now u l))) = SentAt (t_lease (l_t l)).
Proof.
  intros Hl. unfold apply_Transient.
  match goal with |- context [upd ?f (upd ?g (upd ?h ?k))] =>
    set (l1 := upd f (upd g (upd h k))) end.
  assert (quiet cfg l l1) as Hq.
  { unfold l1. do 3 (etrans; [|by apply quiet_fields]). apply quiet_audit. }
  pose proof (linv_quiet _ _ _ _ Hl Hq) as Hl1. clearbody l1.
  pose proof (shrink_grows cfg _ _ (q_shrink _ _ _ Hq)) as Hg1.
  rewrite <- (q_lease _ _ _ Hq). cbv zeta.
  assert (∀ why, let '(n, t') := purge (l_t l1) in
    linv cfg i (setState KeyUnavailable now (why n t') n (upd (λ _, t') l1)) ∧
    grows l (setState KeyUnavailable now (why n t') n (upd (λ _, t') l1)) ∧
    SentAt (t_lease (l_t (setState KeyUnavailable now (why n t') n (upd (λ _, t') l1))))
    = SentAt (t_lease (l_t l1))) as Hpurge.
  { intros why. destruct (purge (l_t l1)) as [n t'] eqn:Hp.
    pose proof (quiet_purge cfg _ _ _ Hp) as Hq'. split_and!.
    - apply linv_setState; [by eapply linv_quiet|done|].
      intros _. exact (purge_cold _ _ _ _ _ Hl1 Hp).
    - destruct Hg1 as [Ha Hb], (shrink_grows cfg _ _ (q_shrink _ _ _ Hq')) as [Ha' Hb'].
      split; intros p Hpp; [by apply Ha', Ha|by apply Hb', Hb].
    - cbn. exact (f_equal SentAt (q_lease _ _ _ Hq')). }
  destruct (Usable (t_lease (l_t l1)) now && negb (direct (l_t l1))),
    (t_state (l_t l1)) eqn:Hst; try done.
  - split_and!; [|done|done]. by apply linv_setState; [done|done|intros [|]].
  - specialize (Hpurge (λ _ t, if direct t then "no cache: call failed" else "cold fetch failed")).
    by destruct (purge (l_t l1)).
  - specialize (Hpurge (λ n _, fmtPurged "lease expired" n)). by destruct (purge (l_t l1)).
Qed.

(** ** Allocation *)

Lemma alloc_spec i l spec w now p l' :
  linv cfg i l → c_Tenants cfg !! i = Some spec → alloc_dek spec w now l = (p, l') →
  linv cfg i l' ∧ grows l l' ∧ allocated l' p ∧ t_lease (l_t l') = t_lease (l_t l).
Proof.
  intros Hl Hspec. pose proof (li_core _ _ _ Hl) as [].
  assert (t_spec (l_t l) = spec) as Hs by congruence.
  unfold alloc_dek. intros [= <- <-]. set (p := t_seq (l_t l) + 1).
  set (l' := upd _ l).
  assert (∀ q, is_hot (deref (l_t l') q) = true → is_hot (deref (l_t l) q) = true) as Hhot.
  { intros q. unfold deref, l'. cbn. rewrite lookup_insert. by case_decide. }
  assert (∀ q, allocated l' q ↔ q = p ∨ allocated l q) as Hal.
  { intros q. unfold allocated, l'. cbn. rewrite lookup_insert.
    case_decide; subst; split; eauto. intros [->|]; [congruence|done]. }
  assert (cold (l_t l) → cold (l_t l')) as Hcold.
  { intros Hc q. destruct (is_hot (deref (l_t l') q)) eqn:E; [|done].
    apply Hhot in E. by rewrite Hc in E. }
  assert (∀ q, installed l' q ↔ installed l q) as Hin by done.
  split_and!; [|split; [intros q Hq; rewrite Hal; auto|done]|rewrite Hal; auto|done].
  split; [split|]; try done; cbn [l' upd l_t l_cell]; auto.
  - intros q. rewrite Hal. cbn. intros [->|Hq]; [lia|]. apply li_seq in Hq. lia.
  - intros q d. unfold l'. cbn. rewrite lookup_insert_Some.
    intros [[<- <-]|[_ Hq]]; [|by apply li_names]. cbn. by rewrite Hs.
  - intros id q Hq. apply li_map in Hq as [-> Hq]. rewrite Hal. auto.
  - intros q Hq. apply li_hot, Hhot, Hq.
  - intros Hd. apply Hcold. by apply (li_direct _ _ _ Hl).
Qed.

(** ** One section of [apply] *)

(** What a call hands to [apply]: an OK comes with its DEK, which is on the
    heap, and, but for a generate, in the map. *)
Definition fits (o : op) (d : option Z) (r : result) (inst alloc : Z → Prop) : Prop :=
  r_class r = OK → is_err r errBusy || is_err r errStore = false →
  ∃ p, d = Some p ∧ alloc p ∧ (o ≠ OpGenerate → inst p).

Lemma apply_spec i l o d r now u :
  linv cfg i l → fits o d r (installed l) (allocated l) →
  ∃ l', apply cfg o d r now u l = Some l' ∧ linv cfg i l' ∧ grows l l' ∧
    (SentAt (t_lease (l_t l')) = 0 ∨ SentAt (t_lease (l_t l')) = SentAt (t_lease (l_t l)) ∨
     (r_class r = OK ∧ is_err r errBusy || is_err r errStore = false ∧
      SentAt (t_lease (l_t l')) = r_sentAt r)).
Proof.
  intros Hl Hf. unfold apply. destruct (is_err r errBusy || is_err r errStore) eqn:Eb.
  { destruct o, d; eexists; (split; [done|]); split_and!; auto; try by split.
    eapply linv_quiet; [exact Hl|]. by apply quiet_fields. }
  destruct (r_class r) eqn:Ec.
  - destruct (Hf Ec Eb) as (p & -> & Hal & Hin).
    match goal with |- context [apply_OK _ _ _ _ ?d _] => generalize d end. intros detail.
    destruct (Z.lt_ge_cases (r_sentAt r) (t_deniedAt (l_t l))) as [Hlt|Hge].
    + destruct (apply_OK_stale o (Some p) r now detail l Hlt) as [log ->].
      eexists. split_and!; [done| |by split|auto].
      apply (linv_quiet cfg i l); [done|]. by split.
    + pose proof (li_core _ _ _ Hl) as [].
      destruct (apply_OK_granted o p r now detail l li_grid Hge) as [log ->].
      destruct (granted_linv i l o p r now log Hl Hge Hal Hin) as (H1 & H2 & _).
      eexists. split_and!; [done..|]. cbn [l_t].
      pose proof (granted_fields o p r now (l_t l)) as (_ & _ & _ & _ & -> & _).
      rewrite Renew_SentAt. destruct (Z.max_spec (SentAt (t_lease (l_t l))) (r_sentAt r)) as [[_ ->]|[_ ->]]; auto.
  - pose proof (transient_spec i l o r now u Hl) as (H1 & H2 & H3). eauto 10.
  - pose proof (deny_spec i l o r now Hl) as (H1 & H2 & H3). eauto 10.
  - pose proof (transient_spec i l o r now u Hl) as (H1 & H2 & H3). eauto 10.
Qed.
End Rows.
