(* ===== verification/Safety.v ===== *)
(** * Every execution keeps the tenant invariant and the lease horizon

    The programs of [Manager.v] and [Api.v] in the logic of [Interleaving.v]:
    whatever the other goroutines do between two actions, each action keeps the
    tenant invariant, the lease starts no later than the key's horizon (the
    latest instant the KMS is known to have honoured it), and every handle that
    reaches a caller expires within one lease of that horizon. *)

From S2P Require Import Prelude GoLib GoFloat Kms Tink KmsModel Lease Cmek Tenant Prog Manager Api.
From S2P Require Import Interleaving TenantInv Rows.
Local Open Scope string_scope.
Local Open Scope Z_scope.

Section Safety.
Context `{TK : Tink} `{MR : MapRange}.
Context (cfg : Config).
Implicit Types (t : tenant) (l : local) (i : nat) (p : Z) (h : Hist).

(** The usable window of one authorization. *)
Definition window : Duration := dur_sub (c_Lease cfg) (c_EarlyExpiry cfg).

Definition backed h l : Prop :=
  SentAt (t_lease (l_t l)) ≠ 0 → SentAt (t_lease (l_t l)) <= h_hor h (ts_KEKID (t_spec (l_t l))).

(** The invariant of one tenant: well formed, and leased from a live key. *)
Definition LI h i l : Prop := linv cfg i l ∧ backed h l.

(** An issued handle names a DEK of its tenant and ends in time. *)
Definition HI h i (hd : Handle) : Prop :=
  ∀ spec, c_Tenants cfg !! i = Some spec →
    h_ValidUntil hd <= h_hor h (ts_KEKID spec) + window ∧ ∃ p, h_DEKID hd = dek_name spec p.

Lemma LI_mono h h' i l : hle h h' → LI h i l → LI h' i l.
Proof.
  intros Hh [Hl Hb]. split; [done|]. intros Hne. specialize (Hb Hne).
  pose proof (hle_hor _ _ Hh (ts_KEKID (t_spec (l_t l)))). lia.
Qed.

Lemma HI_mono h h' i hd : hle h h' → HI h i hd → HI h' i hd.
Proof.
  intros Hh H spec Hs. destruct (H spec Hs) as [H1 H2]. split; [|done].
  pose proof (hle_hor _ _ Hh (ts_KEKID spec)). lia.
Qed.

Lemma LI_init h i s :
  c_Tenants cfg !! i = Some s → LI h i (mkLocal (new_tenant cfg i s) Active []).
Proof.
  intros Hs. assert (cold (new_tenant cfg i s)) as Hc.
  { by intros p. }
  split; [split; [split|]|]; cbn; try done.
  - split; cbn; lia.
  - intros p [d Hd]. cbn in Hd. by rewrite lookup_empty in Hd.
  - by intros [].
Qed.

(** What a finished call tells its caller. *)
Record answer h (spec : TenantSpec) (r : result) : Prop := {
  an_err : ∀ e, r_err r = Some e → r_class r = OK → is_err r errBusy || is_err r errStore = true;
  an_ok : r_err r = None → r_class r = OK ∧ r_sentAt r <= h_hor h (ts_KEKID spec) }.

Lemma answer_mono h h' spec r : hle h h' → answer h spec r → answer h' spec r.
Proof.
  intros Hh [H1 H2]. split; [done|]. intros E. destruct (H2 E). split; [done|].
  pose proof (hle_hor _ _ Hh (ts_KEKID spec)). lia.
Qed.

(** A DEK a goroutine holds a pointer to: generated by it, or from the map. *)
Definition known h i p : Prop := h_alloc h i p ∨ h_inst h i p.

Lemma known_mono h h' i p : hle h h' → known h i p → known h' i p.
Proof. intros Hh [H|H]; [left; by apply (hle_alloc _ _ Hh)|right; by apply (hle_inst _ _ Hh)]. Qed.

(** A "/generate" flight shares a finished call and, when that succeeded, its
    DEK; every other flight shares nil. *)
Definition FR h (key : string) (v : fres) : Prop :=
  ∀ i spec, c_Tenants cfg !! i = Some spec → key = key_generate spec →
    match f_val v with
    | FNil => True
    | FGenerated d r => answer h spec r ∧ (r_err r = None → ∃ p, d = Some p ∧ known h i p)
    end.

Lemma FR_mono h h' key v : hle h h' → FR h key v → FR h' key v.
Proof.
  intros Hh H i spec Hs Hk. specialize (H i spec Hs Hk). destruct (f_val v) as [|d r]; [done|].
  destruct H as [H1 H2]. split; [by eapply answer_mono|]. intros E.
  destruct (H2 E) as (p & -> & Hp). exists p. split; [done|]. by eapply known_mono.
Qed.

Lemma FR_nil h key e : FR h key (mkFres FNil e).
Proof. by intros i spec. Qed.

(** A spawned warm names a DEK of the tenant's map. *)
Definition TO h (t : task) : Prop :=
  match t with TProbe _ => True | TWarm i p => h_inst h i p end.

Abbreviation wp := (wp LI HI FR TO).

(** ** Rules *)

Lemma wp_seq {A B} (p : prog A) (f : A → prog B) P Q h :
  wp p P h → (∀ h' a, hle h h' → P h' a → wp (f a) Q h') → wp (bind p f) Q h.
Proof.
  intros Hp Hf. apply wp_bind. eapply wp_weaken; [|exact Hp]. cbn. auto.
Qed.

Lemma wp_True {A} (p : prog A) P h : wp p P h → wp p (λ _ _, True) h.
Proof. by apply wp_weaken. Qed.

Lemma wp_ret {A} (a : A) Q h : Q h a → wp (Ret a) Q h.
Proof. done. Qed.

Lemma wp_now Q h : (∀ h', hle h h' → Q h' (h_now h')) → wp (act ENow) Q h.
Proof. intros H h' Hh. by apply H. Qed.

(** An action whose answer is unconstrained. *)
Definition free {X} (e : ev X) : Prop :=
  match e with
  | ENow | ECrit _ _ _ | EEncrypt _ _ _ | EDecrypt _ _ _ | EIssue _ _
  | EBegin _ | EEnd _ _ _ | EWait _ | ESpawn _ => False
  | _ => True
  end.

Lemma wp_free {X} (e : ev X) (Q : Hist → X → Prop) h :
  free e → (∀ h' x, hle h h' → Q h' x) → wp (act e) Q h.
Proof. intros Hf H h' Hh. destruct e; try done; simpl; intros; by apply H. Qed.

Lemma wp_panic {A} Q h : wp (act (EPanic A)) Q h.
Proof. by intros h' Hh. Qed.

(** A critical section. *)
Lemma wp_crit i B f (Q : Hist → B → Prop) h :
  (∀ h' l, hle h h' → LI h' i l → agrees h' i l →
     ∃ x l', f l = Some (x, l') ∧ grows l l' ∧ linv cfg i l' ∧ backed h' l' ∧
       ∀ h'', hle h' h'' → agrees h'' i l' → Q h'' x) →
  wp (act (ECrit i B f)) Q h.
Proof.
  intros H h' Hh l Hl Ha. destruct (H h' l Hh Hl Ha) as (x & l' & E & Hg & Hl' & Hb & HQ).
  exists x, l'. split_and!; [done..|]. intros h'' Hh' Ha'. split; [|by apply HQ].
  by apply (LI_mono h').
Qed.

Lemma backed_quiet h l l' : backed h l → quiet cfg l l' → backed h l'.
Proof.
  intros Hb [Hs _ _ Hle _]. unfold backed. rewrite Hle, (sh_spec _ _ _ Hs). done.
Qed.

(** A section that leaves state and lease alone. *)
Lemma wp_quiet {B} i (f : local → B * local) (Q : Hist → B → Prop) h :
  (∀ l x l', f l = (x, l') → quiet cfg l l') →
  (∀ h' l x l', hle h h' → LI h' i l → agrees h' i l' → f l = (x, l') → Q h' x) →
  wp (section i f) Q h.
Proof.
  intros Hq HQ. apply wp_crit. intros h' l Hh [Hl Hb] Ha. destruct (f l) as [x l'] eqn:E.
  pose proof (Hq _ _ _ E) as Hqq. exists x, l'. split_and!; [done| | | |].
  - apply (shrink_grows cfg), Hqq.
  - by eapply linv_quiet.
  - by eapply backed_quiet.
  - intros h'' Hh' Ha'. apply (HQ h'' l x l'); [by etrans| |done..].
    by apply (LI_mono h').
Qed.

Lemma wp_quiet_True {B} i (f : local → B * local) h :
  (∀ l x l', f l = (x, l') → quiet cfg l l') → wp (section i f) (λ _ _, True) h.
Proof. intros Hq. by apply wp_quiet. Qed.

(** ** The fetcher *)

Lemma Classify_Some e : Classify (Some e) ≠ OK.
Proof.
  cbn. destruct (errors.Is e ErrPoison); [done|].
  destruct (errors.AsKms e); [|destruct (CodeFromText (Some e))]; repeat case_match; done.
Qed.

Lemma wp_newDEK k h :
  wp (newDEK k) (λ h' x, ∀ y, x = inr y → h_now h <= h_hor h' k) h.
Proof.
  unfold newDEK. eapply wp_seq; [by apply (wp_free _ (λ _ _, True))|].
  intros h1 m Hh1 _. destruct (NewHandle m) as [e|hd]; [by apply wp_ret|].
  intros h2 Hh2 r Hr. cbn [bind]. destruct r as [e|ct]; [by apply wp_ret|].
  destruct (aead_New hd) as [e|prim]; apply wp_ret; [done|]. intros _ _.
  rewrite Hr by eauto. pose proof (hle_now _ _ Hh1). pose proof (hle_now _ _ Hh2). lia.
Qed.

Lemma wp_openDEK k w h :
  wp (openDEK k w) (λ h' x, ∀ y, x = inr y → h_now h <= h_hor h' k) h.
Proof.
  unfold openDEK. destruct (frame_read w) as [e|ct]; [by apply wp_ret|].
  intros h1 Hh1 r Hr. cbn [bind]. destruct r as [e|pt]; [by apply wp_ret|].
  destruct (parse pt) as [e|hd]; [by apply wp_ret|].
  destruct (aead_New hd) as [e|prim]; apply wp_ret; [done|]. intros _ _.
  rewrite Hr by eauto. pose proof (hle_now _ _ Hh1). lia.
Qed.

Lemma wp_read_wrapped i d h : is_Some d → wp (read_wrapped i d) (λ _ _, True) h.
Proof.
  intros [p ->]. apply wp_crit. intros h' l Hh [Hl Hb] Ha.
  exists (d_wrapped (deref (l_t l) p)), l. by split_and!.
Qed.

Lemma wp_call_body i spec naive o d h :
  (o ≠ OpGenerate → is_Some d) →
  wp (call_body i spec naive o d) (λ h' r, answer h' spec r) h.
Proof.
  intros Hd. unfold call_body.
  eapply (wp_seq _ _ (λ _ _, True)); [by destruct naive; [|apply wp_free]|].
  intros h1 acquired Hh1 _. destruct acquired; cbn [negb].
  2: { eapply wp_seq; [by apply (wp_now (λ _ _, True))|]. intros h2 now Hh2 _. apply wp_ret. by split. }
  eapply wp_seq; [by apply (wp_free _ (λ _ _, True))|]. intros h2 _ Hh2 _.
  eapply wp_seq; [by apply (wp_now (λ h' x, x = h_now h'))|]. intros h3 sentAt Hh3 ->.
  eapply wp_seq; [by apply (wp_free _ (λ _ _, True))|]. intros h4 kek Hh4 _.
  eapply (wp_seq _ _ (λ h' x, x.1.1 = None → h_now h3 <= h_hor h' (ts_KEKID spec))).
  - destruct kek; [by apply wp_ret|]. case_decide.
    + eapply wp_seq; [apply wp_newDEK|]. intros h5 [e|[w prim]] Hh5 H5; apply wp_ret; [done|].
      intros _. pose proof (H5 _ eq_refl). pose proof (hle_now _ _ Hh4). lia.
    + eapply wp_seq; [apply wp_read_wrapped; auto|]. intros h5 w Hh5 _.
      eapply wp_seq; [apply wp_openDEK|]. intros h6 [e|prim] Hh6 H6; apply wp_ret; [done|].
      intros _. pose proof (H6 _ eq_refl). pose proof (hle_now _ _ Hh4).
      pose proof (hle_now _ _ Hh5). lia.
  - intros h5 [[e prim] w] Hh5 H5. cbn [fst] in H5.
    eapply wp_seq; [by apply (wp_now (λ _ _, True))|]. intros h6 done_ Hh6 _.
    eapply wp_seq; [by apply (wp_free _ (λ _ _, True))|]. intros h7 _ Hh7 _.
    eapply (wp_seq _ _ (λ _ _, True)); [by destruct naive; [|apply wp_free]|]. intros h8 _ Hh8 _.
    apply wp_ret. split; cbn.
    + intros e0 -> Hc. by apply Classify_Some in Hc.
    + intros ->. split; [done|]. specialize (H5 eq_refl).
      assert (hle h5 h8) as Hh by (do 2 (etrans; [eassumption|]); done).
      pose proof (hle_hor _ _ Hh (ts_KEKID spec)). lia.
Qed.

Lemma quiet_call_leave l x l' : call_leave l = (x, l') → quiet cfg l l'.
Proof. unfold call_leave. intros [= <- <-]. apply quiet_fields; [done|]. unfold caps. cbn. lia. Qed.

Lemma wp_call i spec o d h :
  (o ≠ OpGenerate → is_Some d) → wp (call cfg i spec o d) (λ h' r, answer h' spec r) h.
Proof.
  intros Hd. unfold call. eapply wp_seq; [apply wp_quiet_True, quiet_call_enter|].
  intros h1 [[naive admitted] counted] Hh1 _. destruct admitted; cbn [negb].
  - eapply wp_seq; [by apply wp_call_body|]. intros h2 r Hh2 Hr.
    eapply (wp_seq _ _ (λ _ _, True)).
    { destruct counted; [|by apply wp_ret]. apply wp_quiet_True, quiet_call_leave. }
    intros h3 _ Hh3 _. apply wp_ret. by eapply answer_mono.
  - apply wp_ret. by split.
Qed.

(** *** Singleflight, apply, generate *)

Lemma wp_sf key (f : prog fres) (Q : Hist → fres → Prop) h :
  (∀ h', hle h h' → wp f (λ h'' v, FR h'' key v) h') →
  (∀ h' v, hle h h' → FR h' key v → Q h' v) → wp (sf_Do key f) Q h.
Proof.
  intros Hf HQ h1 Hh1 c h2 Hh2 Hcall. cbn [bind]. destruct c as [c|c].
  - eapply wp_seq; [apply Hf; by etrans|]. intros h3 v Hh3 Hv h4 Hh4. cbn.
    split_and!; [by apply (hle_call _ _ Hh4), (hle_call _ _ Hh3)|by eapply FR_mono|].
    intros h5 Hh5. apply HQ; [by do 4 (etrans; [eassumption|])|].
    eapply FR_mono; [|exact Hv]. by etrans.
  - intros h3 Hh3 v Hv. apply HQ; [by do 2 (etrans; [eassumption|])|].
    apply Hv. by apply (hle_call _ _ Hh3).
Qed.

Lemma wp_apply_call i spec o d r h :
  c_Tenants cfg !! i = Some spec → answer h spec r →
  (r_err r = None → ∃ p, d = Some p ∧ (o = OpGenerate ∧ h_alloc h i p ∨ h_inst h i p)) →
  wp (apply_call cfg i o d r) (λ _ _, True) h.
Proof.
  intros Hspec Hr Hd. unfold apply_call.
  eapply wp_seq; [by apply (wp_now (λ _ _, True))|]. intros h1 now Hh1 _.
  eapply (wp_seq _ _ (λ _ _, True)).
  { unfold draw. destruct (_ && _); [by apply wp_free|by apply wp_ret]. }
  intros h2 u Hh2 _. apply wp_crit. intros h3 l Hh3 [Hl Hb] [Ha Hi].
  assert (hle h h3) as Hh by (do 2 (etrans; [eassumption|]); done).
  assert (fits o d r (installed l) (allocated l)) as Hf.
  { intros Hc Hbs. destruct (r_err r) as [e|] eqn:He.
    { rewrite (an_err _ _ _ Hr _ He Hc) in Hbs. done. }
    destruct (Hd eq_refl) as (p & -> & Hp). exists p. split; [done|].
    destruct Hp as [[-> Hp]|Hp].
    - split; [|done]. apply Ha. by apply (hle_alloc _ _ Hh).
    - apply (hle_inst _ _ Hh), Hi in Hp as Hin. split; [|done].
      destruct Hin as [id Hid]. by destruct (li_map _ _ _ Hl _ _ Hid). }
  destruct (apply_spec cfg i l o d r now u Hl Hf) as (l' & E & Hl' & Hg & Hle).
  exists tt, l'. rewrite E. split_and!; [done..| |done].
  pose proof (li_spec _ _ _ Hl) as Hs. pose proof (li_spec _ _ _ Hl') as Hs'.
  assert (t_spec (l_t l') = t_spec (l_t l)) as Hsp by congruence.
  unfold backed in *. rewrite Hsp. destruct Hle as [Hz|[Hu|(Hc & Hbs & Hu)]].
  - by intros [].
  - by rewrite Hu.
  - intros _. rewrite Hu. rewrite Hs in Hspec. injection Hspec as ->.
    destruct (r_err r) as [e|] eqn:He.
    { rewrite (an_err _ _ _ Hr _ He Hc) in Hbs. done. }
    destruct (an_ok _ _ _ Hr He) as [_ Hle].
    pose proof (hle_hor _ _ Hh (ts_KEKID spec)). lia.
Qed.

Lemma wp_alloc i spec w now h :
  c_Tenants cfg !! i = Some spec →
  wp (section i (alloc_dek spec w now)) (λ h' p, h_alloc h' i p) h.
Proof.
  intros Hspec. apply wp_crit. intros h1 l Hh1 [Hl Hb] Ha.
  destruct (alloc_dek spec w now l) as [p l'] eqn:E.
  destruct (alloc_spec cfg i l spec w now p l' Hl Hspec E) as (Hl' & Hg & Hp & Hle).
  exists p, l'. split_and!; [done..| |].
  - pose proof (li_spec _ _ _ Hl). pose proof (li_spec _ _ _ Hl').
    assert (t_spec (l_t l') = t_spec (l_t l)) as Hsp by congruence.
    unfold backed. by rewrite Hsp, Hle.
  - intros h2 _ [Ha' _]. by apply Ha'.
Qed.

Lemma wp_generate i spec h :
  c_Tenants cfg !! i = Some spec →
  wp (generate cfg i spec)
    (λ h' x, answer h' spec x.2 ∧ (r_err x.2 = None → ∃ p, x.1 = Some p ∧ h_alloc h' i p)) h.
Proof.
  intros Hspec. unfold generate. eapply wp_seq; [by apply wp_call|]. intros h1 r Hh1 Hr.
  destruct (r_err r) as [e|] eqn:He.
  { eapply wp_seq; [apply (wp_apply_call _ spec); [done..|by rewrite He]|].
    intros h2 _ Hh2 _. apply wp_ret. cbn. rewrite He. split; [by eapply answer_mono|done]. }
  eapply wp_seq; [by apply (wp_now (λ _ _, True))|]. intros h2 now Hh2 _.
  eapply wp_seq; [by apply wp_alloc|]. intros h3 p Hh3 Hp.
  eapply wp_seq; [by apply (wp_free _ (λ _ _, True))|]. intros h4 e Hh4 _.
  assert (hle h1 h4) as Hh by (do 2 (etrans; [eassumption|]); done).
  apply (answer_mono _ _ _ _ Hh) in Hr. apply (hle_alloc _ _ Hh4) in Hp.
  destruct e as [e|].
  - eapply wp_seq; [apply (wp_apply_call _ spec); [done| |done]; split; [|done]|].
    + intros e0 _ _. unfold is_err. cbn. by rewrite orb_true_r.
    + intros h5 _ Hh5 _. apply wp_ret. split; [|done]. split; [|done].
      intros e0 _ _. unfold is_err. cbn. by rewrite orb_true_r.
  - eapply wp_seq; [apply (wp_apply_call _ spec); [done..|]|].
    { intros _. exists p. auto. }
    intros h5 _ Hh5 _. apply wp_ret. cbn. split; [by eapply answer_mono|].
    intros _. exists p. split; [done|]. by apply (hle_alloc _ _ Hh5).
Qed.

(** *** renew, probe, warm *)

Lemma wp_satisfied i cold h : wp (satisfied cfg i cold) (λ _ _, True) h.
Proof.
  eapply wp_seq; [by apply (wp_now (λ _ _, True))|]. intros h1 now Hh1 _.
  apply wp_quiet_True. by intros l x l' [= <- <-].
Qed.

Lemma wp_need i cold now h :
  wp (section i (λ l, (need cfg cold now (l_t l), l)))
    (λ h' x, x.2 = false → ∃ p, x.1 = Some p ∧ h_inst h' i p) h.
Proof.
  apply wp_quiet; [by intros l x l' [= <- <-]|].
  intros h1 l x l' Hh [Hl Hb] [Ha Hi] [= <- <-]. unfold need. cbn.
  destruct (t_active (l_t l)) as [p|] eqn:E; [|done]. intros _. exists p. split; [done|].
  apply Hi. by apply (li_active _ _ _ Hl).
Qed.

(** One unwrap of an installed DEK and its [apply]. *)
Lemma wp_unwrap_then {A} i spec d (k : result → A) (Q : Hist → A → Prop) h :
  c_Tenants cfg !! i = Some spec → (∃ p, d = Some p ∧ h_inst h i p) →
  (∀ h' r, hle h h' → answer h' spec r → Q h' (k r)) →
  wp (r ←ₚ call cfg i spec OpUnwrap d; apply_call cfg i OpUnwrap d r ;;ₚ Ret (k r))%prog Q h.
Proof.
  intros Hspec (p & -> & Hp) HQ. eapply wp_seq; [by apply wp_call|]. intros h1 r Hh1 Hr.
  eapply wp_seq; [apply (wp_apply_call _ spec); [done..|]|].
  - intros _. exists p. split; [done|]. right. by apply (hle_inst _ _ Hh1).
  - intros h2 _ Hh2 _. apply wp_ret. apply HQ; [by etrans|]. by eapply answer_mono.
Qed.

Lemma wp_renew i spec cold h :
  c_Tenants cfg !! i = Some spec → wp (renew cfg i spec cold) (λ _ _, True) h.
Proof.
  intros Hspec. unfold renew.
  eapply wp_seq; [by apply (wp_now (λ _ _, True))|]. intros h1 now Hh1 _.
  eapply wp_seq; [apply wp_need|]. intros h2 [d gen] Hh2 Hd. cbn in Hd.
  eapply (wp_seq _ _ (λ _ _, True)); [|by intros h3 r _ _; apply wp_ret].
  apply wp_sf; [|done]. intros h3 Hh3.
  eapply wp_seq; [apply wp_satisfied|]. intros h4 s Hh4 _.
  destruct s; [apply wp_ret, FR_nil|]. destruct gen.
  - eapply wp_seq; [by apply wp_generate|]. intros h5 [d' r] _ _. apply wp_ret, FR_nil.
  - destruct (Hd eq_refl) as (p & -> & Hp). apply wp_unwrap_then; [done| |intros; apply FR_nil].
    exists p. split; [done|]. by apply (hle_inst _ _ Hh4), (hle_inst _ _ Hh3).
Qed.

Lemma wp_clearProbing i h : wp (clearProbing i) (λ _ _, True) h.
Proof. apply wp_quiet_True. intros l x l' [= <- <-]. by apply quiet_fields. Qed.

Lemma wp_probe i spec h :
  c_Tenants cfg !! i = Some spec → wp (probe cfg i spec) (λ _ _, True) h.
Proof.
  intros Hspec. eapply wp_seq; [by apply wp_renew|]. intros h1 e _ _. apply wp_clearProbing.
Qed.

Lemma wp_warm i spec p h :
  c_Tenants cfg !! i = Some spec → h_inst h i p → wp (warm cfg i spec p) (λ _ _, True) h.
Proof.
  intros Hspec Hp. unfold warm. eapply (wp_seq _ _ (λ _ _, True)).
  { apply wp_quiet_True. by intros l x l' [= <- <-]. }
  intros h1 id Hh1 _. eapply (wp_seq _ _ (λ _ _, True)); [|intros; apply wp_clearProbing].
  apply wp_sf; [|done]. intros h2 Hh2.
  eapply wp_seq; [apply wp_quiet_True, quiet_warm_check|]. intros h3 hot Hh3 _.
  destruct hot; [apply wp_ret, FR_nil|].
  eapply wp_seq; [by apply wp_call|]. intros h4 r Hh4 Hr.
  eapply wp_seq; [apply (wp_apply_call _ spec); [done..|]|].
  - intros _. exists p. split; [done|]. right.
    by apply (hle_inst _ _ Hh4), (hle_inst _ _ Hh3), (hle_inst _ _ Hh2), (hle_inst _ _ Hh1).
  - intros h5 _ _ _. apply wp_ret, FR_nil.
Qed.

(** ** The public calls *)

(** A handle made from the tenant's lease while it is usable. *)
Lemma HI_lease h i l now hd p :
  LI h i l → Usable (t_lease (l_t l)) now = true → allocated l p →
  hd = mkHandle (d_id (deref (l_t l) p)) (Until (t_lease (l_t l))) (h_prim hd) → HI h i hd.
Proof.
  intros [Hl Hb] Hu [d Hd] -> spec Hspec. cbn.
  pose proof (li_spec _ _ _ Hl) as Hs. rewrite Hspec in Hs. injection Hs as ->. split.
  - unfold Usable, Time.IsZero in Hu. bools.
    assert (SentAt (t_lease (l_t l)) ≠ 0) as Hne by lia. specialize (Hb Hne).
    destruct (li_lease _ _ _ Hl) as (E1 & _ & E2).
    unfold Until, Time.Add, window. rewrite E1, E2. lia.
  - exists p. unfold deref. rewrite Hd. by apply (li_names _ _ _ Hl).
Qed.

Lemma installed_allocated i l p : linv cfg i l → installed l p → allocated l p.
Proof. intros Hl [id Hid]. by destruct (li_map _ _ _ Hl _ _ Hid). Qed.

Lemma HI_handle h i l now hd l' :
  LI h i l → handle cfg now l = (Some hd, l') → HI h i hd.
Proof.
  intros HL. unfold handle. destruct (t_active (l_t l)) as [p|] eqn:Ea; [|done].
  destruct (_ || _) eqn:E; [done|]. intros [= <- _]. bools.
  apply (HI_lease h i l now _ p); try done.
  apply (installed_allocated i); [apply HL|]. by apply (li_active _ _ _ (proj1 HL)).
Qed.

Definition enc_good h i (n : enc_next) : Prop :=
  match n with EncHot hd _ => HI h i hd | _ => True end.

Lemma enc_decide_good h i l now n l' :
  LI h i l → enc_decide cfg now l = (n, l') → enc_good h i n.
Proof.
  intros HL. unfold enc_decide. destruct (handle cfg now l) as [[hd|] l0] eqn:E;
    repeat case_match; intros; simplify_eq/=; try done; by eapply HI_handle.
Qed.

Lemma enc_first_good h i l now n l' :
  LI h i l → enc_first cfg now l = (n, l') → enc_good h i n.
Proof.
  intros HL. unfold enc_first. case_match; [by intros [= <- <-]|by apply enc_decide_good].
Qed.

Definition ans_good h i (r : err + Handle) : Prop := ∀ hd, r = inr hd → HI h i hd.

Lemma ans_good_mono h h' i r : hle h h' → ans_good h i r → ans_good h' i r.
Proof. intros Hh H hd E. eapply HI_mono; eauto. Qed.

Lemma enc_last_good h i l now e x l' :
  LI h i l → enc_last cfg e now l = (x, l') → ans_good h i x.
Proof.
  intros [Hl Hb]. unfold enc_last.
  set (l0 := upd _ l). assert (LI h i l0) as HL0.
  { split; [|done]. eapply linv_quiet; [exact Hl|]. apply quiet_fields; [done|]. unfold caps. cbn. lia. }
  destruct (handle cfg now l0) as [[hd|] l1] eqn:E;
    repeat case_match; intros; simplify_eq/=; intros hd' [= <-]; by eapply HI_handle.
Qed.

Definition dec_good h i (n : dec_next) : Prop :=
  match n with
  | DecOk hd => HI h i hd
  | DecDirect p | DecWarm p => h_inst h i p
  | _ => True
  end.

Lemma dec_decide_good h i l id p now n l' :
  LI h i l → agrees h i l → id = dek_name (t_spec (l_t l)) p → installed l p →
  dec_decide id p now l = (n, l') → dec_good h i n.
Proof.
  intros HL [_ Hi] -> Hin. unfold dec_decide.
  assert (h_inst h i p) as Hp by by apply Hi.
  destruct (installed_allocated i l p (proj1 HL) Hin) as [d Hd].
  repeat case_match; intros; simplify_eq/=; try done; bools.
  all: apply (HI_lease h i l' now _ p); [done..|by exists d|]; cbn.
  all: unfold deref; rewrite Hd; cbn; by rewrite (li_names _ _ _ (proj1 HL) _ _ Hd).
Qed.

Lemma dec_first_good h i l spec id now n p l' :
  LI h i l → agrees h i l → c_Tenants cfg !! i = Some spec →
  dec_first id now l = ((n, p), l') →
  dec_good h i n ∧ (n = DecFail ErrPoison ∨ (id = dek_name spec p ∧ h_inst h i p)).
Proof.
  intros HL Ha Hspec. unfold dec_first. pose proof (li_spec _ _ _ (proj1 HL)) as Hs.
  destruct (t_deks (l_t l) !! id) as [q|] eqn:Hid; [|by intros [= <- <- _]; split; [|left]].
  assert (installed l q) as Hin by by exists id. pose proof (proj1 (li_map _ _ _ (proj1 HL) _ _ Hid)) as Hn.
  assert (h_inst h i q) as Hq by by apply Ha.
  assert (t_spec (l_t l) = spec) as Hsp by congruence. rewrite Hsp in Hn.
  destruct (dec_inline q now (l_t l)) as [m|] eqn:E.
  - intros [= <- <- _]. split; [|by right]. revert E. unfold dec_inline.
    repeat case_match; intros; by simplify_eq/=.
  - destruct (dec_decide id q now l) as [m l0] eqn:E'. intros [= <- <- _].
    split; [|by right]. apply (dec_decide_good h i l id q now m l0 HL Ha); [by rewrite Hsp|done..].
Qed.

Lemma wp_ptHandle i spec d r count h :
  c_Tenants cfg !! i = Some spec → (r_err r = None → ∃ p, d = Some p ∧ known h i p) →
  wp (passThroughHandle i d r count) (λ h' x, ans_good h' i x) h.
Proof.
  intros Hspec Hd. unfold passThroughHandle.
  destruct (r_err r) as [e|]; [repeat case_match; by apply wp_ret|].
  destruct (Hd eq_refl) as (p & -> & Hp).
  eapply wp_seq; [by apply (wp_now (λ _ _, True))|]. intros h1 now Hh1 _.
  apply wp_crit. intros h2 l Hh2 HL Ha.
  assert (allocated l p) as Hal.
  { apply (known_mono _ _ _ _ Hh1), (known_mono _ _ _ _ Hh2) in Hp as [Hp|Hp]; [by apply Ha|].
    apply (installed_allocated i); [apply HL|by apply Ha]. }
  unfold ptHandle_section. destruct HL as [Hl Hb].
  destruct (decide _); [eexists _, l; split_and!; try done|].
  destruct (Usable _ now) eqn:Hu; cbn [negb]; [|eexists _, l; split_and!; try done].
  set (l' := if count then _ else l).
  assert (quiet cfg l l') as Hq by (unfold l'; destruct count; [by apply quiet_modify|done]).
  eexists _, l'. split_and!; [done| | | |].
  - apply (shrink_grows cfg), Hq.
  - by eapply linv_quiet.
  - by eapply backed_quiet.
  - intros h3 Hh3 _ hd [= <-]. eapply HI_mono; [exact Hh3|].
    eapply (HI_lease h2 i l now _ p); [by split|done..].
Qed.

Lemma wp_ans_ret h i r : ans_good h i r → wp (Ret r) (λ h' x, ans_good h' i x) h.
Proof. done. Qed.

(** Distinct tenants have distinct flights. *)
Definition ids_distinct : Prop := NoDup (ts_ID <$> c_Tenants cfg).

Lemma key_generate_inj i j s s' :
  ids_distinct → c_Tenants cfg !! i = Some s → c_Tenants cfg !! j = Some s' →
  key_generate s = key_generate s' → i = j ∧ s = s'.
Proof.
  intros Hd Hi Hj E. unfold key_generate in E. apply (f_equal bytes_of) in E.
  rewrite !bytes_of_app in E. apply app_inv_tail in E. apply bytes_of_inj in E.
  assert (i = j) as ->.
  { apply (NoDup_lookup _ i j (ts_ID s) Hd); rewrite list_lookup_fmap.
    - by rewrite Hi.
    - by rewrite Hj, E. }
  split; [done|congruence].
Qed.

Lemma find_tenant_Some id i s :
  find_tenant cfg id = Some (i, s) → c_Tenants cfg !! i = Some s ∧ ts_ID s = id.
Proof.
  unfold find_tenant.
  assert (∀ (l : list (nat * TenantSpec)) acc,
    foldl (λ acc '(i, s), if bool_decide (ts_ID s = id) then Some (i, s) else acc) acc l = Some (i, s) →
    acc = Some (i, s) ∨ ((i, s) ∈ l ∧ ts_ID s = id)) as Hgen.
  { induction l as [|[j s'] l IH]; intros acc; [by left|]. cbn. intros Hf.
    destruct (IH _ Hf) as [Hc|[Hin ?]]; [|right; split; [by apply list_elem_of_further|done]].
    case_bool_decide; [|by left]. injection Hc as -> ->. right. split; [by apply list_elem_of_here|done]. }
  intros Hf. apply Hgen in Hf as [|[Hin Hid]]; [done|]. split; [|done].
  apply list_elem_of_lookup in Hin as [k Hk]. rewrite list_lookup_imap in Hk.
  destruct (c_Tenants cfg !! k) eqn:E; [|done]. by injection Hk as <- <-.
Qed.

Context (Hids : ids_distinct).

Lemma wp_needGen i h :
  wp (needGen cfg i) (λ h' x, x.2 = false → ∃ p, x.1 = Some p ∧ h_inst h' i p) h.
Proof.
  eapply wp_seq; [by apply (wp_now (λ _ _, True))|]. intros h1 now Hh1 _. apply wp_need.
Qed.

Lemma wp_unwrap_cont {B} i spec d (k : result → prog B) (Q : Hist → B → Prop) h :
  c_Tenants cfg !! i = Some spec → (∃ p, d = Some p ∧ h_inst h i p) →
  (∀ h' r, hle h h' → answer h' spec r → (∃ p, d = Some p ∧ known h' i p) → wp (k r) Q h') →
  wp (r ←ₚ call cfg i spec OpUnwrap d; apply_call cfg i OpUnwrap d r ;;ₚ k r)%prog Q h.
Proof.
  intros Hspec (p & -> & Hp) Hk. eapply wp_seq; [by apply wp_call|]. intros h1 r Hh1 Hr.
  apply (hle_inst _ _ Hh1) in Hp.
  eapply wp_seq; [apply (wp_apply_call _ spec); [done..|]|].
  - intros _. exists p. auto.
  - intros h2 _ Hh2 _. apply Hk; [by etrans|by eapply answer_mono|].
    exists p. split; [done|]. right. by apply (hle_inst _ _ Hh2).
Qed.

Lemma wp_passThroughEncrypt i spec h :
  c_Tenants cfg !! i = Some spec →
  wp (passThroughEncrypt cfg i spec) (λ h' x, ans_good h' i x) h.
Proof.
  intros Hspec. unfold passThroughEncrypt. eapply wp_seq; [apply wp_needGen|].
  intros h1 [d gen] Hh1 Hd. cbn in Hd. destruct gen; cbn [negb].
  - eapply (wp_seq _ _ (λ h' v, FR h' (key_generate spec) v)).
    + apply wp_sf; [|done]. intros h2 Hh2. eapply wp_seq; [apply wp_needGen|].
      intros h3 [d' still] Hh3 Hd'. cbn in Hd'. destruct still; cbn [negb].
      * eapply wp_seq; [by apply wp_generate|]. intros h4 [d0 r] Hh4 [Hr Hd0]. apply wp_ret.
        intros j s Hj Hk. destruct (key_generate_inj _ _ _ _ Hids Hspec Hj Hk) as [<- <-]. cbn.
        split; [done|]. intros E. destruct (Hd0 E) as (p & E' & Hp). exists p. split; [done|by left].
      * apply (wp_unwrap_cont _ spec); [done|auto|]. intros h4 r Hh4 Hr Hp. apply wp_ret.
        intros j s Hj Hk. destruct (key_generate_inj _ _ _ _ Hids Hspec Hj Hk) as [<- <-]. by split.
    + intros h2 v Hh2 Hv. specialize (Hv i spec Hspec eq_refl).
      destruct (f_val v) as [|d0 r]; [apply wp_panic|]. destruct Hv as [Hr Hd0].
      by apply (wp_ptHandle _ spec).
  - apply (wp_unwrap_cont _ spec); [done|auto|]. intros h2 r Hh2 Hr Hp.
    by apply (wp_ptHandle _ spec).
Qed.

Lemma wp_spawn (k : task) h : TO h k → wp (act (ESpawn k)) (λ _ _, True) h.
Proof.
  intros Ht h1 Hh1. split; [|done]. destruct k as [i|i p]; [done|]. by apply (hle_inst _ _ Hh1).
Qed.

Lemma wp_enc_continue i spec n h :
  c_Tenants cfg !! i = Some spec → enc_good h i n →
  wp (enc_continue cfg i spec n) (λ h' x, ans_good h' i x) h.
Proof.
  intros Hspec Hn. destruct n as [|e| |hd kick|]; cbn beta iota delta [enc_continue].
  - apply wp_panic.
  - by apply wp_ret.
  - by apply wp_passThroughEncrypt.
  - eapply (wp_seq _ _ (λ _ _, True)); [destruct kick; [by apply wp_spawn|by apply wp_ret]|].
    intros h1 _ Hh1 _. apply wp_ret. intros hd' [= <-]. by eapply HI_mono.
  - eapply wp_seq; [by apply wp_renew|]. intros h1 e Hh1 _.
    eapply wp_seq; [by apply (wp_now (λ _ _, True))|]. intros h2 now Hh2 _.
    apply wp_quiet; [intros *; apply quiet_enc_last|]. intros h3 l x l' _ HL _. by apply enc_last_good.
Qed.

Lemma wp_EncryptKey id h :
  wp (EncryptKey cfg id)
    (λ h' x, ∀ i spec, find_tenant cfg id = Some (i, spec) → ans_good h' i x) h.
Proof.
  unfold EncryptKey. destruct (find_tenant cfg id) as [[i spec]|] eqn:Hf; [|by apply wp_ret].
  eapply wp_weaken with (Q := λ h' x, ans_good h' i x); [intros h' x _ Hx ?? [= <- <-]; exact Hx|].
  apply find_tenant_Some in Hf as [Hspec _].
  eapply wp_seq; [by apply (wp_now (λ _ _, True))|]. intros h1 now Hh1 _.
  eapply (wp_seq _ _ (λ h' n, enc_good h' i n)).
  { apply wp_quiet; [intros *; apply quiet_enc_first|]. intros h2 l x l' _ HL _. by apply enc_first_good. }
  intros h2 n Hh2 Hn.
  destruct n; try (by apply wp_enc_continue).
  eapply wp_seq; [by apply wp_probe|]. intros h3 _ Hh3 _.
  eapply wp_seq; [by apply (wp_now (λ _ _, True))|]. intros h4 now' Hh4 _.
  eapply (wp_seq _ _ (λ h' n, enc_good h' i n)).
  { apply wp_quiet; [intros *; apply quiet_enc_decide|]. intros h5 l x l' _ HL _. by apply enc_decide_good. }
  intros h5 n Hh5 Hn'. by apply wp_enc_continue.
Qed.

Lemma wp_dec_continue i spec n h :
  c_Tenants cfg !! i = Some spec → dec_good h i n →
  wp (dec_continue cfg i spec n) (λ h' x, ans_good h' i x) h.
Proof.
  intros Hspec Hn. destruct n as [|p|e|p|hd]; cbn beta iota delta [dec_continue].
  - apply wp_panic.
  - apply wp_panic.
  - by apply wp_ret.
  - apply (wp_unwrap_cont _ spec); [done|by exists p|]. intros h1 r Hh1 Hr Hp.
    by apply (wp_ptHandle _ spec).
  - apply wp_ret. by intros hd' [= <-].
Qed.

Lemma wp_DecryptKey id dekID h :
  wp (DecryptKey cfg id dekID)
    (λ h' x, ∀ i spec, find_tenant cfg id = Some (i, spec) → ans_good h' i x) h.
Proof.
  unfold DecryptKey. destruct (find_tenant cfg id) as [[i spec]|] eqn:Hf; [|by apply wp_ret].
  eapply wp_weaken with (Q := λ h' x, ans_good h' i x); [intros h' x _ Hx ?? [= <- <-]; exact Hx|].
  apply find_tenant_Some in Hf as [Hspec _].
  eapply wp_seq; [by apply (wp_now (λ _ _, True))|]. intros h1 now Hh1 _.
  eapply (wp_seq _ _ (λ h' x, dec_good h' i x.1 ∧
    (x.1 = DecFail ErrPoison ∨ (dekID = dek_name spec x.2 ∧ h_inst h' i x.2)))).
  { apply wp_crit. intros h2 l Hh2 HL Ha. destruct (dec_first dekID now l) as [[n p] l'] eqn:E.
    pose proof (dec_first_good _ _ _ _ _ _ _ _ _ HL Ha Hspec E) as [Hg Hor].
    pose proof (quiet_dec_first cfg _ _ _ _ _ E) as Hq.
    eexists _, l'. split_and!; [done|apply (shrink_grows cfg), Hq|by eapply linv_quiet; [apply HL|]|
      by eapply backed_quiet; [apply HL|]|].
    intros h3 Hh3 _. cbn. split.
    - destruct n; cbn in *; try done; [by apply (hle_inst _ _ Hh3)..|by eapply HI_mono].
    - destruct Hor as [|[? ?]]; [by left|right; split; [done|by apply (hle_inst _ _ Hh3)]]. }
  intros h2 [n p] Hh2 [Hn Hor]. cbn in Hn, Hor.
  assert (∀ h3, hle h2 h3 → dekID = dek_name spec p ∧ h_inst h2 i p →
    wp (now ←ₚ act ENow; n ←ₚ section i (dec_decide dekID p now); dec_continue cfg i spec n)%prog
      (λ h' x, ans_good h' i x) h3) as Hlater.
  { intros h3 Hh3 [-> Hp]. eapply wp_seq; [by apply (wp_now (λ _ _, True))|]. intros h4 now' Hh4 _.
    eapply (wp_seq _ _ (λ h' n, dec_good h' i n)); [|intros h5 n' Hh5 Hn'; by apply wp_dec_continue].
    apply wp_quiet; [intros *; apply quiet_dec_decide|]. intros h5 l x l' Hh5 HL Ha E.
    assert (l' = l) as -> by (revert E; unfold dec_decide; repeat case_match; by intros [= _ <-]).
    pose proof (li_spec _ _ _ (proj1 HL)) as Hs.
    eapply (dec_decide_good h5 i l); [done|done| | |exact E].
    - assert (t_spec (l_t l) = spec) as -> by congruence. done.
    - apply Ha. by apply (hle_inst _ _ Hh5), (hle_inst _ _ Hh4), (hle_inst _ _ Hh3). }
  destruct n; try (by apply wp_dec_continue); destruct Hor as [Hor|Hor]; try done.
  - eapply wp_seq; [by apply wp_probe|]. intros h3 _ Hh3 _. by apply Hlater.
  - eapply wp_seq; [by apply wp_warm|]. intros h3 _ Hh3 _. by apply Hlater.
Qed.

Lemma wp_Hot id h : wp (Hot cfg id) (λ _ _, True) h.
Proof.
  unfold Hot. destruct (find_tenant cfg id) as [[i spec]|]; [|by apply wp_ret].
  eapply wp_seq; [by apply (wp_now (λ _ _, True))|]. intros h1 now Hh1 _.
  eapply wp_seq; [apply wp_quiet_True; intros *; apply quiet_hot_section|].
  intros h2 [hot kick] Hh2 _. eapply (wp_seq _ _ (λ _ _, True)); [|intros; by apply wp_ret].
  destruct kick; [by apply wp_spawn|by apply wp_ret].
Qed.

Lemma warm_section_inst id now l p l' :
  warm_section id now l = (Some p, l') → installed l p.
Proof.
  unfold warm_section. intros Hw. repeat case_match; simplify_eq/=. by exists id.
Qed.

Lemma wp_Warm id dekID h : wp (Warm cfg id dekID) (λ _ _, True) h.
Proof.
  unfold Warm. destruct (find_tenant cfg id) as [[i spec]|]; [|by apply wp_ret].
  eapply wp_seq; [by apply (wp_now (λ _ _, True))|]. intros h1 now Hh1 _.
  eapply (wp_seq _ _ (λ h' x, ∀ p, x = Some p → h_inst h' i p)).
  { apply wp_quiet; [intros *; apply quiet_warm_section|].
    intros h2 l x l' _ _ Ha E p ->. apply Ha.
    apply (shrink_inst cfg l l'), (warm_section_inst _ _ _ _ _ E).
    by apply (q_shrink _ _ _ (quiet_warm_section cfg _ _ _ _ _ E)). }
  intros h2 [p|] Hh2 Hp; [|by apply wp_ret]. apply wp_spawn. by apply Hp.
Qed.

(** One tenant's sweep. *)
Lemma tick_warm_inst now l p : tick_warm now (l_t l) = Some p → installed l p.
Proof.
  unfold tick_warm. induction (range (t_pending (l_t l))) as [|[id at_] es IH]; [done|].
  cbn [foldr]. destruct (t_deks (l_t l) !! id) as [q|] eqn:E; [|done].
  destruct (Time.Before now at_); [done|]. intros [= ->]. by exists id.
Qed.

Lemma wp_tick_section i now h :
  wp (section i (tick_section cfg now)) (λ h' x, ∀ k, x = Some k → TO h' k) h.
Proof.
  apply wp_crit. intros h1 l Hh1 [Hl Hb] Ha. destruct (tick_section cfg now l) as [x l'] eqn:E.
  unfold tick_section in E. set (l1 := tick_lapse now l) in *. set (l2 := tick_age cfg now l1) in *.
  pose proof (lapse_linv cfg i l now Hl) as Hl1. pose proof (lapse_lease cfg l now) as (Hle & Hsp & Hg1).
  pose proof (quiet_tick_age cfg now l1) as Hq2.
  pose proof (quiet_tick_due cfg _ _ _ _ E) as Hq3.
  assert (quiet cfg l1 l') as Hq by (by etrans).
  pose proof (linv_quiet cfg i l1 l2 Hl1 Hq2) as Hl2.
  exists x, l'. split_and!; [done| | | |].
  - pose proof (shrink_grows cfg _ _ (q_shrink _ _ _ Hq)) as [H1 H2]. destruct Hg1 as [H3 H4].
    split; intros p Hp; [by apply H1, H3|by apply H2, H4].
  - by apply (linv_quiet cfg i l1).
  - apply (backed_quiet h1 l1 l'); [|done]. unfold backed. fold l1 in Hle, Hsp. by rewrite Hle, Hsp.
  - intros h2 Hh2 Ha' k ->. unfold tick_due in E. repeat case_match; simplify_eq/=; try done.
    rewrite (li_idx _ _ _ Hl2). apply Ha'.
    apply (shrink_inst cfg l2); [exact (q_shrink _ _ _ Hq3)|by eapply tick_warm_inst].
Qed.

Lemma wp_tick_from now order h : wp (tick_from cfg now order) (λ _ _, True) h.
Proof.
  revert h. induction order as [|i order IH]; intros h; [by apply wp_ret|]. cbn [tick_from].
  eapply wp_seq; [apply wp_tick_section|]. intros h1 x Hh1 Hx.
  eapply (wp_seq _ _ (λ _ _, True)); [|intros; apply IH].
  destruct x as [k|]; [by apply wp_spawn, Hx|by apply wp_ret].
Qed.

Lemma wp_SetFetch id mode h : wp (SetFetch cfg id mode) (λ _ _, True) h.
Proof.
  unfold SetFetch. destruct (find_tenant cfg id) as [[i spec]|]; [|by apply wp_ret].
  eapply wp_seq; [by apply (wp_now (λ _ _, True))|]. intros h1 now Hh1 _.
  apply wp_crit. intros h2 l Hh2 [Hl Hb] Ha. destruct (set_fetch_section mode now l) as [x l'] eqn:E.
  destruct (set_fetch_frame cfg _ _ _ _ _ E) as (Hle & Hsp & Hg).
  exists x, l'. split_and!; [done|done|by eapply set_fetch_linv| |done].
  unfold backed. by rewrite Hle, Hsp.
Qed.

Lemma wp_Info id h : wp (Info cfg id) (λ _ _, True) h.
Proof.
  unfold Info. destruct (find_tenant cfg id) as [[i spec]|]; [|by apply wp_ret].
  eapply wp_seq; [by apply (wp_now (λ _ _, True))|]. intros h1 now Hh1 _.
  apply wp_quiet_True. by intros l x l' [= <- <-].
Qed.

(** ** Everything the program runs *)

Lemma tasks_safe h k : TO h k → wp (run_task cfg k) (λ _ _, True) h.
Proof.
  destruct k as [i|i p]; cbn; intros Hk; destruct (c_Tenants cfg !! i) as [spec|] eqn:E;
    try (by apply wp_ret); [by apply wp_probe|by apply wp_warm].
Qed.

Lemma wp_issue id r h :
  (∀ i spec, find_tenant cfg id = Some (i, spec) → ans_good h i r) →
  wp (issue cfg id r) (λ _ _, True) h.
Proof.
  intros Hr. unfold issue. destruct r as [e|hd]; [by apply wp_ret|].
  destruct (find_tenant cfg id) as [[i spec]|]; [|by apply wp_ret].
  intros h1 Hh1. split; [|done]. eapply HI_mono; [exact Hh1|]. by eapply (Hr i spec).
Qed.

Lemma api_safe (m : prog unit) : api cfg m → safe LI HI FR TO m.
Proof.
  intros Hp h. destruct Hp.
  - eapply wp_seq; [apply wp_EncryptKey|]. intros h1 r Hh1 Hr. by apply wp_issue.
  - eapply wp_seq; [apply wp_DecryptKey|]. intros h1 r Hh1 Hr. by apply wp_issue.
  - eapply wp_seq; [apply wp_Hot|]. intros; by apply wp_ret.
  - apply wp_Warm.
  - eapply wp_seq; [by apply (wp_now (λ _ _, True))|]. intros; apply wp_tick_from.
  - apply wp_SetFetch.
  - eapply wp_seq; [apply wp_Info|]. intros; by apply wp_ret.
Qed.
End Safety.
