(* ===== verification/Exec.v ===== *)
(** * Running the core

    An executor of [Interleaving.step] over the fake providers: the free
    choices of one action come from an [oracle], a schedule is a list of
    [move]s.  [run] plays a schedule and is sound for [step]; it builds the
    concrete executions of the witnesses and of the counter-example traces, and
    [run_prog] gives the methods their sequential meaning. *)

From S2P Require Import Prelude GoLib GoFloat Kms Tink KmsModel Fake Lease Cmek Tenant Prog Manager Api.
From S2P Require Import Interleaving.
From stdpp Require Import relations.
Local Open Scope string_scope.
Local Open Scope Z_scope.

(** The choices the environment makes for one action: the KMS uniform draw and
    context race, Tink's IV and key material, the jitter draw, whether the
    bulkhead wait times out, and the DEK store's answer. *)
Record oracle := mkOracle {
  or_u : spec_float; or_late : bool; or_iv : bytes; or_material : bytes; or_jitter : spec_float;
  or_timeout : bool; or_put : option err }.

Definition calm : oracle := mkOracle F.half false [] [Byte.x07] F.half false None.

Section Exec.
Context `{TK : Tink} `{MR : MapRange}.
Context (cfg : Config).
Local Existing Instance fake_model.

Definition race (o : oracle) : option err := if or_late o then Some DeadlineExceeded else None.

(** One action; [None] is a panic or a wait that is not over. *)
Definition exec_ev {X} (e : ev X) (o : oracle) (w : World) : option (X * World) :=
  match e in ev X return option (X * World) with
  | ENow => Some (w_now w, w)
  | EJitter => Some (or_jitter o, w)
  | ECrit i B f =>
      match w_loc w !! i with
      | Some l => match f l with
                  | Some (x, l') => Some (x, with_loc (<[i := l']> (w_loc w)) w)
                  | None => None
                  end
      | None => None
      end
  | ESem p =>
      if or_timeout o then Some (false, w)
      else if default 0 (w_sem w !! p) <? c_ProviderInflight cfg
      then Some (true, with_sem (<[p := default 0 (w_sem w !! p) + 1]> (w_sem w)) w)
      else None
  | ESemRel p => Some (tt, with_sem (<[p := default 0 (w_sem w !! p) - 1]> (w_sem w)) w)
  | EInfl p n => Some (tt, with_infl (<[p := default 0 (w_infl w !! p) + n]> (w_infl w)) w)
  | EKEK k => Some (Fake_KEK (w_kms w) k, w)
  | EEncrypt k pt ad =>
      Some (EncryptWithContext (w_kms w) (or_u o) (race o) (w_kms w) k (or_iv o) pt ad, w)
  | EDecrypt k ct ad =>
      Some (DecryptWithContext (w_kms w) (or_u o) (race o) (w_kms w) k ct ad, w)
  | ERand => Some (or_material o, w)
  | EPutDEK d =>
      match or_put o with
      | None => Some (None, with_deks (w_deks w ++ [d])%list w)
      | Some e => Some (Some e, w)
      end
  | EBegin key =>
      match w_flight w !! key with
      | None => Some (inl (length (w_calls w)),
                      with_flights (<[key := length (w_calls w)]> (w_flight w))
                        (w_calls w ++ [(key, None)])%list w)
      | Some c => Some (inr c, w)
      end
  | EEnd key c r =>
      Some (tt, with_flights (delete key (w_flight w)) (<[c := (key, Some r)]> (w_calls w)) w)
  | EWait c => match w_calls w !! c with Some (_, Some r) => Some (r, w) | _ => None end
  | ESpawn t => Some (tt, with_thr (w_thr w ++ [run_task cfg t])%list w)
  | EIssue i h => Some (tt, with_issued (w_issued w ++ [(i, h)])%list w)
  | EPanic _ => None
  end.

Lemma race_ok o : ctx_race (race o).
Proof. unfold race, ctx_race. destruct (or_late o); auto. Qed.

Lemma same_keks_refl f : same_keks f f.
Proof. by intros id. Qed.

Lemma exec_ev_sound X (e : ev X) o (w w' : World) x :
  exec_ev e o w = Some (x, w') → estep cfg X e w x w'.
Proof.
  pose proof (race_ok o). pose proof same_keks_refl.
  destruct e; cbn; intros He; repeat case_match; simplify_eq/=; try (by constructor).
  - by eapply S_crit.
  - apply S_sem. lia.
  - apply S_encrypt. cbn. eauto 10.
  - apply S_decrypt. cbn. eauto 10.
  - by eapply S_wait.
Qed.

(** A program run to its end under one oracle. *)
Fixpoint run_prog {A} (p : prog A) (o : oracle) (w : World) : option (A * World) :=
  match p with
  | Ret a => Some (a, w)
  | Do e k =>
      match exec_ev e o w with
      | Some (x, w') => run_prog (k x) o w'
      | None => None
      end
  end.

(** [n] actions of a goroutine. *)
Definition thread_step (j : nat) (o : oracle) (w : World) : option World :=
  match w_thr w !! j with
  | Some (Do e k) =>
      match exec_ev e o w with
      | Some (x, w') => Some (with_thr (<[j := k x]> (w_thr w')) w')
      | None => None
      end
  | _ => None
  end.

Fixpoint thread_steps (n : nat) (j : nat) (o : oracle) (w : World) : option World :=
  match n with
  | O => Some w
  | S n' => match thread_step j o w with Some w' => thread_steps n' j o w' | None => None end
  end.

(** Actions until the goroutine returns. *)
Fixpoint thread_run (p : prog unit) (j : nat) (o : oracle) (w : World) : option World :=
  match p with
  | Ret _ => Some w
  | Do e k =>
      match exec_ev e o w with
      | Some (x, w') => thread_run (k x) j o (with_thr (<[j := k x]> (w_thr w')) w')
      | None => None
      end
  end.

Inductive call_ :=
| CEncrypt (id : string) | CDecrypt (id dekID : string) | CHot (id : string)
| CWarm (id dekID : string) | CTick | CSetFetch (id : string) (mode : Fetch) | CInfo (id : string).

Definition call_prog (c : call_) : prog unit :=
  match c with
  | CEncrypt id => bind (EncryptKey cfg id) (issue cfg id)
  | CDecrypt id d => bind (DecryptKey cfg id d) (issue cfg id)
  | CHot id => bind (Hot cfg id) (λ _, Ret tt)
  | CWarm id d => Warm cfg id d
  | CTick => bind (act ENow) (Tick cfg)
  | CSetFetch id m => SetFetch cfg id m
  | CInfo id => bind (Info cfg id) (λ _, Ret tt)
  end.

Lemma call_prog_api c : api cfg (call_prog c).
Proof. destruct c; constructor. Qed.

(** One move of a schedule. *)
Inductive move :=
| MCall (c : call_)                       (* start a call; it becomes the last goroutine *)
| MSteps (n j : nat) (o : oracle)         (* goroutine j performs n actions *)
| MRun (j : nat) (o : oracle)             (* goroutine j runs to its end *)
| MTime (d : Duration)                    (* d passes *)
| MFlip (kekID : string) (enabled : bool) (* Revoke or Restore *)
| MFault (s : Scope) (x : Fault).

Definition exec (w : World) (m : move) : option World :=
  match m with
  | MCall c => Some (with_thr (w_thr w ++ [call_prog c])%list w)
  | MSteps n j o => thread_steps n j o w
  | MRun j o => match w_thr w !! j with Some p => thread_run p j o w | None => None end
  | MTime d => if 0 <=? d then Some (with_now (w_now w + d) w) else None
  | MFlip k b => Some (with_kms (Fake.flip (w_kms w) k b (w_now w)) w)
  | MFault s x => Some (with_kms (SetFault (w_kms w) s x) w)
  end.

Fixpoint run (w : World) (ms : list move) : option World :=
  match ms with
  | [] => Some w
  | m :: ms' => match exec w m with Some w' => run w' ms' | None => None end
  end.

Lemma thread_step_sound j o (w w' : World) : thread_step j o w = Some w' → step cfg w w'.
Proof.
  unfold thread_step. destruct (w_thr w !! j) as [[|X e k]|] eqn:Hj; try done.
  destruct (exec_ev e o w) as [[x w0]|] eqn:He; [|done]. intros [= <-].
  eapply St_thread; [exact Hj|]. by eapply exec_ev_sound.
Qed.

Lemma thread_steps_sound n j o (w w' : World) : thread_steps n j o w = Some w' → rtc (step cfg) w w'.
Proof.
  revert w. induction n as [|n IH]; intros w; cbn; [by intros [= ->]|].
  destruct (thread_step j o w) as [w0|] eqn:E; [|done]. intros Hn.
  eapply rtc_l; [by eapply thread_step_sound|by apply IH].
Qed.

Lemma exec_ev_thr X (e : ev X) o (w w' : World) x j p :
  exec_ev e o w = Some (x, w') → w_thr w !! j = Some p → w_thr w' !! j = Some p.
Proof.
  intros He Hj. destruct e; cbn in He; repeat case_match; simplify_eq/=; try done.
  by apply lookup_app_l_Some.
Qed.

Lemma thread_run_sound p j o (w w' : World) :
  w_thr w !! j = Some p → thread_run p j o w = Some w' → rtc (step cfg) w w'.
Proof.
  revert w. induction p as [a|X e k IH]; intros w Hj; cbn; [by intros [= ->]|].
  destruct (exec_ev e o w) as [[x w0]|] eqn:E; [|done]. intros Hr.
  eapply rtc_l; [eapply St_thread; [exact Hj|by eapply exec_ev_sound]|].
  apply (IH x); [|exact Hr]. cbn. apply list_lookup_insert_eq.
  eapply lookup_lt_Some. by eapply exec_ev_thr.
Qed.

Lemma exec_sound (w w' : World) m : exec w m = Some w' → rtc (step cfg) w w'.
Proof.
  destruct m as [c|n j o|j o|d|k b|s x]; cbn.
  - intros [= <-]. apply rtc_once, St_call, call_prog_api.
  - apply thread_steps_sound.
  - destruct (w_thr w !! j) as [p|] eqn:E; [|done]. by apply thread_run_sound.
  - destruct (Z.leb_spec 0 d); [|done]. intros [= <-]. apply rtc_once, St_time. lia.
  - intros [= <-]. apply rtc_once, St_kms. cbn. eauto.
  - intros [= <-]. apply rtc_once, St_kms. cbn. eauto.
Qed.

Lemma run_sound ms (w w' : World) : run w ms = Some w' → rtc (step cfg) w w'.
Proof.
  revert w. induction ms as [|m ms IH]; intros w; cbn; [by intros [= ->]|].
  destruct (exec w m) as [w0|] eqn:E; [|done]. intros Hr.
  etrans; [by eapply exec_sound|by apply IH].
Qed.
End Exec.
