(* ===== verification/Demo.v ===== *)
(** * Concrete executions

    A two-tenant configuration with the core's own defaults, the fake
    providers over the toy AEAD, and a handful of schedules.  The witnesses of
    the concurrent theorems and the counter-example traces are computed here. *)

From S2P Require Import Prelude GoLib GoFloat Kms Tink KmsModel Fake Lease Cmek Tenant Prog Manager Api.
From S2P Require Import Interleaving Exec.
From stdpp Require Import relations.
Local Open Scope string_scope.
Local Open Scope Z_scope.

Module Demo.
#[export] Existing Instance Toy.tink.
#[export] Existing Instance fake_model.

(** [range] in the order of [map_to_list]. *)
#[export] Instance list_range : MapRange := {|
  range := λ K A _ _ m, map_to_list m; range_perm := λ K A _ _ m, reflexivity _ |}.

Definition spec (n : Z) : TenantSpec :=
  mkSpec ("t" +:+ Itoa n) (if n =? 1 then "aws" else "gcp") ("kek" +:+ Itoa n).

(** Every field left at zero but the caps: [New]'s defaults apply. *)
Definition cfg : Config :=
  withDefaults (mkConfig [spec 1; spec 2] ["aws"; "gcp"] false 0 0 0 0 0 0 0 0 0 F.half 0 0 2 0).

(** Half an hour after the Unix epoch. *)
Definition start : Time := Time.ofUnixMilli 1800000.

Definition fake : Fake :=
  mkFake
    (<["kek1" := mkKek [Byte.x01] "aws" 0 true]> (<["kek2" := mkKek [Byte.x02] "gcp" 1 true]> ∅))
    ∅ ∅ [].

Lemma fake_ok : kms_ok fake start.
Proof.
  split; [|constructor]. intros id k. cbn. rewrite !lookup_insert_Some.
  by intros [[_ <-]|[_ [[_ <-]|[_ H]]]].
Qed.

Definition world0 : World := init cfg start fake.

(** Tenant 1 seals for the first time: a generate, then a handle. *)
Definition first_seal : list move := [MCall (CEncrypt "t1"); MRun 0 calm].

(** The key is revoked two seconds later and the due renewal hears of it. *)
Definition revoked_at : Time := start + 2 * Second.
Definition revocation : list move :=
  (first_seal ++ [MTime (2 * Second); MFlip "kek1" false; MTime (14 * Second);
     MCall (CEncrypt "t1"); MRun 1 calm; MRun 2 calm])%list.

Definition outage : Fault := mkFault ModeFastFail 0 0 F.half.

(** Tenant 1 before and after its first seal. *)
Definition fresh : local := mkLocal (new_tenant cfg 0 (spec 1)) Active [].
Definition sealed : local :=
  match run cfg world0 first_seal with
  | Some w => default fresh (w_loc w !! 0%nat)
  | None => fresh
  end.

(** A failed and a denied unwrap, sent at [t]. *)
Definition timed_out (t : Time) : result := mkResult t Transient (Some DeadlineExceeded) None [] 0.
Definition refused (t : Time) : result :=
  mkResult t Deny (Some (KmsError (mkError KeyDisabled "aws" "kek1 is disabled"))) None [] 0.
Definition granted_ (t : Time) : result := mkResult t OK None (Some [Byte.x07]) [] 0.
End Demo.
