(* ===== verification/Sealing.v ===== *)
(** * Sealing, classification and lease arithmetic

    The pure parts of internal/cmek: what [Seal] and [Open] bind, how a KMS
    error survives Tink's text, the retry schedule and the lease window. *)

From S2P Require Import Prelude GoLib GoFloat Kms Tink Lease Cmek Demo.
From Stdlib Require Strings.String.
Local Open Scope string_scope.
Local Open Scope Z_scope.

Section Sealing.
Context `{TK : Tink} {TL : TinkLaws TK}.

(** A seal that succeeded, taken apart. *)
Lemma Seal_inv h now tenant m iv pt env :
  Seal h now tenant m iv pt = inr env →
  now < h_ValidUntil h ∧ env_DEKID env = h_DEKID h ∧
  ∃ prim, h_prim h = Some prim ∧
    Encrypt prim iv pt (aad tenant m (h_DEKID h)) = inr (env_Ciphertext env).
Proof.
  unfold Seal, Time.Before. destruct (Z.ltb_spec now (h_ValidUntil h)); [|done]. cbn [negb].
  destruct (h_prim h) as [prim|]; [|done].
  destruct (Encrypt _ _ _ _) as [e|ct] eqn:E; [done|]. intros [= <-]. cbn. eauto.
Qed.

Lemma Open_inv h now tenant m env pt :
  Open h now tenant m env = inr pt →
  now < h_ValidUntil h ∧ h_DEKID h = env_DEKID env ∧
  ∃ prim, h_prim h = Some prim ∧
    Decrypt prim (env_Ciphertext env) (aad tenant m (env_DEKID env)) = inr pt.
Proof.
  unfold Open, Time.Before. destruct (Z.ltb_spec now (h_ValidUntil h)); [|done]. cbn [negb].
  case_bool_decide; [|done]. cbn [negb]. destruct (h_prim h) as [prim|]; [|done].
  destruct (Decrypt _ _ _) as [e|p] eqn:E; [done|]. intros [= <-]. eauto 10.
Qed.

Lemma kms_text_class (pre : string) (c : Code) p msg :
  clean_prefix pre → clean_provider p → known c →
  CodeFromText (Some (ErrText (pre +:+ Error_Error (mkError c p msg)))) = Some c ∧
  Cause (Some (ErrText (pre +:+ Error_Error (mkError c p msg)))) = Error_Error (mkError c p msg).
Proof.
  intros H1 H2 H3. unfold CodeFromText, Cause. cbn [err_text].
  rewrite frame_found by done. split; [done|]. apply drop_append.
Qed.
End Sealing.

(** C12. What is sealed can be opened: a message sealed with a handle opens, as
    long as the lease lasts, with any handle on the same DEK, to the same bytes. *)
Theorem seal_open_roundtrip `{TK : Tink} {TL : TinkLaws TK} h h' now now' tenant m iv pt env :
  Seal h now tenant m iv pt = inr env →
  h_DEKID h' = h_DEKID h → h_prim h' = h_prim h → now' < h_ValidUntil h' →
  Open h' now' tenant m env = inr pt.
Proof.
  intros Hs Hd Hp Hn. destruct (Seal_inv _ _ _ _ _ _ _ Hs) as (_ & E & prim & E1 & E2).
  unfold Open, Time.Before. destruct (Z.ltb_spec now' (h_ValidUntil h')); [|lia].
  cbn [negb]. rewrite bool_decide_eq_true_2 by congruence. cbn [negb].
  rewrite Hp, E1, E. by rewrite (decrypt_encrypt _ _ _ _ _ E2).
Qed.

#[local] Existing Instances Toy.tink Toy.laws.

Definition toy_handle (until : Time) : Handle := mkHandle "t1/1" until (Some [Byte.x07]).

Example seal_open_roundtrip_witness :
  ∃ env, Seal (toy_handle 100) 10 "t1" 42 [] [Byte.x61] = inr env ∧
    Open (toy_handle 200) 150 "t1" 42 env = inr [Byte.x61].
Proof.
  eexists. split; [reflexivity|].
  apply (seal_open_roundtrip (toy_handle 100) (toy_handle 200) 10 150 "t1" 42 [] [Byte.x61]);
    reflexivity.
Defined.

(** C13. A stored message cannot be moved: its ciphertext, presented as another
    message, for another tenant (of the same id width) or under another DEK id,
    does not open with the key that sealed it; [Open] answers with an error that
    the classifier calls poison. *)
Theorem moved_message_is_poison `{TK : Tink} {TL : TinkLaws TK} h h' now now' t t' m m' iv pt env env' :
  Seal h now t m iv pt = inr env →
  env_Ciphertext env' = env_Ciphertext env → h_prim h' = h_prim h → now' < h_ValidUntil h' →
  String.length t' = String.length t →
  minInt64 <= m <= maxInt64 → minInt64 <= m' <= maxInt64 →
  (t', m', env_DEKID env') ≠ (t, m, env_DEKID env) →
  ∃ e, Open h' now' t' m' env' = inl e ∧ Classify (Some e) = Poison.
Proof.
  intros Hs Hc Hp Hn Hlen Hm Hm' Hne.
  destruct (Seal_inv _ _ _ _ _ _ _ Hs) as (_ & E & prim & E1 & E2).
  destruct (Open h' now' t' m' env') as [e|pt'] eqn:Ho.
  2: { destruct (Open_inv _ _ _ _ _ _ Ho) as (_ & _ & prim' & E3 & E4).
       assert (prim' = prim) as -> by congruence. rewrite Hc in E4.
       destruct (decrypt_authentic _ _ _ _ _ _ _ E2 E4) as [Ha _].
       apply aad_inj in Ha as (-> & -> & Hd); [|done..]. destruct Hne. by rewrite E, Hd. }
  exists e. split; [done|]. revert Ho. unfold Open, Time.Before.
  destruct (Z.ltb_spec now' (h_ValidUntil h')); [|lia]. cbn [negb].
  destruct (negb _); [by intros [= <-]|]. rewrite Hp, E1.
  destruct (Decrypt _ _ _); [by intros [= <-]|done].
Qed.

Example moved_message_is_poison_witness :
  ∃ env e, Seal (toy_handle 100) 10 "t1" 42 [] [Byte.x61] = inr env ∧
    Open (toy_handle 100) 10 "t2" 42 env = inl e ∧ Classify (Some e) = Poison.
Proof.
  destruct (Seal (toy_handle 100) 10 "t1" 42 [] [Byte.x61]) as [|env] eqn:E; [discriminate E|].
  destruct (moved_message_is_poison (toy_handle 100) (toy_handle 100) 10 10 "t1" "t2" 42 42 []
              [Byte.x61] env env E eq_refl eq_refl eq_refl eq_refl) as (e & H1 & H2).
  - split; vm_compute; discriminate.
  - split; vm_compute; discriminate.
  - intros [=].
  - exists env, e. split; [reflexivity|]. split; [exact H1|exact H2].
Defined.

(** The classification survives Tink.  Tink's keyset helpers flatten the
    adapter's error into text; whatever they write in front, the class read back
    from that text is the class of the typed error, and the audit detail is the
    adapter's own text, nothing of Tink's around it. *)
Theorem classify_through_tink `{TK : Tink} {TL : TinkLaws TK} (c : Code) provider msg :
  known c → clean_provider provider →
  let e := mkError c provider msg in
  ∀ wrap, wrap = write_error ∨ wrap = read_error →
  Classify (Some (ErrText (wrap (err_text (KmsError e))))) = Classify (Some (KmsError e)) ∧
  Cause (Some (ErrText (wrap (err_text (KmsError e))))) = err_text (KmsError e).
Proof.
  intros Hc Hp e wrap Hw. subst e.
  assert (∃ pre, clean_prefix pre ∧
    wrap (err_text (KmsError (mkError c provider msg))) = pre +:+ err_text (KmsError (mkError c provider msg)))
    as (pre & Hpre & ->) by (destruct Hw as [->| ->]; [apply write_error_frame|apply read_error_frame]).
  destruct (kms_text_class pre c provider msg Hpre Hp Hc) as [H1 H2].
  split; [|exact H2]. unfold Classify. cbn [errors.Is errors.AsKms].
  change (err_text (KmsError ?e)) with (Error_Error e). by rewrite H1.
Qed.

Example classify_through_tink_witness :
  Classify (Some (ErrText (write_error (err_text (KmsError (mkError KeyDisabled "aws" "kek1 is disabled"))))))
  = Deny.
Proof.
  refine (proj1 (classify_through_tink KeyDisabled "aws" "kek1 is disabled" _ _ write_error (or_introl eq_refl))).
  - unfold known, codes. set_solver.
  - vm_compute. reflexivity.
Defined.

(** The exact un-jittered doubling for the first exponents. *)
Lemma Backoff_first k :
  0 <= k < 4 → Backoff (k + 1) demoMin demoMax demoJitter F.half = demoMin * 2 ^ k.
Proof.
  intros Hk. assert (k = 0 ∨ k = 1 ∨ k = 2 ∨ k = 3) as [->|[->|[->| ->]]] by lia;
    vm_compute; reflexivity.
Qed.

(** The retry schedule, in the float64 arithmetic the code uses: with the
    demonstration bounds and the jitter draw in the middle, attempt [n] waits
    min(500 ms * 2^(n-1), 8 s) exactly, for every attempt number, far beyond
    the exponents at which the power overflows to infinity; an attempt number
    below one counts as one. *)
Theorem backoff_schedule n :
  Backoff n demoMin demoMax demoJitter F.half
  = Z.min (demoMin * 2 ^ (Z.max n 1 - 1)) demoMax.
Proof.
  set (k := Z.max n 1 - 1).
  assert (Backoff n demoMin demoMax demoJitter F.half
          = Backoff (k + 1) demoMin demoMax demoJitter F.half) as ->.
  { unfold Backoff. replace (if k + 1 <? 1 then 1 else k + 1) with (if n <? 1 then 1 else n); [done|].
    unfold k. destruct (Z.ltb_spec n 1), (Z.ltb_spec (Z.max n 1 - 1 + 1) 1); lia. }
  assert (0 <= k) as Hk by lia. clearbody k.
  destruct (Z.lt_ge_cases k 4) as [H4|H4].
  - rewrite Backoff_first by lia. rewrite Z.min_l; [done|].
    assert (2 ^ k <= 2 ^ 4) by (apply Z.pow_le_mono_r; lia).
    unfold demoMin, demoMax, Millisecond, Second. lia.
  - rewrite Z.min_r.
    2: { assert (2 ^ 4 <= 2 ^ k) by (apply Z.pow_le_mono_r; lia).
         unfold demoMin, demoMax, Millisecond, Second. lia. }
    destruct (Z.lt_ge_cases k 1024) as [H1|H1]; [|by apply Backoff_cap_far].
    pose proof (forallZ_spec _ _ _ k Backoff_cap_range) as Hf. cbv beta in Hf.
    apply Z.eqb_eq. apply Hf. lia.
Qed.

(** The lease window: with the early margin inside the TTL, a lease is
    usable exactly while the clock is before send time + TTL - margin; renewing
    with a send time moves the window's end to the later of the two windows and
    never back, so a usable lease stays usable; and a lease that is not yet
    soft-due is usable, so the lazy renewal has its margin. *)
Theorem lease_window l s now :
  lease_ok l → SentAt l ≠ 0 → 0 < s →
  (Usable l now = true ↔ now < SentAt l + (TTL l - Early l)) ∧
  Until (Renew l s).2 = Z.max (SentAt l) s + (TTL l - Early l) ∧
  (Usable l now = true → Usable (Renew l s).2 now = true) ∧
  (SoftDue l now = false → Usable l now = true).
Proof.
  intros Hl Hs Hp. assert (lease_ok (Renew l s).2) as Hl'.
  { apply (Renew_ok l s (Renew l s).1); [done|by destruct (Renew l s)]. }
  rewrite !Usable_spec, Until_eq, Renew_SentAt by done.
  assert (TTL (Renew l s).2 = TTL l ∧ Early (Renew l s).2 = Early l) as [-> ->]
    by (unfold Renew; by case_match).
  destruct Hl as (H1 & H2 & H3). unfold SoftDue, Time.Before, Time.Add.
  split_and!; try lia.
Qed.

Definition demo_lease : Lease := mkLease 1000 (30 * Second) (15 * Second) Second.

Example lease_window_witness : Until (Renew demo_lease (16 * Second)).2 = 45 * Second.
Proof.
  refine (eq_trans (proj1 (proj2 (lease_window demo_lease (16 * Second) 0 _ _ _))) _).
  - vm_compute. repeat split; discriminate.
  - discriminate.
  - reflexivity.
  - reflexivity.
Defined.
