(* ===== verification/Guarantees.v ===== *)
(** * What holds in every reachable state of the core

    The theorems a reader comes for: bounded revocation, no key material while
    parked or uncached, the tenant's state discipline, and the one panic the
    program can reach.  Each is read off the invariant of [Safety.v] for an
    arbitrary interleaving of calls, sweeps, time, revocations and faults. *)

From S2P Require Import Prelude GoLib GoFloat Kms Tink KmsModel Fake Lease Cmek Tenant Prog Manager Api.
From S2P Require Import Interleaving TenantInv Rows Safety Exec Demo.
From stdpp Require Import relations.
Local Open Scope string_scope.
Local Open Scope Z_scope.

Section Reachable.
Context `{TK : Tink} `{MR : MapRange} {KM : KMSModel} {KL : KMSLaws KM}.
Context (cfg : Config) (Hids : ids_distinct cfg).

Lemma reachable_LI now st (w : World) :
  kms_ok st now → reachable cfg now st w → Inv (LI cfg) (HI cfg) (FR cfg) TO w.
Proof.
  apply (reachable_Inv cfg (LI cfg) (HI cfg) (FR cfg) TO).
  - apply LI_mono.
  - apply HI_mono.
  - apply FR_mono.
  - by apply tasks_safe.
  - by apply api_safe.
  - exact KL.
  - apply LI_init.
Qed.

Lemma reachable_linv now st (w : World) i l :
  kms_ok st now → reachable cfg now st w → w_loc w !! i = Some l → linv cfg i l.
Proof. intros Hk Hr Hl. by apply (inv_loc _ _ _ _ _ (reachable_LI _ _ _ Hk Hr)). Qed.
End Reachable.

#[local] Existing Instances Demo.list_range Toy.tink fake_model.

(** The toy world is a legal starting point; the witnesses share it. *)
Lemma demo_ids : ids_distinct Demo.cfg.
Proof. unfold ids_distinct. vm_compute. repeat constructor; set_solver. Qed.

Lemma demo_reachable ms (w : World) :
  run Demo.cfg Demo.world0 ms = Some w → reachable Demo.cfg Demo.start Demo.fake w.
Proof. apply run_sound. Qed.

(** [run] to a world with the wanted property, both computed. *)
Lemma demo_run ms (test : World → bool) :
  match run Demo.cfg Demo.world0 ms with Some w => test w | None => false end = true →
  ∃ w, reachable Demo.cfg Demo.start Demo.fake w ∧ test w = true.
Proof.
  destruct (run Demo.cfg Demo.world0 ms) as [w|] eqn:E; [|done]. intros Ht.
  exists w. split; [by eapply demo_reachable|done].
Qed.

(** C1. Bounded revocation.  However calls, sweeps, renewals, clock advances
    and KMS events interleave: once the providers' log says a tenant's key is
    disabled since [ev_At e], every handle any caller ever obtained for that
    tenant expires within one lease less the early margin of that instant, and
    from then on neither [Seal] nor [Open] works with it. *)
Theorem revocation_bounded `{TK : Tink} `{MR : MapRange} (cfg : Config) now st (w : World) e i spec h :
  ids_distinct cfg → dur_small (c_Lease cfg) → dur_small (c_EarlyExpiry cfg) →
  kms_ok st now → reachable cfg now st w →
  c_Tenants cfg !! i = Some spec → (i, h) ∈ w_issued w →
  last_event (truth (w_kms w)) (ts_KEKID spec) = Some e → ev_Enabled e = false →
  h_ValidUntil h <= ev_At e + (c_Lease cfg - c_EarlyExpiry cfg) ∧
  ∀ t, ev_At e + (c_Lease cfg - c_EarlyExpiry cfg) <= t →
    (∀ tenant msg iv pt, Seal h t tenant msg iv pt = inl ErrLeaseExpired) ∧
    (∀ tenant msg env, Open h t tenant msg env = inl ErrLeaseExpired).
Proof.
  intros Hids H1 H2 Hk Hr Hs Hh He Hd.
  pose proof (inv_issued _ _ _ _ _ (reachable_LI cfg Hids _ _ _ Hk Hr) _ _ Hh spec Hs) as [Hv _].
  unfold window in Hv. rewrite dur_sub_small in Hv by done. cbn in Hv. unfold last_ok in Hv.
  rewrite He, Hd in Hv. split; [done|]. intros t Ht.
  unfold Seal, Open, Time.Before.
  destruct (Z.ltb_spec t (h_ValidUntil h)); [lia|done].
Qed.

(** The demonstration: a seal, the revoke two seconds later, a hot seal and its
    lazy renewal at sixteen seconds; both handles end by second thirty-one. *)
Example revocation_bounded_witness :
  ∃ (w : World) h, reachable Demo.cfg Demo.start Demo.fake w ∧ w_issued w !! 1%nat = Some (0%nat, h) ∧
    h_ValidUntil h <= Demo.revoked_at + 29 * Second.
Proof.
  destruct (demo_run Demo.revocation (λ w : World,
    bool_decide (last_event (truth (w_kms w)) "kek1" = Some (mkKeyEvent "kek1" 0 Demo.revoked_at false))
    && match w_issued w !! 1%nat with Some (0%nat, _) => true | _ => false end)) as (w & Hr & Ht).
  { vm_compute. reflexivity. }
  apply andb_true_iff in Ht as [He Hi]. apply bool_decide_eq_true in He.
  destruct (w_issued w !! 1%nat) as [[[|] h]|] eqn:E; try discriminate Hi.
  exists w, h. split; [exact Hr|]. split; [exact E|].
  refine (proj1 (revocation_bounded Demo.cfg Demo.start Demo.fake w _ 0 (Demo.spec 1) h demo_ids _ _
                   Demo.fake_ok Hr _ _ He _)).
  - vm_compute. split; discriminate.
  - vm_compute. split; discriminate.
  - reflexivity.
  - by eapply list_elem_of_lookup_2.
  - reflexivity.
Defined.

(** C2. Key material leaves with the state.  In every reachable state a tenant
    that is KEY_UNAVAILABLE or REVOKED, or runs a no-cache design, holds no
    plaintext primitive in any DEK it ever allocated, not only in the ones of
    its map. *)
Theorem parked_holds_no_key `{TK : Tink} `{MR : MapRange} {KM : KMSModel} {KL : KMSLaws KM}
    (cfg : Config) now st (w : World) i l :
  ids_distinct cfg → kms_ok st now → reachable cfg now st w → w_loc w !! i = Some l →
  t_state (l_t l) = KeyUnavailable ∨ t_state (l_t l) = Revoked ∨ direct (l_t l) = true →
  ∀ p, d_prim (deref (l_t l) p) = None.
Proof.
  intros Hids Hk Hr Hl Hs p.
  pose proof (reachable_linv cfg Hids now st w i l Hk Hr Hl) as Hli.
  assert (cold (l_t l)) as Hc.
  { destruct Hs as [Hs|[Hs|Hs]]; [apply (li_parked _ _ _ Hli); by left
      |apply (li_parked _ _ _ Hli); by right|by apply (li_direct _ _ _ Hli)]. }
  specialize (Hc p). unfold is_hot in Hc. by destruct (d_prim _).
Qed.

(** The revoked tenant of the demonstration. *)
Example parked_holds_no_key_witness :
  ∃ (w : World) l, reachable Demo.cfg Demo.start Demo.fake w ∧ w_loc w !! 0%nat = Some l ∧
    t_state (l_t l) = Revoked ∧ d_prim (deref (l_t l) 1) = None.
Proof.
  destruct (demo_run Demo.revocation (λ w : World,
    match w_loc w !! 0%nat with Some l => bool_decide (t_state (l_t l) = Revoked) | _ => false end))
    as (w & Hr & Ht).
  { vm_compute. reflexivity. }
  destruct (w_loc w !! 0%nat) as [l|] eqn:E; [|discriminate Ht]. apply bool_decide_eq_true in Ht.
  exists w, l. split; [exact Hr|]. split; [exact E|]. split; [exact Ht|].
  exact (parked_holds_no_key (KM := fake_model) Demo.cfg Demo.start Demo.fake w 0 l demo_ids Demo.fake_ok Hr E
           (or_intror (or_introl Ht)) 1).
Defined.

(** C6. The tenant's state discipline, in every reachable state: the lock-free
    grid cell shows the state, a REVOKED tenant has no lease, a leased tenant's
    last deny precedes the send time its lease runs from, the active DEK is in
    the map, every map entry is keyed by the id of its own DEK, and the waiter
    and in-flight counters are within their caps. *)
Theorem state_discipline `{TK : Tink} `{MR : MapRange} {KM : KMSModel} {KL : KMSLaws KM}
    (cfg : Config) now st (w : World) i l :
  ids_distinct cfg → kms_ok st now → reachable cfg now st w → w_loc w !! i = Some l →
  l_cell l = t_state (l_t l) ∧
  (t_state (l_t l) = Revoked → SentAt (t_lease (l_t l)) = 0) ∧
  (SentAt (t_lease (l_t l)) ≠ 0 → t_deniedAt (l_t l) <= SentAt (t_lease (l_t l))) ∧
  (∀ p, t_active (l_t l) = Some p → ∃ id, t_deks (l_t l) !! id = Some p) ∧
  (∀ id p, t_deks (l_t l) !! id = Some p → d_id (deref (l_t l) p) = id) ∧
  (t_waiters (l_t l) <= Z.max 0 (c_IngestWaiters cfg)) ∧
  (t_inflight (l_t l) <= Z.max 0 (c_TenantInflight cfg)).
Proof.
  intros Hids Hk Hr Hl. pose proof (reachable_linv cfg Hids now st w i l Hk Hr Hl) as Hli.
  split_and!; try apply Hli.
  intros id p Hp. destruct (li_map _ _ _ Hli _ _ Hp) as [-> [d Hd]].
  unfold deref. rewrite Hd. by apply (li_names _ _ _ Hli).
Qed.

Example state_discipline_witness :
  ∃ (w : World) l, reachable Demo.cfg Demo.start Demo.fake w ∧ w_loc w !! 0%nat = Some l ∧
    t_active (l_t l) = Some 1 ∧ l_cell l = t_state (l_t l).
Proof.
  destruct (demo_run Demo.first_seal (λ w : World,
    match w_loc w !! 0%nat with Some l => bool_decide (t_active (l_t l) = Some 1) | _ => false end))
    as (w & Hr & Ht).
  { vm_compute. reflexivity. }
  destruct (w_loc w !! 0%nat) as [l|] eqn:E; [|discriminate Ht]. apply bool_decide_eq_true in Ht.
  exists w, l. split; [exact Hr|]. split; [exact E|]. split; [exact Ht|].
  exact (proj1 (state_discipline (KM := fake_model) Demo.cfg Demo.start Demo.fake w 0 l demo_ids Demo.fake_ok Hr E)).
Defined.

(** Tenant isolation of keys: every handle ever issued for a tenant names a
    DEK id of that tenant ("<tenant>/<n>"). *)
Theorem handle_names_own_dek `{TK : Tink} `{MR : MapRange} {KM : KMSModel} {KL : KMSLaws KM}
    (cfg : Config) now st (w : World) i spec h :
  ids_distinct cfg → kms_ok st now → reachable cfg now st w →
  c_Tenants cfg !! i = Some spec → (i, h) ∈ w_issued w →
  ∃ n, h_DEKID h = ts_ID spec +:+ "/" +:+ Itoa n.
Proof.
  intros Hids Hk Hr Hs Hh.
  exact (proj2 (inv_issued _ _ _ _ _ (reachable_LI cfg Hids _ _ _ Hk Hr) _ _ Hh spec Hs)).
Qed.

Example handle_names_own_dek_witness :
  ∃ (w : World) h, reachable Demo.cfg Demo.start Demo.fake w ∧ w_issued w !! 0%nat = Some (0%nat, h) ∧
    ∃ n, h_DEKID h = "t1" +:+ "/" +:+ Itoa n.
Proof.
  destruct (demo_run Demo.first_seal (λ w : World,
    match w_issued w !! 0%nat with Some (0%nat, _) => true | _ => false end)) as (w & Hr & Ht).
  { vm_compute. reflexivity. }
  destruct (w_issued w !! 0%nat) as [[[|] h]|] eqn:E; try discriminate Ht.
  exists w, h. split; [exact Hr|]. split; [exact E|].
  apply (handle_names_own_dek (KM := fake_model) Demo.cfg Demo.start Demo.fake w 0 (Demo.spec 1) h demo_ids Demo.fake_ok Hr).
  - reflexivity.
  - by eapply list_elem_of_lookup_2.
Defined.

(** C15. No critical section dereferences nil: in every reachable state, a
    goroutine about to enter a section of a tenant completes it.  In particular
    [apply]'s OK row, which reads [d.kekVersion], always has its DEK, and
    [openDEK] always has one to unwrap. *)
Theorem section_never_nil `{TK : Tink} `{MR : MapRange} {KM : KMSModel} {KL : KMSLaws KM}
    (cfg : Config) now st (w : World) j i B f k l :
  ids_distinct cfg → kms_ok st now → reachable cfg now st w →
  w_thr w !! j = Some (Do (ECrit i B f) k) → w_loc w !! i = Some l → is_Some (f l).
Proof.
  intros Hids Hk Hr Hj Hl.
  exact (Inv_no_nil (LI cfg) (HI cfg) (FR cfg) TO w j i B f k l (reachable_LI cfg Hids _ _ _ Hk Hr) Hj Hl).
Qed.

(** The fourth action of the first seal is the section that reads the need. *)
Example section_never_nil_witness :
  ∃ (w : World) B f k l, reachable Demo.cfg Demo.start Demo.fake w ∧
    w_thr w !! 0%nat = Some (Do (ECrit 0 B f) k) ∧ w_loc w !! 0%nat = Some l ∧ is_Some (f l).
Proof.
  destruct (demo_run [MCall (CEncrypt "t1"); MSteps 3 0 calm] (λ w : World,
    match w_thr w !! 0%nat, w_loc w !! 0%nat with
    | Some (Do (ECrit 0 _ _) _), Some _ => true
    | _, _ => false
    end)) as (w & Hr & Ht).
  { vm_compute. reflexivity. }
  destruct (w_thr w !! 0%nat) as [[|X e k]|] eqn:Ej; try discriminate Ht.
  destruct e as [| |[|] B f| | | | | | | | | | | | | |]; try discriminate Ht.
  destruct (w_loc w !! 0%nat) as [l|] eqn:El; [|discriminate Ht].
  exists w, B, f, k, l. split; [exact Hr|]. split; [exact Ej|]. split; [exact El|].
  exact (section_never_nil (KM := fake_model) Demo.cfg Demo.start Demo.fake w 0 0 B f k l demo_ids Demo.fake_ok Hr Ej El).
Defined.

(** The core can panic.  A first seal of an uncached tenant leads the
    "<t>/generate" flight; while it runs the tenant is switched to pass-through
    and a second event joins that flight; the flight returns nil, and the type
    assertion [v.(generated)] of [passThroughEncrypt] panics. *)
Theorem panic_reachable :
  ∃ w : World, reachable Demo.cfg Demo.start Demo.fake w ∧
    ∃ (A : Type) (k : A → prog unit), w_thr w !! 2%nat = Some (Do (EPanic A) k).
Proof.
  destruct (demo_run
    [MCall (CEncrypt "t1"); MSteps 5 0 calm; MCall (CSetFetch "t1" FetchPassThrough); MRun 1 calm;
     MCall (CEncrypt "t1"); MSteps 5 2 calm; MRun 0 calm; MSteps 1 2 calm]
    (λ w : World, match w_thr w !! 2%nat with Some (Do (EPanic _) _) => true | _ => false end))
    as (w & Hr & Ht).
  { vm_compute. reflexivity. }
  exists w. split; [exact Hr|].
  destruct (w_thr w !! 2%nat) as [[|X e k]|]; try discriminate Ht.
  destruct e as [| | | | | | | | | | | | | | | |A]; try discriminate Ht. by exists A, k.
Qed.
