(* ===== verification/Transitions.v ===== *)
(** * The tenant's transitions

    What the sections of [apply] and of the sweep do, stated on the tenant
    alone: the state table, the three rows, the purge and the lapse. *)

From S2P Require Import Prelude GoLib GoFloat Kms Tink KmsModel Fake Lease Cmek Tenant Prog Manager Api.
From S2P Require Import Interleaving TenantInv Rows Exec Demo.
Local Open Scope string_scope.
Local Open Scope Z_scope.

(** The state table of ARCH: the next state from the current one, the class of
    the outcome, whether an OK is fresh (sent after the last deny) and whether
    there is a cached lease to ride on. *)
Definition next_state (s : State) (c : Class_) (fresh usable : bool) : State :=
  match c with
  | OK => if fresh then Active else s
  | Deny => Revoked
  | Transient | Poison =>
      match s, usable with
      | Active, true => RidingThrough
      | Active, false | RidingThrough, false => KeyUnavailable
      | _, _ => s
      end
  end.

Section Transitions.
Context `{TK : Tink} `{MR : MapRange}.
Context (cfg : Config).
Implicit Types (t : tenant) (l : local) (r : result).

(** Outcomes that are not KMS answers. *)
Definition unclassified r : bool := is_err r errBusy || is_err r errStore.

Lemma purge_frame t n t' :
  purge t = (n, t') →
  t_state t' = t_state t ∧ t_lease t' = t_lease t ∧ t_fetch t' = t_fetch t ∧
  t_attempt t' = t_attempt t ∧ t_nextProbeAt t' = t_nextProbeAt t ∧ t_pending t' = ∅ ∧
  t_deniedAt t' = t_deniedAt t ∧ t_deks t' = t_deks t ∧ t_active t' = t_active t.
Proof. intros Hp. destruct (purge_spec cfg _ _ _ Hp) as (E & _ & _). by rewrite E. Qed.

Lemma apply_OK_state o d r now detail l l' :
  apply_OK o d r now detail l = Some l' →
  t_state (l_t l') = next_state (t_state (l_t l)) OK (negb (Time.Before (r_sentAt r) (t_deniedAt (l_t l)))) false.
Proof.
  unfold apply_OK. destruct (Time.Before _ _) eqn:E; cbn [negb next_state]; [by intros [= <-]|].
  destruct d as [p|]; [|done]. case_decide as Ha; intros [= <-]; [exact Ha|done].
Qed.

Lemma apply_Deny_state o r now l : t_state (l_t (apply_Deny cfg o r now l)) = Revoked.
Proof.
  unfold apply_Deny. cbn [audit l_t]. destruct (purge (l_t l)) as [n t'] eqn:E.
  case_decide as Hd; [exact Hd|done].
Qed.

(** The tenant the transient row decides on: attempt, schedule and pending set. *)
Definition retried (now : Time) (u : float64) t : tenant :=
  let t := set_attempt (t_attempt t + 1) t in
  let t := set_nextProbeAt (Time.Add now (backoff cfg (t_attempt t) u)) t in
  set_pending ((λ _, t_nextProbeAt t) <$> t_pending t) t.

Definition ride t (now : Time) : bool := Usable (t_lease t) now && negb (direct t).

Lemma set_state_same t : set_state (t_state t) t = t.
Proof. by destruct t. Qed.

Lemma apply_Transient_eq o r now u l :
  let t := retried now u (l_t l) in
  let s := next_state (t_state t) Transient false (ride t now) in
  l_t (apply_Transient cfg o r now u l)
  = (if bool_decide (s = t_state t) then t
     else if bool_decide (s = KeyUnavailable) then set_state s (purge t).2 else set_state s t).
Proof.
  cbv zeta. unfold apply_Transient.
  match goal with |- context [upd ?f (upd ?g (upd ?h ?k))] =>
    set (l1 := upd f (upd g (upd h k))) end.
  assert (l_t l1 = retried now u (l_t l)) as E by reflexivity.
  rewrite <- E. clearbody l1. unfold ride.
  destruct (Usable _ now && _), (t_state (l_t l1)) eqn:Hs; cbn; try done.
  all: by destruct (purge (l_t l1)) as [n t'].
Qed.

Lemma apply_Transient_state o r now u l :
  t_state (l_t (apply_Transient cfg o r now u l))
  = next_state (t_state (l_t l)) Transient false (ride (l_t l) now).
Proof.
  rewrite apply_Transient_eq. cbv zeta.
  change (ride (retried now u (l_t l)) now) with (ride (l_t l) now).
  change (t_state (retried now u (l_t l))) with (t_state (l_t l)).
  destruct (ride _ now), (t_state (l_t l)) eqn:Hs; cbn; try done; by rewrite Hs.
Qed.

Lemma apply_Transient_cell o r now u l :
  l_cell l = t_state (l_t l) →
  l_cell (apply_Transient cfg o r now u l) = t_state (l_t (apply_Transient cfg o r now u l)).
Proof.
  intros Hc. unfold apply_Transient.
  match goal with |- context [upd ?f (upd ?g (upd ?h ?k))] =>
    set (l1 := upd f (upd g (upd h k))) end.
  assert (l_cell l1 = t_state (l_t l1)) as Hc1 by exact Hc. clearbody l1.
  destruct (Usable _ now && _), (t_state (l_t l1)) eqn:Hs; cbn; try congruence.
  all: by destruct (purge (l_t l1)) as [n t'].
Qed.

Lemma apply_Deny_cell o r now l :
  l_cell l = t_state (l_t l) → l_cell (apply_Deny cfg o r now l) = Revoked.
Proof. intros Hc. by destruct (apply_Deny_denied cfg o r now l Hc) as [log ->]. Qed.

(** ** The sweep *)

Lemma hot_zero t :
  hot t = 0 ↔ ∀ id p, t_deks t !! id = Some p → is_hot (deref t p) = false.
Proof.
  unfold hot. rewrite countZ_zero. split.
  - intros H id p Hid. apply (H (id, p)). rewrite range_perm. by apply elem_of_map_to_list.
  - intros H [id p] Hin. rewrite range_perm in Hin. apply elem_of_map_to_list in Hin. by eapply H.
Qed.

Lemma hot_nonneg t : 0 <= hot t.
Proof. apply countZ_nonneg. Qed.

Lemma tick_lapse_cold now l :
  SentAt (t_lease (l_t l)) ≠ 0 → Usable (t_lease (l_t l)) now = false →
  hot (l_t (tick_lapse now l)) = 0 ∧
  t_state (l_t (tick_lapse now l)) =
    (if bool_decide (t_state (l_t l) = RidingThrough) && (0 <? hot (l_t l)) then KeyUnavailable
     else t_state (l_t l)).
Proof.
  intros Hs Hu. unfold tick_lapse, Time.IsZero. rewrite Hu.
  destruct (Z.eqb_spec (SentAt (t_lease (l_t l))) 0) as [|_]; [done|]. cbn [negb andb].
  pose proof (hot_nonneg (l_t l)) as Hn. destruct (Z.ltb_spec 0 (hot (l_t l))) as [Hh|Hh].
  2: { rewrite andb_false_r. split; [lia|done]. }
  rewrite andb_true_r. destruct (purge (l_t l)) as [n t'] eqn:Hp.
  destruct (purge_spec cfg _ _ _ Hp) as (E & Hsh & Hc).
  destruct (purge_frame _ _ _ Hp) as (Hst & _).
  assert (hot t' = 0) as Hz.
  { apply hot_zero. intros id p Hid. apply (Hc id p). by rewrite <- (sh_deks _ _ _ Hsh). }
  rewrite Hst. destruct (decide (t_state (l_t l) = RidingThrough)) as [Hr|Hr].
  - rewrite bool_decide_eq_true_2 by done. done.
  - rewrite bool_decide_eq_false_2 by done. done.
Qed.

(** What the later parts of a sweep keep: nothing gets hotter. *)
Lemma quiet_hot l l' : quiet cfg l l' → hot (l_t l) = 0 → hot (l_t l') = 0.
Proof.
  intros Hq. rewrite !hot_zero. intros H id p Hid.
  destruct (is_hot (deref (l_t l') p)) eqn:E; [|done].
  apply (shrink_deref_hot cfg _ _ _ (q_shrink _ _ _ Hq)) in E.
  rewrite (sh_deks _ _ _ (q_shrink _ _ _ Hq)) in Hid. by rewrite (H id p Hid) in E.
Qed.

Lemma quiet_tick_rest now l o l' :
  tick_section cfg now l = (o, l') → quiet cfg (tick_lapse now l) l'.
Proof.
  unfold tick_section. intros E. etrans; [apply quiet_tick_age|]. by eapply quiet_tick_due.
Qed.

Lemma granted_pending o p r now t :
  t_pending (granted o p r now t) = delete (d_id (deref t p)) (t_pending t).
Proof.
  unfold granted. destruct t as [? ? ? ? ? ? ? ? ? ? ? ? ? ? ? f].
  by destruct (decide (o = OpGenerate)), f.
Qed.

Lemma granted_at o p r now t d :
  t_heap t !! p = Some d →
  deref (granted o p r now t) p
  = set_hotSince now (if direct t then d else set_prim (r_prim r) d).
Proof.
  intros Hp. unfold granted, direct. destruct t as [? ? ? ? ? h ? ? ? ? ? ? ? ? ? f].
  cbn in Hp. destruct (decide (o = OpGenerate)), f; unfold deref, modify; simpl;
    rewrite !lookup_alter_eq, Hp; reflexivity.
Qed.

Lemma granted_attempt o p r now t : t_attempt (granted o p r now t) = 0.
Proof.
  unfold granted. destruct t as [? ? ? ? ? ? ? ? ? ? ? ? ? ? ? f].
  by destruct (decide (o = OpGenerate)), f.
Qed.
End Transitions.

(** ** Theorems *)

(** C11. The state table.  Every KMS outcome moves the tenant exactly as the
    table [next_state] says: an OK sent after the last deny activates, a deny
    revokes, an unanswered call makes an ACTIVE tenant ride through while it
    holds a usable cached lease and parks it otherwise, an unusable lease ends
    riding through, and a parked tenant stays parked.  The states come out of
    the section together with their grid cell. *)
Theorem apply_state_table `{TK : Tink} `{MR : MapRange} (cfg : Config) o d r now u l l' :
  l_cell l = t_state (l_t l) → unclassified r = false →
  apply cfg o d r now u l = Some l' →
  t_state (l_t l')
  = next_state (t_state (l_t l)) (r_class r)
      (negb (Time.Before (r_sentAt r) (t_deniedAt (l_t l)))) (ride (l_t l) now)
  ∧ l_cell l' = t_state (l_t l').
Proof.
  intros Hc Hu. unfold apply. fold (unclassified r). rewrite Hu.
  destruct (r_class r) eqn:E; [| |intros [= <-]|].
  - match goal with |- context [apply_OK _ _ _ _ ?d _] => generalize d end. intros detail Ho.
    split; [by rewrite (apply_OK_state _ _ _ _ _ _ _ Ho); by destruct (Time.Before _ _)|].
    destruct (Z.lt_ge_cases (r_sentAt r) (t_deniedAt (l_t l))) as [Hlt|Hge].
    + destruct (apply_OK_stale o d r now detail l Hlt) as [log E']. rewrite E' in Ho. by injection Ho as <-.
    + destruct d as [p|].
      * destruct (apply_OK_granted o p r now detail l Hc Hge) as [log E']. rewrite E' in Ho.
        injection Ho as <-. cbn [l_t l_cell]. symmetry. apply granted_fields.
      * revert Ho. unfold apply_OK, Time.Before. by destruct (Z.ltb_spec (r_sentAt r) (t_deniedAt (l_t l))); [lia|].
  - intros [= <-]. split; [apply apply_Transient_state|by apply apply_Transient_cell].
  - rewrite apply_Deny_state. split; [done|]. by apply apply_Deny_cell.
  - intros [= <-]. split; [apply apply_Transient_state|by apply apply_Transient_cell].
Qed.

#[local] Existing Instances Demo.list_range Toy.tink.

(** Twenty seconds after its first seal, a call times out: riding through. *)
Example apply_state_table_witness :
  ∃ l', apply Demo.cfg OpUnwrap (Some 1) (Demo.timed_out Demo.start) (Demo.start + 20 * Second) F.half
          Demo.sealed = Some l' ∧ t_state (l_t l') = RidingThrough.
Proof.
  eexists. split; [reflexivity|].
  refine (eq_trans (proj1 (apply_state_table Demo.cfg OpUnwrap (Some 1) (Demo.timed_out Demo.start)
    (Demo.start + 20 * Second) F.half Demo.sealed _ _ _ eq_refl)) _); vm_compute; reflexivity.
Defined.

(** The stale-OK guard: an OK whose call was sent before the tenant's last
    deny changes nothing but the audit log, so it neither renews the lease nor
    un-parks a revoked tenant nor fills a cache. *)
Theorem stale_ok_ignored `{TK : Tink} `{MR : MapRange} (cfg : Config) o d r now u l :
  r_class r = OK → unclassified r = false → r_sentAt r < t_deniedAt (l_t l) →
  ∃ log, apply cfg o d r now u l = Some (mkLocal (l_t l) (l_cell l) (l_log l ++ log)%list).
Proof.
  intros Hc Hu Hlt. unfold apply. fold (unclassified r). rewrite Hu, Hc.
  unfold apply_OK, Time.Before. destruct (Z.ltb_spec (r_sentAt r) (t_deniedAt (l_t l))); [|lia].
  eexists. reflexivity.
Qed.

Definition revoked_demo : local :=
  default Demo.sealed
    (apply Demo.cfg OpUnwrap (Some 1) (Demo.refused Demo.start) (Demo.start + 5 * Second) F.half Demo.sealed).

Example stale_ok_ignored_witness :
  ∃ log, apply Demo.cfg OpUnwrap (Some 1) (Demo.granted_ (Demo.start + 4 * Second))
           (Demo.start + 6 * Second) F.half revoked_demo
         = Some (mkLocal (l_t revoked_demo) (l_cell revoked_demo) (l_log revoked_demo ++ log)%list).
Proof.
  apply (stale_ok_ignored Demo.cfg OpUnwrap (Some 1) (Demo.granted_ (Demo.start + 4 * Second))).
  - reflexivity.
  - vm_compute. reflexivity.
  - vm_compute. reflexivity.
Defined.

(** The deny row: whatever the state, a deny leaves no plaintext key in the
    map, no lease, an empty list of pending warms, the deny time, a re-probe
    after the fixed period, and the retry counter as it was. *)
Theorem deny_row `{TK : Tink} `{MR : MapRange} (cfg : Config) o d r now u l :
  r_class r = Deny → unclassified r = false →
  ∃ l', apply cfg o d r now u l = Some l' ∧
    t_state (l_t l') = Revoked ∧ hot (l_t l') = 0 ∧ SentAt (t_lease (l_t l')) = 0 ∧
    t_pending (l_t l') = ∅ ∧ t_deniedAt (l_t l') = now ∧
    t_nextProbeAt (l_t l') = now + c_RevokedReprobe cfg ∧ t_attempt (l_t l') = t_attempt (l_t l) ∧
    t_deks (l_t l') = t_deks (l_t l) ∧ t_active (l_t l') = t_active (l_t l).
Proof.
  intros Hc Hu. unfold apply. fold (unclassified r). rewrite Hu, Hc.
  eexists. split; [reflexivity|]. split; [apply apply_Deny_state|].
  unfold apply_Deny. cbn [audit l_t]. destruct (purge (l_t l)) as [n t'] eqn:Hp.
  destruct (purge_frame cfg _ _ _ Hp) as (_ & _ & _ & Ha & _ & Hpe & _ & Hd & Hac).
  destruct (purge_spec cfg _ _ _ Hp) as (_ & Hsh & Hcold).
  assert (∀ t2, t_heap t2 = t_heap t' → t_deks t2 = t_deks t' → hot t2 = 0) as Hz.
  { intros t2 Hh2 Hd2. apply hot_zero. intros id p Hid. unfold deref. rewrite Hh2.
    apply (Hcold id p). by rewrite <- (sh_deks _ _ _ Hsh), <- Hd2. }
  case_decide; cbn; (split; [by apply Hz|]); done.
Qed.

Example deny_row_witness :
  ∃ l', apply Demo.cfg OpUnwrap (Some 1) (Demo.refused Demo.start) (Demo.start + 5 * Second) F.half Demo.sealed
        = Some l' ∧ hot Demo.sealed.(l_t) = 1 ∧ hot (l_t l') = 0.
Proof.
  destruct (deny_row Demo.cfg OpUnwrap (Some 1) (Demo.refused Demo.start) (Demo.start + 5 * Second)
              F.half Demo.sealed eq_refl eq_refl) as (l' & E & _ & H & _).
  exists l'. split; [exact E|]. split; [vm_compute; reflexivity|exact H].
Defined.

(** The transient row: the attempt counter goes up by one, the next probe
    waits for that attempt's backoff, every pending warm that survives waits for
    the same slot, the lease does not move, and a tenant that leaves ACTIVE or
    RIDING_THROUGH for KEY_UNAVAILABLE has no plaintext key left in its map. *)
Theorem transient_row_spec `{TK : Tink} `{MR : MapRange} (cfg : Config) o d r now u l :
  r_class r = Transient → unclassified r = false →
  ∃ l', apply cfg o d r now u l = Some l' ∧
    t_attempt (l_t l') = t_attempt (l_t l) + 1 ∧
    t_nextProbeAt (l_t l') = now + backoff cfg (t_attempt (l_t l) + 1) u ∧
    (∀ id at_, t_pending (l_t l') !! id = Some at_ → at_ = t_nextProbeAt (l_t l')) ∧
    t_lease (l_t l') = t_lease (l_t l) ∧
    (t_state (l_t l') = KeyUnavailable → t_state (l_t l) ≠ KeyUnavailable → hot (l_t l') = 0).
Proof.
  intros Hc Hu. unfold apply. fold (unclassified r). rewrite Hu, Hc.
  eexists. split; [reflexivity|]. rewrite (apply_Transient_eq cfg). cbv zeta.
  set (t := retried cfg now u (l_t l)). set (s := next_state _ _ _ _).
  assert (∀ id at_, t_pending t !! id = Some at_ → at_ = t_nextProbeAt t) as Hpend.
  { intros id at_. cbn. rewrite lookup_fmap. destruct (t_pending (l_t l) !! id); [|done].
    by intros [= <-]. }
  destruct (bool_decide (s = t_state t)) eqn:Es; bools.
  { by split_and!. }
  destruct (bool_decide (s = KeyUnavailable)) eqn:Ek; bools.
  - destruct (purge t) as [n t'] eqn:Hp. cbn [snd].
    destruct (purge_frame cfg _ _ _ Hp) as (_ & Hl & _ & Ha & Hn & Hpe & _ & _ & _).
    destruct (purge_spec cfg _ _ _ Hp) as (_ & Hsh & Hcold). cbn.
    rewrite Ha, Hn, Hpe, Hl. split; [done|]. split; [done|]. split; [done|]. split; [done|].
    intros _ _. apply hot_zero. intros id p Hid. apply (Hcold id p).
    by rewrite <- (sh_deks _ _ _ Hsh).
  - cbn. split_and!; try done.
Qed.

Example transient_row_spec_witness :
  ∃ l', apply Demo.cfg OpUnwrap (Some 1) (Demo.timed_out Demo.start) (Demo.start + 20 * Second) F.half Demo.sealed
        = Some l' ∧ t_nextProbeAt (l_t l') = Demo.start + 20 * Second + 500 * Millisecond.
Proof.
  destruct (transient_row_spec Demo.cfg OpUnwrap (Some 1) (Demo.timed_out Demo.start)
              (Demo.start + 20 * Second) F.half Demo.sealed eq_refl eq_refl) as (l' & E & _ & H & _).
  exists l'. split; [exact E|]. refine (eq_trans H _). vm_compute. reflexivity.
Defined.

(** The OK row: a fresh OK extends the lease to the call's send time and
    never backwards, clears the retry counter, drops the DEK's pending warm,
    installs a generated DEK as the active one under its own id, and, unless the
    tenant runs without a cache, stores the primitive in that DEK and in no
    other; the tenant is ACTIVE. *)
Theorem ok_row `{TK : Tink} `{MR : MapRange} (cfg : Config) o p r now u l :
  l_cell l = t_state (l_t l) → is_Some (t_heap (l_t l) !! p) →
  r_class r = OK → unclassified r = false → t_deniedAt (l_t l) <= r_sentAt r →
  ∃ l', apply cfg o (Some p) r now u l = Some l' ∧
    t_state (l_t l') = Active ∧
    SentAt (t_lease (l_t l')) = Z.max (SentAt (t_lease (l_t l))) (r_sentAt r) ∧
    t_attempt (l_t l') = 0 ∧ t_pending (l_t l') !! d_id (deref (l_t l) p) = None ∧
    (o = OpGenerate → t_active (l_t l') = Some p ∧ t_deks (l_t l') !! d_id (deref (l_t l) p) = Some p) ∧
    d_prim (deref (l_t l') p) = (if direct (l_t l) then d_prim (deref (l_t l) p) else r_prim r) ∧
    d_hotSince (deref (l_t l') p) = now ∧
    (∀ q, q ≠ p → deref (l_t l') q = deref (l_t l) q).
Proof.
  intros Hg [d0 Hp] Hc Hu Hd. unfold apply. fold (unclassified r). rewrite Hu, Hc.
  match goal with |- context [apply_OK _ _ _ _ ?d _] => generalize d end. intros detail.
  destruct (apply_OK_granted o p r now detail l Hg Hd) as [log ->].
  eexists. split; [reflexivity|]. cbn [l_t].
  pose proof (granted_fields o p r now (l_t l)) as (_ & _ & _ & _ & -> & _ & _ & _ & ->).
  pose proof (granted_map o p r now (l_t l)) as [-> ->].
  rewrite Renew_SentAt.
  assert (deref (l_t l) p = d0) as E by (unfold deref; by rewrite Hp).
  split_and!; [done|done|apply granted_attempt|..|by intros; apply granted_deref].
  - rewrite granted_pending. apply lookup_delete_eq.
  - intros ->. simpl. by rewrite lookup_insert_eq.
  - rewrite E, (granted_at _ _ _ _ _ _ Hp). by destruct (direct _).
  - by rewrite (granted_at _ _ _ _ _ _ Hp).
Qed.

Example ok_row_witness :
  ∃ l', apply Demo.cfg OpUnwrap (Some 1) (Demo.granted_ (Demo.start + 16 * Second))
          (Demo.start + 16 * Second) F.half Demo.sealed = Some l' ∧
    SentAt (t_lease (l_t l')) = Demo.start + 16 * Second.
Proof.
  destruct (ok_row Demo.cfg OpUnwrap 1 (Demo.granted_ (Demo.start + 16 * Second))
              (Demo.start + 16 * Second) F.half Demo.sealed) as (l' & E & _ & H & _).
  - vm_compute. reflexivity.
  - vm_compute. eexists. reflexivity.
  - reflexivity.
  - reflexivity.
  - vm_compute. discriminate.
  - exists l'. split; [exact E|]. refine (eq_trans H _). vm_compute. reflexivity.
Defined.

(** The number of cached primitives of a map whose ids have distinct DEKs. *)
Lemma purge_count `{TK : Tink} es n t :
  NoDup es.*2 →
  (foldl purge_step (n, t) es).1 = n + countZ (λ '(_, p), is_hot (deref t p)) es.
Proof.
  revert n t. induction es as [|[id p] es IH]; intros n t Hnd; [cbn; lia|].
  cbn [fmap list_fmap snd] in Hnd. apply NoDup_cons in Hnd as [Hp Hnd].
  cbn [foldl purge_step]. rewrite countZ_cons. destruct (is_hot (deref t p)) eqn:E.
  - rewrite IH by done.
    rewrite (countZ_ext (λ '(_, p0), is_hot (deref (modify p (set_prim None) t) p0))
               (λ '(_, p0), is_hot (deref t p0))); [lia|].
    intros [id' q] Hin. rewrite deref_modify. case_decide as Hq; [|done]. subst q.
    destruct Hp. apply list_elem_of_fmap. by exists (id', p).
  - rewrite IH by done. lia.
Qed.

(** [purge] reports exactly what it drops: over a map whose ids name
    distinct DEKs, the count in the audit line is the number of DEKs that held a
    primitive; afterwards none does, nothing is pending, and state, lease,
    schedule and map are untouched. *)
Theorem purge_exact `{TK : Tink} `{MR : MapRange} t n t' :
  (∀ id id' p, t_deks t !! id = Some p → t_deks t !! id' = Some p → id = id') →
  purge t = (n, t') →
  n = hot t ∧ hot t' = 0 ∧ t_pending t' = ∅ ∧ t_state t' = t_state t ∧ t_lease t' = t_lease t ∧
  t_deks t' = t_deks t ∧ t_active t' = t_active t ∧ t_nextProbeAt t' = t_nextProbeAt t.
Proof.
  intros Hinj Hp.
  destruct (purge_frame Demo.cfg _ _ _ Hp) as (H1 & H2 & _ & _ & H5 & H6 & _ & H8 & H9).
  destruct (purge_spec Demo.cfg _ _ _ Hp) as (_ & Hsh & Hcold).
  split; [|split; [apply hot_zero; intros id p Hid; apply (Hcold id p); by rewrite <- (sh_deks _ _ _ Hsh)|]].
  2: by split_and!.
  revert Hp. unfold purge. pose proof (purge_count (range (t_deks t)) 0 t) as Hn.
  destruct (foldl purge_step (0, t) (range (t_deks t))) as [m t0]. intros [= <- _].
  cbn [fst] in Hn. unfold hot. rewrite Hn; [lia|].
  rewrite range_perm. apply NoDup_fmap_2_strong; [|apply NoDup_map_to_list].
  intros [id p] [id' p'] Hi Hi' E. cbn in E. subst p'.
  apply elem_of_map_to_list in Hi, Hi'. by rewrite (Hinj id id' p).
Qed.

Example purge_exact_witness :
  ∃ n t', purge (l_t Demo.sealed) = (n, t') ∧ n = hot (l_t Demo.sealed) ∧ hot (l_t Demo.sealed) = 1.
Proof.
  destruct (purge (l_t Demo.sealed)) as [n t'] eqn:E. exists n, t'. split; [reflexivity|].
  split; [|vm_compute; reflexivity].
  refine (proj1 (purge_exact (l_t Demo.sealed) n t' _ E)).
  intros id id' p. replace (t_deks (l_t Demo.sealed)) with ({["t1/1" := 1]} : gmap string Z)
    by (vm_compute; reflexivity).
  rewrite !lookup_singleton_Some. by intros [<- _] [<- _].
Defined.

(** The sweep ends a lapsed lease: after one sweep of a tenant whose lease
    has run out, no DEK of its map holds a plaintext key; a tenant that was
    riding through on one is KEY_UNAVAILABLE and every other state stays. *)
Theorem sweep_ends_lapsed_lease `{TK : Tink} `{MR : MapRange} (cfg : Config) now l due l' :
  SentAt (t_lease (l_t l)) ≠ 0 → Usable (t_lease (l_t l)) now = false →
  tick_section cfg now l = (due, l') →
  hot (l_t l') = 0 ∧
  t_state (l_t l') = (if bool_decide (t_state (l_t l) = RidingThrough) && (0 <? hot (l_t l))
                      then KeyUnavailable else t_state (l_t l)).
Proof.
  intros Hs Hu Ht. pose proof (quiet_tick_rest cfg _ _ _ _ Ht) as Hq.
  destruct (tick_lapse_cold cfg now l Hs Hu) as [H1 H2]. split; [by eapply (quiet_hot cfg)|].
  rewrite <- H2. apply (q_state _ _ _ Hq).
Qed.

Example sweep_ends_lapsed_lease_witness :
  hot (l_t Demo.sealed) = 1 ∧
  hot (l_t (tick_section Demo.cfg (Demo.start + 29 * Second) Demo.sealed).2) = 0.
Proof.
  split; [vm_compute; reflexivity|].
  refine (proj1 (sweep_ends_lapsed_lease Demo.cfg (Demo.start + 29 * Second) Demo.sealed
                   (tick_section Demo.cfg (Demo.start + 29 * Second) Demo.sealed).1 _ _ _ _)).
  - vm_compute. discriminate.
  - vm_compute. reflexivity.
  - by destruct (tick_section _ _ _).
Defined.
