(* ===== verification/Store.v ===== *)
(** * internal/queue/store.go: the SQLite queue and its ledger

    The [messages] and [deks] tables as lists of rows in primary-key order, each
    prepared statement as the function its SQL text denotes, the in-memory
    ledger, and every operation of [Store] as one step from state to state.  A
    statement may fail: the failure is an argument, and a failed statement has
    no effect.  The invariant ties the ledger to the rows. *)

From S2P Require Import Prelude GoLib Kms Tink Lease Cmek.
Local Open Scope string_scope.
Local Open Scope Z_scope.

(** ** Rows *)

Inductive rstate := SReady | SClaimed | SDead.

#[export] Instance rstate_eq_dec : EqDecision rstate.
Proof. solve_decision. Defined.

Record row := mkRow {
  m_id : Z; m_tenant : string; m_dek : string; m_ciphertext : bytes; m_state : rstate;
  m_attempts : Z; m_enqueued_at : Z; m_claimed_until : option Z }.

#[export] Instance row_eq_dec : EqDecision row.
Proof. solve_decision. Defined.

Record Message := mkMessage {
  msg_ID : Z; msg_DEKID : string; msg_Ciphertext : bytes; msg_Attempts : Z; msg_EnqueuedAt : Time }.

Record Batch := mkBatch { b_Tenant : string; b_Idx : nat; b_Msgs : list Message }.

(** [RETURNING] promises no order. *)
Class Returning := {
  returning : list row → list row;
  returning_perm : ∀ l, returning l ≡ₚ l
}.

Definition ms (t : Time) : Z := Time.UnixMilli t.

(** [UPDATE ... SET state, claimed_until]. *)
Definition set_row (s : rstate) (until : option Z) (r : row) : row :=
  mkRow (m_id r) (m_tenant r) (m_dek r) (m_ciphertext r) s (m_attempts r) (m_enqueued_at r) until.
Definition set_dead (r : row) : row :=
  mkRow (m_id r) (m_tenant r) (m_dek r) (m_ciphertext r) SDead (m_attempts r + 1) (m_enqueued_at r) None.

Definition has_state (s : rstate) (r : row) : bool := bool_decide (m_state r = s).
Definition of_tenant (t : string) (r : row) : bool := bool_decide (m_tenant r = t).
Definition in_ids (ids : list Z) (r : row) : bool := bool_decide (m_id r ∈ ids).

(** [LIMIT n]: a negative limit is none. *)
Definition limit {A} (n : Z) (l : list A) : list A := if n <? 0 then l else take (Z.to_nat n) l.

(** [UPDATE ... WHERE q]. *)
Definition update (q : row → bool) (f : row → row) (rows : list row) : list row :=
  (λ r, if q r then f r else r) <$> rows.

(** ** The statements *)

Definition sql_insert (r : row) (rows : list row) : option (list row) :=
  if bool_decide (m_id r ∈ m_id <$> rows) then None
  else Some (filter (λ x, m_id x < m_id r) rows ++ r :: filter (λ x, m_id r < m_id x) rows)%list.

Definition sel_claim (t : string) (n : Z) (rows : list row) : list row :=
  limit n (filter (λ r, of_tenant t r && has_state SReady r = true) rows).
Definition sql_claim (t : string) (n until : Z) (rows : list row) : list row :=
  update (in_ids (m_id <$> sel_claim t n rows)) (set_row SClaimed (Some until)) rows.

Definition sel_ids (ids : list Z) (r : row) : bool := has_state SClaimed r && in_ids ids r.
Definition sql_ack (ids : list Z) (rows : list row) : list row :=
  filter (λ r, sel_ids ids r = false) rows.
Definition sql_release (ids : list Z) (rows : list row) : list row :=
  update (sel_ids ids) (set_row SReady None) rows.
Definition sql_dead (id : Z) (rows : list row) : list row := update (sel_ids [id]) set_dead rows.

(** [claimed_until < ?]: NULL compares to nothing. *)
Definition sel_reclaim (now : Z) (r : row) : bool :=
  has_state SClaimed r && match m_claimed_until r with Some u => u <? now | None => false end.
Definition sql_reclaim (now : Z) (rows : list row) : list row :=
  update (sel_reclaim now) (set_row SReady None) rows.

Definition sel_expire (before n : Z) (rows : list row) : list row :=
  limit n (filter (λ r, has_state SReady r && (m_enqueued_at r <? before) = true) rows).
Definition sql_expire (before n : Z) (rows : list row) : list row :=
  filter (λ r, in_ids (m_id <$> sel_expire before n rows) r = false) rows.

(** ** The ledger *)

(** One int64 per tenant. *)
Definition get (l : list Z) (i : nat) : Z := default 0 (l !! i).
Definition add (i : nat) (d : Z) (l : list Z) : list Z := alter (λ x, x + d) i l.

Record ledger := mkLedger {
  accepted : list Z; delivered : list Z; expired : list Z;
  ready : list Z; claimed : list Z; deadN : list Z;
  total : Z; backlogged : Z }.

Definition backlogOf (g : ledger) (i : nat) : Z := get (ready g) i + get (claimed g) i.

(** [if ra > 0 && backlogOf(i) == 0 { backlogged-- }] and its counterpart. *)
Definition leave (ra : Z) (i : nat) (g : ledger) : ledger :=
  if (0 <? ra) && (backlogOf g i =? 0)
  then mkLedger (accepted g) (delivered g) (expired g) (ready g) (claimed g) (deadN g) (total g) (backlogged g - 1)
  else g.
Definition enter (i : nat) (g : ledger) : ledger :=
  if backlogOf g i =? 0
  then mkLedger (accepted g) (delivered g) (expired g) (ready g) (claimed g) (deadN g) (total g) (backlogged g + 1)
  else g.

Definition led_insert (i : nat) (g0 : ledger) : ledger :=
  let g := enter i g0 in
  mkLedger (add i 1 (accepted g)) (delivered g) (expired g) (add i 1 (ready g)) (claimed g) (deadN g)
    (total g + 1) (backlogged g).
Definition led_claim (i : nat) (n : Z) (g : ledger) : ledger :=
  mkLedger (accepted g) (delivered g) (expired g) (add i (- n) (ready g)) (add i n (claimed g)) (deadN g)
    (total g) (backlogged g).
Definition led_ack (i : nat) (ra : Z) (g : ledger) : ledger :=
  leave ra i (mkLedger (accepted g) (add i ra (delivered g)) (expired g) (ready g) (add i (- ra) (claimed g))
    (deadN g) (total g - ra) (backlogged g)).
Definition led_release (i : nat) (ra : Z) (g : ledger) : ledger :=
  mkLedger (accepted g) (delivered g) (expired g) (add i ra (ready g)) (add i (- ra) (claimed g)) (deadN g)
    (total g) (backlogged g).
Definition led_dead (i : nat) (ra : Z) (g : ledger) : ledger :=
  leave ra i (mkLedger (accepted g) (delivered g) (expired g) (ready g) (add i (- ra) (claimed g))
    (add i ra (deadN g)) (total g - ra) (backlogged g)).
Definition led_expire (i : nat) (c : Z) (g : ledger) : ledger :=
  leave 1 i (mkLedger (accepted g) (delivered g) (add i c (expired g)) (add i (- c) (ready g)) (claimed g)
    (deadN g) (total g - c) (backlogged g)).

(** ** The store *)

Section Store.
Context `{MR : MapRange} `{RT : Returning}.
Context (tenants : list string).

Record Store := mkStore {
  rows : list row; deks_table : list WrappedDEK; led : ledger; nextID : Z; wake : bool;
  insN : Z; insSumNs : Z; insMaxNs : Z; censusMaxNs : Z }.

Definition with_rows (rs : list row) (g : ledger) (s : Store) : Store :=
  mkStore rs (deks_table s) g (nextID s) (wake s) (insN s) (insSumNs s) (insMaxNs s) (censusMaxNs s).

(** The index of a tenant: the last of that name. *)
Definition index (t : string) : option nat :=
  foldl (λ acc '(i, x), if bool_decide (x = t) then Some i else acc) None (imap pair tenants).

(** [Open], past the file handling: empty tables, zero counters. *)
Definition Open_store : Store :=
  let z := replicate (length tenants) 0 in
  mkStore [] [] (mkLedger z z z z z z 0 0) 0 false 0 0 0 0.

Definition NextID (s : Store) : Z * Store :=
  let n := wrap64 (nextID s + 1) in
  (n, mkStore (rows s) (deks_table s) (led s) n (wake s) (insN s) (insSumNs s) (insMaxNs s) (censusMaxNs s)).

(** A non-blocking send on a channel of capacity one. *)
Definition signal (s : Store) : Store :=
  mkStore (rows s) (deks_table s) (led s) (nextID s) true (insN s) (insSumNs s) (insMaxNs s) (censusMaxNs s).

(** A receive from the [Wake] channel takes the buffered signal; [None] while there is none. *)
Definition Wake (s : Store) : option Store :=
  if wake s then Some (mkStore (rows s) (deks_table s) (led s) (nextID s) false (insN s) (insSumNs s)
                         (insMaxNs s) (censusMaxNs s))
  else None.

Definition record_insert (d : Z) (s : Store) : Store :=
  mkStore (rows s) (deks_table s) (led s) (nextID s) (wake s) (insN s + 1) (insSumNs s + d)
    (if d <=? insMaxNs s then insMaxNs s else d) (censusMaxNs s).

(** The driver's error when the statement fails ([Some]), and SQLite's own when
    a key is taken. *)
Definition unique_failed : err := ErrText "constraint failed: UNIQUE constraint failed".

(** [Insert]: [now], [start] and [end_] are its three clock reads.  [None] is an
    index out of range. *)
Definition Insert (now start end_ : Time) (fail : option err) (idx : nat) (id : Z) (env : Envelope) (s : Store)
  : option (option err * Store) :=
  match tenants !! idx with
  | None => None
  | Some t =>
      let s := record_insert (Time.Sub end_ start) s in
      match fail with
      | Some e => Some (Some e, s)
      | None =>
          match sql_insert (mkRow id t (env_DEKID env) (env_Ciphertext env) SReady 0 (ms now) None) (rows s) with
          | None => Some (Some unique_failed, s)
          | Some rs => Some (None, signal (with_rows rs (led_insert idx (led s)) s))
          end
      end
  end.

Definition PutDEK (fail : option err) (d : WrappedDEK) (s : Store) : option err * Store :=
  match fail with
  | Some e => (Some e, s)
  | None =>
      if bool_decide (w_ID d ∈ w_ID <$> deks_table s) then (Some unique_failed, s)
      else (None, mkStore (rows s) (deks_table s ++ [d]) (led s) (nextID s) (wake s) (insN s) (insSumNs s)
                    (insMaxNs s) (censusMaxNs s))
  end.

(** How a RETURNING cursor ends: rows whose Scan fails, an early stop after
    [n] rows, and whether the fallback [SELECT changes()] fails. *)
Record cursor := mkCursor {
  cur_scan : Z → option err; cur_stop : option (nat * err); cur_changes : option err }.

Definition sound_cursor : cursor := mkCursor (λ _, None) None None.

Definition message_of (r : row) : Message :=
  mkMessage (m_id r) (m_dek r) (m_ciphertext r) (m_attempts r) (Time.ofUnixMilli (m_enqueued_at r)).

(** The row loop of [Claim]: rows drained, rows scanned, the last scan error. *)
Fixpoint scan_rows (c : cursor) (rs : list row) : Z * list Message * option err :=
  match rs with
  | [] => (0, [], None)
  | r :: rs' =>
      let '(n, ms, e) := scan_rows c rs' in
      match cur_scan c (m_id r) with
      | Some e0 => (n + 1, ms, match e with Some e => Some e | None => Some e0 end)
      | None => (n + 1, message_of r :: ms, e)
      end
  end.

Definition Claim (fail : option err) (c : cursor) (idx : nat) (n : Z) (until : Time) (s : Store)
  : option ((Batch * option err) * Store) :=
  match tenants !! idx with
  | None => None
  | Some t =>
      match fail with
      | Some e => Some ((mkBatch t idx [], Some e), s)
      | None =>
          let sel := sel_claim t n (rows s) in
          let rs := sql_claim t n (ms until) (rows s) in
          let out := match cur_stop c with
                     | Some (k, _) => take k (returning sel)
                     | None => returning sel
                     end in
          let '(drained, msgs, e) := scan_rows c out in
          let scanErr := match e with
                         | Some e => Some e
                         | None => snd <$> cur_stop c
                         end in
          let changed := match scanErr with
                         | None => drained
                         | Some _ => match cur_changes c with
                                     | None => Z.of_nat (length sel)
                                     | Some _ => drained
                                     end
                         end in
          Some ((mkBatch t idx msgs, scanErr), with_rows rs (led_claim idx changed (led s)) s)
      end
  end.

(** The rows a statement affects. *)
Definition affected (q : row → bool) (s : Store) : Z := countZ q (rows s).

Definition in_range (idx : nat) : bool := bool_decide (idx < length tenants)%nat.

Definition Ack (fail : option err) (idx : nat) (ids : list Z) (s : Store) : option ((Z * option err) * Store) :=
  if negb (in_range idx) then None
  else match fail with
       | Some e => Some ((0, Some e), s)
       | None =>
           let ra := affected (sel_ids ids) s in
           Some ((ra, None), with_rows (sql_ack ids (rows s)) (led_ack idx ra (led s)) s)
       end.

Definition Release (fail : option err) (idx : nat) (ids : list Z) (s : Store)
  : option ((Z * option err) * Store) :=
  if negb (in_range idx) then None
  else match fail with
       | Some e => Some ((0, Some e), s)
       | None =>
           let ra := affected (sel_ids ids) s in
           Some ((ra, None), signal (with_rows (sql_release ids (rows s)) (led_release idx ra (led s)) s))
       end.

Definition Dead (fail : option err) (idx : nat) (id : Z) (s : Store) : option (option err * Store) :=
  if negb (in_range idx) then None
  else match fail with
       | Some e => Some (Some e, s)
       | None =>
           let ra := affected (sel_ids [id]) s in
           Some (None, with_rows (sql_dead id (rows s)) (led_dead idx ra (led s)) s)
       end.

(** [SELECT tenant_id, COUNT of GROUP BY tenant_id]. *)
Definition group_by (sel : list row) : list (string * Z) :=
  (λ t, (t, countZ (of_tenant t) sel)) <$> remove_dups (m_tenant <$> sel).

(** The counting loop of [Reclaim] and [Expire]: only indexed tenants count. *)
Definition count_step (acc : gmap nat Z * Z) (e : string * Z) : gmap nat Z * Z :=
  match index e.1 with
  | Some i => (<[i := default 0 (acc.1 !! i) + e.2]> acc.1, acc.2 + e.2)
  | None => acc
  end.
Definition counts_of (sel : list row) : gmap nat Z * Z := foldl count_step (∅, 0) (group_by sel).

Definition miscounted : err := ErrText "rows counted and rows changed differ".

(** [Reclaim]: [fail_read] and [fail_write] are the two statements' failures. *)
Definition Reclaim (fail_read fail_write : option err) (now : Time) (s : Store) : (Z * option err) * Store :=
  match fail_read with
  | Some e => ((0, Some e), s)
  | None =>
      let '(counts, tot) := counts_of (filter (λ r, sel_reclaim (ms now) r = true) (rows s)) in
      if tot =? 0 then ((0, None), s)
      else match fail_write with
           | Some e => ((0, Some e), s)
           | None =>
               let ra := affected (sel_reclaim (ms now)) s in
               let rs := sql_reclaim (ms now) (rows s) in
               if negb (ra =? tot) then ((0, Some miscounted), with_rows rs (led s) s)
               else ((tot, None),
                     signal (with_rows rs (foldl (λ g '(i, c), led_release i c g) (led s) (range counts)) s))
           end
  end.

Definition Expire (fail_read fail_write : option err) (before : Time) (lim : Z) (s : Store)
  : (Z * option err) * Store :=
  match fail_read with
  | Some e => ((0, Some e), s)
  | None =>
      let sel := sel_expire (ms before) lim (rows s) in
      let '(counts, tot) := counts_of sel in
      if tot =? 0 then ((0, None), s)
      else match fail_write with
           | Some e => ((0, Some e), s)
           | None =>
               let ra := affected (in_ids (m_id <$> sel)) s in
               let rs := sql_expire (ms before) lim (rows s) in
               if negb (ra =? tot) then ((0, Some miscounted), with_rows rs (led s) s)
               else ((tot, None),
                     with_rows rs (foldl (λ g '(i, c), led_expire i c g) (led s) (range counts)) s)
           end
  end.

Record Census_ := mkCensus {
  cs_Accepted : list Z; cs_Delivered : list Z; cs_Expired : list Z;
  cs_Ready : list Z; cs_Claimed : list Z; cs_Dead : list Z;
  cs_Total : Z; cs_Backlogged : Z; cs_At : Time }.

(** The rows' own count of one tenant's rows in one state; only the last tenant
    of a name is indexed. *)
Definition row_count (s : Store) (st : rstate) (i : nat) : Z :=
  match tenants !! i with
  | Some t => if bool_decide (index t = Some i)
              then countZ (λ r, of_tenant t r && has_state st r) (rows s) else 0
  | None => 0
  end.

(** [Census]; [start], [at_] and [end_] are its clock reads. *)
Definition Census (fail : option err) (start at_ end_ : Time) (s : Store) : (err + Census_) * Store :=
  match fail with
  | Some e => (inl e, s)
  | None =>
      let n := length tenants in
      let col f := f <$> seq 0 n in
      let g := led s in
      let d := Time.Sub end_ start in
      (inr (mkCensus (col (get (accepted g))) (col (get (delivered g))) (col (get (expired g)))
              (col (row_count s SReady)) (col (row_count s SClaimed)) (col (row_count s SDead))
              (total g) (backlogged g) at_),
       mkStore (rows s) (deks_table s) g (nextID s) (wake s) (insN s) (insSumNs s) (insMaxNs s)
         (if d <=? censusMaxNs s then censusMaxNs s else d))
  end.

(** The lock-free reads. *)
Definition Backlog (s : Store) (i : nat) : Z := backlogOf (led s) i.
Definition Ready (s : Store) (i : nat) : Z := get (ready (led s)) i.
Definition Total (s : Store) : Z := total (led s).
Definition Backlogged (s : Store) : Z := backlogged (led s).

(** A byte string occurs in another ([instr(ciphertext, needle) > 0]). *)
Fixpoint instr (needle hay : bytes) : bool :=
  (bool_decide (take (length needle) hay = needle)
   || match hay with [] => false | _ :: hay' => instr needle hay' end).

Definition CanaryFull (needle : bytes) (s : Store) : Z :=
  countZ (λ r, instr needle (m_ciphertext r)) (rows s).

Record InsertStats := mkInsertStats { is_N : Z; is_MeanUs : Z; is_MaxUs : Z; is_CensusMaxUs : Z }.

Definition Stats (s : Store) : InsertStats :=
  mkInsertStats (insN s)
    (if 0 <? insN s then Z.quot (Z.quot (insSumNs s) (insN s)) 1000 else 0)
    (Z.quot (insMaxNs s) 1000) (Z.quot (censusMaxNs s) 1000).
End Store.
