(* ===== verification/StoreInv.v ===== *)
(** * The ledger equals the rows

    The queue's invariant: per tenant the ready, claimed and dead counters are
    the numbers of such rows, accepted is the sum of where the messages went,
    [total] counts the live rows and [backlogged] the tenants that have any.
    Every operation keeps it, on every error branch. *)

From S2P Require Import Prelude GoLib Kms Tink Lease Cmek Store.
From Stdlib Require Import Sorting.Sorted.
Local Open Scope string_scope.
Local Open Scope Z_scope.

(** ** Columns *)

Lemma get_add i d l j :
  (i < length l)%nat → get (add i d l) j = get l j + (if decide (i = j) then d else 0).
Proof.
  intros Hi. unfold get, add. destruct (decide (i = j)) as [->|Hne].
  - rewrite list_lookup_alter_eq. apply lookup_lt_is_Some in Hi as [x ->]. done.
  - rewrite list_lookup_alter_ne by done. lia.
Qed.

Lemma length_add i d l : length (add i d l) = length l.
Proof. apply length_alter. Qed.

(** A count over distinct elements changes at one of them only. *)
Lemma countZ_change {A} (p q : A → bool) l x :
  NoDup l → x ∈ l → (∀ y, y ≠ x → p y = q y) →
  countZ q l = countZ p l + (if q x then 1 else 0) - (if p x then 1 else 0).
Proof.
  intros Hnd Hx Hpq. induction Hnd as [|y l Hy Hnd IH]; [by apply not_elem_of_nil in Hx|].
  rewrite !countZ_cons. apply elem_of_cons in Hx as [->|Hx].
  - rewrite (countZ_ext q p); [lia|]. intros z Hz. symmetry. apply Hpq. by intros ->.
  - rewrite IH by done. rewrite (Hpq y); [lia|]. by intros ->.
Qed.

(** ** Sums *)

Lemma sumZ_perm (l k : list Z) : l ≡ₚ k → sumZ l = sumZ k.
Proof. unfold sumZ. induction 1; simpl in *; lia. Qed.

Lemma sumZ_plus {A} (f g : A → Z) (l : list A) :
  sumZ ((λ x, f x + g x) <$> l) = sumZ (f <$> l) + sumZ (g <$> l).
Proof. induction l; [done|]. rewrite !fmap_cons. simpl. lia. Qed.

Lemma countZ_one {A} `{EqDecision A} (x : A) l :
  NoDup l → x ∈ l → countZ (λ y, bool_decide (x = y)) l = 1.
Proof.
  intros Hnd Hx. rewrite (countZ_change (λ _, false) _ l x Hnd Hx).
  - rewrite (proj2 (countZ_zero (λ _, false) l)) by done. by rewrite bool_decide_eq_true_2.
  - intros y Hy. by rewrite bool_decide_eq_false_2.
Qed.

(** The amount a list of (key, amount) pairs books on one key. *)
Definition out (es : list (nat * Z)) (i : nat) : Z :=
  sumZ ((λ e, if decide (e.1 = i) then e.2 else 0) <$> es).

Lemma out_cons e es i : out (e :: es) i = (if decide (e.1 = i) then e.2 else 0) + out es i.
Proof. done. Qed.

Lemma out_none es i : (∀ e, e ∈ es → e.1 ≠ i) → out es i = 0.
Proof.
  induction es as [|e es IH]; [done|]. intros H. rewrite out_cons, decide_False by set_solver.
  rewrite IH; [done|]. set_solver.
Qed.

Lemma out_map `{MR : MapRange} (m : gmap nat Z) i : out (range m) i = default 0 (m !! i).
Proof.
  transitivity (out (map_to_list m) i).
  { unfold out. apply sumZ_perm. by rewrite range_perm. }
  induction m as [|j x m Hj IH] using map_ind; [by rewrite map_to_list_empty|].
  transitivity (out ((j, x) :: map_to_list m) i).
  { unfold out. apply sumZ_perm. by rewrite map_to_list_insert. }
  rewrite out_cons, IH. cbn [fst snd]. destruct (decide (j = i)) as [->|Hne].
  - rewrite Hj, lookup_insert_eq. cbn. lia.
  - by rewrite lookup_insert_ne.
Qed.

(** ** Updates of rows *)

Lemma countZ_update p q f rows :
  countZ p (update q f rows)
  = countZ p rows - countZ (λ r, q r && p r) rows + countZ (λ r, q r && p (f r)) rows.
Proof.
  unfold update. induction rows as [|r rows IH]; [done|].
  rewrite fmap_cons, !countZ_cons, IH.
  destruct (q r) eqn:E; cbn [andb]; destruct (p r), (p (f r)); lia.
Qed.

Lemma countZ_remove p q (rows : list row) :
  countZ p (filter (λ r, q r = false) rows) = countZ p rows - countZ (λ r, q r && p r) rows.
Proof.
  induction rows as [|r rows IH]; [done|]. rewrite filter_cons, !countZ_cons.
  destruct (q r) eqn:E; case_decide as Hd; try done; cbn [andb]; rewrite ?countZ_cons, IH;
    destruct (p r); lia.
Qed.

Lemma countZ_all {A} (p : A → bool) l : (∀ x, x ∈ l → p x = true) → countZ p l = Z.of_nat (length l).
Proof.
  induction l as [|x l IH]; intros H; [done|]. rewrite countZ_cons, H by set_solver.
  rewrite IH by set_solver. cbn. lia.
Qed.

Lemma ids_update q f rows :
  (∀ r, m_id (f r) = m_id r) → m_id <$> update q f rows = m_id <$> rows.
Proof.
  intros Hf. unfold update. rewrite <- list_fmap_compose. apply list_fmap_ext.
  intros _ r _. cbn. by destruct (q r).
Qed.

(** [id IN (SELECT id ... LIMIT n)] selects the chosen rows and no other. *)
Lemma limit_sublist {A} n (l : list A) : sublist (limit n l) l.
Proof. unfold limit. case_match; [done|]. apply sublist_take. Qed.

Lemma in_ids_sel (rows sel : list row) :
  NoDup (m_id <$> rows) → sublist sel rows →
  ∀ r, r ∈ rows → in_ids (m_id <$> sel) r = bool_decide (r ∈ sel).
Proof.
  intros Hnd Hsub r Hr. unfold in_ids. apply bool_decide_ext. rewrite list_elem_of_fmap. split.
  - intros (r' & E & Hr'). assert (r' ∈ rows) as Hin by (by eapply elem_of_sublist).
    assert (r = r') as ->; [|done].
    apply list_elem_of_lookup in Hr as [i Hi]. apply list_elem_of_lookup in Hin as [j Hj].
    assert (i = j) as ->; [|congruence].
    apply (NoDup_lookup _ i j (m_id r) Hnd); rewrite list_lookup_fmap; [by rewrite Hi|by rewrite Hj, E].
  - intros Hs. by exists r.
Qed.

Lemma countZ_sublist {A} `{EqDecision A} (p : A → bool) (l sel : list A) :
  NoDup l → sublist sel l → countZ (λ x, bool_decide (x ∈ sel) && p x) l = countZ p sel.
Proof.
  intros Hnd Hsub. induction Hsub as [|x sel l Hsub IH|x sel l Hsub IH]; [done|..];
    apply NoDup_cons in Hnd as [Hx Hnd]; rewrite countZ_cons.
  - rewrite countZ_cons, bool_decide_eq_true_2 by set_solver. cbn [andb]. f_equal.
    rewrite <- IH by done. apply countZ_ext. intros y Hy. f_equal. apply bool_decide_ext.
    rewrite elem_of_cons. split; [|auto]. intros [->|]; done.
  - rewrite IH by done. rewrite bool_decide_eq_false_2; [done|].
    intros Hin. destruct Hx. by eapply elem_of_sublist.
Qed.

Lemma countZ_sel (p : row → bool) (rows sel : list row) :
  NoDup (m_id <$> rows) → sublist sel rows →
  countZ (λ r, in_ids (m_id <$> sel) r && p r) rows = countZ p sel.
Proof.
  intros Hnd Hsub. rewrite <- (countZ_sublist p rows sel); [|by apply (NoDup_fmap_1 m_id)|done].
  apply countZ_ext. intros r Hr. f_equal. by apply (in_ids_sel rows).
Qed.

(** ** Tallies *)

(** The rows of one tenant in one state, and the rows of one tenant a statement
    selects. *)
Definition tally (rows : list row) (t : string) (st : rstate) : Z :=
  countZ (λ r, of_tenant t r && has_state st r) rows.
Definition share (q : row → bool) (t : string) (rows : list row) : Z :=
  countZ (λ r, q r && of_tenant t r) rows.
Definition live (r : row) : bool := negb (has_state SDead r).

Lemma tally_update q f s0 s1 rows t st :
  (∀ r, r ∈ rows → q r = true → m_state r = s0) →
  (∀ r, m_tenant (f r) = m_tenant r ∧ m_state (f r) = s1) →
  tally (update q f rows) t st
  = tally rows t st - (if bool_decide (st = s0) then share q t rows else 0)
    + (if bool_decide (st = s1) then share q t rows else 0).
Proof.
  intros Hq Hf. unfold tally, share. rewrite countZ_update.
  assert (countZ (λ r, q r && (of_tenant t r && has_state st r)) rows
          = if bool_decide (st = s0) then countZ (λ r, q r && of_tenant t r) rows else 0) as ->.
  { case_bool_decide as Hs.
    - apply countZ_ext. intros r Hr. destruct (q r) eqn:E; [|done]. cbn [andb].
      unfold has_state. rewrite (Hq r Hr E), bool_decide_eq_true_2 by done. apply andb_true_r.
    - apply countZ_zero. intros r Hr. destruct (q r) eqn:E; [|done]. cbn [andb].
      unfold has_state. rewrite (Hq r Hr E), bool_decide_eq_false_2 by congruence. apply andb_false_r. }
  assert (countZ (λ r, q r && (of_tenant t (f r) && has_state st (f r))) rows
          = if bool_decide (st = s1) then countZ (λ r, q r && of_tenant t r) rows else 0) as ->.
  { case_bool_decide as Hs.
    - apply countZ_ext. intros r Hr. unfold has_state, of_tenant. destruct (Hf r) as [-> ->].
      rewrite (bool_decide_eq_true_2 (s1 = st)) by done. by rewrite andb_true_r.
    - apply countZ_zero. intros r Hr. unfold has_state, of_tenant. destruct (Hf r) as [-> ->].
      rewrite (bool_decide_eq_false_2 (s1 = st)) by congruence. by rewrite !andb_false_r. }
  done.
Qed.

Lemma tally_remove q s0 rows t st :
  (∀ r, r ∈ rows → q r = true → m_state r = s0) →
  tally (filter (λ r, q r = false) rows) t st
  = tally rows t st - (if bool_decide (st = s0) then share q t rows else 0).
Proof.
  intros Hq. unfold tally, share. rewrite countZ_remove. f_equal.
  case_bool_decide as Hs.
  - apply countZ_ext. intros r Hr. destruct (q r) eqn:E; [|done]. cbn [andb].
    unfold has_state. rewrite (Hq r Hr E), bool_decide_eq_true_2 by done. apply andb_true_r.
  - apply countZ_zero. intros r Hr. destruct (q r) eqn:E; [|done]. cbn [andb].
    unfold has_state. rewrite (Hq r Hr E), bool_decide_eq_false_2 by congruence. apply andb_false_r.
Qed.

Lemma live_update q f s0 s1 rows :
  (∀ r, r ∈ rows → q r = true → m_state r = s0) → s0 ≠ SDead → (∀ r, m_state (f r) = s1) →
  countZ live (update q f rows) = countZ live rows - (if bool_decide (s1 = SDead) then countZ q rows else 0).
Proof.
  intros Hq Hs0 Hf. rewrite countZ_update.
  rewrite (countZ_ext (λ r, q r && live r) q).
  2: { intros r Hr. destruct (q r) eqn:E; [|done]. cbn [andb]. unfold live, has_state.
       by rewrite (Hq r Hr E), bool_decide_eq_false_2. }
  case_bool_decide as Hd.
  - rewrite (proj2 (countZ_zero (λ r, q r && live (f r)) rows)); [lia|].
    intros r _. unfold live, has_state. rewrite Hf, bool_decide_eq_true_2 by done. apply andb_false_r.
  - rewrite (countZ_ext (λ r, q r && live (f r)) q); [lia|].
    intros r _. unfold live, has_state. rewrite Hf, bool_decide_eq_false_2 by done. apply andb_true_r.
Qed.

Lemma live_remove q s0 rows :
  (∀ r, r ∈ rows → q r = true → m_state r = s0) → s0 ≠ SDead →
  countZ live (filter (λ r, q r = false) rows) = countZ live rows - countZ q rows.
Proof.
  intros Hq Hs0. rewrite countZ_remove. f_equal. apply countZ_ext. intros r Hr.
  destruct (q r) eqn:E; [|done]. cbn [andb]. unfold live, has_state.
  by rewrite (Hq r Hr E), bool_decide_eq_false_2.
Qed.

(** When a statement touches one tenant only. *)
Lemma share_one q t u rows :
  (∀ r, r ∈ rows → q r = true → m_tenant r = t) →
  share q u rows = if bool_decide (u = t) then countZ q rows else 0.
Proof.
  intros Hq. unfold share. case_bool_decide as Hu.
  - subst u. apply countZ_ext. intros r Hr. destruct (q r) eqn:E; [|done].
    unfold of_tenant. by rewrite (Hq r Hr E), bool_decide_eq_true_2.
  - apply countZ_zero. intros r Hr. destruct (q r) eqn:E; [|done].
    unfold of_tenant. rewrite (Hq r Hr E), bool_decide_eq_false_2; [done|congruence].
Qed.

Lemma share_nonneg q t rows : 0 <= share q t rows.
Proof. apply countZ_nonneg. Qed.

(** ** The invariant *)

Section StoreInv.
Context `{MR : MapRange} `{RT : Returning}.
Context (tenants : list string) (Hnd : NoDup tenants).

Definition columns (g : ledger) : Prop :=
  let n := length tenants in
  length (accepted g) = n ∧ length (delivered g) = n ∧ length (expired g) = n ∧
  length (ready g) = n ∧ length (claimed g) = n ∧ length (deadN g) = n.

Definition conserves (g : ledger) (i : nat) : Prop :=
  get (accepted g) i
  = get (delivered g) i + get (expired g) i + get (ready g) i + get (claimed g) i + get (deadN g) i.

Definition positive (g : ledger) (i : nat) : bool := 0 <? backlogOf g i.

Record ledger_ok (g : ledger) : Prop := {
  go_columns : columns g;
  go_conserves : ∀ i, (i < length tenants)%nat → conserves g i;
  go_backlogged : backlogged g = countZ (positive g) (seq 0 (length tenants)) }.

Definition counts (g : ledger) (rs : list row) : Prop :=
  ∀ i t, tenants !! i = Some t →
    get (ready g) i = tally rs t SReady ∧ get (claimed g) i = tally rs t SClaimed ∧
    get (deadN g) i = tally rs t SDead.

Record store_ok (s : Store) : Prop := {
  so_sorted : StronglySorted Z.lt (m_id <$> rows s);
  so_tenants : ∀ r, r ∈ rows s → m_tenant r ∈ tenants;
  so_ledger : ledger_ok (led s);
  so_counts : counts (led s) (rows s);
  so_total : total (led s) = countZ live (rows s) }.

(** A ledger step at one index. *)
Lemma ledger_at g g' i :
  ledger_ok g → (i < length tenants)%nat → columns g' → conserves g' i →
  (∀ j, j ≠ i → get (accepted g') j = get (accepted g) j ∧ get (delivered g') j = get (delivered g) j ∧
     get (expired g') j = get (expired g) j ∧ get (ready g') j = get (ready g) j ∧
     get (claimed g') j = get (claimed g) j ∧ get (deadN g') j = get (deadN g) j) →
  backlogged g' = backlogged g + (if positive g' i then 1 else 0) - (if positive g i then 1 else 0) →
  ledger_ok g'.
Proof.
  intros [H1 H2 H3] Hi Hc Hv Hj Hb. split; [done| |].
  - intros j Hjn. destruct (decide (j = i)) as [->|Hne]; [done|].
    destruct (Hj j Hne) as (E1 & E2 & E3 & E4 & E5 & E6). specialize (H2 j Hjn).
    unfold conserves in *. rewrite E1, E2, E3, E4, E5, E6. done.
  - rewrite Hb, H3. rewrite (countZ_change (positive g) (positive g') (seq 0 (length tenants)) i).
    + done.
    + apply NoDup_seq.
    + apply elem_of_seq. lia.
    + intros j Hne. destruct (Hj j Hne) as (_ & _ & _ & E4 & E5 & _).
      unfold positive, backlogOf. by rewrite E4, E5.
Qed.

(** Columns and cells of a stepped ledger, by computation. *)
Ltac led_columns :=
  match goal with H : columns ?g |- _ =>
    destruct H as (?&?&?&?&?&?); unfold columns; cbn; rewrite ?length_add; by split_and! end.
Ltac led_cells :=
  cbn; rewrite ?get_add by lia; rewrite ?decide_True by done; try lia.
Ltac led_frame :=
  intros j Hne; cbn; rewrite ?get_add by lia; rewrite ?decide_False by done; split_and!; lia.

Lemma led_claim_ok g i d :
  ledger_ok g → (i < length tenants)%nat → ledger_ok (led_claim i d g).
Proof.
  intros Hg Hi. pose proof Hg as [Hc Hv Hb]. specialize (Hv i Hi).
  pose proof Hc as (L1&L2&L3&L4&L5&L6).
  apply (ledger_at g _ i Hg Hi); [led_columns|unfold conserves in *; led_cells|led_frame|].
  unfold positive, backlogOf. led_cells.
  replace (get (ready g) i + - d + (get (claimed g) i + d)) with (get (ready g) i + get (claimed g) i) by lia.
  lia.
Qed.

Lemma led_release_ok g i d :
  ledger_ok g → (i < length tenants)%nat → ledger_ok (led_release i d g).
Proof.
  intros Hg Hi. pose proof Hg as [Hc Hv Hb]. specialize (Hv i Hi).
  pose proof Hc as (L1&L2&L3&L4&L5&L6).
  apply (ledger_at g _ i Hg Hi); [led_columns|unfold conserves in *; led_cells|led_frame|].
  unfold positive, backlogOf. led_cells.
  replace (get (ready g) i + d + (get (claimed g) i + - d)) with (get (ready g) i + get (claimed g) i) by lia.
  lia.
Qed.

Lemma led_insert_ok g i :
  ledger_ok g → (i < length tenants)%nat → 0 <= backlogOf g i → ledger_ok (led_insert i g).
Proof.
  intros Hg Hi Hn. pose proof Hg as [Hc Hv Hb]. specialize (Hv i Hi).
  pose proof Hc as (L1&L2&L3&L4&L5&L6). unfold led_insert, enter.
  destruct (Z.eqb_spec (backlogOf g i) 0) as [Hz|Hz];
    (apply (ledger_at g _ i Hg Hi); [led_columns|unfold conserves in *; led_cells|led_frame|]);
    unfold positive; cbn [backlogged]; unfold backlogOf in *; led_cells;
    destruct (Z.ltb_spec 0 (get (ready g) i + get (claimed g) i)),
      (Z.ltb_spec 0 (get (ready g) i + 1 + get (claimed g) i)); lia.
Qed.

(** A step that takes [ra] live rows off tenant [i]. *)
Lemma leave_ok g g1 i ra :
  ledger_ok g → (i < length tenants)%nat → columns g1 → conserves g1 i →
  (∀ j, j ≠ i → get (accepted g1) j = get (accepted g) j ∧ get (delivered g1) j = get (delivered g) j ∧
     get (expired g1) j = get (expired g) j ∧ get (ready g1) j = get (ready g) j ∧
     get (claimed g1) j = get (claimed g) j ∧ get (deadN g1) j = get (deadN g) j) →
  backlogged g1 = backlogged g → backlogOf g1 i = backlogOf g i - ra → 0 <= ra <= backlogOf g i →
  ledger_ok (leave ra i g1).
Proof.
  intros Hg Hi Hc Hv Hf Hb Hbl Hra. unfold leave. rewrite Hbl.
  destruct (Z.ltb_spec 0 ra), (Z.eqb_spec (backlogOf g i - ra) 0); cbn [andb];
    (apply (ledger_at g _ i Hg Hi); [done..|]); unfold positive; cbn [backlogged].
  1: change (backlogOf (mkLedger _ _ _ _ _ _ _ _) i) with (backlogOf g1 i).
  all: rewrite Hb, Hbl; destruct (Z.ltb_spec 0 (backlogOf g i - ra)), (Z.ltb_spec 0 (backlogOf g i)); lia.
Qed.

Lemma led_ack_ok g i ra :
  ledger_ok g → (i < length tenants)%nat → 0 <= ra <= backlogOf g i → ledger_ok (led_ack i ra g).
Proof.
  intros Hg Hi Hra. pose proof Hg as [Hc Hv Hb]. specialize (Hv i Hi).
  pose proof Hc as (L1&L2&L3&L4&L5&L6).
  apply (leave_ok g _ i ra Hg Hi); [led_columns|unfold conserves in *; led_cells|led_frame|done| |done].
  unfold backlogOf. led_cells.
Qed.

Lemma led_dead_ok g i ra :
  ledger_ok g → (i < length tenants)%nat → 0 <= ra <= backlogOf g i → ledger_ok (led_dead i ra g).
Proof.
  intros Hg Hi Hra. pose proof Hg as [Hc Hv Hb]. specialize (Hv i Hi).
  pose proof Hc as (L1&L2&L3&L4&L5&L6).
  apply (leave_ok g _ i ra Hg Hi); [led_columns|unfold conserves in *; led_cells|led_frame|done| |done].
  unfold backlogOf. led_cells.
Qed.

Lemma led_expire_ok g i c :
  ledger_ok g → (i < length tenants)%nat → 0 < c <= backlogOf g i → ledger_ok (led_expire i c g).
Proof.
  intros Hg Hi Hra. pose proof Hg as [Hc Hv Hb]. specialize (Hv i Hi).
  pose proof Hc as (L1&L2&L3&L4&L5&L6).
  replace (led_expire i c g) with (leave c i (mkLedger (accepted g) (delivered g) (add i c (expired g))
    (add i (- c) (ready g)) (claimed g) (deadN g) (total g - c) (backlogged g))).
  2: { unfold led_expire, leave. replace (0 <? c) with (0 <? 1) by lia. done. }
  apply (leave_ok g _ i c Hg Hi); [led_columns|unfold conserves in *; led_cells|led_frame|done| |lia].
  unfold backlogOf. led_cells.
Qed.

(** ** One tenant's step *)

Lemma counts_nonneg g rs i : counts g rs → (i < length tenants)%nat →
  0 <= get (ready g) i ∧ 0 <= get (claimed g) i ∧ 0 <= get (deadN g) i.
Proof.
  intros Hc Hi. apply lookup_lt_is_Some in Hi as [t Ht]. destruct (Hc i t Ht) as (-> & -> & ->).
  split_and!; apply countZ_nonneg.
Qed.

(** ** Several tenants at once *)

Lemma fold_release es g :
  ledger_ok g → (∀ e, e ∈ es → (e.1 < length tenants)%nat) →
  let g' := foldl (λ g '(i, c), led_release i c g) g es in
  ledger_ok g' ∧ total g' = total g ∧
  ∀ i, (i < length tenants)%nat →
    get (ready g') i = get (ready g) i + out es i ∧
    get (claimed g') i = get (claimed g) i - out es i ∧ get (deadN g') i = get (deadN g) i.
Proof.
  revert g. induction es as [|[j c] es IH]; intros g Hg Hes.
  { cbn. split_and!; try done. intros i Hi. unfold out. cbn. lia. }
  cbn [foldl]. assert (j < length tenants)%nat as Hj by (apply (Hes (j, c)); set_solver).
  destruct (IH (led_release j c g)) as (H1 & H2 & H3); [by apply led_release_ok|set_solver|].
  split_and!; [done|exact H2|]. intros i Hi. destruct (H3 i Hi) as (E1 & E2 & E3).
  destruct (go_columns _ Hg) as (L1&L2&L3&L4&L5&L6).
  rewrite E1, E2, E3, out_cons. cbn. rewrite !get_add by lia. destruct (decide (j = i)); lia.
Qed.

Lemma fold_expire es g :
  ledger_ok g → NoDup es.*1 →
  (∀ e, e ∈ es → (e.1 < length tenants)%nat ∧ 0 < e.2 <= backlogOf g e.1) →
  let g' := foldl (λ g '(i, c), led_expire i c g) g es in
  ledger_ok g' ∧ total g' = total g - sumZ es.*2 ∧
  ∀ i, (i < length tenants)%nat →
    get (ready g') i = get (ready g) i - out es i ∧
    get (claimed g') i = get (claimed g) i ∧ get (deadN g') i = get (deadN g) i.
Proof.
  revert g. induction es as [|[j c] es IH]; intros g Hg Hk Hes.
  { cbn. split_and!; try done; [lia|]. intros i Hi. unfold out. cbn. lia. }
  rewrite fmap_cons in Hk. apply NoDup_cons in Hk as [Hj Hk].
  cbn [foldl]. destruct (Hes (j, c)) as [Hjn Hc]; [set_solver|]. cbn [fst snd] in Hjn, Hc, Hj.
  destruct (go_columns _ Hg) as (L1&L2&L3&L4&L5&L6).
  set (g1 := led_expire j c g).
  assert (total g1 = total g - c ∧ ready g1 = add j (- c) (ready g) ∧ claimed g1 = claimed g ∧ deadN g1 = deadN g)
    as (T1 & R1 & C1 & D1) by (unfold g1, led_expire, leave; by case_match).
  destruct (IH g1) as (H1 & H2 & H3); [by apply led_expire_ok|done| |].
  { intros e He. destruct (Hes e) as [Hen Hec]; [set_solver|]. split; [done|].
    unfold backlogOf in *. rewrite R1, C1, get_add by lia.
    rewrite decide_False; [lia|]. intros ->. apply Hj. apply list_elem_of_fmap. by exists e. }
  split_and!; [done|rewrite H2, T1, fmap_cons; simpl; lia|].
  intros i Hi. destruct (H3 i Hi) as (E1 & E2 & E3).
  rewrite E1, E2, E3, out_cons, R1, C1, D1, get_add by lia. cbn. destruct (decide (j = i)); lia.
Qed.

(** ** GROUP BY *)

Lemma index_Some t i : index tenants t = Some i ↔ tenants !! i = Some t.
Proof.
  unfold index.
  assert (∀ (l : list (nat * string)) acc,
    foldl (λ acc '(i, x), if bool_decide (x = t) then Some i else acc) acc l
    = match last (filter (λ e, e.2 = t) l) with Some e => Some e.1 | None => acc end) as Hgen.
  { induction l as [|[j x] l IH]; intros acc; [done|]. cbn [foldl]. rewrite IH, filter_cons. cbn [snd].
    case_bool_decide as Hx; [rewrite decide_True by done|rewrite decide_False by done; done].
    rewrite last_cons. by destruct (last (filter _ l)). }
  rewrite Hgen. clear Hgen. split.
  - destruct (last _) as [[j x]|] eqn:E; [|done]. intros [= <-].
    apply last_Some in E as [l' E].
    assert ((j, x) ∈ filter (λ e : nat * string, e.2 = t) (imap pair tenants)) as Hin by (rewrite E; set_solver).
    apply list_elem_of_filter in Hin as [Hx Hin]. cbn in Hx. subst x.
    apply list_elem_of_lookup in Hin as [k Hk]. rewrite list_lookup_imap in Hk.
    destruct (tenants !! k) eqn:Ek; [|done]. by injection Hk as -> ->.
  - intros Hi. assert ((i, t) ∈ filter (λ e : nat * string, e.2 = t) (imap pair tenants)) as Hin.
    { apply list_elem_of_filter. split; [done|]. apply list_elem_of_lookup. exists i.
      by rewrite list_lookup_imap, Hi. }
    destruct (last _) as [[j x]|] eqn:E.
    + apply last_Some in E as [l' E].
      assert ((j, x) ∈ filter (λ e : nat * string, e.2 = t) (imap pair tenants)) as Hin' by (rewrite E; set_solver).
      apply list_elem_of_filter in Hin' as [Hx Hin']. cbn in Hx. subst x.
      apply list_elem_of_lookup in Hin' as [k Hk]. rewrite list_lookup_imap in Hk.
      destruct (tenants !! k) eqn:Ek; [|done]. injection Hk as -> ->. cbn. f_equal.
      by eapply NoDup_lookup.
    + apply last_None in E. rewrite E in Hin. by apply not_elem_of_nil in Hin.
Qed.

Lemma count_loop (f : string → Z) ts acc :
  NoDup ts → (∀ t, t ∈ ts → t ∈ tenants) →
  let res := foldl (count_step tenants) acc ((λ t, (t, f t)) <$> ts) in
  (∀ i t, tenants !! i = Some t →
     res.1 !! i = if decide (t ∈ ts) then Some (default 0 (acc.1 !! i) + f t) else acc.1 !! i) ∧
  (∀ i, tenants !! i = None → res.1 !! i = acc.1 !! i) ∧
  res.2 = acc.2 + sumZ (f <$> ts).
Proof.
  revert acc. induction ts as [|u ts IH]; intros [m tot] Hu Hts; [cbn; split_and!; [done|done|lia]|].
  apply NoDup_cons in Hu as [Hnu Hu].
  assert (u ∈ tenants) as Hut by set_solver. apply list_elem_of_lookup in Hut as [k Hk].
  rewrite fmap_cons. cbn [foldl].
  assert (count_step tenants (m, tot) (u, f u) = (<[k := default 0 (m !! k) + f u]> m, tot + f u)) as ->.
  { unfold count_step. cbn [fst snd]. by rewrite (proj2 (index_Some u k) Hk). }
  destruct (IH (<[k := default 0 (m !! k) + f u]> m, tot + f u) Hu) as (H1 & H2 & H3); [set_solver|].
  cbn [fst snd] in *. split_and!.
  - intros i t Hi. rewrite (H1 i t Hi). destruct (decide (i = k)) as [->|Hne].
    + assert (t = u) as -> by congruence. rewrite decide_False by done.
      rewrite decide_True by set_solver. by rewrite lookup_insert_eq.
    + rewrite lookup_insert_ne by done. assert (t ≠ u).
      { intros ->. apply Hne. by eapply (NoDup_lookup tenants). }
      destruct (decide (t ∈ ts)); [rewrite decide_True by set_solver|rewrite decide_False by set_solver]; done.
  - intros i Hi. rewrite (H2 i Hi), lookup_insert_ne; [done|]. intros ->. congruence.
  - rewrite H3, fmap_cons. simpl. lia.
Qed.

Lemma sum_groups (sel : list row) ts :
  NoDup ts → (∀ r, r ∈ sel → m_tenant r ∈ ts) →
  sumZ ((λ t, countZ (of_tenant t) sel) <$> ts) = Z.of_nat (length sel).
Proof.
  intros Ht. induction sel as [|r sel IH]; intros Hin.
  { clear. induction ts as [|t ts IH]; [done|]. rewrite fmap_cons. simpl. simpl in IH. rewrite IH. done. }
  rewrite (list_fmap_ext _ (λ t, (if of_tenant t r then 1 else 0) + countZ (of_tenant t) sel) ts)
    by (intros; by rewrite ?countZ_cons).
  rewrite sumZ_plus, IH by set_solver.
  change (sumZ ((λ t, if of_tenant t r then 1 else 0) <$> ts)) with (countZ (λ t, of_tenant t r) ts).
  unfold of_tenant. rewrite countZ_one by set_solver. cbn [length]. lia.
Qed.

(** What the two statements of a sweep count. *)
Lemma counts_of_spec sel :
  (∀ r, r ∈ sel → m_tenant r ∈ tenants) →
  let '(m, tot) := counts_of tenants sel in
  tot = Z.of_nat (length sel) ∧
  (∀ i t, tenants !! i = Some t → default 0 (m !! i) = countZ (of_tenant t) sel) ∧
  (∀ i c, m !! i = Some c → (i < length tenants)%nat ∧ 0 < c).
Proof.
  intros Hsel. unfold counts_of, group_by.
  set (ts := remove_dups (m_tenant <$> sel)).
  assert (∀ t, t ∈ ts ↔ t ∈ m_tenant <$> sel) as Hts by (intros t; apply elem_of_remove_dups).
  destruct (count_loop (λ t, countZ (of_tenant t) sel) ts (∅, 0)) as (H1 & H2 & H3).
  { apply NoDup_remove_dups. }
  { intros t Ht. apply Hts, list_elem_of_fmap in Ht as (r & -> & Hr). by apply Hsel. }
  destruct (foldl _ _ _) as [m tot]. cbn [fst snd] in *.
  assert (∀ t, t ∉ ts → countZ (of_tenant t) sel = 0) as Hz.
  { intros t Ht. apply countZ_zero. intros r Hr. unfold of_tenant. apply bool_decide_eq_false_2.
    intros <-. apply Ht, Hts, list_elem_of_fmap. by exists r. }
  split_and!.
  - rewrite H3. rewrite sum_groups; [lia|apply NoDup_remove_dups|].
    intros r Hr. apply Hts, list_elem_of_fmap. by exists r.
  - intros i t Hi. rewrite (H1 i t Hi). rewrite lookup_empty. case_decide as Ht; cbn; [lia|by rewrite Hz].
  - intros i c Hc. destruct (tenants !! i) as [t|] eqn:Hi.
    + split; [by eapply lookup_lt_Some|]. rewrite (H1 i t Hi) in Hc.
      rewrite lookup_empty in Hc. case_decide as Ht; [|done]. cbn in Hc. injection Hc as <-.
      apply Hts, list_elem_of_fmap in Ht as (r & -> & Hr).
      pose proof (countZ_nonneg (of_tenant (m_tenant r)) sel).
      destruct (Z.eq_dec (countZ (of_tenant (m_tenant r)) sel) 0) as [Hz0|]; [|lia].
      rewrite countZ_zero in Hz0. specialize (Hz0 r Hr). unfold of_tenant in Hz0.
      by rewrite bool_decide_eq_true_2 in Hz0.
    + rewrite (H2 i Hi), lookup_empty in Hc. done.
Qed.

(** ** Key order *)

Lemma sorted_nodup (l : list Z) : StronglySorted Z.lt l → NoDup l.
Proof.
  induction 1 as [|x l Hs IH Hx]; [constructor|]. constructor; [|done].
  intros Hin. rewrite Forall_forall in Hx. specialize (Hx x Hin). lia.
Qed.

Lemma sorted_filter (P : row → Prop) `{!∀ r, Decision (P r)} rs :
  StronglySorted Z.lt (m_id <$> rs) → StronglySorted Z.lt (m_id <$> filter P rs).
Proof.
  induction rs as [|r rs IH]; [done|]. rewrite fmap_cons. intros Hs. inversion_clear Hs as [|?? Hs' Hx].
  rewrite filter_cons. case_decide; [|by apply IH]. rewrite fmap_cons. constructor; [by apply IH|].
  rewrite Forall_forall in Hx |- *. intros x Hin. apply Hx.
  apply list_elem_of_fmap in Hin as (r' & -> & Hin). apply list_elem_of_filter in Hin as [_ Hin].
  apply list_elem_of_fmap. by exists r'.
Qed.

Lemma sorted_app (l k : list Z) :
  StronglySorted Z.lt l → StronglySorted Z.lt k → (∀ x y, x ∈ l → y ∈ k → x < y) →
  StronglySorted Z.lt (l ++ k).
Proof.
  induction 1 as [|x l Hs IH Hx]; intros Hk Hlk; [done|]. cbn. constructor.
  - apply IH; [done|]. intros a b Ha. apply Hlk. set_solver.
  - rewrite Forall_forall in Hx |- *. intros y [Hy|Hy]%elem_of_app; [by apply Hx|]. apply Hlk; set_solver.
Qed.

Lemma split_perm z rs :
  z ∉ m_id <$> rs →
  (filter (λ x, m_id x < z) rs ++ filter (λ x, z < m_id x) rs)%list ≡ₚ rs.
Proof.
  induction rs as [|r rs IH]; [done|]. rewrite fmap_cons. intros Hz.
  apply not_elem_of_cons in Hz as [Hne Hz]. rewrite !filter_cons.
  destruct (Z.lt_trichotomy (m_id r) z) as [Hl|[He|Hg]]; [|by destruct Hne|].
  - rewrite decide_True, decide_False by lia. cbn. by rewrite IH.
  - rewrite decide_False, decide_True by lia. rewrite <- Permutation_middle. by rewrite IH.
Qed.

Lemma insert_spec r rs rs' :
  sql_insert r rs = Some rs' → StronglySorted Z.lt (m_id <$> rs) →
  rs' ≡ₚ r :: rs ∧ StronglySorted Z.lt (m_id <$> rs').
Proof.
  unfold sql_insert. case_bool_decide as Hin; [done|]. intros [= <-] Hs. split.
  - rewrite <- Permutation_middle. constructor. by apply split_perm.
  - rewrite fmap_app, fmap_cons. apply sorted_app; [by apply sorted_filter| |].
    + constructor; [by apply sorted_filter|]. rewrite Forall_forall. intros x Hx.
      apply list_elem_of_fmap in Hx as (y & -> & Hy).
      by apply list_elem_of_filter in Hy as [? _].
    + intros x y Hx Hy. apply list_elem_of_fmap in Hx as (a & -> & Ha).
      apply list_elem_of_filter in Ha as [Ha _].
      apply elem_of_cons in Hy as [->|Hy]; [done|].
      apply list_elem_of_fmap in Hy as (b & -> & Hb). apply list_elem_of_filter in Hb as [Hb _]. lia.
Qed.

(** ** The operations *)

Lemma store_counts_backlog s i : store_ok s → (i < length tenants)%nat →
  0 <= get (ready (led s)) i ∧ 0 <= get (claimed (led s)) i.
Proof. intros Hs Hi. destruct (counts_nonneg _ _ i (so_counts _ Hs) Hi) as (? & ? & _). done. Qed.

Lemma update_tenants q f rs :
  (∀ r, m_tenant (f r) = m_tenant r) → (∀ r, r ∈ rs → m_tenant r ∈ tenants) →
  ∀ r, r ∈ update q f rs → m_tenant r ∈ tenants.
Proof.
  intros Hf Hr r Hin. apply list_elem_of_fmap in Hin as (r0 & -> & Hin).
  destruct (q r0); rewrite ?Hf; by apply Hr.
Qed.

Lemma filter_tenants (P : row → Prop) `{!∀ r, Decision (P r)} (rs : list row) :
  (∀ r, r ∈ rs → m_tenant r ∈ tenants) → ∀ r, r ∈ filter P rs → m_tenant r ∈ tenants.
Proof. intros Hr r Hin. apply list_elem_of_filter in Hin as [_ Hin]. by apply Hr. Qed.

(** The counts after a move of [q]'s rows from state [s0] to [s1]. *)
Lemma counts_move g g' rs q f s0 s1 :
  counts g rs → (∀ r, r ∈ rs → q r = true → m_state r = s0) →
  (∀ r, m_tenant (f r) = m_tenant r ∧ m_state (f r) = s1) →
  (∀ i t, tenants !! i = Some t →
     let d st := (if bool_decide (st = s1) then share q t rs else 0)
                 - (if bool_decide (st = s0) then share q t rs else 0) in
     get (ready g') i = get (ready g) i + d SReady ∧
     get (claimed g') i = get (claimed g) i + d SClaimed ∧
     get (deadN g') i = get (deadN g) i + d SDead) →
  counts g' (update q f rs).
Proof.
  intros Hc Hq Hf Hg i t Hi. destruct (Hc i t Hi) as (E1 & E2 & E3).
  destruct (Hg i t Hi) as (E1' & E2' & E3').
  rewrite !(tally_update q f s0 s1) by done. rewrite E1', E2', E3', E1, E2, E3. split_and!; lia.
Qed.

Lemma counts_remove g g' rs q s0 :
  counts g rs → (∀ r, r ∈ rs → q r = true → m_state r = s0) →
  (∀ i t, tenants !! i = Some t →
     let d st := if bool_decide (st = s0) then share q t rs else 0 in
     get (ready g') i = get (ready g) i - d SReady ∧
     get (claimed g') i = get (claimed g) i - d SClaimed ∧
     get (deadN g') i = get (deadN g) i - d SDead) →
  counts g' (filter (λ r, q r = false) rs).
Proof.
  intros Hc Hq Hg i t Hi. destruct (Hc i t Hi) as (E1 & E2 & E3).
  destruct (Hg i t Hi) as (E1' & E2' & E3').
  rewrite !(tally_remove q s0) by done. rewrite E1', E2', E3', E1, E2, E3. split_and!; lia.
Qed.
End StoreInv.
