(* ===== verification/StoreOps.v ===== *)
(** * Every store operation keeps the ledger exact

    One theorem per operation of [Store.v]: what it does to the rows, to the
    ledger and to its answer, on success and on every failure, and that it keeps
    [store_ok]. *)

From S2P Require Import Prelude GoLib Kms Tink Lease Cmek Store StoreInv.
From Stdlib Require Import Sorting.Sorted.
Local Open Scope string_scope.
Local Open Scope Z_scope.

Section StoreOps.
Context `{MR : MapRange} `{RT : Returning}.
Context (tenants : list string) (Hnd : NoDup tenants).

(** The ids of a call all belong to the tenant it is made for, as they do when
    they come from a batch of that tenant. *)
Definition owned (idx : nat) (ids : list Z) (s : Store) : Prop :=
  ∀ r, r ∈ rows s → sel_ids ids r = true → tenants !! idx = Some (m_tenant r).

Lemma sel_ids_state ids (rs : list row) : ∀ r, r ∈ rs → sel_ids ids r = true → m_state r = SClaimed.
Proof. intros r _ H. apply andb_true_iff in H as [H _]. by apply bool_decide_eq_true in H. Qed.

Lemma owned_share idx ids s i t :
  owned idx ids s → tenants !! i = Some t →
  share (sel_ids ids) t (rows s) = if decide (idx = i) then affected (sel_ids ids) s else 0.
Proof.
  intros Ho Hi. destruct (decide (idx = i)) as [->|Hne].
  - rewrite (share_one _ t); [by rewrite bool_decide_eq_true_2|].
    intros r Hr Hq. specialize (Ho r Hr Hq). congruence.
  - unfold share. apply countZ_zero. intros r Hr. destruct (sel_ids ids r) eqn:E; [|done].
    cbn. apply bool_decide_eq_false_2. intros Ht. specialize (Ho r Hr E). rewrite Ht in Ho.
    apply Hne. by eapply (NoDup_lookup tenants).
Qed.

(** Rows a move takes from a tenant are among its claimed rows. *)
Lemma affected_claimed idx ids s :
  store_ok tenants s → owned idx ids s → (idx < length tenants)%nat →
  0 <= affected (sel_ids ids) s <= get (claimed (led s)) idx.
Proof.
  intros Hs Ho Hi. split; [apply countZ_nonneg|].
  apply lookup_lt_is_Some in Hi as [t Ht].
  destruct (so_counts _ _ Hs idx t Ht) as (_ & -> & _). unfold affected, tally.
  assert (∀ rs, (∀ r, r ∈ rs → r ∈ rows s) →
    countZ (sel_ids ids) rs <= countZ (λ r, of_tenant t r && has_state SClaimed r) rs) as Hle; [|by apply Hle].
  induction rs as [|r rs IH]; intros Hin; [done|]. rewrite !countZ_cons.
  specialize (IH ltac:(set_solver)).
  destruct (sel_ids ids r) eqn:E; [|destruct (of_tenant t r && has_state SClaimed r); lia].
  specialize (Ho r (Hin r ltac:(set_solver)) E). apply andb_true_iff in E as [E _].
  assert (of_tenant t r = true) as Et by (apply bool_decide_eq_true_2; congruence).
  rewrite Et, E. cbn [andb]. lia.
Qed.

Lemma with_rows_ok rs g s :
  StronglySorted Z.lt (m_id <$> rs) → (∀ r, r ∈ rs → m_tenant r ∈ tenants) →
  ledger_ok tenants g → counts tenants g rs → total g = countZ live rs →
  store_ok tenants (with_rows rs g s).
Proof. by split. Qed.

Lemma signal_ok s : store_ok tenants s → store_ok tenants (signal s).
Proof. intros []. by split. Qed.

Lemma led_ack_cells i ra g :
  ready (led_ack i ra g) = ready g ∧ claimed (led_ack i ra g) = add i (- ra) (claimed g) ∧
  deadN (led_ack i ra g) = deadN g ∧ total (led_ack i ra g) = total g - ra.
Proof. unfold led_ack, leave. by case_match. Qed.

Lemma led_dead_cells i ra g :
  ready (led_dead i ra g) = ready g ∧ claimed (led_dead i ra g) = add i (- ra) (claimed g) ∧
  deadN (led_dead i ra g) = add i ra (deadN g) ∧ total (led_dead i ra g) = total g - ra.
Proof. unfold led_dead, leave. by case_match. Qed.

Ltac ranges Hs :=
  let L := fresh "L" in
  destruct (go_columns _ _ (so_ledger _ _ Hs)) as (?&?&?&?&?&?).

Lemma Ack_ok fail idx ids s res s' :
  store_ok tenants s → owned idx ids s → Ack tenants fail idx ids s = Some (res, s') → store_ok tenants s'.
Proof.
  intros Hs Ho. unfold Ack, in_range. case_bool_decide as Hi; [|done]. cbn [negb].
  destruct fail; [by intros [= <- <-]|]. intros [= <- <-].
  pose proof (affected_claimed _ _ _ Hs Ho Hi) as Ha. pose proof (store_counts_backlog _ _ _ Hs Hi) as Hn.
  destruct (led_ack_cells idx (affected (sel_ids ids) s) (led s)) as (E1 & E2 & E3 & E4).
  ranges Hs. unfold sql_ack. apply with_rows_ok.
  - by apply sorted_filter, Hs.
  - by apply filter_tenants, Hs.
  - apply led_ack_ok; [apply Hs|done|]. unfold backlogOf. lia.
  - apply (counts_remove tenants (led s) _ _ _ SClaimed); [apply Hs|apply sel_ids_state|].
    intros i t Hit. rewrite E1, E2, E3, get_add by lia. rewrite (owned_share _ _ _ _ _ Ho Hit). simpl.
    split_and!; repeat case_decide; lia.
  - rewrite E4, (so_total _ _ Hs). symmetry. by apply (live_remove _ SClaimed); [apply sel_ids_state|].
Qed.

Lemma Release_ok fail idx ids s res s' :
  store_ok tenants s → owned idx ids s → Release tenants fail idx ids s = Some (res, s') → store_ok tenants s'.
Proof.
  intros Hs Ho. unfold Release, in_range. case_bool_decide as Hi; [|done]. cbn [negb].
  destruct fail; [by intros [= <- <-]|]. intros [= <- <-]. apply signal_ok. ranges Hs.
  unfold sql_release. apply with_rows_ok.
  - rewrite ids_update; [apply Hs|done].
  - apply update_tenants; [done|apply Hs].
  - apply led_release_ok; [apply Hs|done].
  - apply (counts_move tenants (led s) _ _ _ _ SClaimed SReady); [apply Hs|apply sel_ids_state|done|].
    intros i t Hit. cbn. rewrite !get_add by lia. rewrite (owned_share _ _ _ _ _ Ho Hit). simpl.
    split_and!; repeat case_decide; lia.
  - cbn. rewrite (so_total _ _ Hs). rewrite (live_update _ _ SClaimed SReady); [simpl; lia|apply sel_ids_state|done|done].
Qed.

Lemma Dead_ok fail idx id s res s' :
  store_ok tenants s → owned idx [id] s → Dead tenants fail idx id s = Some (res, s') → store_ok tenants s'.
Proof.
  intros Hs Ho. unfold Dead, in_range. case_bool_decide as Hi; [|done]. cbn [negb].
  destruct fail; [by intros [= <- <-]|]. intros [= <- <-].
  pose proof (affected_claimed _ _ _ Hs Ho Hi) as Ha. pose proof (store_counts_backlog _ _ _ Hs Hi) as Hn.
  destruct (led_dead_cells idx (affected (sel_ids [id]) s) (led s)) as (E1 & E2 & E3 & E4).
  ranges Hs. unfold sql_dead. apply with_rows_ok.
  - rewrite ids_update; [apply Hs|done].
  - apply update_tenants; [done|apply Hs].
  - apply led_dead_ok; [apply Hs|done|]. unfold backlogOf. lia.
  - apply (counts_move tenants (led s) _ _ _ _ SClaimed SDead); [apply Hs|apply sel_ids_state|done|].
    intros i t Hit. rewrite E1, E2, E3, !get_add by lia. rewrite (owned_share _ _ _ _ _ Ho Hit). simpl.
    split_and!; repeat case_decide; lia.
  - rewrite E4, (so_total _ _ Hs). rewrite (live_update _ _ SClaimed SDead); [done|apply sel_ids_state|done|done].
Qed.

Lemma PutDEK_ok fail d s res s' : store_ok tenants s → PutDEK fail d s = (res, s') → store_ok tenants s'.
Proof.
  intros []. unfold PutDEK. destruct fail; [by intros [= <- <-]|].
  case_match; intros [= <- <-]; by split.
Qed.

Lemma NextID_ok s n s' : store_ok tenants s → NextID s = (n, s') → store_ok tenants s'.
Proof. intros [] [= <- <-]. by split. Qed.

Lemma Open_store_ok : store_ok tenants (Open_store tenants).
Proof.
  assert (∀ i, get (replicate (length tenants) 0) i = 0) as Hz.
  { intros i. unfold get. destruct (replicate (length tenants) 0 !! i) as [x|] eqn:E; [|done].
    by apply lookup_replicate in E as [-> _]. }
  split; [constructor|by intros r ?%not_elem_of_nil| | |done].
  - split.
    + unfold columns. cbn. rewrite length_replicate. done.
    + intros i _. unfold conserves. cbn. by rewrite !Hz.
    + cbn. symmetry. apply countZ_zero. intros i _. unfold positive, backlogOf. cbn. by rewrite !Hz.
  - intros i t _. cbn. by rewrite !Hz.
Qed.

(** ** Insert *)

Lemma Insert_ok now start end_ fail idx id env s res s' :
  store_ok tenants s → Insert tenants now start end_ fail idx id env s = Some (res, s') →
  store_ok tenants s' ∧ (res ≠ None → rows s' = rows s ∧ led s' = led s).
Proof.
  intros Hs. unfold Insert. destruct (tenants !! idx) as [t|] eqn:Ht; [|done].
  assert (∀ d, store_ok tenants (record_insert d s)) as Hs0 by (intros d; destruct Hs; by split).
  destruct fail; [intros [= <- <-]; split; [apply Hs0|done]|].
  destruct (sql_insert _ _) as [rs|] eqn:E; [|intros [= <- <-]; split; [apply Hs0|done]]. intros [= <- <-].
  split; [|done]. apply signal_ok. ranges Hs. cbn in E |- *.
  pose proof (lookup_lt_Some _ _ _ Ht) as Hi. pose proof (store_counts_backlog _ _ _ Hs Hi) as Hn.
  destruct (insert_spec _ Hnd _ _ _ E (so_sorted _ _ Hs)) as [Hp Hsort].
  assert (ready (led_insert idx (led s)) = add idx 1 (ready (led s)) ∧
    claimed (led_insert idx (led s)) = claimed (led s) ∧ deadN (led_insert idx (led s)) = deadN (led s) ∧
    total (led_insert idx (led s)) = total (led s) + 1) as (E1 & E2 & E3 & E4)
    by (unfold led_insert, enter; by case_match).
  apply with_rows_ok; [done| | | |].
  - intros r. rewrite Hp. intros [->|Hr]%elem_of_cons; [|by apply Hs]. by eapply list_elem_of_lookup_2.
  - apply led_insert_ok; [apply Hs|done|]. destruct Hn. by apply Z.add_nonneg_nonneg.
  - intros i u Hu. destruct (so_counts _ _ Hs i u Hu) as (C1 & C2 & C3).
    rewrite E1, E2, E3, get_add by lia. unfold tally in *.
    rewrite !(countZ_perm _ rs _ Hp), !countZ_cons. rewrite C1, C2, C3.
    unfold of_tenant, has_state. simpl.
    destruct (decide (idx = i)) as [->|Hne].
    + assert (u = t) as -> by congruence. rewrite bool_decide_eq_true_2 by done. simpl. split_and!; lia.
    + rewrite bool_decide_eq_false_2; [simpl; split_and!; lia|]. intros ->. apply Hne.
      by eapply (NoDup_lookup tenants).
  - rewrite E4, (so_total _ _ Hs), (countZ_perm _ rs _ Hp), countZ_cons. simpl. lia.
Qed.

(** ** Claim *)

Lemma scan_rows_length c rs : (scan_rows c rs).1.1 = Z.of_nat (length rs).
Proof.
  induction rs as [|r rs IH]; [done|]. cbn [scan_rows]. destruct (scan_rows c rs) as [[n m] e].
  cbn in IH. destruct (cur_scan c (m_id r)); cbn; lia.
Qed.

Lemma sel_claim_sublist t n rs : sublist (sel_claim t n rs) rs.
Proof. unfold sel_claim. etrans; [apply limit_sublist|]. apply sublist_filter. Qed.

Lemma sel_claim_spec t n rs r :
  r ∈ sel_claim t n rs → m_tenant r = t ∧ m_state r = SReady.
Proof.
  intros Hr. eapply elem_of_sublist in Hr; [|apply limit_sublist].
  apply list_elem_of_filter in Hr as [Hq _]. apply andb_true_iff in Hq as [H1 H2].
  by apply bool_decide_eq_true in H1, H2.
Qed.

(** A selection by id is the selection itself. *)
Lemma sel_rows s sel r :
  store_ok tenants s → sublist sel (rows s) → r ∈ rows s →
  in_ids (m_id <$> sel) r = true → r ∈ sel.
Proof.
  intros Hs Hsub Hr. rewrite (in_ids_sel (rows s) sel); [apply bool_decide_eq_true|apply sorted_nodup, Hs|done..].
Qed.

Lemma share_sel s sel t :
  store_ok tenants s → sublist sel (rows s) →
  share (in_ids (m_id <$> sel)) t (rows s) = countZ (of_tenant t) sel.
Proof. intros Hs Hsub. unfold share. apply countZ_sel; [apply sorted_nodup, Hs|done]. Qed.

Lemma affected_sel s sel :
  store_ok tenants s → sublist sel (rows s) →
  affected (in_ids (m_id <$> sel)) s = Z.of_nat (length sel).
Proof.
  intros Hs Hsub. unfold affected. rewrite <- (countZ_all (λ _, true) sel) by done.
  rewrite <- (countZ_sel (λ _, true) (rows s)); [|apply sorted_nodup, Hs|done].
  apply countZ_ext. intros r _. by rewrite andb_true_r.
Qed.

(** The ledger of a claim is exact unless the cursor stopped early and the
    fallback count failed too. *)
Definition exact_cursor (c : cursor) : Prop := cur_stop c = None ∨ cur_changes c = None.

Lemma Claim_ok fail c idx n until s b e s' :
  store_ok tenants s → exact_cursor c →
  Claim tenants fail c idx n until s = Some ((b, e), s') → store_ok tenants s'.
Proof.
  intros Hs Hc. unfold Claim. destruct (tenants !! idx) as [t|] eqn:Ht; [|done].
  destruct fail; [by intros [= <- <- <-]|].
  set (sel := sel_claim t n (rows s)).
  assert (sublist sel (rows s)) as Hsub by apply sel_claim_sublist.
  destruct (scan_rows c _) as [[drained msgs] e0] eqn:Esc.
  set (changed := match _ with None => drained | Some _ => _ end).
  assert (changed = Z.of_nat (length sel)) as Hch.
  { unfold changed. pose proof (scan_rows_length c
      (match cur_stop c with Some (k, _) => take k (returning sel) | None => returning sel end)) as Hlen.
    rewrite Esc in Hlen. cbn in Hlen. destruct Hc as [Hc|Hc]; rewrite Hc in *; cbn.
    - rewrite returning_perm in Hlen. destruct e0; [destruct (cur_changes c)|]; lia.
    - destruct e0; [done|]. destruct (cur_stop c) as [[k e1]|]; cbn; [done|].
      rewrite returning_perm in Hlen. lia. }
  intros [= <- <- <-]. rewrite Hch. pose proof (lookup_lt_Some _ _ _ Ht) as Hi. ranges Hs.
  unfold sql_claim. fold sel.
  assert (∀ r, r ∈ rows s → in_ids (m_id <$> sel) r = true → m_state r = SReady) as Hst.
  { intros r Hr Hq. by apply (sel_claim_spec t n (rows s)), (sel_rows s). }
  apply with_rows_ok.
  - rewrite ids_update; [apply Hs|done].
  - apply update_tenants; [done|apply Hs].
  - apply led_claim_ok; [apply Hs|done].
  - apply (counts_move tenants (led s) _ _ _ _ SReady SClaimed); [apply Hs|exact Hst|done|].
    intros i u Hu. cbn. rewrite !get_add by lia. rewrite (share_sel _ _ _ Hs Hsub).
    assert (countZ (of_tenant u) sel = if decide (idx = i) then Z.of_nat (length sel) else 0) as ->.
    { case_decide as Hd.
      - subst i. assert (u = t) as -> by congruence. apply countZ_all. intros r Hr.
        apply bool_decide_eq_true_2. by apply sel_claim_spec in Hr as [-> _].
      - apply countZ_zero. intros r Hr. apply bool_decide_eq_false_2. apply sel_claim_spec in Hr as [-> _].
        intros ->. apply Hd. by eapply (NoDup_lookup tenants). }
    simpl. split_and!; repeat case_decide; lia.
  - cbn. rewrite (so_total _ _ Hs). rewrite (live_update _ _ SReady SClaimed); [simpl; lia|exact Hst|done|done].
Qed.

(** ** The sweeps *)

Lemma filter_true_share (q : row → bool) t rs :
  countZ (of_tenant t) (filter (λ r, q r = true) rs) = share q t rs.
Proof.
  unfold share. rewrite countZ_filter. apply countZ_ext. intros r _.
  destruct (q r) eqn:E; [rewrite bool_decide_eq_true_2 by done|rewrite bool_decide_eq_false_2 by congruence];
    rewrite ?andb_true_r, ?andb_false_r; done.
Qed.

Lemma filter_true_length (q : row → bool) rs :
  Z.of_nat (length (filter (λ r, q r = true) rs)) = countZ q rs.
Proof.
  induction rs as [|r rs IH]; [done|]. rewrite filter_cons, countZ_cons. case_decide as Hd.
  - rewrite Hd. cbn [length]. lia.
  - destruct (q r); [done|]. lia.
Qed.

(** The shares of a selection, booked tenant by tenant. *)
Lemma out_counts (m : gmap nat Z) sel i t :
  (∀ i t, tenants !! i = Some t → default 0 (m !! i) = countZ (of_tenant t) sel) →
  tenants !! i = Some t → out (range m) i = countZ (of_tenant t) sel.
Proof. intros Hm Hi. rewrite out_map. by apply Hm. Qed.

Lemma range_keys (m : gmap nat Z) e : e ∈ range m → m !! e.1 = Some e.2.
Proof. rewrite range_perm. destruct e. by intros ?%elem_of_map_to_list. Qed.

Lemma Reclaim_ok fr fw now s res s' :
  store_ok tenants s → Reclaim tenants fr fw now s = (res, s') →
  store_ok tenants s' ∧
  (fr = None → fw = None → res = (countZ (sel_reclaim (ms now)) (rows s), None) ∧
     (countZ (sel_reclaim (ms now)) (rows s) ≠ 0 →
        rows s' = sql_reclaim (ms now) (rows s))) ∧
  (res.2 ≠ None → rows s' = rows s ∧ led s' = led s).
Proof.
  intros Hs. unfold Reclaim. destruct fr as [e|]; [by intros [= <- <-]|].
  set (sel := filter _ (rows s)).
  pose proof (counts_of_spec tenants Hnd sel) as Hc.
  destruct (counts_of tenants sel) as [m tot]. destruct Hc as (Ht & Hm & Hk).
  { apply filter_tenants, Hs. }
  unfold sel in Ht. rewrite filter_true_length in Ht.
  destruct (Z.eqb_spec tot 0) as [Hz|Hz].
  { intros [= <- <-]. split; [done|]. split; [|done]. intros _ _. rewrite <- Ht, Hz. done. }
  destruct fw as [e|]; [by intros [= <- <-]|].
  unfold affected. rewrite <- Ht, Z.eqb_refl. cbn [negb]. intros [= <- <-].
  split; [|split; [done|done]]. apply signal_ok.
  assert (∀ r, r ∈ rows s → sel_reclaim (ms now) r = true → m_state r = SClaimed) as Hst.
  { intros r _ Hq. apply andb_true_iff in Hq as [Hq _]. by apply bool_decide_eq_true in Hq. }
  destruct (fold_release tenants Hnd (range m) (led s) (so_ledger _ _ Hs)) as (G1 & G2 & G3).
  { intros e He. apply range_keys in He. by apply Hk in He as [? _]. }
  unfold sql_reclaim. apply with_rows_ok; [| |done| |].
  - rewrite ids_update; [apply Hs|done].
  - apply update_tenants; [done|apply Hs].
  - apply (counts_move tenants (led s) _ _ _ _ SClaimed SReady); [apply Hs|exact Hst|done|].
    intros i t Hi. pose proof (lookup_lt_Some _ _ _ Hi) as Hlt. destruct (G3 i Hlt) as (-> & -> & ->).
    rewrite (out_counts m sel i t Hm Hi). unfold sel. rewrite filter_true_share. simpl. split_and!; lia.
  - rewrite G2, (so_total _ _ Hs). rewrite (live_update _ _ SClaimed SReady); [simpl; lia|exact Hst|done|done].
Qed.

Lemma sel_expire_sublist before n rs : sublist (sel_expire before n rs) rs.
Proof. unfold sel_expire. etrans; [apply limit_sublist|]. apply sublist_filter. Qed.

Lemma sel_expire_spec before n rs r :
  r ∈ sel_expire before n rs → m_state r = SReady ∧ m_enqueued_at r < before.
Proof.
  intros Hr. eapply elem_of_sublist in Hr; [|apply limit_sublist].
  apply list_elem_of_filter in Hr as [Hq _]. apply andb_true_iff in Hq as [H1 H2].
  apply bool_decide_eq_true in H1. split; [done|lia].
Qed.

(** The selected rows are among the ready rows of their tenants. *)
Lemma sel_ready (sel rs : list row) t :
  sublist sel rs → (∀ r, r ∈ sel → m_state r = SReady) → countZ (of_tenant t) sel <= tally rs t SReady.
Proof.
  unfold tally. induction 1 as [|x l k Hs IH|x l k Hs IH]; intros Hst; [done|..]; rewrite ?countZ_cons.
  - specialize (IH ltac:(set_solver)). unfold has_state at 1. rewrite (Hst x) by set_solver.
    rewrite bool_decide_eq_true_2, andb_true_r by done. lia.
  - specialize (IH Hst). destruct (of_tenant t x && has_state SReady x); lia.
Qed.

Lemma range_nodup (m : gmap nat Z) : NoDup (range m).*1.
Proof.
  assert ((range m).*1 ≡ₚ (map_to_list m).*1) as -> by (by rewrite range_perm).
  apply NoDup_fst_map_to_list.
Qed.

(** The amounts a map of counts holds sum to the selection's length. *)
Lemma sumZ_range (m : gmap nat Z) : sumZ (range m).*2 = sumZ (map_to_list m).*2.
Proof. apply sumZ_perm. by rewrite range_perm. Qed.

Lemma sumZ_fresh (m : gmap nat Z) i x :
  m !! i = None → sumZ (map_to_list (<[i := x]> m)).*2 = x + sumZ (map_to_list m).*2.
Proof. intros Hi. by erewrite sumZ_perm; [|apply Permutation_map, map_to_list_insert, Hi]. Qed.

Lemma sumZ_insert (m : gmap nat Z) i c :
  sumZ (map_to_list (<[i := default 0 (m !! i) + c]> m)).*2 = sumZ (map_to_list m).*2 + c.
Proof.
  destruct (m !! i) as [x|] eqn:E; cbn [default].
  - rewrite <- insert_delete_eq, sumZ_fresh by apply lookup_delete_eq.
    rewrite <- (insert_id m i x E) at 2. rewrite <- insert_delete_eq, sumZ_fresh by apply lookup_delete_eq.
    unfold id. lia.
  - rewrite sumZ_fresh by done. lia.
Qed.

Lemma counts_of_total sel m tot :
  counts_of tenants sel = (m, tot) → sumZ (range m).*2 = tot.
Proof.
  rewrite sumZ_range. unfold counts_of. generalize (group_by sel) as es. intros es.
  assert (∀ acc, sumZ (map_to_list acc.1).*2 = acc.2 →
    sumZ (map_to_list (foldl (count_step tenants) acc es).1).*2 = (foldl (count_step tenants) acc es).2) as Hgen.
  { induction es as [|e es IH]; intros [m0 t0] H0; [done|]. cbn [foldl]. apply IH. unfold count_step.
    destruct (index tenants e.1); [|done]. cbn [fst snd] in *. by rewrite sumZ_insert, H0. }
  intros Hf. specialize (Hgen (∅, 0)). rewrite Hf in Hgen. apply Hgen. cbn [fst snd].
  by rewrite map_to_list_empty.
Qed.

Lemma Expire_ok fr fw before lim s res s' :
  store_ok tenants s → Expire tenants fr fw before lim s = (res, s') →
  store_ok tenants s' ∧
  (fr = None → fw = None → res = (Z.of_nat (length (sel_expire (ms before) lim (rows s))), None) ∧
     (sel_expire (ms before) lim (rows s) ≠ [] → rows s' = sql_expire (ms before) lim (rows s))) ∧
  (res.2 ≠ None → rows s' = rows s ∧ led s' = led s).
Proof.
  intros Hs. unfold Expire. destruct fr as [e|]; [by intros [= <- <-]|].
  set (sel := sel_expire _ _ _).
  assert (sublist sel (rows s)) as Hsub by apply sel_expire_sublist.
  pose proof (counts_of_spec tenants Hnd sel) as Hc. pose proof (counts_of_total sel) as Hsum.
  destruct (counts_of tenants sel) as [m tot]. specialize (Hsum m tot eq_refl). destruct Hc as (Ht & Hm & Hk).
  { intros r Hr. eapply so_tenants; [done|]. by eapply elem_of_sublist. }
  destruct (Z.eqb_spec tot 0) as [Hz|Hz].
  { intros [= <- <-]. split; [done|]. split; [|done]. intros _ _. rewrite <- Ht, Hz. split; [done|].
    destruct sel; [done|]. cbn in Ht. lia. }
  destruct fw as [e|]; [by intros [= <- <-]|].
  rewrite (affected_sel s sel Hs Hsub), <- Ht, Z.eqb_refl. cbn [negb]. intros [= <- <-].
  split; [|split; [done|done]].
  assert (∀ r, r ∈ rows s → in_ids (m_id <$> sel) r = true → m_state r = SReady) as Hst.
  { intros r Hr Hq. by apply (sel_expire_spec (ms before) lim (rows s)), (sel_rows s). }
  destruct (fold_expire tenants Hnd (range m) (led s) (so_ledger _ _ Hs) (range_nodup m)) as (G1 & G2 & G3).
  { intros e He. apply range_keys in He. destruct (Hk _ _ He) as [Hi Hp]. split; [done|]. split; [done|].
    pose proof Hi as [t Hit]%lookup_lt_is_Some. specialize (Hm _ _ Hit). rewrite He in Hm. cbn in Hm.
    destruct (so_counts _ _ Hs _ _ Hit) as (R1 & _). destruct (store_counts_backlog _ _ _ Hs Hi) as [_ Hc].
    pose proof (sel_ready sel (rows s) t Hsub) as Hle. unfold backlogOf. rewrite R1, Hm.
    assert (∀ r, r ∈ sel → m_state r = SReady) as Hr by (intros r Hr; by apply sel_expire_spec in Hr as [? _]).
    specialize (Hle Hr). lia. }
  unfold sql_expire. fold sel. apply with_rows_ok; [| |done| |].
  - by apply sorted_filter, Hs.
  - by apply filter_tenants, Hs.
  - apply (counts_remove tenants (led s) _ _ _ SReady); [apply Hs|exact Hst|].
    intros i t Hi. pose proof (lookup_lt_Some _ _ _ Hi) as Hlt. destruct (G3 i Hlt) as (-> & -> & ->).
    rewrite (out_counts m sel i t Hm Hi), (share_sel _ _ _ Hs Hsub). simpl. split_and!; lia.
  - rewrite G2, Hsum, (so_total _ _ Hs), Ht. rewrite (live_remove _ SReady); [|exact Hst|done].
    by rewrite (affected_sel s sel Hs Hsub : countZ _ (rows s) = _).
Qed.
End StoreOps.
