(* ===== verification/Queue.v ===== *)
(** * The queue as its callers drive it

    The operations of [Store.v] as one step relation with the history the
    callers keep: ids issued by [NextID] and used once by [Insert], the batches
    [Claim] handed out, and where every accepted message went. *)

From S2P Require Import Prelude GoLib Kms Tink Lease Cmek Store StoreInv StoreOps.
From Stdlib Require Import Sorting.Sorted.
Local Open Scope string_scope.
Local Open Scope Z_scope.

(** ** Calls and history *)

Inductive qop :=
  | QNextID
  | QInsert (now start end_ : Time) (fail : option err) (idx : nat) (id : Z) (env : Envelope)
  | QPutDEK (fail : option err) (d : WrappedDEK)
  | QClaim (fail : option err) (c : cursor) (idx : nat) (n : Z) (until : Time)
  | QAck (fail : option err) (idx : nat) (ids : list Z)
  | QRelease (fail : option err) (idx : nat) (ids : list Z)
  | QDead (fail : option err) (idx : nat) (id : Z)
  | QReclaim (fail_read fail_write : option err) (now : Time)
  | QExpire (fail_read fail_write : option err) (before : Time) (lim : Z)
  | QCensus (fail : option err) (start at_ end_ : Time)
  | QWake.

(** The store, the ids issued and not yet inserted, the ids handed out per
    tenant index, and the ids accepted, acknowledged, expired and gone any
    other way. *)
Record qstate := mkQ {
  q_store : Store; q_tickets : list Z; q_handed : list (nat * Z);
  q_born : list Z; q_acked : list Z; q_expired : list Z; q_lost : list Z }.

Definition ids_of (s : Store) : list Z := m_id <$> rows s.
Definition gone (s s' : Store) : list Z := filter (λ id, id ∉ ids_of s') (ids_of s).
Definition born (s s' : Store) : list Z := filter (λ id, id ∉ ids_of s) (ids_of s').

Section Queue.
Context `{MR : MapRange} `{RT : Returning}.
Context (tenants : list string).

(** The store after a call, and the batch it handed out. *)
Definition qrun (o : qop) (s : Store) : option (Store * list Message) :=
  match o with
  | QNextID => Some ((NextID s).2, [])
  | QInsert now st en fail idx id env =>
      '(_, s') ← Insert tenants now st en fail idx id env s; Some (s', [])
  | QPutDEK fail d => Some ((PutDEK fail d s).2, [])
  | QClaim fail c idx n until =>
      '((b, _), s') ← Claim tenants fail c idx n until s; Some (s', b_Msgs b)
  | QAck fail idx ids => '(_, s') ← Ack tenants fail idx ids s; Some (s', [])
  | QRelease fail idx ids => '(_, s') ← Release tenants fail idx ids s; Some (s', [])
  | QDead fail idx id => '(_, s') ← Dead tenants fail idx id s; Some (s', [])
  | QReclaim fr fw now => Some ((Reclaim tenants fr fw now s).2, [])
  | QExpire fr fw before lim => Some ((Expire tenants fr fw before lim s).2, [])
  | QCensus fail st at_ en => Some ((Census tenants fail st at_ en s).2, [])
  | QWake => s' ← Wake s; Some (s', [])
  end.

Definition qexec (o : qop) (q : qstate) : option qstate :=
  '(s', msgs) ← qrun o (q_store q);
  let g := gone (q_store q) s' in
  Some (mkQ s'
    (match o with
     | QNextID => (NextID (q_store q)).1 :: q_tickets q
     | QInsert _ _ _ _ _ id _ => filter (λ x, x ≠ id) (q_tickets q)
     | _ => q_tickets q end)
    (match o with QClaim _ _ idx _ _ => ((λ m, (idx, msg_ID m)) <$> msgs) ++ q_handed q | _ => q_handed q end)
    (born (q_store q) s' ++ q_born q)
    (match o with QAck _ _ _ => g ++ q_acked q | _ => q_acked q end)
    (match o with QExpire _ _ _ _ => g ++ q_expired q | _ => q_expired q end)
    (match o with QAck _ _ _ | QExpire _ _ _ _ => q_lost q | _ => g ++ q_lost q end)).

(** How the callers use the store: an id is inserted once, after [NextID]
    issued it; [Ack], [Release] and [Dead] name messages of a batch claimed for
    that tenant; the id counter does not wrap; and a cut-short cursor's
    fallback count answers. *)
Definition allowed (o : qop) (q : qstate) : Prop :=
  match o with
  | QNextID => nextID (q_store q) < maxInt64
  | QInsert _ _ _ _ _ id _ => id ∈ q_tickets q
  | QClaim _ c _ _ _ => exact_cursor c
  | QAck _ idx ids | QRelease _ idx ids => ∀ id, id ∈ ids → (idx, id) ∈ q_handed q
  | QDead _ idx id => (idx, id) ∈ q_handed q
  | _ => True
  end.

Definition q0 : qstate := mkQ (Open_store tenants) [] [] [] [] [] [].

Inductive qreach : qstate → Prop :=
  | qreach_open : qreach q0
  | qreach_step o q q' : qreach q → allowed o q → qexec o q = Some q' → qreach q'.
End Queue.

(** ** What a call may do to a row *)

(** The five columns nothing rewrites. *)
Definition same_message (r r' : row) : Prop :=
  m_id r' = m_id r ∧ m_tenant r' = m_tenant r ∧ m_dek r' = m_dek r ∧
  m_ciphertext r' = m_ciphertext r ∧ m_enqueued_at r' = m_enqueued_at r.

Inductive moves : row → row → Prop :=
  | mv_same r : moves r r
  | mv_claim r r' : same_message r r' → m_state r = SReady → m_state r' = SClaimed →
      m_attempts r' = m_attempts r → m_claimed_until r' ≠ None → moves r r'
  | mv_release r r' : same_message r r' → m_state r = SClaimed → m_state r' = SReady →
      m_attempts r' = m_attempts r → m_claimed_until r' = None → moves r r'
  | mv_dead r r' : same_message r r' → m_state r = SClaimed → m_state r' = SDead →
      m_attempts r' = m_attempts r + 1 → m_claimed_until r' = None → moves r r'.

Inductive effect (o : qop) (rs rs' : list row) : Prop :=
  | ef_same : rs' = rs → effect o rs rs'
  | ef_update q f : rs' = update q f rs → (∀ r, r ∈ rs → q r = true → moves r (f r)) → effect o rs rs'
  | ef_remove q : rs' = filter (λ r, q r = false) rs →
      match o with QAck _ _ _ | QExpire _ _ _ _ => True | _ => False end → effect o rs rs'
  | ef_insert now st en fail idx id env t :
      o = QInsert now st en fail idx id env →
      sql_insert (mkRow id t (env_DEKID env) (env_Ciphertext env) SReady 0 (ms now) None) rs = Some rs' →
      effect o rs rs'.

Lemma scan_rows_sublist c rs : ∃ k, sublist k rs ∧ (scan_rows c rs).1.2 = message_of <$> k.
Proof.
  induction rs as [|r rs (k & Hk & E)]; [by exists []|]. cbn [scan_rows].
  destruct (scan_rows c rs) as [[n l] e]. cbn [fst snd] in E. subst l.
  destruct (cur_scan c (m_id r)); cbn [fst snd]; [exists k|exists (r :: k)]; split; by try constructor.
Qed.

Lemma scan_rows_in c rs m : m ∈ (scan_rows c rs).1.2 → ∃ r, r ∈ rs ∧ m = message_of r.
Proof.
  destruct (scan_rows_sublist c rs) as (k & Hk & ->). intros (r & -> & Hr)%list_elem_of_fmap.
  exists r. split; [|done]. by eapply elem_of_sublist.
Qed.

Section QueueRows.
Context `{MR : MapRange} `{RT : Returning}.
Context (tenants : list string) (Hnd : NoDup tenants).

Lemma same_message_refl s u r : same_message r (set_row s u r).
Proof. done. Qed.

Lemma Claim_msgs fail c idx n until s b e s' m :
  Claim tenants fail c idx n until s = Some ((b, e), s') → m ∈ b_Msgs b →
  ∃ r, r ∈ rows s ∧ m = message_of r ∧ tenants !! idx = Some (m_tenant r) ∧ m_state r = SReady.
Proof.
  unfold Claim. destruct (tenants !! idx) as [t|] eqn:Ht; [|done].
  destruct fail; [intros [= <- <- <-]; by intros ?%not_elem_of_nil|].
  set (out := match cur_stop c with Some _ => _ | None => _ end).
  pose proof (scan_rows_in c out) as Hs. destruct (scan_rows c out) as [[k l] e0]. cbn [fst snd] in Hs.
  intros [= <- <- <-] Hm. destruct (Hs m Hm) as (r & Hr & ->). exists r.
  assert (r ∈ sel_claim t n (rows s)) as Hsel.
  { rewrite <- (returning_perm (sel_claim t n (rows s))). subst out.
    destruct (cur_stop c) as [[j e1]|]; [|done]. by eapply elem_of_sublist, sublist_take. }
  destruct (sel_claim_spec _ _ _ _ Hsel) as [Ht' ?]. split_and!; [|done|congruence|done].
  eapply elem_of_sublist; [done|]. apply sel_claim_sublist.
Qed.

Lemma sel_moves ids (rs : list row) r :
  r ∈ rs → sel_ids ids r = true → moves r (set_row SReady None r).
Proof. intros Hr Hq. apply mv_release; [done|by eapply sel_ids_state|done..]. Qed.

(** The effect of each call on the rows. *)
Lemma qrun_effect o s s' l :
  store_ok tenants s → qrun tenants o s = Some (s', l) → effect o (rows s) (rows s').
Proof.
  intros Hs. destruct o as [|now st en fail idx id env|fail d|fail c idx n until|fail idx ids|fail idx ids
    |fail idx id|fr fw now|fr fw before lim|fail st at_ en|]; cbn [qrun].
  - intros [= <- <-]. by constructor.
  - unfold Insert. destruct (tenants !! idx) as [t|]; [|done]. destruct fail; [intros [= <- <-]; by constructor|].
    cbn [rows record_insert]. destruct (sql_insert _ _) as [rs|] eqn:E; [|intros [= <- <-]; by constructor].
    intros [= <- <-]. by eapply ef_insert.
  - unfold PutDEK. destruct fail; [intros [= <- <-]; by constructor|].
    case_bool_decide; intros [= <- <-]; by constructor.
  - unfold Claim. destruct (tenants !! idx) as [t|]; [|done]. destruct fail; [intros [= <- <-]; by constructor|].
    destruct (scan_rows _ _) as [[k m] e]. intros [= <- <-]. eapply ef_update; [done|].
    intros r Hr Hq. assert (m_state r = SReady).
    { apply (sel_claim_spec t n (rows s)), (sel_rows tenants s); [done|apply sel_claim_sublist|done..]. }
    by apply mv_claim.
  - unfold Ack. destruct (negb _); [done|]. destruct fail; intros [= <- <-]; [by constructor|].
    by eapply ef_remove.
  - unfold Release. destruct (negb _); [done|]. destruct fail; intros [= <- <-]; [by constructor|].
    eapply ef_update; [done|]. intros r Hr Hq. by eapply sel_moves.
  - unfold Dead. destruct (negb _); [done|]. destruct fail; intros [= <- <-]; [by constructor|].
    eapply ef_update; [done|]. intros r Hr Hq. apply mv_dead; [done|by eapply sel_ids_state|done..].
  - destruct (Reclaim _ _ _ _ _) as [res s1] eqn:E. intros [= <- <-]. revert E. unfold Reclaim.
    destruct fr; [intros [= <- <-]; by constructor|]. destruct (counts_of _ _) as [m tot].
    destruct (tot =? 0); [intros [= <- <-]; by constructor|]. destruct fw; [intros [= <- <-]; by constructor|].
    destruct (negb _); intros [= <- <-]; (eapply ef_update; [done|]); intros r Hr Hq;
      apply andb_true_iff in Hq as [Hq _]; apply bool_decide_eq_true in Hq; by apply mv_release.
  - destruct (Expire _ _ _ _ _ _) as [res s1] eqn:E. intros [= <- <-]. revert E. unfold Expire.
    destruct fr; [intros [= <- <-]; by constructor|]. destruct (counts_of _ _) as [m tot].
    destruct (tot =? 0); [intros [= <- <-]; by constructor|]. destruct fw; [intros [= <- <-]; by constructor|].
    destruct (negb _); intros [= <- <-]; by eapply ef_remove.
  - unfold Census. destruct fail; intros [= <- <-]; by constructor.
  - unfold Wake. destruct (wake s); [|done]. intros [= <- <-]. by constructor.
Qed.

Lemma moves_message r r' : moves r r' → same_message r r'.
Proof. by destruct 1. Qed.

(** A row after a call is a row before it, moved, or the inserted one. *)
Lemma effect_row o rs rs' r' :
  effect o rs rs' → StronglySorted Z.lt (m_id <$> rs) → r' ∈ rs' →
  (∃ r, r ∈ rs ∧ moves r r') ∨
  (∃ now st en fail idx id env, o = QInsert now st en fail idx id env ∧ m_id r' = id ∧ m_id r' ∉ m_id <$> rs ∧
     m_state r' = SReady ∧ m_attempts r' = 0 ∧ m_claimed_until r' = None).
Proof.
  intros He Hs Hr. destruct He as [->|q f -> Hq|q -> _|now st en fail idx id env t -> E].
  - left. exists r'. split; [done|constructor].
  - left. apply list_elem_of_fmap in Hr as (r & -> & Hr). exists r. split; [done|].
    destruct (q r) eqn:Eq; [by apply Hq|constructor].
  - left. apply list_elem_of_filter in Hr as [_ Hr]. exists r'. split; [done|constructor].
  - pose proof E as E0. unfold sql_insert in E0. case_bool_decide as Hin; [done|]. clear E0.
    destruct (insert_spec tenants Hnd _ _ _ E Hs) as [Hp _]. rewrite Hp in Hr.
    apply elem_of_cons in Hr as [->|Hr]; [|left; exists r'; split; [done|constructor]].
    right. by eexists _, _, _, _, _, _, _.
Qed.

(** A row before a call that does not remove is still there after it. *)
Lemma effect_kept o rs rs' r :
  effect o rs rs' → StronglySorted Z.lt (m_id <$> rs) → r ∈ rs →
  match o with QAck _ _ _ | QExpire _ _ _ _ => False | _ => True end → m_id r ∈ m_id <$> rs'.
Proof.
  intros He Hs Hr Ho. destruct He as [->|q f -> Hq|q -> Hrm|now st en fail idx id env t -> E].
  - by apply list_elem_of_fmap_2.
  - assert (m_id (if q r then f r else r) = m_id r) as <-.
    { destruct (q r) eqn:Eq; [|done]. by apply moves_message, Hq. }
    apply list_elem_of_fmap_2. apply list_elem_of_fmap. by exists r.
  - by destruct o.
  - destruct (insert_spec tenants Hnd _ _ _ E Hs) as [Hp _]. rewrite Hp. set_solver.
Qed.

(** Two rows of a table with the same id are one. *)
Lemma same_id (rs : list row) r r' :
  NoDup (m_id <$> rs) → r ∈ rs → r' ∈ rs → m_id r = m_id r' → r = r'.
Proof.
  intros Hn Hr Hr' E. apply list_elem_of_lookup in Hr as [i Hi]. apply list_elem_of_lookup in Hr' as [j Hj].
  assert (i = j) as ->; [|congruence].
  apply (NoDup_lookup _ i j (m_id r) Hn); rewrite list_lookup_fmap; [by rewrite Hi|by rewrite Hj, E].
Qed.

Lemma qrun_nextID o s s' l :
  qrun tenants o s = Some (s', l) → o ≠ QNextID → nextID s' = nextID s.
Proof.
  intros E Ho. destruct o; cbn [qrun] in E; [done|..].
  - unfold Insert in E. destruct (tenants !! idx); [|done]. destruct fail; [by simplify_eq/=|].
    destruct (sql_insert _ _); by simplify_eq/=.
  - unfold PutDEK in E. destruct fail; [by simplify_eq/=|]. case_bool_decide; by simplify_eq/=.
  - unfold Claim in E. destruct (tenants !! idx); [|done]. destruct fail; [by simplify_eq/=|].
    destruct (scan_rows _ _) as [[k m] e]. by simplify_eq/=.
  - unfold Ack in E. destruct (negb _); [done|]. destruct fail; by simplify_eq/=.
  - unfold Release in E. destruct (negb _); [done|]. destruct fail; by simplify_eq/=.
  - unfold Dead in E. destruct (negb _); [done|]. destruct fail; by simplify_eq/=.
  - unfold Reclaim in E. destruct fail_read; [by simplify_eq/=|]. destruct (counts_of _ _) as [m tot].
    destruct (tot =? 0); [by simplify_eq/=|]. destruct fail_write; [by simplify_eq/=|].
    destruct (negb _); by simplify_eq/=.
  - unfold Expire in E. destruct fail_read; [by simplify_eq/=|]. destruct (counts_of _ _) as [m tot].
    destruct (tot =? 0); [by simplify_eq/=|]. destruct fail_write; [by simplify_eq/=|].
    destruct (negb _); by simplify_eq/=.
  - unfold Census in E. destruct fail; by simplify_eq/=.
  - unfold Wake in E. destruct (wake s); by simplify_eq/=.
Qed.
End QueueRows.

(** ** The invariant of the calls *)

Section QueueInv.
Context `{MR : MapRange} `{RT : Returning}.
Context (tenants : list string) (Hnd : NoDup tenants).

Record qinv (q : qstate) : Prop := {
  qi_store : store_ok tenants (q_store q);
  qi_next : 0 <= nextID (q_store q);
  qi_tickets : ∀ id, id ∈ q_tickets q → id <= nextID (q_store q) ∧ id ∉ q_born q;
  qi_born : ∀ id, id ∈ q_born q → id <= nextID (q_store q);
  qi_handed : ∀ idx id r, (idx, id) ∈ q_handed q → id ∈ q_born q ∧
    (r ∈ rows (q_store q) → m_id r = id → tenants !! idx = Some (m_tenant r));
  qi_perm : q_born q ≡ₚ ids_of (q_store q) ++ q_acked q ++ q_expired q;
  qi_nodup : NoDup (q_born q);
  qi_lost : q_lost q = [] }.

Lemma exchange (a b : list Z) :
  NoDup a → NoDup b →
  (filter (λ x, x ∉ a) b ++ a)%list ≡ₚ (b ++ filter (λ x, x ∉ b) a)%list.
Proof.
  intros Ha Hb. apply NoDup_Permutation.
  - apply NoDup_app. split_and!; [by apply NoDup_filter| |done].
    intros x Hx. by apply list_elem_of_filter in Hx as [? _].
  - apply NoDup_app. split_and!; [done| |by apply NoDup_filter].
    intros x Hx Hx'. by apply list_elem_of_filter in Hx' as [? _].
  - intros x. rewrite !elem_of_app, !list_elem_of_filter. destruct (decide (x ∈ a)), (decide (x ∈ b)); tauto.
Qed.

Lemma ids_nodup s : store_ok tenants s → NoDup (ids_of s).
Proof. intros Hs. eapply sorted_nodup, Hs. Qed.

Lemma handed_owned q idx ids :
  qinv q → (∀ id, id ∈ ids → (idx, id) ∈ q_handed q) → owned tenants idx ids (q_store q).
Proof.
  intros Hq Hh r Hr Hsel. apply andb_true_iff in Hsel as [_ Hsel]. apply bool_decide_eq_true in Hsel.
  by apply (qi_handed _ Hq idx (m_id r) r (Hh _ Hsel)).
Qed.

(** The ledger stays exact: [StoreOps], call by call. *)
Lemma qrun_store_ok o q s' l :
  qinv q → allowed o q → qrun tenants o (q_store q) = Some (s', l) → store_ok tenants s'.
Proof.
  intros Hq Ha. pose proof (qi_store _ Hq) as Hs. destruct o; cbn [qrun allowed] in *; intros E.
  - injection E as <- _. by eapply NextID_ok.
  - destruct (Insert _ _ _ _ _ _ _ _ _) as [[res s1]|] eqn:E1; [|done]. simplify_eq/=.
    by apply (Insert_ok tenants Hnd _ _ _ _ _ _ _ _ _ _ Hs E1).
  - injection E as <- _. destruct (PutDEK _ _ _) as [res s1] eqn:E1. by eapply PutDEK_ok.
  - destruct (Claim _ _ _ _ _ _ _) as [[[b e] s1]|] eqn:E1; [|done]. simplify_eq/=.
    by eapply (Claim_ok tenants Hnd).
  - destruct (Ack _ _ _ _ _) as [[res s1]|] eqn:E1; [|done]. simplify_eq/=.
    eapply (Ack_ok tenants Hnd); [done|by eapply handed_owned|done].
  - destruct (Release _ _ _ _ _) as [[res s1]|] eqn:E1; [|done]. simplify_eq/=.
    eapply (Release_ok tenants Hnd); [done|by eapply handed_owned|done].
  - destruct (Dead _ _ _ _ _) as [[res s1]|] eqn:E1; [|done]. simplify_eq/=.
    eapply (Dead_ok tenants Hnd); [done| |done]. eapply handed_owned; [done|]. set_solver.
  - injection E as <- _. destruct (Reclaim _ _ _ _ _) as [res s1] eqn:E1.
    by apply (Reclaim_ok tenants Hnd _ _ _ _ _ _ Hs E1).
  - injection E as <- _. destruct (Expire _ _ _ _ _ _) as [res s1] eqn:E1.
    by apply (Expire_ok tenants Hnd _ _ _ _ _ _ _ Hs E1).
  - injection E as <- _. unfold Census. destruct fail; [done|]. destruct Hs. by split.
  - unfold Wake in E. destruct (wake (q_store q)); [|done]. injection E as <- _. destruct Hs. by split.
Qed.

Lemma q0_inv : qinv (q0 tenants).
Proof.
  split; cbn; try done; try (intros; set_solver); [by apply Open_store_ok|constructor].
Qed.

(** An id new to the table is the ticket of an insert. *)
Lemma born_ticket o q s' l id :
  qinv q → allowed o q → qrun tenants o (q_store q) = Some (s', l) → id ∈ born (q_store q) s' →
  id ∈ q_tickets q ∧ ∃ now st en fail idx env, o = QInsert now st en fail idx id env.
Proof.
  intros Hq Ha E Hid. apply list_elem_of_filter in Hid as [Hn Hid].
  apply list_elem_of_fmap in Hid as (r' & -> & Hr').
  destruct (effect_row tenants Hnd o _ _ r' (qrun_effect tenants o _ _ _ (qi_store _ Hq) E)
    (so_sorted _ _ (qi_store _ Hq)) Hr') as [(r & Hr & Hm)|(now & st & en & fail & idx & id & env & -> & <- & _)].
  - destruct Hn. destruct (moves_message _ _ Hm) as [-> _]. by apply list_elem_of_fmap_2.
  - split; [done|]. by eexists _, _, _, _, _, _.
Qed.

(** Only [Ack] and [Expire] take rows away. *)
Lemma gone_nil o q s' l :
  qinv q → qrun tenants o (q_store q) = Some (s', l) →
  match o with QAck _ _ _ | QExpire _ _ _ _ => False | _ => True end → gone (q_store q) s' = [].
Proof.
  intros Hq E Ho. apply elem_of_nil_inv.
  intros id Hid. apply list_elem_of_filter in Hid as [Hn Hid].
  apply list_elem_of_fmap in Hid as (r & -> & Hr). apply Hn.
  eapply (effect_kept tenants Hnd o); [by eapply qrun_effect, E; apply Hq|apply Hq|done|done].
Qed.

(** The rows after a call that carry an id of a batch keep its tenant. *)
Lemma handed_kept o q s' l idx id r :
  qinv q → allowed o q → qrun tenants o (q_store q) = Some (s', l) →
  (idx, id) ∈ q_handed q → r ∈ rows s' → m_id r = id → tenants !! idx = Some (m_tenant r).
Proof.
  intros Hq Ha E Hh Hr Hid.
  destruct (effect_row tenants Hnd o _ _ r (qrun_effect tenants o _ _ _ (qi_store _ Hq) E)
    (so_sorted _ _ (qi_store _ Hq)) Hr) as [(r0 & Hr0 & Hm)|(now & st & en & fail & idx' & id' & env & -> & E1 & _)].
  - destruct (moves_message _ _ Hm) as (E1 & E2 & _). rewrite E2.
    apply (qi_handed _ Hq idx id r0 Hh); [done|congruence].
  - exfalso. destruct (qi_handed _ Hq idx id r Hh) as [Hb _]. cbn in Ha.
    apply (qi_tickets _ Hq _ Ha). congruence.
Qed.

(** The messages of a claim are rows of its tenant, before and after. *)
Lemma claim_handed q fail c idx n until s' l id r :
  qinv q → qrun tenants (QClaim fail c idx n until) (q_store q) = Some (s', l) →
  id ∈ msg_ID <$> l → id ∈ ids_of (q_store q) ∧
  (r ∈ rows s' → m_id r = id → tenants !! idx = Some (m_tenant r)).
Proof.
  intros Hq E Hid. pose proof (qrun_effect tenants _ _ _ _ (qi_store _ Hq) E) as He. cbn [qrun] in E.
  destruct (Claim _ _ _ _ _ _ _) as [[[b e] s1]|] eqn:E1; [|done]. simplify_eq/=.
  apply list_elem_of_fmap in Hid as (m & -> & Hm).
  destruct (Claim_msgs tenants _ _ _ _ _ _ _ _ _ _ E1 Hm) as (r0 & Hr0 & -> & Ht & _).
  split; [by apply (list_elem_of_fmap_2 m_id _ r0)|]. intros Hr Hid.
  destruct (effect_row tenants Hnd _ _ _ r He (so_sorted _ _ (qi_store _ Hq)) Hr)
    as [(r1 & Hr1 & Hmv)|(now & st & en & fl & idx' & id' & env & E2 & _)]; [|done].
  destruct (moves_message _ _ Hmv) as (E2 & E3 & _). rewrite E3, Ht. do 2 f_equal.
  eapply (same_id (rows (q_store q))); [apply ids_nodup, Hq|done|done|]. cbn in Hid. congruence.
Qed.

Lemma next_mono o q s' l :
  qinv q → allowed o q → qrun tenants o (q_store q) = Some (s', l) → nextID (q_store q) <= nextID s'.
Proof.
  intros Hq Ha E. assert (o = QNextID ∨ o ≠ QNextID) as [->|Ho] by (destruct o; auto);
    [|by rewrite (qrun_nextID tenants o _ _ _ E Ho)].
  injection E as <- <-. cbn in *. pose proof (qi_next _ Hq). rewrite wrap64_id; unfold minInt64 in *; lia.
Qed.

(** An outstanding ticket after a call: an earlier one the call did not use, or
    the one it drew. *)
Lemma tickets_step o q s' l id :
  qinv q → allowed o q → qrun tenants o (q_store q) = Some (s', l) →
  ∀ q', qexec tenants o q = Some q' → id ∈ q_tickets q' → id <= nextID s' ∧ id ∉ q_born q'.
Proof.
  intros Hq Ha E q'. unfold qexec. rewrite E. intros [= <-]. cbn. intros Hid.
  pose proof (next_mono o q s' l Hq Ha E) as Hn.
  assert (id ∈ q_tickets q ∧ (∀ now st en fail idx env, o ≠ QInsert now st en fail idx id env)
    ∨ o = QNextID ∧ id = (NextID (q_store q)).1) as [[Hid' Hne]|[-> ->]].
  { destruct o; try (left; by split).
    - apply elem_of_cons in Hid as [->|Hid]; [by right|left; by split].
    - apply list_elem_of_filter in Hid as [Hd Hid]. left. split; [done|]. congruence. }
  - destruct (qi_tickets _ Hq id Hid') as [H1 H2]. split; [lia|]. intros [Hx|Hx]%elem_of_app; [|done].
    destruct (born_ticket o q s' l id Hq Ha E Hx) as (_ & ? & ? & ? & ? & ? & ? & ->). by eapply Hne.
  - injection E as <- <-. cbn in *. pose proof (qi_next _ Hq).
    rewrite wrap64_id in * by (unfold minInt64 in *; lia). split; [lia|].
    intros [Hx|Hx]%elem_of_app; [by apply list_elem_of_filter in Hx as [? ?]|].
    apply (qi_born _ Hq) in Hx. lia.
Qed.

Lemma handed_step o q s' l idx id r :
  qinv q → allowed o q → qrun tenants o (q_store q) = Some (s', l) →
  ∀ q', qexec tenants o q = Some q' → (idx, id) ∈ q_handed q' →
  id ∈ q_born q' ∧ (r ∈ rows s' → m_id r = id → tenants !! idx = Some (m_tenant r)).
Proof.
  intros Hq Ha E q'. unfold qexec. rewrite E. intros [= <-]. cbn. intros Hh.
  assert ((idx, id) ∈ q_handed q ∨
    ∃ fail c n until, o = QClaim fail c idx n until ∧ id ∈ msg_ID <$> l) as [Hh'|(fail & c & n & until & -> & Hl)].
  { destruct o; try (by left). apply elem_of_app in Hh as [Hh|Hh]; [|by left]. right.
    apply list_elem_of_fmap in Hh as (m & [= -> ->] & Hm). eexists _, _, _, _. split; [done|].
    by apply list_elem_of_fmap_2. }
  - split; [apply elem_of_app; right; by apply (qi_handed _ Hq idx id r)|]. intros Hr Hid. by eapply handed_kept.
  - destruct (claim_handed q fail c idx n until s' l id r Hq E Hl) as [H1 H2]. split; [|done].
    apply elem_of_app; right. rewrite (qi_perm _ Hq). apply elem_of_app. by left.
Qed.

Lemma perm_step o q s' l :
  qinv q → allowed o q → qrun tenants o (q_store q) = Some (s', l) →
  ∀ q', qexec tenants o q = Some q' →
  q_born q' ≡ₚ (ids_of s' ++ q_acked q' ++ q_expired q')%list ∧ q_lost q' = [].
Proof.
  intros Hq Ha E q'. unfold qexec. rewrite E. intros [= <-]. cbn.
  pose proof (gone_nil o q s' l Hq E) as Hg.
  pose proof (exchange (ids_of (q_store q)) (ids_of s') (ids_nodup _ (qi_store _ Hq))
    (ids_nodup _ (qrun_store_ok o q s' l Hq Ha E))) as Hx.
  fold (born (q_store q) s') (gone (q_store q) s') in Hx.
  rewrite (qi_lost _ Hq). split; [|destruct o; by rewrite ?Hg].
  rewrite (qi_perm _ Hq), (assoc_L (++)), Hx, <- (assoc_L (++)).
  destruct o; try (by rewrite Hg by done); f_equiv.
  - by rewrite (assoc_L (++)).
  - rewrite !(assoc_L (++)). f_equiv. apply Permutation_app_comm.
Qed.

Lemma qexec_inv o q q' : qinv q → allowed o q → qexec tenants o q = Some q' → qinv q'.
Proof.
  intros Hq Ha Hex. pose proof Hex as Hex'. unfold qexec in Hex'.
  destruct (qrun tenants o (q_store q)) as [[s' l]|] eqn:E; [|done].
  destruct (perm_step o q s' l Hq Ha E q' Hex) as [Hp Hl].
  pose proof (λ id, tickets_step o q s' l id Hq Ha E q' Hex) as Ht.
  pose proof (λ idx id r, handed_step o q s' l idx id r Hq Ha E q' Hex) as Hh.
  injection Hex' as <-. cbn in *.
  pose proof (λ id, born_ticket o q s' l id Hq Ha E) as Hb.
  pose proof (next_mono o q s' l Hq Ha E) as Hn. pose proof (qi_next _ Hq).
  split; cbn; [by eapply qrun_store_ok|lia|done| |intros; by apply Hh|done| |done].
  - intros id [Hx|Hx]%elem_of_app; [|apply (qi_born _ Hq) in Hx; lia].
    destruct (Hb id Hx) as [Hi _]. apply (qi_tickets _ Hq) in Hi. lia.
  - apply NoDup_app. split_and!; [apply NoDup_filter; eapply ids_nodup, qrun_store_ok; done| |apply Hq].
    intros id Hx. destruct (Hb id Hx) as [Hi _]. by apply (qi_tickets _ Hq).
Qed.

Lemma qreach_inv q : qreach tenants q → qinv q.
Proof. induction 1; [by apply q0_inv|by eapply qexec_inv]. Qed.
End QueueInv.
