(* ===== verification/QueueSpec.v ===== *)
(** * What the queue promises

    The ledger equals the rows, every accepted message is in exactly one place,
    a row only ever moves along the four arrows of its life, and each statement
    does to the table exactly what the callers rely on. *)

From S2P Require Import Prelude GoLib Kms Tink Lease Cmek Store StoreInv StoreOps Queue Demo.
From Stdlib Require Import Sorting.Sorted.
From stdpp Require sorting.
Local Open Scope string_scope.
Local Open Scope Z_scope.

(** ** Running a list of calls *)

#[export] Instance exact_cursor_dec c : Decision (exact_cursor c).
Proof.
  unfold exact_cursor. destruct (cur_stop c), (cur_changes c); (left; auto; fail) || (right; naive_solver).
Defined.

#[export] Instance allowed_dec o q : Decision (allowed o q).
Proof.
  destruct o; cbn [allowed]; try apply _.
  all: destruct (decide (Forall (λ id, (idx, id) ∈ q_handed q) ids)) as [H|H]; rewrite Forall_forall in H;
    by (left + right).
Defined.

Section Runs.
Context `{MR : MapRange} `{RT : Returning}.
Context (tenants : list string).

Fixpoint qexecs (os : list qop) (q : qstate) : option qstate :=
  match os with
  | [] => Some q
  | o :: os' => if bool_decide (allowed o q) then q' ← qexec tenants o q; qexecs os' q' else None
  end.

Lemma qexecs_reach os q q' : qreach tenants q → qexecs os q = Some q' → qreach tenants q'.
Proof.
  revert q. induction os as [|o os IH]; intros q Hq; cbn; [by intros [= <-]|].
  case_bool_decide; [|done]. destruct (qexec tenants o q) as [q1|] eqn:E; [|done]. cbn.
  apply IH. by eapply qreach_step.
Qed.
End Runs.

(** ** A small run *)

Module QDemo.
Definition in_order : Returning := {| returning l := l; returning_perm l := reflexivity l |}.
#[local] Existing Instance in_order.
#[local] Existing Instance Demo.list_range.
Definition tenants : list string := ["t-0001"; "t-0002"].
Definition env (n : nat) : Envelope := mkEnvelope "t-0001/dek-1" (repeat Byte.x61 n).
Definition at_ (n : Z) : Time := Time.ofUnixMilli n.
Definition put (t id : Z) (idx : nat) : list qop := [QNextID; QInsert (at_ t) (at_ t) (at_ t) None idx id (env 3)].
Definition ops : list qop :=
  put 100 1 0 ++ put 110 2 0 ++ put 120 3 1 ++
  [QClaim None sound_cursor 0 1 (at_ 500); QAck None 0 [1]; QClaim None sound_cursor 1 5 (at_ 600);
   QDead None 1 3].
Definition ran (os : list qop) : qstate := default (q0 tenants) (qexecs tenants os (q0 tenants)).

Lemma ran_reach os : qreach tenants (ran os).
Proof.
  unfold ran. destruct (qexecs tenants os (q0 tenants)) as [q|] eqn:E; [|constructor].
  eapply qexecs_reach; [constructor|done].
Qed.
End QDemo.

(** ** The promises *)

(** The rows a counter stands for. *)
Definition rows_in (s : Store) (t : string) (st : rstate) : Z :=
  countZ (λ r, of_tenant t r && has_state st r) (rows s).

Section Promises.
Context `{MR : MapRange} `{RT : Returning}.
Context (tenants : list string) (Hnd : NoDup tenants).


(** C4. Exactly once: every accepted message is still in the table, or was
    acknowledged, or expired, and only one of these, once; no other call makes a
    row disappear and no id is accepted twice. *)
Theorem message_accounted q :
  qreach tenants q →
  q_born q ≡ₚ ((m_id <$> rows (q_store q)) ++ q_acked q ++ q_expired q)%list ∧
  NoDup (q_born q) ∧ q_lost q = [].
Proof using Hnd. intros Hq%(qreach_inv tenants Hnd). split_and!; apply Hq. Qed.

(** C8. A row's life: a call leaves a row as it is, claims a ready one, puts a
    claimed one back with its attempts untouched, or dead-letters a claimed one
    with one attempt more; its id, tenant, key, ciphertext and enqueue time never
    change, dead rows stay as they are, and a new row is ready with no attempts. *)
Theorem row_life o q q' r' :
  qreach tenants q → allowed o q → qexec tenants o q = Some q' → r' ∈ rows (q_store q') →
  (∃ r, r ∈ rows (q_store q) ∧ moves r r') ∨
  (m_id r' ∈ q_tickets q ∧ m_id r' ∉ q_born q ∧ m_state r' = SReady ∧ m_attempts r' = 0).
Proof using Hnd.
  intros Hq%(qreach_inv tenants Hnd) Ha Hex Hr. unfold qexec in Hex.
  destruct (qrun tenants o (q_store q)) as [[s' l]|] eqn:E; [|done]. injection Hex as <-. cbn in Hr.
  pose proof (qrun_effect tenants o _ _ _ (qi_store _ _ Hq) E) as He.
  destruct (effect_row tenants Hnd o _ _ r' He (so_sorted _ _ (qi_store _ _ Hq)) Hr)
    as [?|(now & st & en & fail & idx & id & env & -> & <- & Hn & Hs & H0 & _)]; [by left|right].
  cbn in Ha. split_and!; [done|by apply (qi_tickets tenants q Hq)|done..].
Qed.

(** A successful claim hands out exactly the oldest [n] ready rows of that
    tenant: the batch is those rows, they alone become claimed, with the deadline,
    and every ready row left behind is younger than all of them. *)
Theorem claim_takes_oldest q idx n until t b e s' :
  qreach tenants q → 0 <= n → tenants !! idx = Some t →
  Claim tenants None sound_cursor idx n until (q_store q) = Some ((b, e), s') →
  let mine := filter (λ r, m_tenant r = t ∧ m_state r = SReady) (rows (q_store q)) in
  e = None ∧ b_Msgs b ≡ₚ message_of <$> take (Z.to_nat n) mine ∧
  rows s' = (λ r, if bool_decide (m_id r ∈ msg_ID <$> b_Msgs b)
                  then set_row SClaimed (Some (ms until)) r else r) <$> rows (q_store q) ∧
  (∀ r m, r ∈ drop (Z.to_nat n) mine → m ∈ b_Msgs b → msg_ID m < m_id r).
Proof using Hnd.
  intros Hq%(qreach_inv tenants Hnd) Hn Ht E mine. pose proof (qi_store _ _ Hq) as Hs.
  unfold Claim in E. rewrite Ht in E. cbn [cur_stop sound_cursor] in E. set (sel := sel_claim t n _) in E.
  assert (∀ l, scan_rows sound_cursor l = (Z.of_nat (length l), message_of <$> l, None)) as Hscan.
  { induction l as [|r l IH]; [done|]. cbn. rewrite IH. do 2 f_equal. cbn [length]. lia. }
  rewrite Hscan in E. injection E as <- <- <-. cbn [b_Msgs rows with_rows].
  assert (sel = take (Z.to_nat n) mine) as Hsel.
  { unfold sel, sel_claim, limit. destruct (Z.ltb_spec n 0); [lia|]. f_equal. apply list_filter_iff.
    intros r. rewrite andb_true_iff. unfold of_tenant, has_state. by rewrite !bool_decide_eq_true. }
  assert (msg_ID <$> (message_of <$> returning sel) ≡ₚ m_id <$> sel) as Hids.
  { rewrite <- list_fmap_compose. by rewrite returning_perm. }
  split_and!; [done|by rewrite returning_perm, Hsel| |].
  - unfold sql_claim, update. apply list_fmap_ext. intros _ r _. unfold in_ids. fold sel.
    by rewrite (bool_decide_ext _ (m_id r ∈ msg_ID <$> (message_of <$> returning sel))) by (by rewrite Hids).
  - intros r m Hr Hm. rewrite returning_perm, Hsel in Hm. apply list_elem_of_fmap in Hm as (r0 & -> & Hr0). cbn.
    assert (StronglySorted Z.lt (m_id <$> mine)) as Hst by apply sorted_filter, Hs.
    rewrite <- (take_drop (Z.to_nat n) mine), fmap_app in Hst.
    eapply (sorting.StronglySorted_app_1_elem_of Z.lt); [exact Hst|by apply list_elem_of_fmap_2..].
Qed.

(** A row not claimed has no deadline. *)
Lemma no_deadline q r :
  qreach tenants q → r ∈ rows (q_store q) → m_state r ≠ SClaimed → m_claimed_until r = None.
Proof using Hnd.
  intros Hq. revert r. induction Hq as [|o q q' Hq IH Ha Hex]; intros r Hr Hs; [by apply not_elem_of_nil in Hr|].
  apply (qreach_inv tenants Hnd) in Hq. unfold qexec in Hex.
  destruct (qrun tenants o (q_store q)) as [[s' l]|] eqn:E; [|done]. injection Hex as <-. cbn in Hr.
  pose proof (qrun_effect tenants o _ _ _ (qi_store _ _ Hq) E) as He.
  destruct (effect_row tenants Hnd o _ _ r He (so_sorted _ _ (qi_store _ _ Hq)) Hr)
    as [(r0 & Hr0 & Hm)|(? & ? & ? & ? & ? & ? & ? & _ & _ & _ & _ & _ & ?)]; [|done].
  destruct Hm; [by apply IH|congruence|done|done].
Qed.

(** Claim then release is the identity on the table: a worker that gives its
    whole batch back, a key having become unusable, leaves every row, attempts
    included, exactly as it found it. *)
Theorem claim_release_roundtrip q idx n until b s1 ra s2 :
  qreach tenants q →
  Claim tenants None sound_cursor idx n until (q_store q) = Some ((b, None), s1) →
  Release tenants None idx (msg_ID <$> b_Msgs b) s1 = Some ((ra, None), s2) →
  rows s2 = rows (q_store q) ∧ ra = Z.of_nat (length (b_Msgs b)).
Proof using Hnd.
  intros Hr Ec Er. pose proof (qi_store _ _ (qreach_inv tenants Hnd q Hr)) as Hs. unfold Claim in Ec.
  destruct (tenants !! idx) as [t|]; [|done]. cbn [cur_stop sound_cursor] in Ec.
  set (sel := sel_claim t n _) in Ec.
  assert (∀ l, scan_rows sound_cursor l = (Z.of_nat (length l), message_of <$> l, None)) as Hscan.
  { induction l as [|r l IH]; [done|]. cbn. rewrite IH. do 2 f_equal. cbn [length]. lia. }
  rewrite Hscan in Ec. injection Ec as <- <-. cbn [b_Msgs] in *.
  set (ids := msg_ID <$> _) in Er. unfold Release in Er. destruct (negb _); [done|].
  injection Er as <- <-. cbn [rows signal with_rows affected] in *.
  assert (∀ r, in_ids ids r = in_ids (m_id <$> sel) r) as Hids.
  { intros r. apply bool_decide_ext. unfold ids. rewrite <- list_fmap_compose, returning_perm. done. }
  assert (∀ r, r ∈ rows (q_store q) → in_ids (m_id <$> sel) r = true → m_state r = SReady) as Hst.
  { intros r Hin Hq. apply (sel_claim_spec t n (rows (q_store q))), (sel_rows tenants (q_store q));
      [done|apply sel_claim_sublist|done..]. }
  assert (∀ r, r ∈ rows (q_store q) → sel_ids ids (if in_ids (m_id <$> sel) r then set_row SClaimed (Some (ms until)) r else r)
    = in_ids (m_id <$> sel) r) as Hsel.
  { intros r Hin. unfold sel_ids. destruct (in_ids (m_id <$> sel) r) eqn:E; rewrite Hids.
    - unfold in_ids in *. cbn. by rewrite E.
    - rewrite E. apply andb_false_r. }
  split.
  - unfold sql_release, sql_claim, update. fold sel. rewrite <- list_fmap_compose.
    rewrite <- (list_fmap_id (rows (q_store q))) at 2. apply list_fmap_ext. intros i r Hi. cbn.
    apply list_elem_of_lookup_2 in Hi. rewrite (Hsel r Hi). destruct (in_ids (m_id <$> sel) r) eqn:E; [|done].
    pose proof (no_deadline q r Hr Hi) as Hd. specialize (Hst r Hi E). rewrite Hst in Hd.
    destruct r; cbn in *. rewrite Hst, Hd by done. done.
  - unfold affected. cbn [rows with_rows]. unfold sql_claim, update. fold sel. rewrite countZ_fmap.
    rewrite (countZ_ext _ (in_ids (m_id <$> sel))) by (intros; by apply Hsel).
    transitivity (affected (in_ids (m_id <$> sel)) (q_store q)); [done|].
    rewrite (affected_sel tenants _ sel Hs (sel_claim_sublist t n _)), length_fmap.
    by rewrite (Permutation_length (returning_perm sel)).
Qed.

(** The reclaimer puts back exactly the claimed rows whose deadline has passed,
    with their attempts, touches no other, and its two statements always agree:
    the count it books is the count it changed. *)
Theorem reclaim_exact q now res s' :
  qreach tenants q → Reclaim tenants None None now (q_store q) = (res, s') →
  let lapsed r := has_state SClaimed r && match m_claimed_until r with Some u => u <? ms now | None => false end in
  res = (countZ lapsed (rows (q_store q)), None) ∧
  rows s' = (λ r, if lapsed r then set_row SReady None r else r) <$> rows (q_store q) ∧
  (∀ r u, r ∈ rows s' → m_state r = SClaimed → m_claimed_until r = Some u → ms now <= u).
Proof using Hnd.
  intros Hq%(qreach_inv tenants Hnd) E lapsed. pose proof (qi_store _ _ Hq) as Hs.
  destruct (Reclaim_ok tenants Hnd _ _ _ _ _ _ Hs E) as (_ & H & _).
  destruct (H eq_refl eq_refl) as [Hres Hrows].
  assert (rows s' = sql_reclaim (ms now) (rows (q_store q))) as Hr.
  { destruct (Z.eq_dec (countZ (sel_reclaim (ms now)) (rows (q_store q))) 0) as [Hz|Hz]; [|by apply Hrows].
    assert (s' = q_store q) as ->.
    { revert E. unfold Reclaim. pose proof (counts_of_spec tenants Hnd
        (filter (λ r, sel_reclaim (ms now) r = true) (rows (q_store q)))) as Hc.
      destruct (counts_of _ _) as [m tot]. destruct Hc as [Ht _]; [apply filter_tenants, Hs|].
      rewrite filter_true_length, Hz in Ht. rewrite Ht. by intros [= _ <-]. }
    unfold sql_reclaim, update. rewrite <- (list_fmap_id (rows _)) at 1. apply list_fmap_ext. intros i r Hi.
    apply list_elem_of_lookup_2 in Hi. rewrite countZ_zero in Hz. by rewrite (Hz r Hi). }
  split_and!; [done|done|]. intros r u Hin Hst Hu. rewrite Hr in Hin.
  apply list_elem_of_fmap in Hin as (r0 & -> & Hin). destruct (sel_reclaim (ms now) r0) eqn:El; [done|].
  unfold sel_reclaim, has_state in El. rewrite Hst, Hu, bool_decide_eq_true_2 in El by done. cbn in El. lia.
Qed.
(** Expiry takes the oldest [lim] ready rows older than the retention bound and
    nothing else: claimed rows, dead rows and younger rows stay, and the number it
    reports is the number it removed. *)
Theorem expire_exact q before lim res s' :
  qreach tenants q → 0 <= lim → Expire tenants None None before lim (q_store q) = (res, s') →
  let old r := m_state r = SReady ∧ m_enqueued_at r < ms before in
  let taken := take (Z.to_nat lim) (filter old (rows (q_store q))) in
  res = (Z.of_nat (length taken), None) ∧
  rows s' = filter (λ r, m_id r ∉ m_id <$> taken) (rows (q_store q)) ∧
  (∀ r, r ∈ rows (q_store q) → ~ old r → r ∈ rows s').
Proof using Hnd.
  intros Hq%(qreach_inv tenants Hnd) Hl E old taken. pose proof (qi_store _ _ Hq) as Hs.
  destruct (Expire_ok tenants Hnd _ _ _ _ _ _ _ Hs E) as (_ & H & _).
  destruct (H eq_refl eq_refl) as [Hres Hrows]. clear H.
  assert (sel_expire (ms before) lim (rows (q_store q)) = taken) as Hsel.
  { unfold sel_expire, limit. destruct (Z.ltb_spec lim 0); [lia|]. unfold taken. f_equal. apply list_filter_iff.
    intros r. unfold old, has_state. by rewrite andb_true_iff, bool_decide_eq_true, Z.ltb_lt. }
  rewrite Hsel in Hres, Hrows.
  assert (rows s' = filter (λ r, m_id r ∉ m_id <$> taken) (rows (q_store q))) as Hr.
  { destruct (decide (taken = [])) as [Hz|Hz].
    - rewrite Hz, filter_all by (intros; by apply not_elem_of_nil).
      revert E. unfold Expire. rewrite Hsel, Hz. cbn. by intros [= _ <-].
    - rewrite (Hrows Hz). unfold sql_expire. rewrite Hsel. apply list_filter_iff. intros r.
      unfold in_ids. by rewrite bool_decide_eq_false. }
  split_and!; [done|done|]. intros r Hin Ho. rewrite Hr. apply list_elem_of_filter. split; [|done].
  intros Hid. apply list_elem_of_fmap in Hid as (r0 & Hid & Hr0).
  assert (r0 ∈ filter old (rows (q_store q))) as [Ho0 Hin0]%list_elem_of_filter
    by (eapply elem_of_sublist; [done|apply sublist_take]).
  apply Ho. by rewrite (same_id (rows (q_store q)) r r0 (ids_nodup _ _ Hs) Hin Hin0 Hid).
Qed.

(** A call one of whose statements fails. *)
Definition failing (o : qop) : Prop :=
  match o with
  | QNextID | QWake => False
  | QInsert _ _ _ fail _ _ _ | QPutDEK fail _ | QClaim fail _ _ _ _ | QAck fail _ _ | QRelease fail _ _
  | QDead fail _ _ | QCensus fail _ _ _ => fail ≠ None
  | QReclaim fr fw _ | QExpire fr fw _ _ => fr ≠ None ∨ fw ≠ None
  end.

(** A failed statement changes nothing: whatever call it fails in, every row and
    every counter of the ledger is what it was, no batch is handed out and no id
    accepted, so the call can simply be made again. *)
Theorem failed_call_changes_nothing o q q' :
  qreach tenants q → failing o → qexec tenants o q = Some q' →
  rows (q_store q') = rows (q_store q) ∧ led (q_store q') = led (q_store q) ∧
  q_handed q' = q_handed q ∧ q_born q' = q_born q ∧ q_acked q' = q_acked q ∧ q_expired q' = q_expired q.
Proof using Hnd.
  intros Hq%(qreach_inv tenants Hnd) Hf Hex. unfold qexec in Hex.
  destruct (qrun tenants o (q_store q)) as [[s' l]|] eqn:E; [|done]. injection Hex as <-. cbn.
  assert (rows s' = rows (q_store q) ∧ led s' = led (q_store q) ∧ l = []) as (Hr & Hl & ->).
  { pose proof (qi_store _ _ Hq) as Hs. destruct o; cbn [qrun failing] in *; [done|..].
    - unfold Insert in E. destruct (tenants !! idx); [|done]. destruct fail; [|done]. by injection E as <- <-.
    - unfold PutDEK in E. destruct fail; [|done]. by injection E as <- <-.
    - unfold Claim in E. destruct (tenants !! idx); [|done]. destruct fail; [|done]. by injection E as <- <-.
    - unfold Ack in E. destruct (negb _); [done|]. destruct fail; [|done]. by injection E as <- <-.
    - unfold Release in E. destruct (negb _); [done|]. destruct fail; [|done]. by injection E as <- <-.
    - unfold Dead in E. destruct (negb _); [done|]. destruct fail; [|done]. by injection E as <- <-.
    - unfold Reclaim in E. destruct fail_read; [by injection E as <- <-|]. destruct (counts_of _ _) as [m tot].
      destruct (tot =? 0); [by injection E as <- <-|]. destruct fail_write; [by injection E as <- <-|]. by destruct Hf.
    - unfold Expire in E. destruct fail_read; [by injection E as <- <-|]. destruct (counts_of _ _) as [m tot].
      destruct (tot =? 0); [by injection E as <- <-|]. destruct fail_write; [by injection E as <- <-|]. by destruct Hf.
    - unfold Census in E. destruct fail; [|done]. by injection E as <- <-.
    - done. }
  assert (gone (q_store q) s' = [] ∧ born (q_store q) s' = []) as [-> ->].
  { unfold gone, born, ids_of. rewrite Hr. split; apply elem_of_nil_inv; intros x [? ?]%list_elem_of_filter; done. }
  split_and!; [done|done|by destruct o|done|by destruct o|by destruct o].
Qed.
End Promises.

(** ** Witnesses *)

Section Witnesses.
#[local] Existing Instance QDemo.in_order.
#[local] Existing Instance Demo.list_range.

Lemma demo_nodup : NoDup QDemo.tenants.
Proof. apply (bool_decide_unpack _). vm_compute. done. Qed.


Lemma message_accounted_witness :
  q_acked (QDemo.ran QDemo.ops) = [1] ∧ NoDup (q_born (QDemo.ran QDemo.ops)).
Proof.
  split; [vm_compute; reflexivity|].
  exact (proj1 (proj2 (message_accounted QDemo.tenants demo_nodup (QDemo.ran QDemo.ops) (QDemo.ran_reach _)))).
Defined.

Definition two_in : list qop := QDemo.put 100 1 0 ++ QDemo.put 110 2 0.
Definition claim_one : qop := QClaim None sound_cursor 0 1 (QDemo.at_ 500).
Definition claimed_one : qstate := QDemo.ran (two_in ++ [claim_one]).
Definition row1 (st : rstate) (u : option Z) : row :=
  mkRow 1 "t-0001" "t-0001/dek-1" (repeat Byte.x61 3) st 0 100 u.

Lemma row_life_witness : ∃ r, r ∈ rows (q_store (QDemo.ran two_in)) ∧ moves r (row1 SClaimed (Some 500)).
Proof.
  destruct (row_life QDemo.tenants demo_nodup claim_one (QDemo.ran two_in) claimed_one (row1 SClaimed (Some 500)))
    as [H|H]; [apply QDemo.ran_reach|by left|vm_compute; reflexivity|vm_compute; left|exact H|].
  exfalso. destruct H as [_ [_ [H _]]]. discriminate H.
Defined.

Lemma claim_takes_oldest_witness :
  let res := Claim QDemo.tenants None sound_cursor 0 1 (QDemo.at_ 500) (q_store (QDemo.ran two_in)) in
  ∃ b e s', res = Some ((b, e), s') ∧ b_Msgs b = [message_of (row1 SReady None)] ∧ e = None.
Proof.
  eexists _, _, _. split; [vm_compute; reflexivity|]. split; [reflexivity|].
  refine (proj1 (claim_takes_oldest QDemo.tenants demo_nodup (QDemo.ran two_in) 0 1 (QDemo.at_ 500) "t-0001"
    _ _ _ (QDemo.ran_reach _) _ eq_refl _)); [lia|vm_compute; reflexivity].
Defined.

Lemma claim_release_roundtrip_witness :
  ∃ b s1 ra s2,
    Claim QDemo.tenants None sound_cursor 0 2 (QDemo.at_ 500) (q_store (QDemo.ran two_in)) = Some ((b, None), s1) ∧
    Release QDemo.tenants None 0 (msg_ID <$> b_Msgs b) s1 = Some ((ra, None), s2) ∧ ra = 2 ∧
    rows s2 = rows (q_store (QDemo.ran two_in)).
Proof.
  eexists _, _, _, _. split; [vm_compute; reflexivity|]. split; [vm_compute; reflexivity|].
  split; [reflexivity|].
  refine (proj1 (claim_release_roundtrip QDemo.tenants demo_nodup (QDemo.ran two_in) 0 2 (QDemo.at_ 500) _ _ _ _
    (QDemo.ran_reach _) _ _)); vm_compute; reflexivity.
Defined.

Lemma reclaim_exact_witness :
  ∃ res s', Reclaim QDemo.tenants None None (QDemo.at_ 501) (q_store claimed_one) = (res, s') ∧
    res = (1, None) ∧ row1 SReady None ∈ rows s'.
Proof.
  eexists _, _. split; [vm_compute; reflexivity|]. split; [|vm_compute; left].
  refine (eq_trans (proj1 (reclaim_exact QDemo.tenants demo_nodup claimed_one (QDemo.at_ 501) _ _
    (QDemo.ran_reach _) _)) _); vm_compute; reflexivity.
Defined.

Lemma expire_exact_witness :
  ∃ res s', Expire QDemo.tenants None None (QDemo.at_ 105) 10 (q_store (QDemo.ran two_in)) = (res, s') ∧
    res = (1, None) ∧ (m_id <$> rows s') = [2].
Proof.
  eexists _, _. split; [vm_compute; reflexivity|]. split; [|vm_compute; reflexivity].
  refine (eq_trans (proj1 (expire_exact QDemo.tenants demo_nodup (QDemo.ran two_in) (QDemo.at_ 105) 10 _ _
    (QDemo.ran_reach _) _ _)) _); [lia|vm_compute; reflexivity..].
Defined.

Lemma failed_call_changes_nothing_witness :
  ∃ q', qexec QDemo.tenants (QAck (Some (ErrText "database is locked")) 0 [1]) claimed_one = Some q' ∧
    rows (q_store q') = rows (q_store claimed_one).
Proof.
  eexists. split; [vm_compute; reflexivity|].
  refine (proj1 (failed_call_changes_nothing QDemo.tenants demo_nodup
    (QAck (Some (ErrText "database is locked")) 0 [1]) claimed_one _ (QDemo.ran_reach _) _ _));
    [discriminate|vm_compute; reflexivity].
Defined.
End Witnesses.
