(* ===== verification/Admit.v ===== *)
(** * internal/admit/gate.go: admission

    The gate over the ledger view the [Backlog] interface gives it and the token
    buckets of [golang.org/x/time/rate], a parameter.  Go's [int] is 64 bits. *)

From S2P Require Import Prelude GoLib GoFloat Kms Tink Lease Cmek Store.
Local Open Scope string_scope.
Local Open Scope Z_scope.

Definition ErrRateLimited : err := Sentinel "admit.ErrRateLimited" "admit: rate_limited".
Definition ErrBacklogFull : err := Sentinel "admit.ErrBacklogFull" "admit: backlog_full".
Definition ErrOverloaded : err := Sentinel "admit.ErrOverloaded" "admit: overloaded".

(** [type Backlog interface]: what admission reads of the queue. *)
Class Backlogs (B : Type) := {
  Backlog : B → nat → Z;
  Total : B → Z;
  Backlogged : B → Z
}.

#[export] Instance store_backlogs : Backlogs Store := {|
  Backlog := Store.Backlog; Total := Store.Total; Backlogged := Store.Backlogged |}.

(** One token bucket of [x/time/rate]. *)
Class RateLimit := {
  Limiter : Type;
  NewLimiter : float64 → Z → Limiter;
  AllowN : Limiter → Time → Z → bool * Limiter
}.

(** [math.MaxInt]. *)
Definition MaxInt : Z := maxInt64.

Section Gate.
Context `{RL : RateLimit} {B : Type} `{BL : Backlogs B}.

Record Config := mkConfig {
  g_Tenants : nat; g_Rate : float64; g_Burst : Z; g_TenantCap : Z; g_GlobalCap : Z; g_FairShare : bool }.

Record Gate := mkGate { limiters : list Limiter; g_cfg : Config }.

Definition New (cfg : Config) : Gate :=
  mkGate (replicate (g_Tenants cfg) (NewLimiter (g_Rate cfg) (g_Burst cfg))) cfg.

Definition FairShare (g : Gate) (b : B) : Z :=
  if negb (g_FairShare (g_cfg g)) then MaxInt
  else
    let n := Backlogged b in
    let n := if n <? 1 then 1 else n in
    Z.quot (g_GlobalCap (g_cfg g)) n.

Definition WithinShare (g : Gate) (b : B) (idx : nat) : bool := Backlog b idx <=? FairShare g b.

Definition with_limiter (g : Gate) (idx : nat) (l : Limiter) : Gate :=
  mkGate (<[idx := l]> (limiters g)) (g_cfg g).

(** [Admit]; [b], [bs] and [bt] are the ledger at its three reads (the tenant's
    backlog, the number of backlogged tenants, the total), which other goroutines
    may change in between, and [now] is its clock read.  [None] is an index out of
    range of the limiters. *)
Definition Admit (g : Gate) (b bs bt : B) (now : Time) (idx : nat) : option ((bool * option err) * Gate) :=
  let bl := Backlog b idx in
  let within := bl <=? FairShare g bs in
  if (g_GlobalCap (g_cfg g) <=? Total bt) && (negb (g_FairShare (g_cfg g)) || negb within)
  then Some ((within, Some ErrOverloaded), g)
  else
    match limiters g !! idx with
    | None => None
    | Some l =>
        let '(ok, l') := AllowN l now 1 in
        let g := with_limiter g idx l' in
        if negb ok then Some ((within, Some ErrRateLimited), g)
        else if g_TenantCap (g_cfg g) <=? bl then Some ((within, Some ErrBacklogFull), g)
        else Some ((within, None), g)
    end.
End Gate.

(** ** What admission guarantees *)

Section GateSpec.
Context `{RL : RateLimit} {B : Type} `{BL : Backlogs B}.

(** C10. With fair share on, a tenant whose backlog is within its share is never shed
    for overload, however full the queue is, and a shed never costs it a token:
    the answer [overloaded] leaves every bucket as it was. *)
Theorem overload_spares_within_share g b bs bt now idx within e g' :
  Admit g b bs bt now idx = Some ((within, e), g') →
  within = (Backlog b idx <=? FairShare g bs) ∧
  (e = Some ErrOverloaded → g' = g ∧ g_GlobalCap (g_cfg g) <= Total bt ∧
     (g_FairShare (g_cfg g) = true → within = false)).
Proof.
  unfold Admit. destruct (Z.leb_spec (g_GlobalCap (g_cfg g)) (Total bt)) as [Hg|Hg]; cbn [andb].
  - destruct (negb (g_FairShare (g_cfg g)) || _) eqn:E.
    + intros [= <- <- <-]. split; [done|]. intros _. split_and!; [done..|]. intros Hf. rewrite Hf in E.
      by apply negb_true_iff in E.
    + destruct (limiters g !! idx) as [l|]; [|done]. destruct (AllowN l now 1) as [ok l'].
      destruct ok; cbn [negb]; [case_match|]; by intros [= <- <- <-].
  - destruct (limiters g !! idx) as [l|]; [|done]. destruct (AllowN l now 1) as [ok l'].
    destruct ok; cbn [negb]; [case_match|]; by intros [= <- <- <-].
Qed.

(** The whole decision, cheapest check first: below the cap or within share the
    token bucket is asked, once, and its new state kept whatever follows (a token
    spent on a full backlog is not refunded); admission means the tenant is below
    its own cap and the bucket said yes. *)
Theorem admit_decision g b bs bt now idx l :
  limiters g !! idx = Some l →
  let bl := Backlog b idx in
  let shed := (g_GlobalCap (g_cfg g) <= Total bt) ∧
              (g_FairShare (g_cfg g) = false ∨ FairShare g bs < bl) in
  ∃ within e g', Admit g b bs bt now idx = Some ((within, e), g') ∧
    (shed → e = Some ErrOverloaded ∧ g' = g) ∧
    (~ shed → limiters g' !! idx = Some (AllowN l now 1).2 ∧
       (∀ j, j ≠ idx → limiters g' !! j = limiters g !! j) ∧
       e = (if (AllowN l now 1).1 then if g_TenantCap (g_cfg g) <=? bl then Some ErrBacklogFull else None
            else Some ErrRateLimited)).
Proof.
  intros Hl bl shed. unfold Admit. fold bl.
  destruct ((g_GlobalCap (g_cfg g) <=? Total bt) && _) eqn:E.
  - eexists _, _, _. split; [done|]. split; [done|]. intros Hn. destruct Hn. unfold shed.
    apply andb_true_iff in E as [E1 E2]. apply orb_true_iff in E2. split; [lia|].
    destruct E2 as [E2|E2]; apply negb_true_iff in E2; [by left|right; lia].
  - rewrite Hl. destruct (AllowN l now 1) as [ok l'] eqn:El. cbn [fst snd].
    assert (∀ (e : option err) (w : bool), ∃ within e0 g',
      Some ((w, e), with_limiter g idx l') = Some ((within, e0), g') ∧
      (shed → e0 = Some ErrOverloaded ∧ g' = g) ∧
      (~ shed → limiters g' !! idx = Some l' ∧ (∀ j, j ≠ idx → limiters g' !! j = limiters g !! j) ∧ e0 = e)) as Hgen.
    { intros e w. eexists _, _, _. split; [done|]. split.
      - intros [H1 H2]. apply andb_false_iff in E. exfalso. destruct E as [E|E]; [lia|].
        apply orb_false_iff in E as [E1 E2]. apply negb_false_iff in E1, E2. destruct H2; [congruence|]. lia.
      - intros _. cbn. split_and!; [|intros; by rewrite list_lookup_insert_ne|done].
        apply list_lookup_insert_eq. by eapply lookup_lt_Some. }
    destruct ok; cbn [negb g_cfg with_limiter]; [destruct (_ <=? bl)|]; apply Hgen.
Qed.

(** The share is what the cap divided by the backlogged tenants leaves, at least
    nothing and at most the cap, and never a division by zero; with fair share off
    every tenant is within share. *)
Theorem share_bounds g b :
  0 <= g_GlobalCap (g_cfg g) →
  (g_FairShare (g_cfg g) = true →
     0 <= FairShare g b <= g_GlobalCap (g_cfg g) ∧
     Z.max 1 (Backlogged b) * FairShare g b <= g_GlobalCap (g_cfg g) < Z.max 1 (Backlogged b) * (FairShare g b + 1)) ∧
  (g_FairShare (g_cfg g) = false → ∀ idx, Backlog b idx <= maxInt64 → WithinShare g b idx = true).
Proof.
  intros Hc. split.
  - intros Hf. unfold FairShare. rewrite Hf. cbn [negb].
    set (n := if Backlogged b <? 1 then 1 else Backlogged b).
    assert (n = Z.max 1 (Backlogged b)) as <- by (unfold n; destruct (Z.ltb_spec (Backlogged b) 1); lia).
    assert (1 <= n) by (unfold n; destruct (Z.ltb_spec (Backlogged b) 1); lia).
    pose proof (Z.quot_rem' (g_GlobalCap (g_cfg g)) n) as Hq.
    pose proof (Z.rem_bound_pos (g_GlobalCap (g_cfg g)) n Hc ltac:(lia)) as Hr.
    pose proof (Z.quot_pos (g_GlobalCap (g_cfg g)) n Hc ltac:(lia)) as Hp. nia.
  - intros Hf idx Hb. unfold WithinShare, FairShare. rewrite Hf. cbn [negb]. unfold MaxInt. lia.
Qed.
End GateSpec.
