(* ===== verification/Ingest.v ===== *)
(** * internal/world/ingest.go: the front door

    [IngestID] as the code composes it: admit, key, id, seal, insert, and one
    metrics count on every path; and [Outcome], the program's only mapping from an
    error to an HTTP answer.  The answers of the components it calls through an
    interface (the clock, [EncryptKey], the disk) are the argument [door]. *)

From S2P Require Import Prelude GoLib GoFloat Kms Tink Lease Cmek Store StoreInv StoreOps Queue Sealing Admit.
From Stdlib Require Import Sorting.Sorted.
Local Open Scope string_scope.
Local Open Scope Z_scope.

Definition ErrUnknownTenant : err := Sentinel "world.ErrUnknownTenant" "world: unknown tenant".

Record RetryAfter := mkRetryAfter {
  RateLimited : Z; BacklogFull : Z; Overloaded : Z; ra_KeyUnavailable : Z }.

(** net/http's status codes. *)
Definition StatusAccepted : Z := 202.
Definition StatusForbidden : Z := 403.
Definition StatusNotFound : Z := 404.
Definition StatusTooManyRequests : Z := 429.
Definition StatusInternalServerError : Z := 500.
Definition StatusServiceUnavailable : Z := 503.

Definition Outcome (e : option err) (ra : RetryAfter) : Z * string * Z :=
  match e with
  | None => (StatusAccepted, "", 0)
  | Some e =>
      if errors.Is e ErrUnknownTenant then (StatusNotFound, "unknown_tenant", 0)
      else if errors.Is e ErrOverloaded then (StatusServiceUnavailable, "overloaded", Overloaded ra)
      else if errors.Is e ErrRateLimited then (StatusTooManyRequests, "rate_limited", RateLimited ra)
      else if errors.Is e ErrBacklogFull then (StatusTooManyRequests, "backlog_full", BacklogFull ra)
      else if errors.Is e ErrKeyRevoked then (StatusForbidden, "key_revoked", 0)
      else if errors.Is e ErrKeyUnavailable || errors.Is e ErrLeaseExpired
           then (StatusServiceUnavailable, "key_unavailable", ra_KeyUnavailable ra)
      else (StatusInternalServerError, "internal", 0)
  end.

Definition reasonFor (e : option err) : string :=
  let '(_, reason, _) := Outcome e (mkRetryAfter 0 0 0 0) in
  if bool_decide (reason = "") then "accepted" else reason.

Section Ingest.
Context `{RL : RateLimit} `{TK : Tink}.
Context (tenants : list string).

(** What one call finds at the interfaces it calls: the ledger at admission's
    three reads, the clock at each read, [EncryptKey]'s answer, the IV Tink
    draws, and how the INSERT ends. *)
Record door := mkDoor {
  d_backlog : Store; d_share : Store; d_total : Store; d_admit : Time;
  d_key : err + Handle; d_seal : Time; d_iv : bytes;
  d_now : Time; d_start : Time; d_end : Time; d_disk : option err }.

(** The calls it makes on other components, in order. *)
Inductive icall :=
  | CAdmit (idx : nat)
  | CEncryptKey (tenant : string)
  | CNextID (id : Z)
  | CInsert (idx : nat) (id : Z) (env : Envelope)
  | CMetrics (idx : nat) (reason : string) (within : bool).

Record front := mkFront { f_store : Store; f_gate : Gate }.

(** [reject]: one count by reason and share class; the error goes back. *)
Definition reject (idx : nat) (within : bool) (e : err) : icall := CMetrics idx (reasonFor (Some e)) within.

(** [IngestID]; [None] is an index out of range. *)
Definition IngestID (d : door) (tenant : string) (payload : bytes) (w : front)
  : option ((err + Z) * list icall * front) :=
  match index tenants tenant with
  | None => Some (inl ErrUnknownTenant, [], w)
  | Some idx =>
      '(within, e, g) ← Admit (f_gate w) (d_backlog d) (d_share d) (d_total d) (d_admit d) idx;
      let w := mkFront (f_store w) g in
      match e with
      | Some e => Some (inl e, [CAdmit idx; reject idx within e], w)
      | None =>
          match d_key d with
          | inl e => Some (inl e, [CAdmit idx; CEncryptKey tenant; reject idx within e], w)
          | inr h =>
              let '(id, s) := NextID (f_store w) in
              let w := mkFront s (f_gate w) in
              match Seal h (d_seal d) tenant id (d_iv d) payload with
              | inl e => Some (inl e, [CAdmit idx; CEncryptKey tenant; CNextID id; reject idx within e], w)
              | inr env =>
                  '(e, s) ← Insert tenants (d_now d) (d_start d) (d_end d) (d_disk d) idx id env (f_store w);
                  let w := mkFront s (f_gate w) in
                  match e with
                  | Some e =>
                      let e := Errorf "world: insert: " e "" in
                      Some (inl e, [CAdmit idx; CEncryptKey tenant; CNextID id; CInsert idx id env;
                                    reject idx within e], w)
                  | None =>
                      Some (inr id, [CAdmit idx; CEncryptKey tenant; CNextID id; CInsert idx id env;
                                     CMetrics idx "accepted" within], w)
                  end
              end
          end
      end
  end.

Definition Ingest (d : door) (tenant : string) (payload : bytes) (w : front)
  : option (option err * list icall * front) :=
  '(r, t, w') ← IngestID d tenant payload w;
  Some (match r with inl e => Some e | inr _ => None end, t, w').
End Ingest.

Definition is_metrics (c : icall) : bool := match c with CMetrics _ _ _ => true | _ => false end.
Definition is_key (c : icall) : bool := match c with CEncryptKey _ => true | _ => false end.

Section IngestSpec.
Context `{RL : RateLimit} `{TK : Tink} {TL : TinkLaws TK}.
Context (tenants : list string).

(** One answer, one count: a known tenant's call is counted exactly once, with
    the reason of its HTTP answer, whichever step it ended at; it counts as
    accepted exactly when it got an id, and an unknown tenant costs nothing. *)
Theorem ingest_counts_once d tenant payload w r t w' :
  IngestID tenants d tenant payload w = Some (r, t, w') →
  (index tenants tenant = None → r = inl ErrUnknownTenant ∧ t = [] ∧ w' = w) ∧
  (∀ idx, index tenants tenant = Some idx →
     ∃ within, filter (λ c, is_metrics c = true) t
       = [CMetrics idx (match r with inl e => reasonFor (Some e) | inr _ => "accepted" end) within] ∧
     ((∃ id, r = inr id) ↔ CMetrics idx "accepted" within ∈ t)).
Proof.
  assert (∀ e, reasonFor (Some e) ≠ "accepted") as Hr.
  { intros e. unfold reasonFor, Outcome. repeat case_match; simplify_eq/=; try done. }
  unfold IngestID. destruct (index tenants tenant) as [idx|]; [|by intros [= <- <- <-]].
  destruct (Admit _ _ _ _ _ _) as [[[within e] g]|]; [|done]. cbn [mbind option_bind].
  intros E. split; [done|]. intros ? [= <-]. exists within.
  assert (∀ pre e0, r = inl e0 → t = (pre ++ [reject idx within e0])%list →
    Forall (λ c, is_metrics c = false) pre →
    filter (λ c, is_metrics c = true) t
      = [CMetrics idx (match r with inl e => reasonFor (Some e) | inr _ => "accepted" end) within] ∧
    ((∃ id, r = inr id) ↔ CMetrics idx "accepted" within ∈ t)) as Hrej.
  { intros pre e0 -> -> Hpre. split.
    - assert (filter (λ c, is_metrics c = true) pre = []) as Hnil.
      { clear -Hpre. induction Hpre as [|c pre Hc _ IH]; [done|]. rewrite filter_cons, decide_False; [done|congruence]. }
      by rewrite filter_app, Hnil.
    - split; [by intros [? ?]|]. rewrite elem_of_app, list_elem_of_singleton. rewrite Forall_forall in Hpre.
      intros [H%Hpre|[= H]]; [done|]. symmetry in H. by apply Hr in H. }
  destruct e as [e|]; [injection E as <- <- <-; apply (Hrej [CAdmit idx] e); [done|done|repeat constructor]|].
  destruct (d_key d) as [e|h]; [injection E as <- <- <-; apply (Hrej [CAdmit idx; CEncryptKey tenant] e); [done|done|repeat constructor]|].
  cbn [f_store NextID] in E.
  destruct (Seal _ _ _ _ _ _) as [e|env];
    [injection E as <- <- <-; eapply (Hrej [CAdmit idx; CEncryptKey tenant; CNextID _] e); [done|done|repeat constructor]|].
  destruct (Insert _ _ _ _ _ _ _ _ _) as [[e s1]|]; [|done]. cbn [mbind option_bind] in E.
  destruct e as [e|]; injection E as <- <- <-;
    [eapply (Hrej [CAdmit idx; CEncryptKey tenant; CNextID _; CInsert idx _ env] (Errorf "world: insert: " e "")); [done|done|repeat constructor]|].
  split; [done|]. split; [intros _; set_solver|eauto].
Qed.

(** An error leaves the rows and the ledger. *)
Lemma IngestID_refused d tenant payload w e t w' : IngestID tenants d tenant payload w = Some (inl e, t, w') →
  rows (f_store w') = rows (f_store w) ∧ led (f_store w') = led (f_store w).
Proof.
  unfold IngestID. destruct (index tenants tenant) as [idx|]; [|by intros [= <- <- <-]].
  destruct (Admit _ _ _ _ _ _) as [[[within e0] g]|]; [|done]. cbn [mbind option_bind].
  destruct e0 as [e0|]; [by intros [= <- <- <-]|]. destruct (d_key d) as [e1|h]; [by intros [= <- <- <-]|].
  cbn [f_store NextID]. destruct (Seal _ _ _ _ _ _) as [e1|env]; [by intros [= <- <- <-]|].
  unfold Insert. destruct (tenants !! idx); [|done]. destruct (d_disk d); cbn [mbind option_bind]; [by intros [= <- <- <-]|].
  destruct (sql_insert _ _); cbn [mbind option_bind]; [done|]. by intros [= <- <- <-].
Qed.

(** A refused event leaves no trace in the queue: on every error path the rows
    and the ledger are what they were, and an event admission refuses costs neither
    a key nor an id: the only calls made are the check and its count. *)
Theorem refused_leaves_queue d tenant payload w e t w' :
  IngestID tenants d tenant payload w = Some (inl e, t, w') →
  rows (f_store w') = rows (f_store w) ∧ led (f_store w') = led (f_store w) ∧
  (∀ idx within e0 g, index tenants tenant = Some idx →
     Admit (f_gate w) (d_backlog d) (d_share d) (d_total d) (d_admit d) idx = Some ((within, Some e0), g) →
     e = e0 ∧ t = [CAdmit idx; CMetrics idx (reasonFor (Some e0)) within] ∧ f_store w' = f_store w).
Proof.
  intros H. destruct (IngestID_refused _ _ _ _ _ _ _ H) as [H1 H2]. split_and!; [done..|]. intros idx within e0 g Hi Ha.
  unfold IngestID in H. rewrite Hi, Ha in H. cbn [mbind option_bind] in H. by injection H as -> <- <-.
Qed.

(** An accepted event is stored, and stored as itself: exactly one row is added,
    ready, under the id the caller gets; its ciphertext was sealed within the
    handle's lease and opens, with any handle on the same DEK whose lease lasts, to
    exactly the bytes that came in. *)
Theorem accepted_is_stored d tenant payload w id t w' :
  NoDup tenants → StronglySorted Z.lt (m_id <$> rows (f_store w)) →
  IngestID tenants d tenant payload w = Some (inr id, t, w') →
  ∃ h env,
    d_key d = inr h ∧ d_seal d < h_ValidUntil h ∧
    rows (f_store w') ≡ₚ
      mkRow id tenant (env_DEKID env) (env_Ciphertext env) SReady 0 (ms (d_now d)) None :: rows (f_store w) ∧
    id ∉ m_id <$> rows (f_store w) ∧
    (∀ h' now', h_DEKID h' = h_DEKID h → h_prim h' = h_prim h → now' < h_ValidUntil h' →
       Open h' now' tenant id env = inr payload).
Proof.
  intros Hnd Hsort. unfold IngestID. destruct (index tenants tenant) as [idx|] eqn:Hi; [|done].
  apply index_Some in Hi; [|done].
  destruct (Admit _ _ _ _ _ _) as [[[within e0] g]|]; [|done]. cbn [mbind option_bind].
  destruct e0; [done|]. destruct (d_key d) as [e1|h]; [done|]. cbn [f_store NextID].
  destruct (Seal _ _ _ _ _ _) as [e1|env] eqn:Es; [done|]. unfold Insert. rewrite Hi.
  destruct (d_disk d); cbn [mbind option_bind]; [done|].
  destruct (sql_insert _ _) as [rs|] eqn:E; cbn [mbind option_bind]; [|done]. intros [= <- <- <-].
  exists h, env. split; [done|]. split; [by destruct (Seal_inv _ _ _ _ _ _ _ Es)|].
  destruct (insert_spec tenants Hnd _ _ _ E Hsort) as [Hp _]. split_and!; [exact Hp| |].
  - unfold sql_insert in E. by case_bool_decide.
  - intros h' now' H1 H2 H3. destruct (Seal_inv _ _ _ _ _ _ _ Es) as (_ & E1 & prim & E2 & E3).
    unfold Open, Time.Before. destruct (Z.ltb_spec now' (h_ValidUntil h')); [|lia]. cbn [negb].
    rewrite bool_decide_eq_true_2 by congruence. cbn [negb]. rewrite H2, E2, E1.
    by rewrite (decrypt_encrypt _ _ _ _ _ E3).
Qed.
End IngestSpec.

(** The sentinels an answer is made for. *)
Definition answered : list (err * (Z * string)) :=
  [(ErrUnknownTenant, (404, "unknown_tenant")); (ErrOverloaded, (503, "overloaded"));
   (ErrRateLimited, (429, "rate_limited")); (ErrBacklogFull, (429, "backlog_full"));
   (ErrKeyRevoked, (403, "key_revoked")); (ErrKeyUnavailable, (503, "key_unavailable"));
   (ErrLeaseExpired, (503, "key_unavailable"))].

(** The HTTP answer depends on the sentinel alone: wrapping an error with [%w]
    never changes it, each of the seven sentinels has the answer the API documents,
    anything else is an internal error, only a 429 or a 503 tells the client to
    retry, and nothing but success is a 202. *)
Theorem outcome_by_sentinel ra e :
  (∀ pre post, Outcome (Some (Errorf pre e post)) ra = Outcome (Some e) ra) ∧
  (∀ s ans, (s, ans) ∈ answered → (Outcome (Some s) ra).1 = ans) ∧
  (Forall (λ sa, errors.Is e sa.1 = false) answered → Outcome (Some e) ra = (500, "internal", 0)) ∧
  (let '(status, reason, retry) := Outcome (Some e) ra in
   status ≠ 202 ∧ reason ≠ "" ∧ (retry ≠ 0 → status = 429 ∨ status = 503)).
Proof.
  split_and!; [done| | |].
  - intros s ans Hs. unfold answered in Hs.
    repeat (apply elem_of_cons in Hs as [[= -> ->]|Hs]; [reflexivity|]). by apply not_elem_of_nil in Hs.
  - unfold answered. rewrite !Forall_cons. cbn [fst]. intros (H1&H2&H3&H4&H5&H6&H7&_).
    unfold Outcome. by rewrite H1, H2, H3, H4, H5, H6, H7.
  - unfold Outcome. repeat case_match; simplify_eq; split_and!; try done; intros; auto.
Qed.

(** ** Runs of the front door *)

Section Offer.
Context `{RL : RateLimit} `{TK : Tink}.
Context (tenants : list string).

(** Events offered one after the other with nothing delivered in between: each
    call's ledger reads see the store the previous one left.  [None] unless all
    are accepted. *)
Fixpoint offer (now : Time) (h : string → Handle) (ts : list string) (w : front) : option front :=
  match ts with
  | [] => Some w
  | t :: ts' =>
      let s := f_store w in
      match IngestID tenants (mkDoor s s s now (inr (h t)) now [] now now now None) t [Byte.x61] w with
      | Some (inr _, _, w') => offer now h ts' w'
      | _ => None
      end
  end.
End Offer.

(** A bucket that is filled once. *)
Definition once_bucket : RateLimit := {|
  Limiter := Z; NewLimiter _ burst := burst;
  AllowN l _ n := if n <=? l then (true, l - n) else (false, l) |}.

Module Surge.
#[export] Existing Instance once_bucket.
#[export] Existing Instance Toy.tink.
Definition tenants : list string := ["t1"; "t2"; "t3"; "t4"; "t5"; "t6"].
Definition cfg : Admit.Config := mkConfig 6 F.one 200 500 6 true.
Definition start : front := mkFront (Open_store tenants) (New cfg).
Definition handle (t : string) : Handle := mkHandle (t +:+ "/1") 100 (Some [Byte.x07]).
Definition events : list string :=
  replicate 7 "t1" ++ replicate 4 "t2" ++ replicate 3 "t3" ++ replicate 2 "t4" ++ replicate 2 "t5" ++ replicate 2 "t6".
End Surge.

(** The documented overshoot bound does not hold.  The design reference, and the
    L4 light after it, bound the backlog by [GlobalCap + Backlogged × fairShare],
    which is at most twice the cap.  The fair share shrinks as tenants join the
    backlog, so what earlier tenants were admitted under a larger share stays: with
    a cap of 6, six tenants that fill up one after the other are admitted, every
    event of them, to a backlog of 20. *)
Theorem overshoot_exceeds_documented_bound :
  ∃ w, offer Surge.tenants 50 Surge.handle Surge.events Surge.start = Some w ∧
    let cap := g_GlobalCap Surge.cfg in
    let b := Backlogged (f_store w) in
    g_FairShare Surge.cfg = true ∧ b = 6 ∧ Total (f_store w) = 20 ∧
    cap + b * FairShare (f_gate w) (f_store w) = 12 ∧ 2 * cap < Total (f_store w).
Proof. eexists. split; [vm_compute; reflexivity|]. split_and!; vm_compute; reflexivity. Qed.

(** ** Witnesses *)

Section IngestWitnesses.
#[local] Existing Instance once_bucket.
#[local] Existing Instance Toy.tink.
#[local] Existing Instance Toy.laws.

Definition small_start (cap : Z) : front :=
  mkFront (Open_store Surge.tenants) (New (mkConfig 6 F.one 200 500 cap false)).
Definition at_door (s : Store) : door := mkDoor s s s 50 (inr (Surge.handle "t1")) 50 [] 50 50 50 None.

Definition filled : front := default Surge.start (offer Surge.tenants 50 Surge.handle (replicate 7 "t1") Surge.start).

Lemma overload_spares_within_share_witness :
  Admit (f_gate Surge.start) (f_store filled) (f_store filled) (f_store filled) 50 0
    = Some ((false, Some ErrOverloaded), f_gate Surge.start) ∧ 6 <= Total (f_store filled).
Proof.
  split; [vm_compute; reflexivity|].
  refine (proj1 (proj2 (proj2 (overload_spares_within_share (f_gate Surge.start) (f_store filled) (f_store filled)
    (f_store filled) 50 0 false (Some ErrOverloaded) (f_gate Surge.start) _) eq_refl))). vm_compute. reflexivity.
Defined.

Lemma admit_decision_witness :
  ∃ within e g', Admit (f_gate Surge.start) (f_store Surge.start) (f_store Surge.start) (f_store Surge.start) 50 0
    = Some ((within, e), g').
Proof.
  destruct (admit_decision (f_gate Surge.start) (f_store Surge.start) (f_store Surge.start) (f_store Surge.start)
    50 0 200 eq_refl) as (within & e & g' & H & _). exists within, e, g'. exact H.
Defined.

Lemma share_bounds_witness : FairShare (f_gate Surge.start) (f_store Surge.start) <= 6.
Proof.
  refine (proj2 (proj1 (proj1 (share_bounds (f_gate Surge.start) (f_store Surge.start) _) _)));
    [vm_compute; discriminate|reflexivity].
Defined.

Lemma ingest_counts_once_witness :
  ∃ r t w', IngestID Surge.tenants (at_door (Open_store Surge.tenants)) "t1" [Byte.x61] (small_start 0) = Some (r, t, w') ∧
    ∃ within, filter (λ c, is_metrics c = true) t = [CMetrics 0 "overloaded" within].
Proof.
  eexists _, _, _. split; [vm_compute; reflexivity|].
  edestruct (ingest_counts_once Surge.tenants (at_door (Open_store Surge.tenants)) "t1" [Byte.x61] (small_start 0))
    as [_ H]; [vm_compute; reflexivity|].
  destruct (H 0%nat eq_refl) as (within & Hw & _). exists within. exact Hw.
Defined.

Lemma refused_leaves_queue_witness :
  ∃ e t w', IngestID Surge.tenants (at_door (Open_store Surge.tenants)) "t1" [Byte.x61] (small_start 0)
      = Some (inl e, t, w') ∧ rows (f_store w') = [].
Proof.
  eexists _, _, _. split; [vm_compute; reflexivity|].
  refine (proj1 (refused_leaves_queue Surge.tenants (at_door (Open_store Surge.tenants)) "t1" [Byte.x61]
    (small_start 0) _ _ _ _)). vm_compute. reflexivity.
Defined.

Lemma accepted_is_stored_witness :
  ∃ id t w', IngestID Surge.tenants (at_door (Open_store Surge.tenants)) "t1" [Byte.x61] (small_start 9)
      = Some (inr id, t, w') ∧
    ∃ env, Open (Surge.handle "t1") 60 "t1" id env = inr [Byte.x61] ∧ (m_ciphertext <$> rows (f_store w')) = [env_Ciphertext env].
Proof.
  eexists _, _, _. split; [vm_compute; reflexivity|].
  edestruct (accepted_is_stored Surge.tenants (at_door (Open_store Surge.tenants)) "t1" [Byte.x61] (small_start 9))
    as (h & env & Hk & _ & Hp & _ & Ho).
  - apply (bool_decide_unpack _). vm_compute. exact I.
  - constructor.
  - vm_compute. reflexivity.
  - injection Hk as <-. exists env. split; [apply Ho; [reflexivity..|vm_compute; reflexivity]|].
    apply Permutation_singleton_r in Hp || apply Permutation_singleton_l in Hp. rewrite Hp. reflexivity.
Defined.

Lemma outcome_by_sentinel_witness :
  (Outcome (Some ErrKeyRevoked) (mkRetryAfter 1 5 5 1)).1 = (403, "key_revoked").
Proof.
  apply (proj1 (proj2 (outcome_by_sentinel (mkRetryAfter 1 5 5 1) ErrKeyRevoked))). unfold answered. set_solver.
Defined.
End IngestWitnesses.
