(* ===== verification/Scheduler.v ===== *)
(** * internal/queue/scheduler.go: the fair ring

    [Next] over the two interfaces it is wired to: the ledger's lock-free reads
    ([Ready], [Backlog]), the fair share, and the gate's [Hot], which may kick a
    renewal: the tenants it is asked about are part of the result. *)

From S2P Require Import Prelude GoLib Kms Tink Lease Cmek Store Admit.
Local Open Scope Z_scope.

(** What one call of [Next] reads.  [Hot]'s answer for a tenant is one value per
    call: no call asks about a tenant twice ([hot_asked_once]). *)
Record view := mkView { v_ready : nat → Z; v_backlog : nat → Z; v_share : Z; v_hot : nat → bool }.

Record SchedulerConfig := mkSchedulerConfig {
  sc_HasShare : bool; sc_Tenants : nat; sc_TwoClass : bool; sc_LightTurns : Z }.

Record Scheduler := mkScheduler { cursorA : nat; cursorB : nat; turn : Z; s_cfg : SchedulerConfig }.

Definition NewScheduler (cfg : SchedulerConfig) : Scheduler :=
  mkScheduler 0 0 0
    (if negb (sc_HasShare cfg) || (sc_LightTurns cfg <? 1)
     then mkSchedulerConfig (sc_HasShare cfg) (sc_Tenants cfg) false (sc_LightTurns cfg) else cfg).

(** The cheap test of [scan]: ready, and of the wanted class. *)
Definition candidate (v : view) (want : bool) (fs : Z) (i : nat) : bool :=
  (0 <? v_ready v i) && bool_decide ((v_backlog v i <=? fs) = want).

(** The loop of [scan] over the offsets left. *)
Fixpoint scan_loop (v : view) (want : bool) (fs : Z) (cur n : nat) (ks : list nat) : option nat * list nat :=
  match ks with
  | [] => (None, [])
  | k :: ks' =>
      let i := ((cur + k) mod n)%nat in
      if candidate v want fs i then
        if v_hot v i then (Some i, [i])
        else let '(r, asked) := scan_loop v want fs cur n ks' in (r, i :: asked)
      else scan_loop v want fs cur n ks'
  end.

Definition cursor_of (want : bool) (s : Scheduler) : nat := if want then cursorA s else cursorB s.
Definition with_cursor (want : bool) (c : nat) (s : Scheduler) : Scheduler :=
  if want then mkScheduler c (cursorB s) (turn s) (s_cfg s) else mkScheduler (cursorA s) c (turn s) (s_cfg s).

Definition scan (v : view) (want : bool) (fs : Z) (s : Scheduler) : option nat * list nat * Scheduler :=
  let n := sc_Tenants (s_cfg s) in
  let '(r, asked) := scan_loop v want fs (cursor_of want s) n (seq 0 n) in
  match r with
  | Some i => (Some i, asked, with_cursor want ((i + 1) mod n)%nat s)
  | None => (None, asked, s)
  end.

Definition next_turn (s : Scheduler) : Scheduler :=
  mkScheduler (cursorA s) (cursorB s) (Z.rem (turn s + 1) (sc_LightTurns (s_cfg s) + 1)) (s_cfg s).

Definition Next (v : view) (s : Scheduler) : option nat * list nat * Scheduler :=
  if negb (sc_TwoClass (s_cfg s)) then scan v true MaxInt s
  else
    let fs := v_share v in
    let light := turn s <? sc_LightTurns (s_cfg s) in
    let '(r, asked, s1) := scan v light fs s in
    match r with
    | Some i => (Some i, asked, next_turn s1)
    | None =>
        let '(r, asked', s2) := scan v (negb light) fs s1 in
        match r with
        | Some i => (Some i, (asked ++ asked')%list, next_turn s2)
        | None => (None, (asked ++ asked')%list, s2)
        end
    end.

(** ** The ring *)

(** A scheduler [NewScheduler] can reach: cursors inside the ring, a turn of the
    cycle. *)
Definition ring_ok (s : Scheduler) : Prop :=
  (0 < sc_Tenants (s_cfg s))%nat ∧ (cursorA s < sc_Tenants (s_cfg s))%nat ∧ (cursorB s < sc_Tenants (s_cfg s))%nat ∧
  (sc_TwoClass (s_cfg s) = true → 1 <= sc_LightTurns (s_cfg s) ∧ 0 <= turn s <= sc_LightTurns (s_cfg s)).

(** The share one pass compares with, and the class of a tenant under it. *)
Definition bound_of (v : view) (s : Scheduler) : Z := if sc_TwoClass (s_cfg s) then v_share v else MaxInt.
Definition class_of (v : view) (s : Scheduler) (i : nat) : bool := v_backlog v i <=? bound_of v s.

(** A tenant [Next] may return. *)
Definition dispatchable (v : view) (n : nat) (i : nat) : Prop :=
  (i < n)%nat ∧ 0 < v_ready v i ∧ v_hot v i = true.

(** The distance from a cursor to an index, going up and around. *)
Definition dist (n c i : nat) : nat := ((i + n - c) mod n)%nat.

Lemma dist_at n c i : (c < n)%nat → (i < n)%nat → ((c + dist n c i) mod n = i)%nat.
Proof.
  intros Hc Hi. unfold dist. destruct (decide (c <= i)%nat).
  - replace (i + n - c)%nat with (i - c + 1 * n)%nat by lia.
    rewrite Nat.Div0.mod_add, (Nat.mod_small (i - c)) by lia. replace (c + (i - c))%nat with i by lia.
    by apply Nat.mod_small.
  - rewrite (Nat.mod_small (i + n - c)) by lia. replace (c + (i + n - c))%nat with (i + 1 * n)%nat by lia.
    rewrite Nat.Div0.mod_add. by apply Nat.mod_small.
Qed.

Lemma dist_lt n c i : (c < n)%nat → (dist n c i < n)%nat.
Proof. intros. apply Nat.mod_upper_bound. lia. Qed.

Lemma dist_offset n c k : (c < n)%nat → (k < n)%nat → dist n c ((c + k) mod n) = k.
Proof.
  intros Hc Hk. unfold dist. destruct (decide (c + k < n)%nat).
  - rewrite (Nat.mod_small (c + k)) by done. replace (c + k + n - c)%nat with (k + 1 * n)%nat by lia.
    rewrite Nat.Div0.mod_add. by apply Nat.mod_small.
  - replace (c + k)%nat with (c + k - n + 1 * n)%nat by lia. rewrite Nat.Div0.mod_add.
    rewrite (Nat.mod_small (c + k - n)) by lia. replace (c + k - n + n - c)%nat with k by lia.
    by apply Nat.mod_small.
Qed.

(** Moving the cursor past an index at a smaller distance brings it closer. *)
Lemma dist_step n c i k :
  (c < n)%nat → (i < n)%nat → (k < dist n c i)%nat →
  dist n (((c + k) mod n + 1) mod n)%nat i = (dist n c i - k - 1)%nat.
Proof.
  intros Hc Hi Hk. pose proof (dist_lt n c i Hc) as Hd. pose proof (dist_at n c i Hc Hi) as Ha.
  set (d := dist n c i) in *.
  assert ((((c + k) mod n + 1) mod n)%nat = ((c + (k + 1)) mod n)%nat) as ->.
  { rewrite Nat.Div0.add_mod_idemp_l. f_equal. lia. }
  assert (((c + (k + 1)) mod n + (d - k - 1)) mod n = i)%nat as Ei.
  { rewrite <- Ha, Nat.Div0.add_mod_idemp_l. f_equal. lia. }
  rewrite <- Ei at 1. apply dist_offset; [apply Nat.mod_upper_bound; lia|lia].
Qed.

(** Past an index that is not farther than [j], the cursor is closer to [j]. *)
Lemma dist_past n c i j :
  (c < n)%nat → (i < n)%nat → (j < n)%nat → i ≠ j → (dist n c i <= dist n c j)%nat →
  (dist n ((i + 1) mod n) j < dist n c j)%nat.
Proof.
  intros Hc Hi Hj Hne Hle. pose proof (dist_at n c i Hc Hi) as Ei. pose proof (dist_at n c j Hc Hj) as Ej.
  assert (dist n c i < dist n c j)%nat as Hlt.
  { destruct (decide (dist n c i = dist n c j)) as [Hd|]; [|lia]. rewrite Hd in Ei. congruence. }
  rewrite <- Ei at 1. rewrite dist_step by done. lia.
Qed.

Definition accept (v : view) (want : bool) (fs : Z) (i : nat) : bool := candidate v want fs i && v_hot v i.

Lemma scan_loop_spec v want fs cur n a m r asked :
  scan_loop v want fs cur n (seq a m) = (r, asked) →
  (∀ k, (a <= k < a + m)%nat → accept v want fs ((cur + k) mod n) = true →
     ∃ k0, (a <= k0 <= k)%nat ∧ r = Some ((cur + k0) mod n)%nat) ∧
  (∀ i, r = Some i → (∃ k, i = ((cur + k) mod n)%nat) ∧ accept v want fs i = true) ∧
  (∃ ks, sublist ks (seq a m) ∧ asked = (λ k, ((cur + k) mod n)%nat) <$> ks ∧
     Forall (λ i, candidate v want fs i = true) asked).
Proof.
  revert a r asked. induction m as [|m IH]; intros a r asked; cbn [seq scan_loop].
  { intros [= <- <-]. split_and!; [lia|done|]. exists []. by repeat constructor. }
  set (i := ((cur + a) mod n)%nat).
  destruct (scan_loop v want fs cur n (seq (S a) m)) as [r0 asked0] eqn:E.
  destruct (IH (S a) r0 asked0 E) as (H1 & H2 & ks & Hs & Ha & Hf).
  assert (accept v want fs i = false → ∀ k, (a <= k < a + S m)%nat → accept v want fs ((cur + k) mod n) = true →
     ∃ k0, (a <= k0 <= k)%nat ∧ r0 = Some ((cur + k0) mod n)%nat) as Hskip.
  { intros Hi k Hk Hak. assert (k ≠ a) by (intros ->; unfold i in Hi; congruence).
    destruct (H1 k) as (k0 & ? & ?); [lia|done|]. exists k0. split; [lia|done]. }
  unfold accept in Hskip at 1. destruct (candidate v want fs i) eqn:Ec; [destruct (v_hot v i) eqn:Eh|];
    cbn [andb] in Hskip; intros [= <- <-].
  - split_and!.
    + intros k Hk _. exists a. split; [lia|done].
    + intros ? [= <-]. split; [by exists a|]. unfold accept. by rewrite Ec, Eh.
    + exists [a]. split_and!; [constructor; apply sublist_nil_l|done|by repeat constructor].
  - split_and!; [by apply Hskip|done|]. exists (a :: ks). rewrite Ha.
    split_and!; [by constructor|done|]. rewrite Ha in Hf. by constructor.
  - split_and!; [by apply Hskip|done|]. exists ks. split_and!; [by constructor|done|done].
Qed.

(** One scan: the accepted tenant closest to the cursor, or none at all. *)
Lemma scan_spec v want fs s r asked s' :
  ring_ok s → scan v want fs s = (r, asked, s') →
  let n := sc_Tenants (s_cfg s) in let c := cursor_of want s in
  match r with
  | None => s' = s ∧ ∀ i, (i < n)%nat → accept v want fs i = false
  | Some i => (i < n)%nat ∧ accept v want fs i = true ∧ s' = with_cursor want ((i + 1) mod n)%nat s ∧
      ∀ j, (j < n)%nat → accept v want fs j = true → (dist n c i <= dist n c j)%nat
  end ∧
  NoDup asked ∧ Forall (λ i, (i < n)%nat ∧ candidate v want fs i = true) asked.
Proof.
  intros (Hn & HA & HB & _) E n c. unfold scan in E. fold n c in E.
  assert (c < n)%nat as Hc by (unfold c, cursor_of; by destruct want).
  destruct (scan_loop v want fs c n (seq 0 n)) as [r0 asked0] eqn:El.
  destruct (scan_loop_spec _ _ _ _ _ _ _ _ _ El) as (H1 & H2 & ks & Hks & Hasked & Hf).
  assert (∀ j, (j < n)%nat → accept v want fs j = true → ∃ k0, (k0 <= dist n c j)%nat ∧
    r0 = Some ((c + k0) mod n)%nat) as Hhit.
  { intros j Hj Ha. pose proof (dist_lt n c j Hc).
    destruct (H1 (dist n c j)) as (k0 & ? & ?); [lia|by rewrite dist_at|]. exists k0. split; [lia|done]. }
  assert (asked = asked0) as -> by (destruct r0; by injection E as <- <- <-).
  split; [|split].
  - destruct r0 as [i|]; injection E as <- <-.
    + destruct (H2 i eq_refl) as ((k & Hi) & Ha).
      assert (i < n)%nat by (rewrite Hi; apply Nat.mod_upper_bound; lia).
      split_and!; [done|done|done|]. intros j Hj Haj. destruct (Hhit j Hj Haj) as (k0 & Hk0 & [= ->]).
      pose proof (dist_lt n c j Hc). rewrite dist_offset by lia. done.
    + split; [done|]. intros i Hi. destruct (accept v want fs i) eqn:Ea; [|done].
      by destruct (Hhit i Hi Ea) as (? & _ & ?).
  - rewrite Hasked. assert (∀ k, k ∈ ks → (k < n)%nat) as Hlt.
    { intros k Hk. eapply elem_of_sublist in Hk; [|done]. apply elem_of_seq in Hk. lia. }
    apply NoDup_fmap_2_strong; [|by eapply sublist_NoDup; [apply NoDup_seq|]].
    intros k k' Hk Hk' Heq. rewrite <- (dist_offset n c k), <- (dist_offset n c k'), Heq by auto. done.
  - rewrite Hasked, Forall_fmap in *. rewrite Forall_forall in *. intros k Hk. split; [|by apply Hf].
    apply Nat.mod_upper_bound. lia.
Qed.

(** One call of [Next]: the class it served, and from which scan. *)
Lemma Next_spec v s r asked s' :
  ring_ok s → Next v s = (r, asked, s') →
  let n := sc_Tenants (s_cfg s) in let fs := bound_of v s in
  NoDup asked ∧ Forall (λ i, (i < n)%nat ∧ 0 < v_ready v i) asked ∧
  match r with
  | None => s' = s ∧ ∀ want i, (i < n)%nat → sc_TwoClass (s_cfg s) = true ∨ want = true → accept v want fs i = false
  | Some i => ∃ want, (i < n)%nat ∧ accept v want fs i = true ∧
      (s' = (if sc_TwoClass (s_cfg s) then next_turn else id) (with_cursor want ((i + 1) mod n)%nat s)) ∧
      (∀ j, (j < n)%nat → accept v want fs j = true →
         (dist n (cursor_of want s) i <= dist n (cursor_of want s) j)%nat) ∧
      (sc_TwoClass (s_cfg s) = false → want = true) ∧
      (sc_TwoClass (s_cfg s) = true → want ≠ (turn s <? sc_LightTurns (s_cfg s)) →
         ∀ j, (j < n)%nat → accept v (negb want) fs j = false)
  end.
Proof.
  intros Hs. unfold Next, bound_of. destruct (sc_TwoClass (s_cfg s)) eqn:Et; cbn [negb].
  2: { intros E. destruct (scan_spec _ _ _ _ _ _ _ Hs E) as (H1 & H2 & H3). split_and!; [done| |].
       - eapply Forall_impl; [exact H3|]. intros i [? Hc]. unfold candidate in Hc. bools. split; [done|lia].
       - destruct r as [i|]; [|destruct H1 as [-> H1]; split; [done|]; intros want i Hi [Hw|Hw]; [done|rewrite Hw; by apply H1]].
         destruct H1 as (? & ? & ? & ?). exists true. by split_and!. }
  set (light := turn s <? sc_LightTurns (s_cfg s)).
  destruct (scan v light (v_share v) s) as [[r1 asked1] s1] eqn:E1.
  destruct (scan_spec _ _ _ _ _ _ _ Hs E1) as (H1 & H2 & H3).
  assert (∀ w l, Forall (λ i, (i < sc_Tenants (s_cfg s))%nat ∧ candidate v w (v_share v) i = true) l →
    Forall (λ i, (i < sc_Tenants (s_cfg s))%nat ∧ 0 < v_ready v i) l) as Hready.
  { intros w l Hl. eapply Forall_impl; [exact Hl|]. intros i [? Hc]. unfold candidate in Hc. bools. split; [done|lia]. }
  destruct r1 as [i|].
  { intros [= <- <- <-]. destruct H1 as (? & ? & -> & ?). split_and!; [done|by eapply Hready|].
    exists light. by split_and!. }
  destruct H1 as [-> Hnone]. destruct (scan v (negb light) (v_share v) s) as [[r2 asked2] s2] eqn:E2.
  destruct (scan_spec _ _ _ _ _ _ _ Hs E2) as (H1' & H2' & H3').
  assert (NoDup (asked1 ++ asked2)) as Hnd.
  { apply NoDup_app. split_and!; [done| |done]. intros i Hi Hi'. rewrite Forall_forall in H3, H3'.
    destruct (H3 i Hi) as [_ Hc], (H3' i Hi') as [_ Hc']. unfold candidate in Hc, Hc'. bools.
    destruct light; cbn in *; congruence. }
  assert (Forall (λ i, (i < sc_Tenants (s_cfg s))%nat ∧ 0 < v_ready v i) (asked1 ++ asked2))
    by (apply Forall_app; split; by eapply Hready).
  destruct r2 as [i|]; intros [= <- <- <-]; (split; [done|split; [done|]]).
  - destruct H1' as (? & ? & -> & ?). exists (negb light). split_and!; try done. by rewrite negb_involutive.
  - destruct H1' as [-> Hnone']. split; [done|]. intros want i Hi _.
    destruct light, want; cbn in *; auto.
Qed.

(** ** What the ring promises *)

Lemma Next_ring v s r asked s' :
  ring_ok s → Next v s = (r, asked, s') →
  ring_ok s' ∧ s_cfg s' = s_cfg s ∧
  (r ≠ None → sc_TwoClass (s_cfg s) = true →
     turn s' = if turn s =? sc_LightTurns (s_cfg s) then 0 else turn s + 1).
Proof.
  intros Hs E. destruct (Next_spec _ _ _ _ _ Hs E) as (_ & _ & H). pose proof Hs as (Hn & HA & HB & Ht).
  destruct r as [i|]; [|by destruct H as [-> _]]. destruct H as (want & Hi & _ & -> & _).
  assert ((i + 1) mod sc_Tenants (s_cfg s) < sc_Tenants (s_cfg s))%nat by (apply Nat.mod_upper_bound; lia).
  destruct (sc_TwoClass (s_cfg s)) eqn:E2.
  - destruct (Ht eq_refl) as [HL HT].
    assert (Z.rem (turn s + 1) (sc_LightTurns (s_cfg s) + 1)
            = if turn s =? sc_LightTurns (s_cfg s) then 0 else turn s + 1) as Hr.
    { destruct (Z.eqb_spec (turn s) (sc_LightTurns (s_cfg s))) as [->|]; [apply Z.rem_same; lia|].
      apply Z.rem_small. lia. }
    split; [|split; [by destruct want|]].
    + unfold ring_ok, next_turn. destruct want; cbn; rewrite Hr; (split_and!; [done..|]); intros _;
        destruct (Z.eqb_spec (turn s) (sc_LightTurns (s_cfg s))); lia.
    + intros _ _. unfold next_turn. destruct want; cbn; exact Hr.
  - split; [|split; [by destruct want|done]]. destruct want; (split; [|split; [|split]]); cbn; try done; congruence.
Qed.

(** A sequence of calls, each against the ledger and the gate it finds. *)
Fixpoint nexts (vs : list view) (s : Scheduler) : list (option nat) * Scheduler :=
  match vs with
  | [] => ([], s)
  | v :: vs' =>
      let '(r, _, s1) := Next v s in
      let '(rs, s2) := nexts vs' s1 in (r :: rs, s2)
  end.

(** The calls left, at most, before a tenant of class [want] at distance [d] from
    its cursor is served: whole cycles, and the turns to the next of its class. *)
Definition wait_turns (want : bool) (s : Scheduler) : Z :=
  let L := sc_LightTurns (s_cfg s) in
  if want then (if turn s =? L then 1 else 0) else L - turn s.

Definition patience (want : bool) (s : Scheduler) (j : nat) : Z :=
  let d := Z.of_nat (dist (sc_Tenants (s_cfg s)) (cursor_of want s) j) in
  if sc_TwoClass (s_cfg s) then d * (sc_LightTurns (s_cfg s) + 1) + wait_turns want s else d.

Lemma patience_nonneg want s j : ring_ok s → 0 <= patience want s j.
Proof.
  intros (Hn & HA & HB & Ht). unfold patience, wait_turns. destruct (sc_TwoClass (s_cfg s)); [|lia].
  destruct (Ht eq_refl). destruct want; [|nia]. destruct (turn s =? _); nia.
Qed.

Lemma cursor_bound want s : ring_ok s → (cursor_of want s < sc_Tenants (s_cfg s))%nat.
Proof. intros (Hn & HA & HB & _). by destruct want. Qed.

Ltac eqb_case :=
  match goal with |- context [?a =? ?b] => destruct (Z.eqb_spec a b) end.

(** Every call that serves another tenant brings [j] closer. *)
Lemma patience_step v s r asked s' want j :
  ring_ok s → Next v s = (r, asked, s') → (j < sc_Tenants (s_cfg s))%nat →
  accept v want (bound_of v s) j = true → (sc_TwoClass (s_cfg s) = false → want = true) →
  r = Some j ∨ (∃ i, r = Some i) ∧ patience want s' j <= patience want s j - 1.
Proof.
  intros Hs E Hj Ha Hw. destruct (Next_ring _ _ _ _ _ Hs E) as (Hs' & Hc & Htn).
  destruct (Next_spec _ _ _ _ _ Hs E) as (_ & _ & H). pose proof Hs as (Hn & HA & HB & Ht).
  destruct r as [i|].
  2: { exfalso. destruct H as [_ H]. rewrite (H want j Hj) in Ha; [done|].
       destruct (sc_TwoClass (s_cfg s)); [by left|right; by apply Hw]. }
  destruct (decide (i = j)) as [->|Hne]; [by left|right; split; [by eauto|]].
  destruct H as (w & Hi & Hai & Es & Hmin & Hone & Htwo).
  assert (w = want → dist (sc_Tenants (s_cfg s)) ((i + 1) mod sc_Tenants (s_cfg s)) j
     < dist (sc_Tenants (s_cfg s)) (cursor_of want s) j)%nat as Hcloser.
  { intros ->. apply dist_past; [by apply cursor_bound|done..|by apply Hmin]. }
  unfold patience, wait_turns in *. rewrite Hc. destruct (sc_TwoClass (s_cfg s)) eqn:E2.
  - specialize (Htn ltac:(done) eq_refl). destruct (Ht eq_refl) as [HL HT]. rewrite Htn.
    assert (cursor_of want s' = if decide (w = want) then ((i + 1) mod sc_Tenants (s_cfg s))%nat else cursor_of want s) as ->.
    { rewrite Es. case_decide as Hd; [subst; by destruct want|]. destruct w, want; done. }
    case_decide as Hd.
    + specialize (Hcloser Hd). apply Nat2Z.inj_lt in Hcloser. revert Hcloser.
      generalize (Z.of_nat (dist (sc_Tenants (s_cfg s)) ((i + 1) mod sc_Tenants (s_cfg s)) j))
        (Z.of_nat (dist (sc_Tenants (s_cfg s)) (cursor_of want s) j)). intros d' d Hd'.
      assert (d' * (sc_LightTurns (s_cfg s) + 1) + (sc_LightTurns (s_cfg s) + 1) <= d * (sc_LightTurns (s_cfg s) + 1))
        by nia.
      destruct (Z.eqb_spec (turn s) (sc_LightTurns (s_cfg s))), want; repeat eqb_case; lia.
    + assert (want ≠ (turn s <? sc_LightTurns (s_cfg s))) as Hpref.
      { intros Heq. destruct (decide (w = (turn s <? sc_LightTurns (s_cfg s)))) as [Hw'|Hw']; [congruence|].
        specialize (Htwo eq_refl Hw' j Hj). assert (negb w = want) as Hnw by (destruct w, want; done). congruence. }
      destruct want; destruct (Z.ltb_spec (turn s) (sc_LightTurns (s_cfg s))); try done;
        destruct (Z.eqb_spec (turn s) (sc_LightTurns (s_cfg s))); repeat eqb_case; lia.
  - assert (want = true) as Hwt by auto. assert (w = true) as Hwt' by auto. subst want w.
    specialize (Hcloser eq_refl). rewrite Es. cbn in *. lia.
Qed.

(** A tenant that stays dispatchable and of one class through a run of calls. *)
Definition steady (want : bool) (j : nat) (s : Scheduler) (v : view) : Prop :=
  accept v want (bound_of v s) j = true.

Lemma nexts_serve vs s want j :
  ring_ok s → (j < sc_Tenants (s_cfg s))%nat → (sc_TwoClass (s_cfg s) = false → want = true) →
  Forall (steady want j s) vs → patience want s j < Z.of_nat (length vs) →
  Some j ∈ (nexts vs s).1.
Proof.
  revert s. induction vs as [|v vs IH]; intros s Hs Hj Hw Hall Hp.
  { pose proof (patience_nonneg want s j Hs). cbn in Hp. lia. }
  apply Forall_cons in Hall as [Hv Hall]. cbn [nexts].
  destruct (Next v s) as [[r asked] s1] eqn:E. destruct (Next_ring _ _ _ _ _ Hs E) as (Hs1 & Hc & _).
  destruct (nexts vs s1) as [rs s2] eqn:Er. cbn [fst].
  destruct (patience_step _ _ _ _ _ want j Hs E Hj Hv Hw) as [->|[_ Hlt]]; [by left|].
  apply elem_of_cons. right. change rs with (rs, s2).1. rewrite <- Er.
  assert (∀ u, bound_of u s1 = bound_of u s) as Hb by (intros u; unfold bound_of; by rewrite Hc).
  apply IH; rewrite ?Hc; [done..| |cbn in Hp; lia].
  eapply Forall_impl; [exact Hall|]. intros u. unfold steady. by rewrite Hb.
Qed.

(** The ring is work-conserving: a call returns a tenant exactly when some tenant
    has ready rows and the gate says it is hot, the tenant it returns is such a
    one, and a miss changes nothing, so an idle worker cannot disturb the order. *)
Theorem next_work_conserving v s r asked s' :
  ring_ok s → (∀ i, v_backlog v i <= maxInt64) → Next v s = (r, asked, s') →
  ring_ok s' ∧
  match r with
  | Some i => dispatchable v (sc_Tenants (s_cfg s)) i
  | None => s' = s ∧ ∀ i, ~ dispatchable v (sc_Tenants (s_cfg s)) i
  end.
Proof.
  intros Hs Hb E. split; [by eapply Next_ring|]. destruct (Next_spec _ _ _ _ _ Hs E) as (_ & _ & H).
  destruct r as [i|].
  - destruct H as (want & Hi & Ha & _). unfold accept, candidate in Ha. bools. split_and!; [done|lia|done].
  - destruct H as [-> H]. split; [done|]. intros i (Hi & Hr & Hh).
    assert (sc_TwoClass (s_cfg s) = true ∨ class_of v s i = true) as Hc.
    { destruct (sc_TwoClass (s_cfg s)) eqn:E2; [by left|right]. unfold class_of, bound_of. rewrite E2.
      specialize (Hb i). unfold MaxInt. lia. }
    specialize (H (class_of v s i) i Hi Hc). unfold accept, candidate in H. rewrite Hh, andb_true_r in H.
    apply andb_false_iff in H as [H|H]; [lia|]. by rewrite bool_decide_eq_true_2 in H.
Qed.

(** [Hot], which may kick a renewal, is asked at most once per tenant and call,
    and only about tenants with ready rows: a scan over a thousand tenants costs
    no key work for the idle ones. *)
Theorem hot_asked_once v s r asked s' :
  ring_ok s → Next v s = (r, asked, s') →
  NoDup asked ∧ Forall (λ i, (i < sc_Tenants (s_cfg s))%nat ∧ 0 < v_ready v i) asked.
Proof. intros Hs E. destruct (Next_spec _ _ _ _ _ Hs E) as (H1 & H2 & _). by split. Qed.

(** C21. Nobody starves: a tenant that stays ready and hot, in whichever class, is
    returned within one ring's worth of its class's turns: [n × (LightTurns + 1)]
    calls with two classes, whatever the other tenants' backlogs do, and [n] calls
    with one. *)
Theorem no_starvation vs s want j :
  ring_ok s → (j < sc_Tenants (s_cfg s))%nat → (sc_TwoClass (s_cfg s) = false → want = true) →
  Forall (steady want j s) vs →
  (if sc_TwoClass (s_cfg s) then Z.of_nat (sc_Tenants (s_cfg s)) * (sc_LightTurns (s_cfg s) + 1)
   else Z.of_nat (sc_Tenants (s_cfg s))) <= Z.of_nat (length vs) →
  Some j ∈ (nexts vs s).1.
Proof.
  intros Hs Hj Hw Hall Hlen. apply (nexts_serve vs s want j Hs Hj Hw Hall).
  pose proof (dist_lt (sc_Tenants (s_cfg s)) (cursor_of want s) j (cursor_bound want s Hs)) as Hd.
  destruct Hs as (Hn & HA & HB & Ht). unfold patience, wait_turns in *.
  destruct (sc_TwoClass (s_cfg s)); [|lia]. destruct (Ht eq_refl) as [HL HT].
  apply Nat2Z.inj_lt in Hd. revert Hd Hlen.
  generalize (Z.of_nat (dist (sc_Tenants (s_cfg s)) (cursor_of want s) j)) (Z.of_nat (sc_Tenants (s_cfg s))).
  intros d n Hd Hlen.
  assert (d * (sc_LightTurns (s_cfg s) + 1) + (sc_LightTurns (s_cfg s) + 1) <= n * (sc_LightTurns (s_cfg s) + 1)) by nia.
  destruct want; [destruct (Z.eqb_spec (turn s) (sc_LightTurns (s_cfg s)))|]; lia.
Qed.

(** Interleaved, not prioritised: while both classes have a dispatchable tenant,
    the class served is the one the turn prefers, so every cycle gives the light
    class exactly [LightTurns] services and the heavy class exactly one. *)
Theorem turns_alternate v s r asked s' :
  ring_ok s → sc_TwoClass (s_cfg s) = true →
  (∀ want, ∃ j, (j < sc_Tenants (s_cfg s))%nat ∧ accept v want (v_share v) j = true) →
  Next v s = (r, asked, s') →
  (∃ i, r = Some i ∧ class_of v s i = (turn s <? sc_LightTurns (s_cfg s))) ∧
  turn s' = (turn s + 1) mod (sc_LightTurns (s_cfg s) + 1).
Proof.
  intros Hs H2 Hboth E. destruct (Next_ring _ _ _ _ _ Hs E) as (_ & _ & Ht).
  destruct (Next_spec _ _ _ _ _ Hs E) as (_ & _ & H). unfold bound_of in H. rewrite H2 in H.
  destruct r as [i|].
  - split.
    + exists i. split; [done|]. destruct H as (want & Hi & Ha & _ & _ & _ & Hpref).
      assert (class_of v s i = want) as ->.
      { unfold accept, candidate in Ha. bools. unfold class_of, bound_of. by rewrite H2. }
      destruct (decide (want = (turn s <? sc_LightTurns (s_cfg s)))) as [|Hne]; [done|]. exfalso.
      destruct (Hboth (negb want)) as (j & Hj & Hja). by rewrite (Hpref eq_refl Hne j Hj) in Hja.
    + rewrite (Ht ltac:(done) H2). destruct Hs as (_ & _ & _ & HT). destruct (HT H2) as [HL HT'].
      destruct (Z.eqb_spec (turn s) (sc_LightTurns (s_cfg s))) as [->|]; [by rewrite Z.mod_same by lia|].
      symmetry. apply Z.mod_small. lia.
  - exfalso. destruct H as [_ H]. destruct (Hboth true) as (j & Hj & Hja). rewrite (H true j Hj) in Hja; [done|by left].
Qed.

(** [NewScheduler] starts inside the ring. *)
Lemma NewScheduler_ring cfg : (0 < sc_Tenants cfg)%nat → ring_ok (NewScheduler cfg).
Proof.
  intros Hn. unfold NewScheduler, ring_ok. destruct (negb _ || _) eqn:E; cbn; (split_and!; [done..|]); [done|].
  intros _. apply orb_false_iff in E as [_ E]. lia.
Qed.

(** ** Witnesses *)

Module Ring.
(** Tenants 0 and 1 light, 2 heavy, all ready and hot, four light turns to one. *)
Definition v : view := mkView (λ _, 1) (λ i, if (i <? 2)%nat then 1 else 9) 3 (λ _, true).
Definition s : Scheduler := NewScheduler (mkSchedulerConfig true 3 true 4).
Lemma ok : ring_ok s.
Proof. apply NewScheduler_ring. cbn. lia. Defined.
End Ring.

Lemma next_work_conserving_witness :
  dispatchable Ring.v 3 0 ∧ (Next Ring.v Ring.s).1.1 = Some 0%nat.
Proof.
  split; [|vm_compute; reflexivity].
  refine (proj2 (next_work_conserving Ring.v Ring.s (Some 0%nat) [0%nat] _ Ring.ok _ _)).
  - intros i. unfold Ring.v, v_backlog. destruct (i <? 2)%nat; vm_compute; discriminate.
  - vm_compute. reflexivity.
Defined.

Lemma hot_asked_once_witness : NoDup (Next Ring.v Ring.s).1.2 ∧ (Next Ring.v Ring.s).1.2 = [0%nat].
Proof.
  split; [|vm_compute; reflexivity].
  exact (proj1 (hot_asked_once Ring.v Ring.s (Next Ring.v Ring.s).1.1 (Next Ring.v Ring.s).1.2 (Next Ring.v Ring.s).2
    Ring.ok eq_refl)).
Defined.

Lemma no_starvation_witness : Some 2%nat ∈ (nexts (replicate 15 Ring.v) Ring.s).1.
Proof.
  apply (no_starvation (replicate 15 Ring.v) Ring.s false 2); [exact Ring.ok|cbn; lia|discriminate| |cbn; lia].
  apply Forall_replicate. reflexivity.
Defined.

Lemma turns_alternate_witness : turn (Next Ring.v Ring.s).2 = 1.
Proof.
  refine (proj2 (turns_alternate Ring.v Ring.s (Next Ring.v Ring.s).1.1 (Next Ring.v Ring.s).1.2
    (Next Ring.v Ring.s).2 Ring.ok eq_refl _ eq_refl)).
  intros [|]; [exists 0%nat|exists 2%nat]; (split; [cbn; lia|reflexivity]).
Defined.
