(* ===== verification/Workers.v ===== *)
(** * internal/queue/workers.go: the delivery loop

    One turn of a worker: pick a tenant, claim a batch, and for each message get
    its key, open it, deliver it; then one acknowledgement.  What the components
    behind interfaces answer (the key manager, the sink, the clock, the disk) is
    an argument; the store and the scheduler are the models. *)

From S2P Require Import Prelude GoLib Kms Tink Lease Cmek Store StoreInv StoreOps Queue QueueSpec Sealing Demo Scheduler.
From Stdlib Require Import Sorting.Sorted.
Local Open Scope string_scope.
Local Open Scope Z_scope.

Definition ids (msgs : list Message) : list Z := msg_ID <$> msgs.

Section Workers.
Context `{MR : MapRange} `{RT : Returning} `{TK : Tink}.
Context (tenants : list string).

(** What one message meets: [DecryptKey]'s answer, the clock at [Open], the
    sink's answer with its [deliveredAt] stamp, and whether the context had ended
    when the sink refused. *)
Record answer := mkAnswer {
  an_key : err + Handle; an_open : Time; an_at : Time; an_sink : option err; an_stopping : bool }.

(** The calls a worker makes on other components, in order. *)
Inductive waction :=
  | WWait
  | WDecryptKey (tenant dekID : string)
  | WWarm (tenant dekID : string)
  | WDeliver (tenant : string) (idx : nat) (id : Z) (plaintext : bytes)
  | WRecord (idx : nat) (latency : Duration)
  | WDead (id : Z)
  | WRelease (rest : list Z)
  | WAck (acked : list Z).

(** [if len(acked) > 0 { Ack }]. *)
Definition finish (acked : list Z) : list waction := match acked with [] => [] | _ => [WAck acked] end.

(** The message loop of [loop]; [msgs] is [batch.Msgs[i:]]. *)
Fixpoint process (b : Batch) (ans : Message → answer) (msgs : list Message) (acked : list Z) : list waction :=
  match msgs with
  | [] => finish acked
  | m :: ms =>
      let a := ans m in
      WDecryptKey (b_Tenant b) (msg_DEKID m) ::
      match an_key a with
      | inl e =>
          if errors.Is e ErrPoison then WDead (msg_ID m) :: process b ans ms acked
          else ((if errors.Is e ErrDEKCold then [WWarm (b_Tenant b) (msg_DEKID m)] else [])
                ++ WRelease (ids msgs) :: finish acked)%list
      | inr h =>
          match Open h (an_open a) (b_Tenant b) (msg_ID m) (mkEnvelope (msg_DEKID m) (msg_Ciphertext m)) with
          | inl e =>
              if errors.Is e ErrPoison then WDead (msg_ID m) :: process b ans ms acked
              else WRelease (ids msgs) :: finish acked
          | inr pt =>
              WDeliver (b_Tenant b) (b_Idx b) (msg_ID m) pt ::
              match an_sink a with
              | Some _ =>
                  if an_stopping a then WRelease (ids msgs) :: finish acked
                  else WDead (msg_ID m) :: process b ans ms acked
              | None =>
                  WRecord (b_Idx b) (Time.Sub (an_at a) (msg_EnqueuedAt m)) ::
                  process b ans ms (acked ++ [msg_ID m])
              end
          end
      end
  end.

(** What one turn meets besides: the scheduler's view, the claim's end, and the
    end of each [Dead], [Release] and [Ack] statement. *)
Record env := mkEnv {
  e_view : view; e_claim : option err; e_cursor : cursor; e_now : Time; e_answer : Message → answer;
  e_dead : Z → option err; e_release : option err; e_ack : option err }.

Record WorkersConfig := mkWorkersConfig { wc_ClaimBatch : Z; wc_ClaimTimeout : Duration }.

(** The store calls among a worker's calls. *)
Definition store_op (e : env) (idx : nat) (a : waction) : list qop :=
  match a with
  | WDead id => [QDead (e_dead e id) idx id]
  | WRelease rest => [QRelease (e_release e) idx rest]
  | WAck acked => [QAck (e_ack e) idx acked]
  | _ => []
  end.
Definition store_ops (e : env) (idx : nat) (acts : list waction) : list qop := acts ≫= store_op e idx.

Fixpoint run_ops (os : list qop) (q : qstate) : option qstate :=
  match os with
  | [] => Some q
  | o :: os' => q' ← qexec tenants o q; run_ops os' q'
  end.

(** One round of [loop]. *)
Definition worker_turn (c : WorkersConfig) (e : env) (q : qstate) (s : Scheduler)
  : option (qstate * Scheduler * list waction) :=
  let '(r, _, s) := Next (e_view e) s in
  match r with
  | None => Some (q, s, [WWait])
  | Some idx =>
      let until := Time.Add (e_now e) (wc_ClaimTimeout c) in
      '((b, er), _) ← Claim tenants (e_claim e) (e_cursor e) idx (wc_ClaimBatch c) until (q_store q);
      q1 ← qexec tenants (QClaim (e_claim e) (e_cursor e) idx (wc_ClaimBatch c) until) q;
      match er, b_Msgs b with
      | None, _ :: _ =>
          let acts := process b (e_answer e) (b_Msgs b) [] in
          q2 ← run_ops (store_ops e idx acts) q1;
          Some (q2, s, acts)
      | _, _ => Some (q1, s, [WWait])
      end
  end.
End Workers.

(** ** Each message has one fate *)

Definition dead_ids (acts : list waction) : list Z := acts ≫= λ a, match a with WDead id => [id] | _ => [] end.
Definition released_ids (acts : list waction) : list Z := acts ≫= λ a, match a with WRelease l => l | _ => [] end.
Definition acked_ids (acts : list waction) : list Z := acts ≫= λ a, match a with WAck l => l | _ => [] end.

Section Fates.
Context `{TK : Tink}.

Lemma finish_ids acked : dead_ids (finish acked) = [] ∧ released_ids (finish acked) = [] ∧ acked_ids (finish acked) = acked.
Proof. destruct acked; cbn; [done|]. by rewrite app_nil_r. Qed.

Lemma process_fates b ans msgs acked :
  (acked ++ ids msgs)%list ≡ₚ
    (dead_ids (process b ans msgs acked) ++ released_ids (process b ans msgs acked)
     ++ acked_ids (process b ans msgs acked))%list.
Proof.
  revert acked. induction msgs as [|m ms IH]; intros acked; cbn [process].
  { destruct (finish_ids acked) as (-> & -> & ->). cbn. by rewrite app_nil_r. }
  assert (∀ acts, dead_ids acts = [] → released_ids acts = [] → acked_ids acts = [] → 
    (acked ++ ids (m :: ms))%list ≡ₚ
    (dead_ids (acts ++ WRelease (ids (m :: ms)) :: finish acked) ++ released_ids (acts ++ WRelease (ids (m :: ms)) :: finish acked)
     ++ acked_ids (acts ++ WRelease (ids (m :: ms)) :: finish acked))%list) as Hrel.
  { intros acts H1 H2 H3. unfold dead_ids, released_ids, acked_ids in *. rewrite !bind_app, H1, H2, H3.
    cbn [app]. rewrite !bind_cons. cbn [app]. destruct (finish_ids acked) as (E1 & E2 & E3).
    unfold dead_ids, released_ids, acked_ids in *. rewrite E1, E2, E3. rewrite app_nil_r. cbn [app].
    apply Permutation_app_comm. }
  assert ((acked ++ ids (m :: ms))%list ≡ₚ (msg_ID m :: acked ++ ids ms)%list) as Hdead
    by (cbn; by rewrite Permutation_middle).
  destruct (an_key (ans m)) as [e|h].
  - destruct (errors.Is e ErrPoison); [cbn; rewrite Hdead; f_equiv; apply IH|].
    destruct (errors.Is e ErrDEKCold); [apply (Hrel [WDecryptKey _ _; WWarm _ _])|apply (Hrel [WDecryptKey _ _])]; done.
  - destruct (Open _ _ _ _ _) as [e|pt].
    + destruct (errors.Is e ErrPoison); [cbn; rewrite Hdead; f_equiv; apply IH|].
      by apply (Hrel [WDecryptKey (b_Tenant b) (msg_DEKID m)]).
    + destruct (an_sink (ans m)).
      * destruct (an_stopping (ans m)); [by apply (Hrel [WDecryptKey (b_Tenant b) (msg_DEKID m); WDeliver _ _ _ _])|].
        cbn. rewrite Hdead. f_equiv. apply IH.
      * cbn. rewrite <- IH. by rewrite <- (assoc_L (++)).
Qed.
End Fates.

(** ** What the calls do to the queue *)

Section Settle.
Context `{MR : MapRange} `{RT : Returning} `{TK : Tink}.
Context (tenants : list string) (Hnd : NoDup tenants).

(** The ids a settling call names. *)
Definition op_ids (o : qop) : list Z :=
  match o with QDead _ _ id => [id] | QRelease _ _ l | QAck _ _ l => l | _ => [] end.

(** The statement of a settling call succeeds. *)
Definition settling (o : qop) : Prop :=
  match o with QDead f _ _ | QRelease f _ _ | QAck f _ _ => f = None | _ => False end.

(** What becomes of a claimed row such a call names. *)
Definition settle (o : qop) (r : row) : option row :=
  match o with QDead _ _ _ => Some (set_dead r) | QRelease _ _ _ => Some (set_row SReady None r) | _ => None end.

(** The rows after a settling call. *)
Lemma settling_rows o q q' :
  settling o → qexec tenants o q = Some q' →
  q_handed q' = q_handed q ∧
  (∀ r', r' ∈ rows (q_store q') ↔
     ∃ r, r ∈ rows (q_store q) ∧ (if sel_ids (op_ids o) r then settle o r = Some r' else r' = r)).
Proof.
  unfold qexec. intros Hs. destruct (qrun tenants o (q_store q)) as [[s' l]|] eqn:E; [|done]. intros [= <-]. cbn.
  split; [by destruct o|].
  assert (∀ f, settle o = Some ∘ f → rows s' = update (sel_ids (op_ids o)) f (rows (q_store q)) →
    ∀ r', r' ∈ rows s' ↔ ∃ r, r ∈ rows (q_store q) ∧ (if sel_ids (op_ids o) r then settle o r = Some r' else r' = r)) as Hupd.
  { intros f Hf -> r'. unfold update. rewrite list_elem_of_fmap, Hf. cbn.
    split; intros (r & Hr); exists r; (destruct (sel_ids (op_ids o) r); naive_solver). }
  destruct o; cbn [settling] in Hs; try done; subst fail; cbn [qrun] in E.
  - unfold Ack in E. destruct (negb _); [done|]. cbn in E. injection E as <- <-. cbn. intros r'.
    unfold sql_ack. rewrite list_elem_of_filter. split; [intros [H1 H2]; exists r'; by rewrite H1|].
    intros (r & Hr & H). destruct (sel_ids _ r) eqn:Es; [done|]. by subst r'.
  - unfold Release in E. destruct (negb _); [done|]. cbn in E. injection E as <- <-. by eapply Hupd.
  - unfold Dead in E. destruct (negb _); [done|]. cbn in E. injection E as <- <-. by eapply Hupd.
Qed.

(** A settled row is no longer claimed and keeps its id. *)
Lemma settle_state o r r' : settling o → settle o r = Some r' → m_state r' ≠ SClaimed ∧ m_id r' = m_id r.
Proof. destruct o; try done; by intros _ [= <-]. Qed.

(** Rows the settling calls do not name, and rows that are not claimed, stay. *)
Lemma run_ops_frame os q q' r :
  Forall settling os → run_ops tenants os q = Some q' → r ∈ rows (q_store q) →
  (m_state r ≠ SClaimed ∨ m_id r ∉ os ≫= op_ids) → r ∈ rows (q_store q').
Proof.
  revert q. induction os as [|o os IH]; intros q Hs E Hr Hor; cbn in E; [by injection E as <-|].
  apply Forall_cons in Hs as [Ho Hs]. destruct (qexec tenants o q) as [q1|] eqn:E1; [|done]. cbn in E.
  destruct (settling_rows o q q1 Ho E1) as [_ H]. apply (IH q1 Hs E).
  - apply H. exists r. split; [done|]. assert (sel_ids (op_ids o) r = false) as ->; [|done].
    apply andb_false_iff. destruct Hor as [Hc|Hc]; [left|right]; apply bool_decide_eq_false; [done|].
    rewrite bind_cons, elem_of_app in Hc. tauto.
  - rewrite bind_cons, elem_of_app in Hor. tauto.
Qed.

Lemma run_ops_gone os q q' id :
  Forall settling os → run_ops tenants os q = Some q' →
  id ∉ ids_of (q_store q) → id ∉ ids_of (q_store q').
Proof.
  revert q. induction os as [|o os IH]; intros q Hs E Hid; cbn in E; [by injection E as <-|].
  apply Forall_cons in Hs as [Ho Hs]. destruct (qexec tenants o q) as [q1|] eqn:E1; [|done]. cbn in E.
  destruct (settling_rows o q q1 Ho E1) as [_ H]. apply (IH q1 Hs E).
  intros Hin. apply list_elem_of_fmap in Hin as (r' & -> & Hr'). apply H in Hr' as (r & Hr & Hset). apply Hid.
  destruct (sel_ids _ r); [apply (settle_state o) in Hset as [_ ->]; [|done]|subst r'];
    by apply (list_elem_of_fmap_2 m_id _ r).
Qed.

Lemma sublist_nodup_ids (k l : list row) : NoDup (m_id <$> l) → sublist k l → NoDup (m_id <$> k).
Proof.
  intros Hn Hs. induction Hs as [|x k l Hs IH|x k l Hs IH]; [done|..]; rewrite fmap_cons in Hn;
    apply NoDup_cons in Hn as [Hx Hn]; [|by apply IH].
  rewrite fmap_cons. constructor; [|by apply IH]. intros Hin. apply Hx.
  apply list_elem_of_fmap in Hin as (r & -> & Hr). apply list_elem_of_fmap. exists r. split; [done|].
  by eapply elem_of_sublist.
Qed.

(** Every claimed row that the calls name ends as its call says. *)
Lemma run_ops_settle os q q' o r :
  NoDup (m_id <$> rows (q_store q)) → NoDup (os ≫= op_ids) →
  Forall settling os → run_ops tenants os q = Some q' → o ∈ os →
  r ∈ rows (q_store q) → m_state r = SClaimed → m_id r ∈ op_ids o →
  match settle o r with Some r' => r' ∈ rows (q_store q') | None => m_id r ∉ ids_of (q_store q') end.
Proof.
  revert q. induction os as [|o1 os IH]; intros q Hn Hd Hs E Ho Hr Hst Hid; cbn in E; [by apply not_elem_of_nil in Ho|].
  rewrite bind_cons in Hd. apply NoDup_app in Hd as (Hd1 & Hd12 & Hd2).
  apply Forall_cons in Hs as [Ho1 Hs]. destruct (qexec tenants o1 q) as [q1|] eqn:E1; [|done]. cbn in E.
  destruct (settling_rows o1 q q1 Ho1 E1) as [_ H].
  assert (NoDup (m_id <$> rows (q_store q1))) as Hn1.
  { revert E1. unfold qexec. destruct (qrun tenants o1 (q_store q)) as [[s' l]|] eqn:Eq; [|done]. intros [= <-]. cbn.
    destruct o1; try done; cbn [qrun settling] in *; subst fail.
    - unfold Ack in Eq. destruct (negb _); [done|]. cbn in Eq. injection Eq as <- <-. cbn.
      eapply sublist_nodup_ids; [exact Hn|]. apply sublist_filter.
    - unfold Release in Eq. destruct (negb _); [done|]. injection Eq as <- <-. cbn [rows signal with_rows].
      unfold sql_release. by rewrite ids_update.
    - unfold Dead in Eq. destruct (negb _); [done|]. injection Eq as <- <-. cbn [rows with_rows].
      unfold sql_dead. by rewrite ids_update. }
  destruct (decide (m_id r ∈ op_ids o1)) as [Hin|Hni].
  - assert (o = o1) as ->.
    { apply elem_of_cons in Ho as [->|Ho]; [done|]. exfalso. apply (Hd12 (m_id r) Hin).
      apply list_elem_of_bind. by exists o. }
    assert (sel_ids (op_ids o1) r = true) as Hsel by (apply andb_true_iff; split; by apply bool_decide_eq_true_2).
    destruct (settle o1 r) as [r'|] eqn:Er.
    + apply (run_ops_frame os q1 q' r' Hs E); [apply H; exists r; by rewrite Hsel|].
      left. by apply (settle_state o1 r r').
    + apply (run_ops_gone os q1 q' _ Hs E). intros Hin1. apply list_elem_of_fmap in Hin1 as (r1 & Heq & Hr1).
      apply H in Hr1 as (r0 & Hr0 & Hset).
      assert (m_id r1 = m_id r0) as Heq'.
      { destruct (sel_ids _ r0); [by apply (settle_state o1) in Hset as [_ ?]|by subst]. }
      assert (r0 = r) as -> by (eapply (same_id (rows (q_store q))); [done..|congruence]).
      rewrite Hsel in Hset. congruence.
  - apply (IH q1); [done|done|done|done| | |done|done].
    + apply elem_of_cons in Ho as [->|Ho]; [by destruct Hni|done].
    + apply H. exists r. split; [done|]. assert (sel_ids (op_ids o1) r = false) as ->; [|done].
      apply andb_false_iff. right. by apply bool_decide_eq_false_2.
Qed.
End Settle.

(** ** A worker's turn *)

Section Turn.
Context `{MR : MapRange} `{RT : Returning} `{TK : Tink}.
Context (tenants : list string) (Hnd : NoDup tenants).

Lemma store_ops_ids e idx acts :
  store_ops e idx acts ≫= op_ids ≡ₚ (dead_ids acts ++ released_ids acts ++ acked_ids acts)%list.
Proof.
  unfold store_ops, dead_ids, released_ids, acked_ids. induction acts as [|a acts IH]; [done|].
  rewrite !bind_cons, bind_app, IH. destruct a; cbn; rewrite ?app_nil_r; try done.
  - rewrite Permutation_app_swap_app. f_equiv. by rewrite (assoc_L (++)).
  - rewrite Permutation_app_swap_app. f_equiv. apply Permutation_app_swap_app.
Qed.

(** The calls name only messages of the batch, each once. *)
Lemma process_ops_ids e idx b ans :
  store_ops e idx (process b ans (b_Msgs b) []) ≫= op_ids ≡ₚ ids (b_Msgs b).
Proof. rewrite store_ops_ids. symmetry. apply (process_fates b ans (b_Msgs b) []). Qed.

Definition settles_for (idx : nat) (o : qop) : Prop :=
  match o with QDead _ i _ | QRelease _ i _ | QAck _ i _ => i = idx | _ => False end.

Lemma store_ops_shape e idx acts : Forall (settles_for idx) (store_ops e idx acts).
Proof.
  unfold store_ops. apply Forall_bind. apply Forall_forall. intros a _. destruct a; cbn; by repeat constructor.
Qed.

(** Settling calls on handed-out ids keep to the queue's protocol. *)
Lemma run_ops_reach os q q' idx :
  qreach tenants q → Forall (settles_for idx) os → (∀ id, id ∈ os ≫= op_ids → (idx, id) ∈ q_handed q) →
  run_ops tenants os q = Some q' → qreach tenants q'.
Proof.
  revert q. induction os as [|o os IH]; intros q Hq Hs Hh E; cbn in E; [by injection E as <-|].
  apply Forall_cons in Hs as [Ho Hs]. destruct (qexec tenants o q) as [q1|] eqn:E1; [|done]. cbn in E.
  assert (∀ id, id ∈ op_ids o → (idx, id) ∈ q_handed q) as Hho
    by (intros id Hid; apply Hh; rewrite bind_cons; set_solver).
  assert (q_handed q1 = q_handed q) as Hsame.
  { unfold qexec in E1. destruct (qrun tenants o (q_store q)) as [[s' l]|]; [|done]. injection E1 as <-.
    by destruct o. }
  apply (IH q1); [|done| |done].
  - eapply qreach_step; [done| |exact E1]. destruct o; try done; cbn in *; subst; set_solver.
  - rewrite Hsame. intros id Hid. apply Hh. rewrite bind_cons. set_solver.
Qed.

Lemma qexec_claim fail c idx n until q b er s1 :
  Claim tenants fail c idx n until (q_store q) = Some ((b, er), s1) →
  ∃ q1, qexec tenants (QClaim fail c idx n until) q = Some q1 ∧ q_store q1 = s1 ∧
    ∀ id, id ∈ ids (b_Msgs b) → (idx, id) ∈ q_handed q1.
Proof.
  intros E. unfold qexec. cbn [qrun]. rewrite E. cbn. eexists. split; [done|]. cbn. split; [done|].
  intros id Hid. apply list_elem_of_fmap in Hid as (m & -> & Hm). apply elem_of_app. left.
  apply list_elem_of_fmap. by exists m.
Qed.

(** A message of the batch is a claimed row now. *)
Lemma batch_claimed fail c idx n until s b er s1 r :
  store_ok tenants s → Claim tenants fail c idx n until s = Some ((b, er), s1) →
  r ∈ rows s1 → m_id r ∈ ids (b_Msgs b) → m_state r = SClaimed.
Proof.
  intros Hs E Hr Hid. apply list_elem_of_fmap in Hid as (m & Hid & Hm).
  unfold Claim in E. destruct (tenants !! idx) as [t|]; [|done].
  destruct fail; [injection E as <- <- <-; by apply not_elem_of_nil in Hm|].
  set (out := match cur_stop c with Some _ => _ | None => _ end) in E.
  pose proof (scan_rows_in c out) as Hin. destruct (scan_rows c out) as [[k l] e0]. cbn [fst snd] in Hin.
  injection E as <- <- <-. destruct (Hin m Hm) as (r0 & Hr0 & ->).
  assert (r0 ∈ sel_claim t n (rows s)) as Hsel.
  { rewrite <- (returning_perm (sel_claim t n (rows s))). subst out.
    destruct (cur_stop c) as [[j e1]|]; [|done]. by eapply elem_of_sublist, sublist_take. }
  cbn in Hr. unfold sql_claim, update in Hr. apply list_elem_of_fmap in Hr as (r1 & -> & Hr1).
  destruct (in_ids (m_id <$> sel_claim t n (rows s)) r1) eqn:Ei; [done|]. exfalso.
  apply bool_decide_eq_false in Ei. apply Ei. cbn in Hid. rewrite Hid. by apply list_elem_of_fmap_2.
Qed.

(** A claim hands out distinct ids and keeps the table's ids. *)
Lemma Claim_nodup fail c idx n until s b er s1 :
  store_ok tenants s → Claim tenants fail c idx n until s = Some ((b, er), s1) →
  NoDup (ids (b_Msgs b)) ∧ NoDup (m_id <$> rows s1).
Proof.
  intros Hs E. assert (NoDup (m_id <$> rows s)) as Hn by (eapply sorted_nodup, Hs).
  unfold Claim in E. destruct (tenants !! idx) as [t|]; [|done].
  destruct fail; [injection E as <- <- <-; split; [constructor|done]|].
  set (out := match cur_stop c with Some _ => _ | None => _ end) in E.
  destruct (scan_rows_sublist c out) as (k & Hk & Ek). destruct (scan_rows c out) as [[j l] e0]. cbn [fst snd] in Ek.
  injection E as <- <- <-. cbn [b_Msgs rows with_rows]. split; [|unfold sql_claim; by rewrite ids_update].
  subst l. unfold ids. rewrite <- list_fmap_compose. change (msg_ID ∘ message_of) with m_id.
  assert (NoDup (m_id <$> returning (sel_claim t n (rows s)))) as Hr.
  { rewrite returning_perm. eapply (sublist_nodup_ids); [exact Hn|]. apply sel_claim_sublist. }
  eapply sublist_nodup_ids; [|exact Hk]. subst out. destruct (cur_stop c) as [[j0 e1]|]; [|done].
  eapply sublist_nodup_ids; [exact Hr|]. apply sublist_take.
Qed.

(** A worker keeps to the queue's protocol: whatever the keys, the sink and the
    disk answer, a turn takes the queue from one reachable state to another, so
    the ledger stays exact and no message is lost or delivered under another id. *)
Theorem worker_keeps_protocol c e q s q' s' acts :
  qreach tenants q → exact_cursor (e_cursor e) →
  worker_turn tenants c e q s = Some (q', s', acts) → qreach tenants q'.
Proof using Hnd.
  intros Hq Hc. unfold worker_turn. destruct (Next (e_view e) s) as [[r asked] s1].
  destruct r as [idx|]; [|by intros [= <- <- <-]].
  destruct (Claim _ _ _ _ _ _ _) as [[[b er] s2]|] eqn:Ec; [|done]. cbn [mbind option_bind].
  destruct (qexec_claim _ _ _ _ _ _ _ _ _ Ec) as (q1 & E1 & _ & Hh). rewrite E1. cbn [mbind option_bind].
  assert (qreach tenants q1) as Hq1 by (eapply qreach_step; [exact Hq| |exact E1]; exact Hc).
  destruct er as [er|]; [by intros [= <- <- <-]|].
  destruct (b_Msgs b) as [|m ms] eqn:Em; [by intros [= <- <- <-]|]. rewrite <- Em.
  destruct (run_ops _ _ _) as [q2|] eqn:E2; [|done]. intros [= <- <- <-].
  eapply run_ops_reach; [exact Hq1|apply store_ops_shape| |exact E2].
  intros id Hid. apply Hh. rewrite process_ops_ids in Hid. by rewrite <- Em.
Qed.

(** C16. Every claimed message is settled, once: when its statements succeed, a turn
    leaves no message of its batch claimed.  An acknowledged one is gone, a
    dead-lettered one is dead with one attempt more, and a released one is ready
    again with its attempts untouched; the three sets share no message. *)
Theorem worker_settles_batch c e q s q' s' acts idx b s1 :
  qreach tenants q → (Next (e_view e) s).1.1 = Some idx →
  Claim tenants (e_claim e) (e_cursor e) idx (wc_ClaimBatch c) (Time.Add (e_now e) (wc_ClaimTimeout c)) (q_store q)
    = Some ((b, None), s1) →
  (∀ id, e_dead e id = None) → e_release e = None → e_ack e = None →
  worker_turn tenants c e q s = Some (q', s', acts) →
  NoDup (dead_ids acts ++ released_ids acts ++ acked_ids acts) ∧
  ∀ r, r ∈ rows s1 → m_id r ∈ ids (b_Msgs b) →
    (m_id r ∈ dead_ids acts ∧ set_dead r ∈ rows (q_store q')) ∨
    (m_id r ∈ released_ids acts ∧ set_row SReady None r ∈ rows (q_store q')) ∨
    (m_id r ∈ acked_ids acts ∧ m_id r ∉ m_id <$> rows (q_store q')).
Proof using Hnd.
  intros Hq Hn Ec Hd Hr Ha. unfold worker_turn. destruct (Next (e_view e) s) as [[r0 asked] s0]. cbn in Hn. subst r0.
  rewrite Ec. cbn [mbind option_bind].
  destruct (qexec_claim _ _ _ _ _ _ _ _ _ Ec) as (q1 & E1 & Es & _). rewrite E1. cbn [mbind option_bind].
  destruct (b_Msgs b) as [|m ms] eqn:Em.
  { intros [= <- <- <-]. split; [constructor|]. intros r _ Hin. by apply not_elem_of_nil in Hin. }
  rewrite <- Em. set (acts0 := process b (e_answer e) (b_Msgs b) []).
  destruct (run_ops _ _ _) as [q2|] eqn:E2; [|done]. intros [= <- <- <-].
  pose proof (qreach_inv tenants Hnd q Hq) as Hi.
  assert (NoDup (store_ops e idx acts0 ≫= op_ids)) as Hnod.
  { unfold acts0. rewrite process_ops_ids. by apply (Claim_nodup _ _ _ _ _ _ _ _ _ (qi_store _ _ Hi) Ec). }
  assert (NoDup (m_id <$> rows (q_store q1))) as Hrows.
  { rewrite Es. by apply (Claim_nodup _ _ _ _ _ _ _ _ _ (qi_store _ _ Hi) Ec). }
  assert (Forall settling (store_ops e idx acts0)) as Hset.
  { unfold store_ops. apply Forall_bind, Forall_forall. intros a _. destruct a; cbn; repeat constructor; cbn; auto. }
  split; [by rewrite <- (store_ops_ids e idx)|]. intros r Hin Hid. rewrite <- Es in Hin.
  assert (m_state r = SClaimed) as Hst by (eapply batch_claimed; [apply Hi|exact Ec|by rewrite <- Es|done]).
  pose proof Hid as Hid'. rewrite (process_fates b (e_answer e) (b_Msgs b) []) in Hid'. fold acts0 in Hid'.
  assert (∀ a o, a ∈ acts0 → store_op e idx a = [o] → o ∈ store_ops e idx acts0) as Hop.
  { intros a o Hain Heq. apply list_elem_of_bind. exists a. rewrite Heq. set_solver. }
  apply elem_of_app in Hid' as [Hx|Hx]; [left|right; apply elem_of_app in Hx as [Hx|Hx]; [left|right]];
    (split; [exact Hx|]); apply list_elem_of_bind in Hx as (a & Hx & Hain); destruct a; try (by apply not_elem_of_nil in Hx).
  - apply list_elem_of_singleton in Hx. 
    apply (run_ops_settle tenants _ _ _ (QDead (e_dead e id) idx id) r Hrows Hnod Hset E2); [|done|done|cbn; set_solver].
    by eapply Hop.
  - apply (run_ops_settle tenants _ _ _ (QRelease (e_release e) idx rest) r Hrows Hnod Hset E2); [|done..].
    by eapply Hop.
  - apply (run_ops_settle tenants _ _ _ (QAck (e_ack e) idx acked) r Hrows Hnod Hset E2); [|done..].
    by eapply Hop.
Qed.
End Turn.

(** ** What reaches the sink *)

Section Delivery.
Context `{TK : Tink} {TL : TinkLaws TK}.

Lemma finish_no_release acked a : a ∈ finish acked → a = WAck acked.
Proof. destruct acked; cbn; set_solver. Qed.

(** Splitting a sequence whose head holds no release. *)
Lemma app_split_release (hd tl pre : list waction) rest post :
  Forall (λ a, ∀ l, a ≠ WRelease l) hd → (hd ++ tl)%list = (pre ++ WRelease rest :: post)%list →
  ∃ pre', pre = (hd ++ pre')%list ∧ tl = (pre' ++ WRelease rest :: post)%list.
Proof.
  revert pre. induction hd as [|a hd IH]; intros pre Hf E; [by exists pre|].
  apply Forall_cons in Hf as [Ha Hf]. destruct pre as [|a' pre]; injection E as E0 E; [by destruct (Ha rest)|].
  subst a'. destruct (IH pre Hf E) as (pre' & -> & ->). by exists pre'.
Qed.

Lemma deliver_opened b ans msgs acked t idx id pt :
  WDeliver t idx id pt ∈ process b ans msgs acked →
  t = b_Tenant b ∧ idx = b_Idx b ∧ ∃ m h, m ∈ msgs ∧ id = msg_ID m ∧ an_key (ans m) = inr h ∧
    Open h (an_open (ans m)) t id (mkEnvelope (msg_DEKID m) (msg_Ciphertext m)) = inr pt.
Proof.
  revert acked. induction msgs as [|m ms IH]; intros acked Hin; cbn [process] in Hin.
  { by apply finish_no_release in Hin. }
  assert (∀ acked, WDeliver t idx id pt ∈ process b ans ms acked → t = b_Tenant b ∧ idx = b_Idx b ∧
    ∃ m0 h, m0 ∈ m :: ms ∧ id = msg_ID m0 ∧ an_key (ans m0) = inr h ∧
    Open h (an_open (ans m0)) t id (mkEnvelope (msg_DEKID m0) (msg_Ciphertext m0)) = inr pt) as Hrest.
  { intros acked0 H. destruct (IH acked0 H) as (? & ? & m0 & h & Hm & ? & ? & ?). split_and!; [done..|].
    exists m0, h. split_and!; [by right|done..]. }
  assert (∀ acked l, WDeliver t idx id pt ∈ WRelease l :: finish acked → False) as Hrel.
  { intros acked0 l [?|?%finish_no_release]%elem_of_cons; done. }
  apply elem_of_cons in Hin as [?|Hin]; [done|]. destruct (an_key (ans m)) as [e|h] eqn:Ek.
  - destruct (errors.Is e ErrPoison); [apply elem_of_cons in Hin as [?|Hin]; [done|by eapply Hrest]|].
    apply elem_of_app in Hin as [Hin|Hin]; [|by apply Hrel in Hin].
    destruct (errors.Is e ErrDEKCold); set_solver.
  - destruct (Open _ _ _ _ _) as [e|pt0] eqn:Eo.
    + destruct (errors.Is e ErrPoison); [apply elem_of_cons in Hin as [?|Hin]; [done|by eapply Hrest]|].
      by apply Hrel in Hin.
    + apply elem_of_cons in Hin as [[= -> -> -> ->]|Hin].
      { split_and!; [done..|]. exists m, h. split_and!; [by left|done..]. }
      destruct (an_sink (ans m)); [destruct (an_stopping (ans m)); [by apply Hrel in Hin|]|];
        (apply elem_of_cons in Hin as [?|Hin]; [done|by eapply Hrest]).
Qed.


(** An unusable key stops the batch where it is: from the first release on the
    worker asks for no further key and delivers nothing more, what it gives back is
    exactly the unprocessed rest of the batch in order, and all that can follow is
    the acknowledgement of what was delivered before. *)
Theorem release_ends_batch b ans msgs acked pre rest post :
  process b ans msgs acked = (pre ++ WRelease rest :: post)%list →
  (∃ k, rest = drop k (ids msgs)) ∧ (∀ a, a ∈ post → ∃ l, a = WAck l) ∧
  (∀ a l, a ∈ pre → a ≠ WRelease l).
Proof.
  revert acked pre. induction msgs as [|m ms IH]; intros acked pre E; cbn [process] in E.
  { destruct acked; cbn in E; destruct pre as [|a [|a' pre]]; simplify_eq/=. }
  assert (∀ (hd : list waction) acked0, Forall (λ a, ∀ l, a ≠ WRelease l) hd →
    (hd ++ process b ans ms acked0)%list = (pre ++ WRelease rest :: post)%list →
    (∃ k, rest = drop k (ids (m :: ms))) ∧ (∀ a, a ∈ post → ∃ l, a = WAck l) ∧ (∀ a l, a ∈ pre → a ≠ WRelease l)) as Hgo.
  { intros hd acked0 Hhd E0. destruct (app_split_release hd _ pre rest post Hhd E0) as (pre' & -> & E').
    destruct (IH acked0 pre' E') as ((k & Hk) & H2 & H3). split_and!; [by exists (S k)|done|].
    intros a l [Ha|Ha]%elem_of_app; [by rewrite Forall_forall in Hhd; apply Hhd|by apply H3]. }
  assert (∀ (hd : list waction) acked0, Forall (λ a, ∀ l, a ≠ WRelease l) hd →
    (hd ++ WRelease (ids (m :: ms)) :: finish acked0)%list = (pre ++ WRelease rest :: post)%list →
    (∃ k, rest = drop k (ids (m :: ms))) ∧ (∀ a, a ∈ post → ∃ l, a = WAck l) ∧ (∀ a l, a ∈ pre → a ≠ WRelease l)) as Hstop.
  { intros hd acked0 Hhd E0. destruct (app_split_release hd _ pre rest post Hhd E0) as (pre' & -> & E').
    destruct pre' as [|a pre'].
    - injection E' as <- <-. split_and!; [by exists 0%nat|intros a Ha; eexists; by apply finish_no_release|].
      intros a l Ha. rewrite app_nil_r in Ha. rewrite Forall_forall in Hhd. by apply Hhd.
    - exfalso. injection E' as _ E'. assert (WRelease rest ∈ finish acked0) as Hf by (rewrite E'; set_solver).
      by apply finish_no_release in Hf. }
  destruct (an_key (ans m)) as [e|h].
  - destruct (errors.Is e ErrPoison); [eapply (Hgo [WDecryptKey _ _; WDead _]); [by repeat constructor|exact E]|].
    destruct (errors.Is e ErrDEKCold);
      [eapply (Hstop [WDecryptKey _ _; WWarm _ _])|eapply (Hstop [WDecryptKey _ _])]; try exact E; by repeat constructor.
  - destruct (Open _ _ _ _ _) as [e|pt].
    + destruct (errors.Is e ErrPoison); [eapply (Hgo [WDecryptKey _ _; WDead _])|eapply (Hstop [WDecryptKey _ _])];
        try exact E; by repeat constructor.
    + destruct (an_sink (ans m)).
      * destruct (an_stopping (ans m)); [eapply (Hstop [WDecryptKey _ _; WDeliver _ _ _ _])|
          eapply (Hgo [WDecryptKey _ _; WDeliver _ _ _ _; WDead _])]; try exact E; by repeat constructor.
      * eapply (Hgo [WDecryptKey _ _; WDeliver _ _ _ _; WRecord _ _]); [by repeat constructor|exact E].
Qed.
End Delivery.

(** ** Witnesses *)

Module Turns.
#[local] Existing Instance QDemo.in_order.
#[local] Existing Instance Demo.list_range.
#[local] Existing Instance Toy.tink.
Definition handle : Handle := mkHandle "t-0001/dek-1" (QDemo.at_ 1000) (Some [Byte.x07]).
Definition sealed (id : Z) : Envelope :=
  match Seal handle (QDemo.at_ 90) "t-0001" id [] [Byte.x61] with inr env => env | inl _ => mkEnvelope "" [] end.
Definition put (id : Z) : list qop :=
  [QNextID; QInsert (QDemo.at_ 100) (QDemo.at_ 100) (QDemo.at_ 100) None 0 id (sealed id)].
Definition stored : qstate := QDemo.ran (put 1 ++ put 2 ++ put 3).

(** The first message opens, the second was moved, the key is gone at the third. *)
Definition answers (m : Message) : answer :=
  if msg_ID m =? 3 then mkAnswer (inl ErrKeyUnavailable) 0 0 None false
  else mkAnswer (inr (if msg_ID m =? 1 then handle else mkHandle "t-0001/dek-1" (QDemo.at_ 1000) (Some [Byte.x08])))
         (QDemo.at_ 500) (QDemo.at_ 501) None false.
Definition one_hot : view := mkView (λ i, if (i =? 0)%nat then 3 else 0) (λ _, 3) 100 (λ _, true).
Definition around : env :=
  mkEnv one_hot None sound_cursor (QDemo.at_ 500) answers (λ _, None) None None.
Definition wcfg : WorkersConfig := mkWorkersConfig 8 (30 * Second).
Definition sched : Scheduler := NewScheduler (mkSchedulerConfig false 2 false 0).
Definition done_ : option (qstate * Scheduler * list waction) := worker_turn QDemo.tenants wcfg around stored sched.
Definition after : qstate * Scheduler * list waction := default (stored, sched, []) done_.

Lemma done_eq :
  worker_turn QDemo.tenants wcfg around stored sched = Some (after.1.1, after.1.2, after.2).
Proof. vm_compute. reflexivity. Qed.

Definition claim := Claim QDemo.tenants (e_claim around) (e_cursor around) 0 (wc_ClaimBatch wcfg)
  (Time.Add (e_now around) (wc_ClaimTimeout wcfg)) (q_store stored).
Definition batch : Batch := match claim with Some ((b, _), _) => b | None => mkBatch "" 0 [] end.
Definition table : Store := match claim with Some (_, s) => s | None => Open_store [] end.
Lemma claim_eq :
  Claim QDemo.tenants (e_claim around) (e_cursor around) 0 (wc_ClaimBatch wcfg)
    (Time.Add (e_now around) (wc_ClaimTimeout wcfg)) (q_store stored) = Some ((batch, None), table).
Proof. vm_compute. reflexivity. Qed.
Definition acts : list waction := after.2.
End Turns.

Section WorkerWitnesses.
#[local] Existing Instance QDemo.in_order.
#[local] Existing Instance Demo.list_range.
#[local] Existing Instance Toy.tink.
#[local] Existing Instance Toy.laws.

Lemma worker_keeps_protocol_witness : qreach QDemo.tenants Turns.after.1.1.
Proof.
  refine (worker_keeps_protocol QDemo.tenants demo_nodup Turns.wcfg Turns.around Turns.stored Turns.sched
    Turns.after.1.1 Turns.after.1.2 Turns.after.2 (QDemo.ran_reach _) _ _); [by left|].
  exact Turns.done_eq.
Defined.

(** One message acknowledged, one dead, one back. *)
Lemma worker_settles_batch_witness :
  acked_ids Turns.acts = [1] ∧ dead_ids Turns.acts = [2] ∧ released_ids Turns.acts = [3] ∧
  NoDup (dead_ids Turns.acts ++ released_ids Turns.acts ++ acked_ids Turns.acts).
Proof.
  split_and!; [vm_compute; reflexivity..|].
  refine (proj1 (worker_settles_batch QDemo.tenants demo_nodup Turns.wcfg Turns.around Turns.stored Turns.sched
    Turns.after.1.1 Turns.after.1.2 Turns.after.2 0 Turns.batch Turns.table (QDemo.ran_reach _) _ _ _ _ _ _)).
  - reflexivity.
  - exact Turns.claim_eq.
  - reflexivity.
  - reflexivity.
  - reflexivity.
  - exact Turns.done_eq.
Defined.


Lemma release_ends_batch_witness : ∃ k, [3] = drop k (ids (b_Msgs Turns.batch)).
Proof.
  refine (proj1 (release_ends_batch Turns.batch Turns.answers (b_Msgs Turns.batch) []
    (take 6 Turns.acts) [3] [WAck [1]] _)).
  vm_compute. reflexivity.
Defined.
End WorkerWitnesses.
