(* ===== verification/Pool.v ===== *)
(** * internal/queue/workers.go: the pool

    [Run] starts [cfg.Workers] goroutines over one store and one scheduler.  Here
    they are interleaved call by call, with one another and with everybody else
    who uses the store: the front door, the reclaim and expiry sweeps, the census.
    [Workers.process] says what one worker does with one batch; the pool says what
    the workers do to each other. *)

From S2P Require Import Prelude GoLib Kms Tink Lease Cmek Store StoreInv StoreOps Queue QueueSpec Sealing Demo Scheduler Workers.
From Stdlib Require Import Sorting.Sorted.
Local Open Scope string_scope.
Local Open Scope Z_scope.

(** ** One message *)

Section NextCalls.
Context `{TK : Tink}.

(** One iteration of the message loop, [h.Zero()] and the logging aside: the calls
    it makes, the messages left and [acked]; a [break], and the end of the batch, go
    on to the acknowledgement. *)
Definition next_calls (b : Batch) (a : answer) (msgs : list Message) (acked : list Z)
  : list waction * list Message * list Z :=
  match msgs with
  | [] => (finish acked, [], [])
  | m :: ms =>
      let stop := (WRelease (ids msgs) :: finish acked)%list in
      let key := WDecryptKey (b_Tenant b) (msg_DEKID m) in
      match an_key a with
      | inl e =>
          if errors.Is e ErrPoison then ([key; WDead (msg_ID m)], ms, acked)
          else ((key :: (if errors.Is e ErrDEKCold then [WWarm (b_Tenant b) (msg_DEKID m)] else []) ++ stop)%list, [], [])
      | inr h =>
          match Open h (an_open a) (b_Tenant b) (msg_ID m) (mkEnvelope (msg_DEKID m) (msg_Ciphertext m)) with
          | inl e =>
              if errors.Is e ErrPoison then ([key; WDead (msg_ID m)], ms, acked) else (key :: stop, [], [])
          | inr pt =>
              let sent := WDeliver (b_Tenant b) (b_Idx b) (msg_ID m) pt in
              match an_sink a with
              | Some _ =>
                  if an_stopping a then (key :: sent :: stop, [], []) else ([key; sent; WDead (msg_ID m)], ms, acked)
              | None =>
                  ([key; sent; WRecord (b_Idx b) (Time.Sub (an_at a) (msg_EnqueuedAt m))], ms, (acked ++ [msg_ID m])%list)
              end
          end
      end
  end.

(** [process] is this iteration, repeated. *)
Lemma process_next b ans m ms acked :
  process b ans (m :: ms) acked =
    let '(acts, rest, k) := next_calls b (ans m) (m :: ms) acked in (acts ++ process b ans rest k)%list.
Proof.
  cbn [process next_calls]. destruct (an_key (ans m)) as [e|h].
  - destruct (errors.Is e ErrPoison); [done|]. by rewrite app_nil_r.
  - destruct (Open _ _ _ _ _) as [e|pt]; [destruct (errors.Is e ErrPoison); [done|]; by rewrite app_nil_r|].
    destruct (an_sink (ans m)); [destruct (an_stopping (ans m))|]; try done. by rewrite app_nil_r.
Qed.
End NextCalls.

(** The calls on the store, made one at a time. *)
Definition is_call (a : waction) : bool := match a with WDead _ | WRelease _ | WAck _ => true | _ => false end.

(** The deliveries the sink took: those the recorder is told about. *)
Fixpoint accepted_ids (acts : list waction) : list Z :=
  match acts with
  | WDeliver _ _ id _ :: ((WRecord _ _ :: _) as rest) => id :: accepted_ids rest
  | _ :: rest => accepted_ids rest
  | [] => []
  end.

(** ** The pool *)

(** Where a worker's goroutine is: at the top of [loop]; holding [Next]'s answer;
    in [wait]; in a batch with store calls still to make, the messages left and
    those delivered; returned. *)
Inductive wstate :=
  | AtTop
  | AtClaim (idx : nat)
  | AtWait
  | InBatch (b : Batch) (calls : list waction) (msgs : list Message) (acked : list Z)
  | Returned.

(** After the last call of a batch the loop is at its top again. *)
Definition batch_rest (b : Batch) (calls : list waction) (msgs : list Message) (acked : list Z) : wstate :=
  match calls, msgs, acked with [], [], [] => AtTop | _, _, _ => InBatch b calls msgs acked end.

(** The store, the scheduler, the workers, whether the context has ended, and two
    histories: the ids the sink took, newest first, and the ids a reclaim sweep
    found claimed past their deadline. *)
Record pool := mkPool {
  p_q : qstate; p_sched : Scheduler; p_workers : list wstate; p_ended : bool;
  p_sent : list Z; p_lapsed : list Z }.

Section Events.
Context `{TK : Tink}.

Inductive pevent :=
  | PNext (i : nat) (v : view)
  | PStop (i : nat)
  | PClaim (i : nat) (fail : option err) (c : cursor) (now : Time)
  | PPoll (i : nat)
  | PWoken (i : nat)
  | PDone (i : nat)
  | PMsg (i : nat) (a : answer)
  | PCall (i : nat) (fail : option err)
  | POther (o : qop)
  | PEnd.

(** The worker an event belongs to. *)
Definition event_worker (e : pevent) : option nat :=
  match e with
  | PNext i _ | PStop i | PClaim i _ _ _ | PPoll i | PWoken i | PDone i | PMsg i _ | PCall i _ => Some i
  | POther _ | PEnd => None
  end.
End Events.

(** The store calls other components make. *)
Definition others_call (o : qop) : bool :=
  match o with
  | QNextID | QInsert _ _ _ _ _ _ _ | QPutDEK _ _ | QReclaim _ _ _ | QExpire _ _ _ _ | QCensus _ _ _ _ => true
  | _ => false
  end.

(** The claimed rows past their deadline. *)
Definition overdue (now : Time) (s : Store) : list Z :=
  m_id <$> filter (λ r, sel_reclaim (ms now) r = true) (rows s).
Definition lapses (o : qop) (s : Store) : list Z := match o with QReclaim _ _ now => overdue now s | _ => [] end.

Section Pool.
Context `{MR : MapRange} `{RT : Returning} `{TK : Tink}.
Context (tenants : list string) (c : WorkersConfig).

Definition call_op (fail : option err) (idx : nat) (a : waction) : option qop :=
  match a with
  | WDead id => Some (QDead fail idx id)
  | WRelease l => Some (QRelease fail idx l)
  | WAck l => Some (QAck fail idx l)
  | _ => None
  end.

(** The pool with worker [i] elsewhere. *)
Definition move (i : nat) (w : wstate) (p : pool) : pool :=
  mkPool (p_q p) (p_sched p) (<[i := w]> (p_workers p)) (p_ended p) (p_sent p) (p_lapsed p).
Definition with_queue (q : qstate) (p : pool) : pool :=
  mkPool q (p_sched p) (p_workers p) (p_ended p) (p_sent p) (p_lapsed p).
Definition with_sched (s : Scheduler) (p : pool) : pool :=
  mkPool (p_q p) s (p_workers p) (p_ended p) (p_sent p) (p_lapsed p).

(** One step.  A sink refusal is a dead letter or a release by whether the context
    has ended, which the state knows. *)
Definition pstep (e : pevent) (p : pool) : option pool :=
  match e with
  | PNext i v =>
      match p_workers p !! i with
      | Some AtTop =>
          if p_ended p then None
          else let '(r, _, s) := Next v (p_sched p) in
               Some (with_sched s (move i (match r with Some idx => AtClaim idx | None => AtWait end) p))
      | _ => None
      end
  | PStop i =>
      match p_workers p !! i with
      | Some AtTop => if p_ended p then Some (move i Returned p) else None
      | _ => None
      end
  | PClaim i fail cur now =>
      match p_workers p !! i with
      | Some (AtClaim idx) =>
          let until := Time.Add now (wc_ClaimTimeout c) in
          '((b, er), _) ← Claim tenants fail cur idx (wc_ClaimBatch c) until (q_store (p_q p));
          q ← qexec tenants (QClaim fail cur idx (wc_ClaimBatch c) until) (p_q p);
          Some (move i (match er, b_Msgs b with None, _ :: _ => InBatch b [] (b_Msgs b) [] | _, _ => AtWait end)
                  (with_queue q p))
      | _ => None
      end
  | PPoll i => match p_workers p !! i with Some AtWait => Some (move i AtTop p) | _ => None end
  | PWoken i =>
      match p_workers p !! i with
      | Some AtWait => q ← qexec tenants QWake (p_q p); Some (move i AtTop (with_queue q p))
      | _ => None
      end
  | PDone i =>
      match p_workers p !! i with
      | Some AtWait => if p_ended p then Some (move i Returned p) else None
      | _ => None
      end
  | PMsg i a =>
      match p_workers p !! i with
      | Some (InBatch b [] msgs acked) =>
          if Bool.eqb (an_stopping a) (p_ended p) then
            let '(acts, ms, k) := next_calls b a msgs acked in
            let calls := filter (λ x, is_call x = true) acts in
            Some (mkPool (p_q p) (p_sched p) (<[i := batch_rest b calls ms k]> (p_workers p)) (p_ended p)
                    (accepted_ids acts ++ p_sent p)%list (p_lapsed p))
          else None
      | _ => None
      end
  | PCall i fail =>
      match p_workers p !! i with
      | Some (InBatch b (a :: calls) msgs acked) =>
          o ← call_op fail (b_Idx b) a;
          q ← qexec tenants o (p_q p);
          Some (move i (batch_rest b calls msgs acked) (with_queue q p))
      | _ => None
      end
  | POther o =>
      if others_call o then
        q ← qexec tenants o (p_q p);
        Some (mkPool q (p_sched p) (p_workers p) (p_ended p) (p_sent p) (lapses o (q_store (p_q p)) ++ p_lapsed p)%list)
      else None
  | PEnd => Some (mkPool (p_q p) (p_sched p) (p_workers p) true (p_sent p) (p_lapsed p))
  end.

(** What the callers and the driver keep to, as in [Queue.allowed]. *)
Definition pallowed (e : pevent) (p : pool) : Prop :=
  match e with
  | PClaim _ _ cur _ => exact_cursor cur
  | POther o => allowed o (p_q p)
  | _ => True
  end.

(** [Run]: every worker at its top. *)
Definition pool0 (n : nat) (s : Scheduler) : pool := mkPool (q0 tenants) s (replicate n AtTop) false [] [].

Inductive preach (n : nat) : pool → Prop :=
  | preach_run s : ring_ok s → sc_Tenants (s_cfg s) = length tenants → preach n (pool0 n s)
  | preach_step e p p' : preach n p → pallowed e p → pstep e p = Some p' → preach n p'.
End Pool.

(** ** What a worker holds *)

(** The messages of its batch it has not delivered, and those it has. *)
Definition undone (w : wstate) : list Z :=
  match w with InBatch _ calls msgs _ => (dead_ids calls ++ released_ids calls ++ ids msgs)%list | _ => [] end.
Definition finished (w : wstate) : list Z :=
  match w with InBatch _ calls _ acked => (acked_ids calls ++ acked)%list | _ => [] end.
Definition held (w : wstate) : list Z := (undone w ++ finished w)%list.

Lemma rest_undone b calls msgs acked :
  undone (batch_rest b calls msgs acked) = (dead_ids calls ++ released_ids calls ++ ids msgs)%list.
Proof. by destruct calls, msgs, acked. Qed.
Lemma rest_finished b calls msgs acked :
  finished (batch_rest b calls msgs acked) = (acked_ids calls ++ acked)%list.
Proof. by destruct calls, msgs, acked. Qed.

Section Message.
Context `{TK : Tink}.

Lemma finish_calls acked : filter (λ x, is_call x = true) (finish acked) = finish acked.
Proof. by destruct acked. Qed.

(** One message: of what was undone, what the calls and the rest of the batch
    still cover is what the sink did not take; what it took is acknowledged. *)
Lemma next_calls_ids b a msgs acked acts ms k :
  next_calls b a msgs acked = (acts, ms, k) →
  let calls := filter (λ x, is_call x = true) acts in
  (accepted_ids acts ++ dead_ids calls ++ released_ids calls ++ ids ms)%list = ids msgs ∧
  (acked_ids calls ++ k = acked ++ accepted_ids acts)%list ∧
  Forall (λ x, is_call x = true) calls.
Proof.
  intros E calls. split_and!; [| |apply Forall_forall; intros x Hx; by apply list_elem_of_filter in Hx as [? _]].
  all: assert (∀ l, acked_ids (WRelease l :: finish acked) = acked ∧ dead_ids (WRelease l :: finish acked) = [] ∧
      released_ids (WRelease l :: finish acked) = l ∧ accepted_ids (WRelease l :: finish acked) = []) as Hstop
    by (intros l; destruct acked; cbn; rewrite ?app_nil_r; done).
  all: revert E; unfold next_calls; subst calls; destruct msgs as [|m rest];
    [intros [= <- <- <-]; rewrite finish_calls; destruct (finish_ids acked) as (E1 & E2 & E3);
       rewrite ?E1, ?E2, ?E3; destruct acked; cbn; by rewrite ?app_nil_r|].
  all: destruct (Hstop (msg_ID m :: ids rest)) as (H1 & H2 & H3 & H4).
  all: destruct (an_key a) as [e|h]; [destruct (errors.Is e ErrPoison); [|destruct (errors.Is e ErrDEKCold)]
    |destruct (Open _ _ _ _ _) as [e|pt]; [destruct (errors.Is e ErrPoison)
       |destruct (an_sink a); [destruct (an_stopping a)|]]]; intros [= <- <- <-];
    try (cbn; rewrite ?app_nil_r; done).
  all: rewrite ?filter_cons; cbn [is_call]; repeat (rewrite decide_False by done); rewrite ?decide_True by done;
    rewrite ?finish_calls; cbn [accepted_ids app] in *;
    rewrite ?H1, ?H2, ?H3, ?H4, ?app_nil_r; try done.
Qed.
End Message.

(** ** What one call does to the ready rows *)

Section Ready.
Context `{MR : MapRange} `{RT : Returning}.
Context (tenants : list string) (Hnd : NoDup tenants).

Lemma qexec_run o q q' :
  qexec tenants o q = Some q' → ∃ l, qrun tenants o (q_store q) = Some (q_store q', l).
Proof.
  unfold qexec. destruct (qrun tenants o (q_store q)) as [[s l]|]; [|done]. intros [= <-]. by exists l.
Qed.

(** A ready row was ready before, is new, was named by a release, or was overdue
    at a reclaim. *)
Definition ready_again (o : qop) (q : qstate) (id : Z) : Prop :=
  (∃ r, r ∈ rows (q_store q) ∧ m_id r = id ∧ m_state r = SReady) ∨ id ∈ q_tickets q ∨
  (∃ f idx l, o = QRelease f idx l ∧ id ∈ l) ∨ id ∈ lapses o (q_store q).

Lemma ready_same o q r : r ∈ rows (q_store q) → m_state r = SReady → ready_again o q (m_id r).
Proof. left. by exists r. Qed.

Lemma ready_update o q sel f r :
  r ∈ update sel f (rows (q_store q)) → m_state r = SReady →
  (∀ r0, r0 ∈ rows (q_store q) → sel r0 = true → m_state (f r0) = SReady → ready_again o q (m_id (f r0))) →
  ready_again o q (m_id r).
Proof.
  intros (r0 & -> & Hr0)%list_elem_of_fmap. destruct (sel r0) eqn:Es; [|intros; by apply ready_same].
  intros Hst Hf. by apply Hf.
Qed.

Lemma ready_row o q q' r :
  qinv tenants q → allowed o q → qexec tenants o q = Some q' → r ∈ rows (q_store q') → m_state r = SReady →
  ready_again o q (m_id r).
Proof using Hnd.
  intros Hq Ha Hex. destruct (qexec_run o q q' Hex) as [l E]. generalize dependent (q_store q'). clear q' Hex.
  intros s' E Hr Hst. pose proof (λ H, ready_same o q r H Hst) as Hsame.
  destruct o as [|now st en fail idx id env|fail d|fail c idx n until|fail idx ids|fail idx ids
    |fail idx id|fr fw now|fr fw before lim|fail st at_ en|]; cbn [qrun] in E.
  - injection E as <- _. by apply Hsame.
  - unfold Insert in E. destruct (tenants !! idx) as [t|]; [|done]. destruct fail; [simplify_eq/=; by apply Hsame|].
    cbn [rows record_insert] in E. destruct (sql_insert _ _) as [rs|] eqn:Ei; [|simplify_eq/=; by apply Hsame].
    simplify_eq/=. destruct (insert_spec tenants Hnd _ _ _ Ei (so_sorted _ _ (qi_store _ _ Hq))) as [Hp _].
    rewrite Hp in Hr. apply elem_of_cons in Hr as [->|Hr]; [|by apply Hsame]. right. by left.
  - unfold PutDEK in E. destruct fail; [|case_bool_decide]; simplify_eq/=; by apply Hsame.
  - unfold Claim in E. destruct (tenants !! idx) as [t|]; [|done]. destruct fail; [simplify_eq/=; by apply Hsame|].
    destruct (scan_rows _ _) as [[k m] e]. simplify_eq/=. by apply (ready_update _ _ _ _ _ Hr Hst).
  - unfold Ack in E. destruct (negb _); [done|]. destruct fail; simplify_eq/=; [by apply Hsame|].
    apply Hsame. by apply list_elem_of_filter in Hr as [_ ?].
  - unfold Release in E. destruct (negb _); [done|]. destruct fail; simplify_eq/=; [by apply Hsame|].
    apply (ready_update _ _ _ _ _ Hr Hst). intros r0 _ Hsel _. right. right. left. eexists _, _, _. split; [done|].
    apply andb_true_iff in Hsel as [_ Hsel]. by apply bool_decide_eq_true in Hsel.
  - unfold Dead in E. destruct (negb _); [done|]. destruct fail; simplify_eq/=; [by apply Hsame|].
    by apply (ready_update _ _ _ _ _ Hr Hst).
  - destruct (Reclaim _ _ _ _ _) as [res s1] eqn:E1. simplify_eq/=. revert E1. unfold Reclaim.
    destruct fr; [intros; simplify_eq/=; by apply Hsame|]. destruct (counts_of _ _) as [m tot].
    destruct (tot =? 0); [intros; simplify_eq/=; by apply Hsame|].
    destruct fw; [intros; simplify_eq/=; by apply Hsame|].
    destruct (negb _); intros; simplify_eq/=; (apply (ready_update _ _ _ _ _ Hr Hst)); intros r0 Hr0 Hsel _;
      right; right; right; (apply (list_elem_of_fmap_2 m_id _ r0)); by apply list_elem_of_filter.
  - destruct (Expire _ _ _ _ _ _) as [res s1] eqn:E1. simplify_eq/=. revert E1. unfold Expire.
    destruct fr; [intros; simplify_eq/=; by apply Hsame|]. destruct (counts_of _ _) as [m tot].
    destruct (tot =? 0); [intros; simplify_eq/=; by apply Hsame|].
    destruct fw; [intros; simplify_eq/=; by apply Hsame|].
    destruct (negb _); intros; simplify_eq/=; apply Hsame; by apply list_elem_of_filter in Hr as [_ ?].
  - unfold Census in E. destruct fail; simplify_eq/=; by apply Hsame.
  - unfold Wake in E. destruct (wake (q_store q)); simplify_eq/=. by apply Hsame.
Qed.

(** What was handed out or accepted stays so, and only an [Ack] adds to the
    acknowledged, ids it names. *)
Lemma qexec_grows o q q' :
  qexec tenants o q = Some q' →
  (∀ x, x ∈ q_handed q → x ∈ q_handed q') ∧ (∀ id, id ∈ q_born q → id ∈ q_born q') ∧
  (∀ id, id ∈ q_acked q' → id ∈ q_acked q ∨ ∃ f idx l, o = QAck f idx l ∧ id ∈ l).
Proof.
  intros Hex. destruct (qexec_run o q q' Hex) as [l E]. revert Hex. unfold qexec. rewrite E. intros [= Es].
  rewrite <- Es. cbn. split_and!; [intros x Hx; destruct o; set_solver|set_solver|].
  intros id Hid. destruct o; auto. apply elem_of_app in Hid as [Hid|]; [|auto]. right. eexists _, _, _.
  split; [done|]. apply list_elem_of_filter in Hid as [Hgone Hid]. cbn [qrun] in E. unfold Ack in E.
  destruct (negb _); [done|]. destruct fail; injection E as E _; [congruence|]. apply list_elem_of_fmap in Hid as (r & -> & Hr).
  destruct (sel_ids ids r) eqn:Esel;
    [apply andb_true_iff in Esel as [_ Hin]; by apply bool_decide_eq_true in Hin|].
  destruct Hgone. rewrite <- E. apply list_elem_of_fmap_2. by apply list_elem_of_filter.
Qed.
End Ready.

(** ** The invariant of the pool *)

Section PoolInv.
Context `{MR : MapRange} `{RT : Returning} `{TK : Tink}.
Context (tenants : list string) (Hnd : NoDup tenants) (c : WorkersConfig).

(** A worker's own part: its index names a tenant, a batch is not empty, and what
    it holds was handed out for that index. *)
Definition worker_ok (q : qstate) (w : wstate) : Prop :=
  match w with
  | AtClaim idx => (idx < length tenants)%nat
  | InBatch b calls msgs acked => (b_Idx b < length tenants)%nat ∧ Forall (λ x, is_call x = true) calls ∧
      batch_rest b calls msgs acked = w ∧ ∀ id, id ∈ held w → (b_Idx b, id) ∈ q_handed q
  | _ => True
  end.

(** The ids in some worker's hands or with the sink. *)
Definition taken (p : pool) (id : Z) : Prop :=
  id ∈ p_sent p ∨ ∃ i w, p_workers p !! i = Some w ∧ id ∈ held w.

Record pinv (p : pool) : Prop := {
  pi_q : qreach tenants (p_q p);
  pi_ring : ring_ok (p_sched p) ∧ sc_Tenants (s_cfg (p_sched p)) = length tenants;
  pi_worker : ∀ i w, p_workers p !! i = Some w → worker_ok (p_q p) w ∧ NoDup (held w);
  pi_apart : ∀ i j w v id, p_workers p !! i = Some w → p_workers p !! j = Some v → i ≠ j →
    id ∈ held w → id ∈ held v → id ∈ p_lapsed p;
  pi_taken : ∀ r, taken p (m_id r) → r ∈ rows (q_store (p_q p)) → m_state r = SReady → m_id r ∈ p_lapsed p;
  pi_born : ∀ id, taken p id → id ∈ q_born (p_q p);
  pi_sent : ∀ i w id, p_workers p !! i = Some w → id ∈ undone w → id ∈ p_sent p → id ∈ p_lapsed p;
  pi_done : ∀ i w id, p_workers p !! i = Some w → id ∈ finished w → id ∈ p_sent p;
  pi_acked : ∀ id, id ∈ q_acked (p_q p) → id ∈ p_sent p;
  pi_once : NoDup (filter (λ id, id ∉ p_lapsed p) (p_sent p)) }.

Lemma worker_ok_mono q q' w :
  (∀ x, x ∈ q_handed q → x ∈ q_handed q') → worker_ok q w → worker_ok q' w.
Proof. intros H. destruct w; cbn [worker_ok]; [done..| |done]. intros (? & ? & ? & Hh). split_and!; auto. Qed.

(** A store call: what it makes ready is untaken or has lapsed, and what it
    acknowledges was delivered. *)
Lemma pinv_call o p q' lapsed' :
  pinv p → allowed o (p_q p) → qexec tenants o (p_q p) = Some q' →
  (∀ f idx l id, o = QRelease f idx l → id ∈ l → taken p id → id ∈ p_lapsed p) →
  (∀ f idx l id, o = QAck f idx l → id ∈ l → id ∈ p_sent p) →
  (∀ id, id ∈ lapses o (q_store (p_q p)) ∨ id ∈ p_lapsed p → id ∈ lapsed') →
  pinv (mkPool q' (p_sched p) (p_workers p) (p_ended p) (p_sent p) lapsed').
Proof using Hnd.
  intros [Hq Hring Hw Hap Htk Hb Hs Hd Hak Ho] Ha Hex Hrel Hack Hl.
  pose proof (qreach_inv tenants Hnd _ Hq) as Hi.
  destruct (qexec_grows tenants Hnd o _ _ Hex) as (Hg1 & Hg2 & Hg3).
  split; cbn.
  - by eapply qreach_step.
  - done.
  - intros i w E. destruct (Hw i w E). split; [by eapply worker_ok_mono|done].
  - intros i j w v id Ei Ej Hne H1 H2. apply Hl. right. by eapply (Hap i j).
  - intros r Ht Hr Hst. change (taken p (m_id r)) in Ht. apply Hl.
    destruct (ready_row tenants Hnd o _ _ r Hi Ha Hex Hr Hst) as [(r0 & Hr0 & Hid & Hst0)|[Hid|[(f & idx & l & -> & Hid)|Hid]]].
    + right. rewrite <- Hid in *. by apply Htk.
    + exfalso. apply Hb in Ht. by apply (qi_tickets tenants _ Hi) in Hid as [_ Hn].
    + right. by eapply Hrel.
    + by left.
  - intros id Ht. apply Hg2. by apply Hb.
  - intros i w id E H1 H2. apply Hl. right. by eapply Hs.
  - exact Hd.
  - intros id [Hid|(f & idx & l & -> & Hid)]%Hg3; [by apply Hak|by eapply Hack].
  - apply (NoDup_filter (λ id, id ∉ lapsed')) in Ho. rewrite list_filter_filter in Ho.
    erewrite list_filter_iff; [exact Ho|]. intros id. cbn. specialize (Hl id). tauto.
Qed.

(** An id nobody has: new to the worker that claims it. *)
Definition fresh (p : pool) (id : Z) : Prop :=
  (taken p id → id ∈ p_lapsed p) ∧ id ∈ q_born (p_q p) ∧
  ∀ r, r ∈ rows (q_store (p_q p)) → m_id r = id → m_state r ≠ SReady.

(** A worker moves on: it holds what it held or fresh ids, and what it has newly
    finished is what the sink newly took. *)
Lemma pinv_worker p i w w' new s ended :
  pinv p → p_workers p !! i = Some w → worker_ok (p_q p) w' →
  ring_ok s → sc_Tenants (s_cfg s) = length tenants →
  NoDup (held w') → NoDup new → (∀ id, id ∈ new → id ∈ undone w) →
  (∀ id, id ∈ undone w' → id ∈ undone w ∧ id ∉ new ∨ fresh p id) →
  (∀ id, id ∈ finished w' → id ∈ finished w ∨ id ∈ new) →
  pinv (mkPool (p_q p) s (<[i := w']> (p_workers p)) ended (new ++ p_sent p) (p_lapsed p)).
Proof.
  intros [Hq Hring Hw Hap Htk Hb Hs Hd Hak Ho] Ew Hok Hr1 Hr2 Hn' Hnew Hnu Hund Hfin.
  assert (∀ id, id ∈ held w' → id ∈ held w ∨ fresh p id) as Hheld.
  { intros id [Hid|Hid]%elem_of_app.
    - destruct (Hund id Hid) as [[? _]|?]; [left; apply elem_of_app; by left|by right].
    - left. apply elem_of_app. destruct (Hfin id Hid); [by right|left; auto]. }
  assert (∀ id, id ∈ held w → taken p id) as Hwt by (intros id Hid; right; eauto).
  assert (∀ id, id ∈ new → taken p id) as Hnt by (intros id Hid; apply Hwt, elem_of_app; left; auto).
  assert (∀ j v id, p_workers p !! j = Some v → j ≠ i → id ∈ held w' → id ∈ held v → id ∈ p_lapsed p) as Hother.
  { intros j v id Ej Hne H1 H2. destruct (Hheld id H1) as [H|[H _]]; [by eapply (Hap i j)|]. apply H. right. eauto. }
  assert (∀ j v, <[i := w']> (p_workers p) !! j = Some v → j = i ∧ v = w' ∨ j ≠ i ∧ p_workers p !! j = Some v) as Hlk.
  { intros j v E. destruct (decide (i = j)) as [->|]; [left|right].
    - rewrite list_lookup_insert_eq in E by (by eapply lookup_lt_Some). by injection E as <-.
    - by rewrite list_lookup_insert_ne in E. }
  assert (∀ id, taken (mkPool (p_q p) s (<[i := w']> (p_workers p)) ended (new ++ p_sent p) (p_lapsed p)) id →
    taken p id ∨ fresh p id) as Htk'.
  { intros id [[Hid|Hid]%elem_of_app|(j & v & E & Hid)]; [left; auto|left; by left|].
    destruct (Hlk j v E) as [[-> ->]|[_ Ej]]; [destruct (Hheld id Hid); [left|right]; auto|left; right; eauto]. }
  split; cbn.
  - done.
  - done.
  - intros j v E. destruct (Hlk j v E) as [[-> ->]|[_ Ej]]; [done|by eapply Hw].
  - intros j k v u id Ej Ek Hne H1 H2.
    destruct (Hlk j v Ej) as [[-> ->]|[Hj Ej']], (Hlk k u Ek) as [[-> ->]|[Hk Ek']]; [done|by eapply Hother|by eapply Hother|].
    by eapply (Hap j k).
  - intros r Ht Hr Hst. destruct (Htk' _ Ht) as [H|(_ & _ & H)]; [by apply Htk|by destruct (H r)].
  - intros id Ht. destruct (Htk' _ Ht) as [H|(_ & H & _)]; [by apply Hb|done].
  - intros j v id Ej H1 [H2|H2]%elem_of_app; destruct (Hlk j v Ej) as [[-> ->]|[Hj Ej']].
    + destruct (Hund id H1) as [[_ ?]|[H _]]; [done|]. apply H. auto.
    + eapply (Hap j i v w id Ej' Ew Hj); apply elem_of_app; left; auto.
    + destruct (Hund id H1) as [[H _]|[H _]]; [by eapply Hs|]. apply H. by left.
    + by eapply Hs.
  - intros j v id Ej Hid. destruct (Hlk j v Ej) as [[-> ->]|[Hj Ej']]; apply elem_of_app.
    + destruct (Hfin id Hid); [right; by eapply Hd|by left].
    + right. by eapply Hd.
  - intros id Hid. apply elem_of_app. right. by apply Hak.
  - rewrite filter_app. apply NoDup_app. split_and!; [by apply NoDup_filter| |done].
    intros id [Hl Hid]%list_elem_of_filter [_ Hid']%list_elem_of_filter. apply Hl. eapply Hs; eauto.
Qed.

(** A worker with nothing in its hands goes anywhere that holds nothing. *)
Lemma pinv_idle p i w w' s :
  pinv p → p_workers p !! i = Some w → worker_ok (p_q p) w' → held w' = [] →
  ring_ok s → sc_Tenants (s_cfg s) = length tenants → pinv (with_sched s (move i w' p)).
Proof.
  intros Hp Ew Hok Hh Hr1 Hr2. apply app_nil in Hh as [Hu Hf].
  apply (pinv_worker p i w w' [] s (p_ended p) Hp Ew Hok Hr1 Hr2).
  - unfold held. rewrite Hu, Hf. constructor.
  - constructor.
  - by intros id ?%not_elem_of_nil.
  - rewrite Hu. by intros id ?%not_elem_of_nil.
  - rewrite Hf. by intros id ?%not_elem_of_nil.
Qed.

Lemma pinv_move p i w w' :
  pinv p → p_workers p !! i = Some w → worker_ok (p_q p) w' → held w' = [] → pinv (move i w' p).
Proof. intros Hp Ew Hok Hh. by apply (pinv_idle p i w w' (p_sched p)); try apply Hp. Qed.

(** The messages of a claim are fresh to everybody. *)
Lemma claim_fresh p idx fail cur n until b er s1 q' id :
  pinv p → exact_cursor cur →
  Claim tenants fail cur idx n until (q_store (p_q p)) = Some ((b, er), s1) →
  qexec tenants (QClaim fail cur idx n until) (p_q p) = Some q' → id ∈ ids (b_Msgs b) →
  fresh (with_queue q' p) id.
Proof using Hnd.
  intros Hp Hc Ec Hex Hid. pose proof (qreach_inv tenants Hnd _ (pi_q _ Hp)) as Hi.
  destruct (qexec_claim _ _ _ _ _ _ _ _ _ _ Ec) as (q1 & E1 & Es & _). assert (q1 = q') as -> by congruence.
  assert (∃ r0, r0 ∈ rows (q_store (p_q p)) ∧ m_id r0 = id ∧ m_state r0 = SReady) as (r0 & Hr0 & Hid0 & Hst0).
  { apply list_elem_of_fmap in Hid as (m & -> & Hm).
    destruct (Claim_msgs tenants _ _ _ _ _ _ _ _ _ _ Ec Hm) as (r0 & Hr0 & -> & _ & Hst). by exists r0. }
  split_and!.
  - intros Ht. subst id. by apply (pi_taken _ Hp).
  - destruct (qexec_grows tenants Hnd _ _ _ Hex) as (_ & Hg & _). apply Hg.
    rewrite (qi_perm _ _ Hi). apply elem_of_app. left. apply list_elem_of_fmap. by exists r0.
  - intros r Hr E. cbn in Hr. rewrite Es in Hr. subst id.
    assert (m_state r = SClaimed) as ->; [|done].
    eapply (batch_claimed tenants); [apply Hi|exact Ec|exact Hr|by rewrite E].
Qed.

Lemma Claim_batch fail cur idx n until st b er s1 :
  Claim tenants fail cur idx n until st = Some ((b, er), s1) →
  b_Idx b = idx ∧ (0 <= n → (length (b_Msgs b) <= Z.to_nat n)%nat).
Proof.
  unfold Claim. destruct (tenants !! idx) as [t|]; [|done]. destruct fail; [intros [= <- _ _]; cbn; split; [done|lia]|].
  set (out := match cur_stop cur with Some _ => _ | None => _ end).
  destruct (scan_rows_sublist cur out) as (k & Hk & E). destruct (scan_rows cur out) as [[j l] e].
  cbn [fst snd] in E. intros [= <- _ _]. cbn. split; [done|]. intros Hn. subst l. rewrite length_fmap.
  etrans; [by eapply sublist_length|]. transitivity (length (returning (sel_claim t n (rows st)))).
  { subst out. destruct (cur_stop cur) as [[i0 e1]|]; [|done]. rewrite length_take. lia. }
  rewrite returning_perm. unfold sel_claim, limit. destruct (Z.ltb_spec n 0); [lia|]. rewrite length_take. lia.
Qed.

Lemma pinv_claim p i idx fail cur now b er s1 q' :
  let until := Time.Add now (wc_ClaimTimeout c) in
  pinv p → exact_cursor cur → p_workers p !! i = Some (AtClaim idx) →
  Claim tenants fail cur idx (wc_ClaimBatch c) until (q_store (p_q p)) = Some ((b, er), s1) →
  qexec tenants (QClaim fail cur idx (wc_ClaimBatch c) until) (p_q p) = Some q' →
  pinv (move i (match er, b_Msgs b with None, _ :: _ => InBatch b [] (b_Msgs b) [] | _, _ => AtWait end)
          (with_queue q' p)).
Proof using Hnd.
  intros till Hp Hc Ew Ec Hex.
  assert (pinv (with_queue q' p)) as Hp1.
  { apply (pinv_call (QClaim fail cur idx (wc_ClaimBatch c) till) p q' (p_lapsed p) Hp Hc Hex); [done|done|]. intros id [?%not_elem_of_nil|]; done. }
  destruct er as [er|]; [by eapply pinv_move|].
  destruct (b_Msgs b) as [|m ms] eqn:Em; [by eapply pinv_move|]. rewrite <- Em.
  destruct (qexec_claim _ _ _ _ _ _ _ _ _ _ Ec) as (q1 & E1 & _ & Hh). assert (q1 = q') as -> by congruence.
  destruct (Claim_batch _ _ _ _ _ _ _ _ _ Ec) as [Hidx _].
  assert (held (InBatch b [] (b_Msgs b) []) = ids (b_Msgs b)) as Hheld
    by (unfold held; cbn; by rewrite app_nil_r).
  apply (pinv_worker (with_queue q' p) i (AtClaim idx) _ [] (p_sched p) (p_ended p) Hp1 Ew); try apply Hp.
  - cbn [worker_ok]. rewrite Hheld, Hidx. split_and!; [|constructor|by rewrite Em|done].
    by apply (pi_worker _ Hp _ _ Ew).
  - rewrite Hheld. by apply (Claim_nodup tenants _ _ _ _ _ _ _ _ _ (qi_store _ _ (qreach_inv tenants Hnd _ (pi_q _ Hp))) Ec).
  - constructor.
  - by intros id ?%not_elem_of_nil.
  - intros id Hid. right. by eapply claim_fresh.
  - by intros id ?%not_elem_of_nil.
Qed.

(** One message. *)
Lemma pinv_msg p i b a msgs acked acts ms k :
  pinv p → p_workers p !! i = Some (InBatch b [] msgs acked) → next_calls b a msgs acked = (acts, ms, k) →
  let calls := filter (λ x, is_call x = true) acts in
  pinv (mkPool (p_q p) (p_sched p) (<[i := batch_rest b calls ms k]> (p_workers p)) (p_ended p)
          (accepted_ids acts ++ p_sent p) (p_lapsed p)).
Proof.
  intros Hp Ew En calls. destruct (next_calls_ids b a msgs acked acts ms k En) as (H1 & H2 & H3). fold calls in H1, H2, H3.
  destruct (pi_worker _ Hp _ _ Ew) as [(Hi & _ & _ & Hh) Hn]. unfold held in Hn, Hh. cbn in Hn, Hh.
  rewrite <- H1 in Hn, Hh.
  assert (held (batch_rest b calls ms k) ≡ₚ ids msgs ++ acked) as Hperm.
  { unfold held. rewrite rest_undone, rest_finished, H2, <- H1. cbn.
    rewrite <- !(assoc_L (++)). rewrite (Permutation_app_comm (accepted_ids acts)). rewrite <- !(assoc_L (++)).
    done. }
  apply (pinv_worker p i (InBatch b [] msgs acked) _ (accepted_ids acts) (p_sched p) (p_ended p) Hp Ew); try apply Hp.
  - assert (∀ id, id ∈ held (batch_rest b calls ms k) → (b_Idx b, id) ∈ q_handed (p_q p)) as Hok.
    { intros id Hid. apply Hh. rewrite Hperm, <- H1 in Hid. done. }
    revert Hok. unfold batch_rest. destruct calls, ms, k; cbn [worker_ok]; try done; by intros; split_and!.
  - rewrite Hperm, <- H1. exact Hn.
  - by apply NoDup_app in Hn as [[Hn _]%NoDup_app _].
  - intros id Hid. cbn. rewrite <- H1. apply elem_of_app. by left.
  - intros id Hid. left. rewrite rest_undone in Hid. cbn. rewrite <- H1. split; [apply elem_of_app; by right|].
    apply NoDup_app in Hn as [Hn _]. apply NoDup_app in Hn as (_ & Hn & _). intros Hin. by apply (Hn id).
  - intros id Hid. rewrite rest_finished, H2 in Hid. cbn. by apply elem_of_app in Hid.
Qed.

(** One settling call of a worker: its batch first loses what the call names. *)
Lemma pinv_settle p i b a calls msgs acked fail o q' :
  pinv p → p_workers p !! i = Some (InBatch b (a :: calls) msgs acked) → call_op fail (b_Idx b) a = Some o →
  qexec tenants o (p_q p) = Some q' → pinv (move i (batch_rest b calls msgs acked) (with_queue q' p)).
Proof using Hnd.
  intros Hp Ew Eo Hex. destruct (pi_worker _ Hp _ _ Ew) as [(Hi & Hcalls & _ & Hh) Hn].
  apply Forall_cons in Hcalls as [_ Hcalls].
  assert (held (InBatch b (a :: calls) msgs acked) ≡ₚ op_ids o ++ held (batch_rest b calls msgs acked)
    ∧ (∀ id, id ∈ op_ids o → match a with WAck _ => id ∈ finished (InBatch b (a :: calls) msgs acked)
                                         | _ => id ∈ undone (InBatch b (a :: calls) msgs acked) end)
    ∧ (∀ id, id ∈ undone (batch_rest b calls msgs acked) → id ∈ undone (InBatch b (a :: calls) msgs acked))
    ∧ (∀ id, id ∈ finished (batch_rest b calls msgs acked) → id ∈ finished (InBatch b (a :: calls) msgs acked)))
    as (Hperm & Hin & Hu & Hf).
  { unfold held. rewrite rest_undone, rest_finished. unfold undone, finished.
    destruct a; try done; injection Eo as <-; unfold dead_ids, released_ids, acked_ids; rewrite !bind_cons; cbn [app op_ids].
    - split_and!; [done|set_solver..].
    - split_and!; [|set_solver..]. rewrite <- !(assoc_L (++)). apply Permutation_app_swap_app.
    - split_and!; [|set_solver..]. rewrite <- (assoc_L (++) acked0). apply Permutation_app_swap_app. }
  rewrite Hperm in Hn. apply NoDup_app in Hn as (_ & Hdisj & Hn).
  assert (∀ id, id ∈ op_ids o → (b_Idx b, id) ∈ q_handed (p_q p)) as Hown
    by (intros id Hid; apply Hh; rewrite Hperm; apply elem_of_app; by left).
  assert (pinv (move i (batch_rest b calls msgs acked) p)) as Hp1.
  { apply (pinv_worker p i _ _ [] (p_sched p) (p_ended p) Hp Ew); try apply Hp.
    - assert (∀ id, id ∈ held (batch_rest b calls msgs acked) → (b_Idx b, id) ∈ q_handed (p_q p)) as Hok
        by (intros id Hid; apply Hh; rewrite Hperm; apply elem_of_app; by right).
      revert Hok. unfold batch_rest. destruct calls, msgs, acked; cbn [worker_ok]; try done; by intros; split_and!.
    - done.
    - constructor.
    - by intros id ?%not_elem_of_nil.
    - intros id Hid. left. split; [by apply Hu|apply not_elem_of_nil].
    - intros id Hid. left. by apply Hf. }
  apply (pinv_call o (move i (batch_rest b calls msgs acked) p) q' (p_lapsed p) Hp1); [|done|..]; cbn.
  - destruct a; try done; injection Eo as <-; cbn [allowed op_ids] in *; [apply Hown; by left|done..].
  - intros f idx l id -> Hid [Hs|(j & v & Ej & Hv)]; cbn in *.
    + apply (pi_sent _ Hp i _ id Ew); [|done]. destruct a; try done. by apply (Hin id).
    + destruct (decide (i = j)) as [->|Hne].
      * rewrite list_lookup_insert_eq in Ej by (by eapply lookup_lt_Some). injection Ej as <-. by destruct (Hdisj id).
      * rewrite list_lookup_insert_ne in Ej by done. eapply (pi_apart _ Hp i j); [done..| |done].
        rewrite Hperm. apply elem_of_app. by left.
  - intros f idx l id -> Hid. apply (pi_done _ Hp i _ id Ew). destruct a; try done. by apply (Hin id).
  - intros id [Hid|]; [|done]. by destruct a; try done; injection Eo as <-; apply not_elem_of_nil in Hid.
Qed.

Lemma pstep_inv e p p' : pinv p → pallowed e p → pstep tenants c e p = Some p' → pinv p'.
Proof using Hnd.
  intros Hp Ha E. destruct e as [i v|i|i fail cur now|i|i|i|i a|i fail|o|]; cbn [pstep pallowed] in *.
  - destruct (p_workers p !! i) as [[| | | |]|] eqn:Ew; try done. destruct (p_ended p); [done|].
    destruct (Next v (p_sched p)) as [[r asked] s] eqn:En. injection E as <-. destruct (pi_ring _ Hp) as [Hr Hlen].
    destruct (Next_ring _ _ _ _ _ Hr En) as (Hr' & Hcfg & _). eapply pinv_idle; [done|done| | |done|congruence].
    + destruct r as [idx|]; [|done]. destruct (Next_spec _ _ _ _ _ Hr En) as (_ & _ & want & Hi & _).
      cbn. congruence.
    + by destruct r.
  - destruct (p_workers p !! i) as [[| | | |]|] eqn:Ew; try done. destruct (p_ended p); [|done]. injection E as <-.
    by eapply pinv_move.
  - destruct (p_workers p !! i) as [[|idx| | |]|] eqn:Ew; try done.
    destruct (Claim _ _ _ _ _ _ _) as [[[b er] s1]|] eqn:Ec; [|done]. cbn [mbind option_bind] in E.
    destruct (qexec _ _ _) as [q'|] eqn:Ex; [|done]. injection E as <-. by eapply pinv_claim.
  - destruct (p_workers p !! i) as [[| | | |]|] eqn:Ew; try done. injection E as <-. by eapply pinv_move.
  - destruct (p_workers p !! i) as [[| | | |]|] eqn:Ew; try done. destruct (qexec _ _ _) as [q'|] eqn:Ex; [|done].
    injection E as <-. eapply (pinv_move (with_queue q' p)); [|exact Ew|done|done].
    apply (pinv_call QWake p q' (p_lapsed p) Hp I Ex); [done|done|]. by intros id [?%not_elem_of_nil|].
  - destruct (p_workers p !! i) as [[| | | |]|] eqn:Ew; try done. destruct (p_ended p); [|done]. injection E as <-.
    by eapply pinv_move.
  - destruct (p_workers p !! i) as [[| | |b [|] msgs acked|]|] eqn:Ew; try done. destruct (Bool.eqb _ _); [|done].
    destruct (next_calls b a msgs acked) as [[acts ms] k] eqn:En. injection E as <-. by eapply pinv_msg.
  - destruct (p_workers p !! i) as [[| | |b [|a calls] msgs acked|]|] eqn:Ew; try done.
    destruct (call_op fail (b_Idx b) a) as [o|] eqn:Eo; [|done]. cbn [mbind option_bind] in E.
    destruct (qexec _ _ _) as [q'|] eqn:Ex; [|done]. injection E as <-. by eapply pinv_settle.
  - destruct (others_call o) eqn:Eo; [|done]. destruct (qexec _ _ _) as [q'|] eqn:Ex; [|done]. injection E as <-.
    apply (pinv_call o p q' _ Hp Ha Ex); [by intros ? ? ? ? ->|by intros ? ? ? ? ->|].
    intros id. by rewrite elem_of_app.
  - injection E as <-. by destruct Hp.
Qed.

Lemma preach_inv n p : preach tenants c n p → pinv p.
Proof using Hnd.
  induction 1 as [s Hr Hl|e p p' _ IH Ha E]; [|by eapply pstep_inv].
  assert (∀ i w, replicate n AtTop !! i = Some w → w = AtTop) as Hw
    by (intros i w Ei; by apply lookup_replicate in Ei as [? _]).
  assert (∀ id, taken (pool0 tenants n s) id → False) as Ht.
  { intros id [?%not_elem_of_nil|(i & w & Ei & Hid)]; [done|]. apply Hw in Ei as ->. by apply not_elem_of_nil in Hid. }
  split; cbn.
  - constructor.
  - done.
  - intros i w ->%Hw. split; [done|constructor].
  - intros i j w v id ->%Hw _ _ H. by apply not_elem_of_nil in H.
  - intros r H. by apply Ht in H.
  - intros id H. by apply Ht in H.
  - intros i w id ->%Hw H. by apply not_elem_of_nil in H.
  - intros i w id ->%Hw H. by apply not_elem_of_nil in H.
  - by intros id ?%not_elem_of_nil.
  - constructor.
Qed.
End PoolInv.
