(* ===== verification/PoolSpec.v ===== *)
(** * What the pool of workers promises

    Safety against the sink and the ledger whatever the interleaving, the end of
    [Run], and that a turn of [Workers.worker_turn] is one way the pool can run. *)

From S2P Require Import Prelude GoLib Kms Tink Lease Cmek Store StoreInv StoreOps Queue QueueSpec Sealing Demo Scheduler Workers Pool.
Local Open Scope string_scope.
Local Open Scope Z_scope.

(** ** Runs *)

Section Runs.
Context `{MR : MapRange} `{RT : Returning} `{TK : Tink}.
Context (tenants : list string) (c : WorkersConfig).

#[export] Instance pallowed_dec e p : Decision (pallowed e p).
Proof. destruct e; cbn [pallowed]; apply _. Defined.

Fixpoint pruns (es : list pevent) (p : pool) : option pool :=
  match es with
  | [] => Some p
  | e :: es' => if bool_decide (pallowed e p) then p' ← pstep tenants c e p; pruns es' p' else None
  end.

Lemma pruns_reach n es p p' : preach tenants c n p → pruns es p = Some p' → preach tenants c n p'.
Proof.
  revert p. induction es as [|e es IH]; intros p Hp; cbn; [by intros [= <-]|].
  case_bool_decide; [|done]. destruct (pstep tenants c e p) as [p1|] eqn:E; [|done]. cbn.
  apply IH. by eapply preach_step.
Qed.

Lemma pruns_app es fs p p1 : pruns es p = Some p1 → pruns (es ++ fs) p = pruns fs p1.
Proof.
  revert p. induction es as [|e es IH]; intros p; cbn; [by intros [= ->]|].
  case_bool_decide; [|done]. destruct (pstep tenants c e p) as [p2|]; [|done]. cbn. apply IH.
Qed.
End Runs.

(** ** Stopping *)

(** The steps a worker can still take once the context has ended. *)
Definition work (c : WorkersConfig) (w : wstate) : nat :=
  match w with
  | Returned => 0
  | AtTop => 1
  | AtWait => 2
  | AtClaim _ => 2 + 3 * Z.to_nat (wc_ClaimBatch c)
  | InBatch _ calls msgs acked =>
      1 + length calls + 3 * length msgs + (match acked with [] => 0 | _ => 2 end)
  end.

(** An event is one of the workers'. *)
Definition of_worker `{TK : Tink} (e : pevent) : bool := match event_worker e with Some _ => true | None => false end.

Section Stopping.
Context `{MR : MapRange} `{RT : Returning} `{TK : Tink}.
Context (tenants : list string) (Hnd : NoDup tenants) (c : WorkersConfig) (Hbatch : 0 < wc_ClaimBatch c).

Lemma work_rest b calls msgs acked : work c (batch_rest b calls msgs acked) = work c (InBatch b calls msgs acked).
Proof. by destruct calls, msgs, acked. Qed.

(** The store calls of an iteration are its last calls. *)
Lemma calls_prefix pre tl :
  Forall (λ x, is_call x = false) pre → Forall (λ x, is_call x = true) tl →
  filter (λ x, is_call x = true) (pre ++ tl)%list = tl.
Proof.
  intros Hpre Ht. induction Hpre as [|x pre Hx _ IH]; cbn [app].
  - induction Ht as [|x tl Hx _ IH]; [done|]. by rewrite filter_cons, decide_True, IH.
  - by rewrite filter_cons, decide_False by congruence.
Qed.

(** One message costs what it was worth. *)
Lemma next_calls_work b a msgs acked acts ms k :
  batch_rest b [] msgs acked = InBatch b [] msgs acked →
  next_calls b a msgs acked = (acts, ms, k) →
  (work c (batch_rest b (filter (λ x, is_call x = true) acts) ms k) < work c (InBatch b [] msgs acked))%nat.
Proof.
  intros Hne. rewrite work_rest. unfold next_calls.
    destruct msgs as [|m rest].
  { intros [= <- <- <-]. rewrite finish_calls. destruct acked; [done|]. cbn. lia. }
  assert (∀ pre l, Forall (λ x, is_call x = false) pre →
    (1 + length (filter (λ x, is_call x = true) (pre ++ WRelease l :: finish acked)%list) + 3 * 0 + 0
     < 1 + 0 + 3 * S (length rest) + match acked with [] => 0 | _ => 2 end)%nat) as Hstop.
  { intros pre l Hp. rewrite calls_prefix; [destruct acked; cbn [finish length]; lia|done|destruct acked; by repeat constructor]. }
  assert (∀ pre id, Forall (λ x, is_call x = false) pre →
    (work c (InBatch b (filter (λ x, is_call x = true) (pre ++ [WDead id])%list) rest acked)
     < work c (InBatch b [] (m :: rest) acked))%nat) as Hdead.
  { intros pre id Hp. rewrite calls_prefix by (done || by repeat constructor). cbn [work length]. lia. }
  destruct (an_key a) as [e|h].
  - destruct (errors.Is e ErrPoison); [intros [= <- <- <-]; apply (Hdead [_]); by repeat constructor|].
    intros [= <- <- <-]. apply (Hstop (_ :: _)). constructor; [done|]. destruct (errors.Is e ErrDEKCold); by repeat constructor.
  - destruct (Open _ _ _ _ _) as [e|pt].
    + destruct (errors.Is e ErrPoison); intros [= <- <- <-]; [apply (Hdead [_]); by repeat constructor|]. apply (Hstop [_]). by repeat constructor.
    + destruct (an_sink a); [destruct (an_stopping a)|]; intros [= <- <- <-].
      * apply (Hstop [_; _]). by repeat constructor.
      * apply (Hdead [_; _]). by repeat constructor.
      * rewrite <- (app_nil_r [_; _; _]), calls_prefix by (done || by repeat constructor).
        destruct acked; cbn [work app length]; lia.
Qed.

(** What a worker may have before it at any time: a full batch. *)
Definition full : nat := 2 + 3 * Z.to_nat (wc_ClaimBatch c).

(** A worker's own step brings it closer to its end, but for a tenant picked while
    the context lasts. *)
Lemma work_step e p p' i w :
  pinv tenants p → pallowed e p → pstep tenants c e p = Some p' → event_worker e = Some i → p_workers p !! i = Some w →
  ∃ w', p_workers p' = <[i := w']> (p_workers p) ∧ p_ended p' = p_ended p ∧
    ((work c w' < work c w)%nat ∨ p_ended p = false ∧ (work c w' <= full)%nat).
Proof.
  intros Hp Ha E Hev Ew. destruct e; try done; injection Hev as ->; cbn [pstep] in E; rewrite Ew in E.
  - destruct w; try done. destruct (p_ended p) eqn:Hend; [done|]. destruct (Next _ _) as [[r ?] s]. injection E as <-.
    eexists. split; [done|]. split; [done|]. right. split; [done|]. unfold full. destruct r; cbn [work]; lia.
  - destruct w; try done. destruct (p_ended p) eqn:Hend; [|done]. injection E as <-. eexists. split; [done|]. split; [done|]. left. cbn. lia.
  - destruct w as [|idx| | |]; try done. destruct (Claim _ _ _ _ _ _ _) as [[[b er] s1]|] eqn:Ec; [|done].
    cbn [mbind option_bind] in E. destruct (qexec _ _ _) as [q'|]; [|done]. injection E as <-.
    destruct (Claim_batch tenants _ _ _ _ _ _ _ _ _ Ec) as [_ Hlen]. specialize (Hlen (Z.lt_le_incl _ _ Hbatch)).
    eexists. split; [done|]. split; [done|]. left. destruct er; [unfold work; lia|].
    destruct (b_Msgs b) as [|m ms] eqn:Em; [unfold work; lia|]. cbn [work length] in *. lia.
  - destruct w; try done. injection E as <-. eexists. split; [done|]. split; [done|]. left. cbn. lia.
  - destruct w; try done. destruct (qexec _ _ _); [|done]. injection E as <-. eexists. split; [done|]. split; [done|]. left. cbn. lia.
  - destruct w; try done. destruct (p_ended p) eqn:Hend; [|done]. injection E as <-. eexists. split; [done|]. split; [done|]. left. cbn. lia.
  - destruct w as [| | |b [|] msgs acked|]; try done. destruct (Bool.eqb _ _); [|done].
    destruct (next_calls b a msgs acked) as [[acts ms] k] eqn:En. injection E as <-. eexists. split; [done|]. split; [done|]. left.
    eapply next_calls_work; [|done]. by apply (pi_worker _ _ Hp _ _ Ew).
  - destruct w as [| | |b [|a calls] msgs acked|]; try done. destruct (call_op _ _ _); [|done]. cbn in E.
    destruct (qexec _ _ _); [|done]. injection E as <-. eexists. split; [done|]. split; [done|]. left.
    rewrite work_rest. cbn [work length]. lia.
Qed.

(** Everybody else's step leaves the workers alone. *)
Lemma other_step e p p' :
  event_worker e = None → pstep tenants c e p = Some p' →
  p_workers p' = p_workers p ∧ (p_ended p = true → p_ended p' = true).
Proof.
  intros Hev E. destruct e; try done; cbn [pstep] in E.
  - destruct (others_call o); [|done]. destruct (qexec _ _ _); [|done]. by injection E as <-.
  - by injection E as <-.
Qed.

Lemma step_worker e p p' i : pstep tenants c e p = Some p' → event_worker e = Some i → is_Some (p_workers p !! i).
Proof. destruct e; try done; intros E [= ->]; cbn [pstep] in E; destruct (p_workers p !! i); by eauto. Qed.

Lemma step_enabled p i w :
  pinv tenants p → p_ended p = true → p_workers p !! i = Some w → w ≠ Returned →
  ∃ e p', event_worker e = Some i ∧ pallowed e p ∧ pstep tenants c e p = Some p'.
Proof.
  intros Hp Hend Ew Hw. destruct (pi_worker _ _ Hp _ _ Ew) as [Hok _]. destruct w as [|idx| |b [|a calls] msgs acked|]; [| | | | |done].
  - exists (PStop i). eexists. split; [done|]. split; [done|]. cbn. by rewrite Ew, Hend.
  - exists (PClaim i (Some ErrDEKCold) sound_cursor 0). cbn in Hok.
    destruct (lookup_lt_is_Some_2 tenants idx Hok) as [t Ht]. eexists. split; [done|]. split; [by left|].
    cbn. rewrite Ew. unfold qexec. cbn [qrun]. unfold Claim. rewrite Ht. done.
  - exists (PDone i). eexists. split; [done|]. split; [done|]. cbn. by rewrite Ew, Hend.
  - exists (PMsg i (mkAnswer (inl ErrDEKCold) 0 0 None true)).
    destruct (next_calls b (mkAnswer (inl ErrDEKCold) 0 0 None true) msgs acked) as [[acts ms] k] eqn:En.
    eexists. split; [done|]. split; [done|]. cbn [pstep]. rewrite Ew, Hend. cbn [an_stopping Bool.eqb]. by rewrite En.
  - destruct Hok as (Hi & [Ha _]%Forall_cons & _). exists (PCall i (Some ErrDEKCold)).
    assert (in_range tenants (b_Idx b) = true) as Hr by (by apply bool_decide_eq_true_2).
    assert (∃ o q', call_op (Some ErrDEKCold) (b_Idx b) a = Some o ∧ qexec tenants o (p_q p) = Some q') as (o & q' & Eo & Eq).
    { destruct a; try done; eexists _, _; (split; [done|]); unfold qexec; cbn [qrun]; unfold Dead, Release, Ack;
        by rewrite Hr. }
    eexists. split; [done|]. split; [done|]. cbn [pstep]. rewrite Ew, Eo. cbn [mbind option_bind]. by rewrite Eq.
Qed.

(** No worker ever has more before it than a full batch. *)
Lemma work_bounded n p : preach tenants c n p → length (p_workers p) = n ∧ Forall (λ w, (work c w <= full)%nat) (p_workers p).
Proof using Hnd Hbatch.
  induction 1 as [s Hs Ht|e p p' Hp [IHl IHw] Ha E].
  - cbn. rewrite length_replicate. split; [done|]. apply Forall_replicate. unfold full. cbn. lia.
  - destruct (event_worker e) as [i|] eqn:Hev; [|by destruct (other_step e p p' Hev E) as [-> _]].
    destruct (step_worker e p p' i E Hev) as [w Ew]. pose proof (preach_inv tenants Hnd c n p Hp) as Hi.
    destruct (work_step e p p' i w Hi Ha E Hev Ew) as (w' & -> & _ & Hlt). rewrite length_insert. split; [done|].
    apply Forall_insert; [done|]. pose proof (Forall_lookup_1 _ _ _ _ IHw Ew) as Hw. cbn beta in *. lia.
Qed.

Lemma run_work n es p p' :
  preach tenants c n p → p_ended p = true → pruns tenants c es p = Some p' →
  (length (filter (λ e, of_worker e = true) es) + sum_list_with (work c) (p_workers p')
     <= sum_list_with (work c) (p_workers p))%nat.
Proof using Hnd Hbatch.
  revert p. induction es as [|e es IH]; intros p Hp Hend; cbn [pruns]; [intros [= <-]; cbn; lia|].
  case_bool_decide as Ha; [|done]. destruct (pstep tenants c e p) as [p1|] eqn:E; [|done]. cbn [mbind option_bind].
  intros Hrun. assert (preach tenants c n p1) as Hp1 by (by eapply preach_step).
  pose proof (preach_inv tenants Hnd c n p Hp) as Hi. rewrite filter_cons.
  destruct (event_worker e) as [i|] eqn:Hev.
  - destruct (step_worker _ _ _ _ E Hev) as [w Ew].
    destruct (work_step _ _ _ _ _ Hi Ha E Hev Ew) as (w' & Hws & Hend' & Hlt).
    assert (work c w' < work c w)%nat as Hlt' by (destruct Hlt as [|[? _]]; [done|congruence]).
    pose proof (IH p1 Hp1 (eq_trans Hend' Hend) Hrun) as H1.
    rewrite decide_True by (unfold of_worker; by rewrite Hev). cbn [length].
    pose proof (sum_list_with_insert (work c) i w w' (p_workers p) Ew) as Hs. rewrite <- Hws in Hs. lia.
  - destruct (other_step _ _ _ Hev E) as [Hws Hend'].
    pose proof (IH p1 Hp1 (Hend' Hend) Hrun) as H1.
    rewrite decide_False by (unfold of_worker; by rewrite Hev). by rewrite <- Hws.
Qed.

Lemma work_total n p : preach tenants c n p → (sum_list_with (work c) (p_workers p) <= n * full)%nat.
Proof using Hnd Hbatch.
  intros Hp. destruct (work_bounded n p Hp) as [<- Hw]. clear Hp.
  induction Hw as [|w ws Hw _ IH]; [done|]. cbn [sum_list_with length]. lia.
Qed.
End Stopping.

(** ** A turn of one worker is a run of the pool *)

Section Solo.
Context `{MR : MapRange} `{RT : Returning} `{TK : Tink}.
Context (tenants : list string) (c : WorkersConfig).

Lemma move_move i w w' p : move i w' (move i w p) = move i w' p.
Proof. unfold move. cbn. by rewrite list_insert_insert_eq. Qed.

Lemma move_id i w p : p_workers p !! i = Some w → move i w (with_queue (p_q p) p) = p.
Proof. intros E. destruct p. unfold move, with_queue. cbn in *. by rewrite list_insert_id. Qed.

Lemma run_ops_app os os' q : run_ops tenants (os ++ os')%list q = run_ops tenants os q ≫= run_ops tenants os'.
Proof.
  revert q. induction os as [|o os IH]; intros q; [done|]. cbn [app run_ops].
  destruct (qexec tenants o q) as [q1|]; [|done]. cbn [mbind option_bind]. apply IH.
Qed.

Lemma store_ops_calls e idx acts : store_ops e idx acts = store_ops e idx (filter (λ x, is_call x = true) acts).
Proof.
  unfold store_ops. induction acts as [|a acts IH]; [done|]. rewrite filter_cons, bind_cons.
  case_decide as Ha; [by rewrite bind_cons, IH|]. rewrite IH. by destruct a.
Qed.

Definition own (i : nat) (es : list pevent) : Prop := Forall (λ ev, event_worker ev = Some i) es.

(** The store calls of an iteration, one step each. *)
Lemma solo_calls i e b calls ms k p q1 :
  Forall (λ x, is_call x = true) calls → p_workers p !! i = Some (batch_rest b calls ms k) →
  run_ops tenants (store_ops e (b_Idx b) calls) (p_q p) = Some q1 →
  ∃ es, own i es ∧ pruns tenants c es p = Some (move i (batch_rest b [] ms k) (with_queue q1 p)).
Proof.
  intros Hc. revert p. induction Hc as [|a calls Ha Hc IH]; intros p Ew E.
  { injection E as <-. exists []. split; [constructor|]. cbn [pruns]. by rewrite move_id. }
  assert (∃ fail o, store_op e (b_Idx b) a = [o] ∧ call_op fail (b_Idx b) a = Some o) as (fail & o & Eo & Ec).
  { destruct a; try done; eexists _, _; (split; [done|reflexivity]). }
  unfold store_ops in E. rewrite bind_cons, Eo in E. cbn [app run_ops] in E.
  destruct (qexec tenants o (p_q p)) as [q2|] eqn:Eq; [|done]. cbn [mbind option_bind] in E.
  destruct (IH (move i (batch_rest b calls ms k) (with_queue q2 p))) as (es & Hown & Hrun).
  { cbn. apply list_lookup_insert_eq. by eapply lookup_lt_Some. }
  { exact E. }
  exists (PCall i fail :: es). split; [by constructor|]. cbn [pruns]. rewrite bool_decide_eq_true_2 by done.
  cbn [pstep]. rewrite Ew. cbn [batch_rest]. rewrite Ec. cbn [mbind option_bind]. rewrite Eq. cbn [mbind option_bind].
  rewrite Hrun. f_equal. apply (move_move i (batch_rest b calls ms k) (batch_rest b [] ms k) (with_queue q1 p)).
Qed.

Lemma next_calls_rest b a m ms acked : let '(_, rest, k) := next_calls b a (m :: ms) acked in rest = ms ∨ rest = [] ∧ k = [].
Proof.
  cbn [next_calls]. destruct (an_key a); [destruct (errors.Is _ _); auto|].
  destruct (Open _ _ _ _ _); [destruct (errors.Is _ _); auto|]. destruct (an_sink a); [destruct (an_stopping a)|]; auto.
Qed.

(** One iteration: the message, then its store calls. *)
Lemma solo_next i e b a msgs acked acts ms k p q1 :
  p_workers p !! i = Some (InBatch b [] msgs acked) → p_ended p = an_stopping a →
  next_calls b a msgs acked = (acts, ms, k) →
  run_ops tenants (store_ops e (b_Idx b) acts) (p_q p) = Some q1 →
  ∃ es, own i es ∧ pruns tenants c es p =
    Some (mkPool q1 (p_sched p) (<[i := batch_rest b [] ms k]> (p_workers p)) (p_ended p)
            (accepted_ids acts ++ p_sent p)%list (p_lapsed p)).
Proof.
  intros Ew Hend En E. rewrite store_ops_calls in E. set (calls := filter _ acts) in E.
  set (p1 := mkPool (p_q p) (p_sched p) (<[i := batch_rest b calls ms k]> (p_workers p)) (p_ended p)
               (accepted_ids acts ++ p_sent p)%list (p_lapsed p)).
  destruct (solo_calls i e b calls ms k p1 q1) as (es & Hown & Hrun).
  { apply Forall_forall. intros x Hx. by apply list_elem_of_filter in Hx as [? _]. }
  { cbn. apply list_lookup_insert_eq. by eapply lookup_lt_Some. }
  { exact E. }
  exists (PMsg i a :: es). split; [by constructor|]. cbn [pruns]. rewrite bool_decide_eq_true_2 by done.
  cbn [pstep]. rewrite Ew, Hend, eqb_reflx, En. cbn [mbind option_bind]. rewrite <- Hend. fold calls. fold p1.
  rewrite Hrun. unfold move. cbn. by rewrite list_insert_insert_eq.
Qed.

Lemma solo_batch i e b msgs acked p q2 :
  p_workers p !! i = Some (batch_rest b [] msgs acked) → p_ended p = false →
  (∀ m, an_stopping (e_answer e m) = false) →
  run_ops tenants (store_ops e (b_Idx b) (process b (e_answer e) msgs acked)) (p_q p) = Some q2 →
  ∃ es sent, own i es ∧ pruns tenants c es p =
    Some (mkPool q2 (p_sched p) (<[i := AtTop]> (p_workers p)) false (sent ++ p_sent p)%list (p_lapsed p)).
Proof.
  intros Ew Hend Hst. revert acked p Ew Hend. induction msgs as [|m ms IH]; intros acked p Ew Hend E.
  { destruct acked as [|x acked].
    - injection E as <-. exists [], []. split; [constructor|]. cbn [pruns app]. rewrite <- Hend.
      rewrite <- (move_id i AtTop p Ew) at 1. done.
    - destruct (solo_next i e b (mkAnswer (inl ErrDEKCold) 0 0 None false) [] (x :: acked) _ [] [] p q2 Ew Hend eq_refl E)
        as (es & Hown & Hrun).
      exists es, (accepted_ids (finish (x :: acked))). split; [done|]. by rewrite Hrun, Hend. }
  rewrite process_next in E. pose proof (next_calls_rest b (e_answer e m) m ms acked) as Hrest.
  destruct (next_calls b (e_answer e m) (m :: ms) acked) as [[acts rest] k] eqn:En.
  unfold store_ops in E. rewrite bind_app, run_ops_app in E. fold (store_ops e (b_Idx b) acts) in E.
  destruct (run_ops tenants (store_ops e (b_Idx b) acts) (p_q p)) as [q1|] eqn:E1; [|done]. cbn [mbind option_bind] in E.
  destruct (solo_next i e b (e_answer e m) (m :: ms) acked acts rest k p q1 Ew) as (es & Hown & Hrun); [by rewrite Hst, Hend|done|done|].
  set (p1 := mkPool q1 _ _ _ _ _) in Hrun.
  assert (p_workers p1 !! i = Some (batch_rest b [] rest k)) as Ew1
    by (apply list_lookup_insert_eq; by eapply lookup_lt_Some).
  assert (∃ es' sent, own i es' ∧ pruns tenants c es' p1 =
    Some (mkPool q2 (p_sched p1) (<[i := AtTop]> (p_workers p1)) false (sent ++ p_sent p1)%list (p_lapsed p1)))
    as (es' & sent & Hown' & Hrun').
  { destruct Hrest as [->|[-> ->]]; [by apply (IH k)|]. cbn in Ew1. cbn in E. injection E as <-. exists [], [].
    split; [constructor|]. cbn [pruns app]. rewrite <- Hend. rewrite <- (move_id i AtTop p1 Ew1) at 1. done. }
  exists (es ++ es')%list, (sent ++ accepted_ids acts)%list. split; [by apply Forall_app|].
  rewrite (pruns_app tenants c es es' p p1 Hrun), Hrun'. cbn. by rewrite list_insert_insert_eq, (assoc_L (++)).
Qed.

(** The first two steps of a turn. *)
Lemma solo_choice e p i r asked s :
  p_workers p !! i = Some AtTop → p_ended p = false → Next (e_view e) (p_sched p) = (r, asked, s) →
  pruns tenants c [PNext i (e_view e)] p =
    Some (with_sched s (move i (match r with Some idx => AtClaim idx | None => AtWait end) p)).
Proof.
  intros Ew Hend En. cbn [pruns]. rewrite bool_decide_eq_true_2 by done. cbn [pstep]. by rewrite Ew, Hend, En.
Qed.

Lemma solo_claim e p i idx b er s1 q1 :
  let til := Time.Add (e_now e) (wc_ClaimTimeout c) in
  p_workers p !! i = Some (AtClaim idx) → exact_cursor (e_cursor e) →
  Claim tenants (e_claim e) (e_cursor e) idx (wc_ClaimBatch c) til (q_store (p_q p)) = Some ((b, er), s1) →
  qexec tenants (QClaim (e_claim e) (e_cursor e) idx (wc_ClaimBatch c) til) (p_q p) = Some q1 →
  pruns tenants c [PClaim i (e_claim e) (e_cursor e) (e_now e)] p =
    Some (move i (match er, b_Msgs b with None, _ :: _ => InBatch b [] (b_Msgs b) [] | _, _ => AtWait end)
            (with_queue q1 p)).
Proof.
  intros til Ew Hc Ec E1. cbn [pruns]. rewrite bool_decide_eq_true_2 by done. cbn [pstep]. rewrite Ew.
  fold til. rewrite Ec. cbn [mbind option_bind]. by rewrite E1.
Qed.

Lemma solo_wait i es p p' :
  own i es → pruns tenants c es p = Some p' → p_workers p' = <[i := AtWait]> (p_workers p) → p_lapsed p' = p_lapsed p →
  ∃ es p0 w, own i es ∧ pruns tenants c es p = Some p0 ∧ p_q p0 = p_q p' ∧ p_sched p0 = p_sched p' ∧
    p_workers p0 = <[i := w]> (p_workers p) ∧ (w = AtTop ∨ w = AtWait) ∧ p_lapsed p0 = p_lapsed p.
Proof. intros. exists es, p', AtWait. split_and!; try done. by right. Qed.
End Solo.

(** ** The promises *)

Section PoolPromises.
Context `{MR : MapRange} `{RT : Returning} `{TK : Tink}.
Context (tenants : list string) (Hnd : NoDup tenants) (c : WorkersConfig).


(** Ownership: a message that has not lapsed is in the hands of one worker at most,
    the worker has its ids once each, and it is not ready for anybody to claim;
    one the sink took is in nobody's undelivered rest. *)
Theorem one_worker_per_message n p i w id :
  preach tenants c n p → p_workers p !! i = Some w → id ∈ held w →
  NoDup (held w) ∧
  (id ∉ p_lapsed p →
     (∀ j v, p_workers p !! j = Some v → id ∈ held v → j = i) ∧
     (∀ r, r ∈ rows (q_store (p_q p)) → m_id r = id → m_state r ≠ SReady) ∧
     (id ∈ undone w → id ∉ p_sent p) ∧ (id ∈ finished w → id ∈ p_sent p)).
Proof using Hnd.
  intros Hp%(preach_inv tenants Hnd c) Ew Hid. split; [by apply (pi_worker _ _ Hp _ _ Ew)|]. intros Hl. split_and!.
  - intros j v Ej Hv. destruct (decide (j = i)) as [|Hne]; [done|]. destruct Hl. by eapply (pi_apart _ _ Hp j i).
  - intros r Hr <- Hst. apply Hl. apply (pi_taken _ _ Hp); [right; by exists i, w|done|done].
  - intros Hu Hs. apply Hl. by eapply (pi_sent _ _ Hp).
  - by apply (pi_done _ _ Hp i).
Qed.

(** C18. [Run] returns: once the context has ended, its [n] workers make at most
    [n * (2 + 3 * ClaimBatch)] steps between them, however the others interleave,
    and every worker that has not returned can make one. *)
Theorem run_returns n p :
  0 < wc_ClaimBatch c → preach tenants c n p → p_ended p = true →
  (∀ es p', pruns tenants c es p = Some p' →
     (length (filter (λ e, of_worker e = true) es) <= n * (2 + 3 * Z.to_nat (wc_ClaimBatch c)))%nat) ∧
  (∀ i w, p_workers p !! i = Some w → w ≠ Returned →
     ∃ e p', event_worker e = Some i ∧ pallowed e p ∧ pstep tenants c e p = Some p').
Proof using Hnd.
  intros Hb Hp Hend. split.
  - intros es p' Hrun. pose proof (run_work tenants Hnd c Hb n es p p' Hp Hend Hrun) as Hw.
    pose proof (work_total tenants Hnd c Hb n p Hp) as Ht. unfold full in Ht. lia.
  - intros i w Ew Hw. eapply step_enabled; [by eapply preach_inv|done..].
Qed.

End PoolPromises.

(** ** Witnesses *)

Module PoolDemo.
#[export] Existing Instance QDemo.in_order.
#[export] Existing Instance Demo.list_range.
#[export] Existing Instance Toy.tink.
Definition cfg : WorkersConfig := mkWorkersConfig 1 (30 * Second).
Definition start : pool := pool0 QDemo.tenants 2 Turns.sched.
Definition fill : list pevent := POther <$> (Turns.put 1 ++ Turns.put 2)%list.
Definition take_one (i : nat) (t : Z) : list pevent :=
  [PNext i Turns.one_hot; PClaim i None sound_cursor (QDemo.at_ t)].
Definition good : answer := mkAnswer (inr Turns.handle) (QDemo.at_ 500) (QDemo.at_ 501) None false.
(** Deliver, then acknowledge. *)
Definition deliver (i : nat) : list pevent := [PMsg i good; PMsg i good; PCall i None].
Definition ran (es : list pevent) : pool := default start (pruns QDemo.tenants cfg es start).

Lemma start_reach : preach QDemo.tenants cfg 2 start.
Proof. apply preach_run; [by apply NewScheduler_ring; cbn; lia|reflexivity]. Qed.

Lemma ran_preach es : preach QDemo.tenants cfg 2 (ran es).
Proof.
  unfold ran. destruct (pruns QDemo.tenants cfg es start) as [p|] eqn:E; [|apply start_reach].
  eapply pruns_reach; [apply start_reach|done].
Qed.

(** Two workers, a message each. *)
Definition calm : list pevent := (fill ++ take_one 0 500 ++ take_one 1 500 ++ deliver 1 ++ deliver 0)%list.
(** The first worker's claim runs out before it delivers; the second takes the
    message again. *)
Definition late : list pevent :=
  (fill ++ take_one 0 500 ++ [POther (QReclaim None None (QDemo.at_ 40000))] ++ take_one 1 40000 ++ deliver 1 ++ deliver 0)%list.
(** The context ends with both in the middle. *)
Definition stopping : list pevent := (fill ++ take_one 0 500 ++ [PMsg 0 good; PNext 1 Turns.one_hot; PEnd])%list.
Definition first : wstate := default Returned (p_workers (ran stopping) !! 0%nat).
Lemma first_eq : p_workers (ran stopping) !! 0%nat = Some first.
Proof. vm_compute. reflexivity. Qed.
Definition alone : option (qstate * Scheduler * list waction) :=
  worker_turn QDemo.tenants cfg Turns.around (p_q (ran fill)) (p_sched (ran fill)).
Definition turned : qstate * Scheduler * list waction := default (p_q start, Turns.sched, []) alone.
Lemma turned_eq :
  worker_turn QDemo.tenants cfg Turns.around (p_q (ran fill)) (p_sched (ran fill))
    = Some (turned.1.1, turned.1.2, turned.2).
Proof. vm_compute. reflexivity. Qed.
End PoolDemo.

Section PoolWitnesses.
Import PoolDemo.


Lemma one_worker_per_message_witness :
  held <$> p_workers (ran stopping) = [[1]; []] ∧ NoDup (held first).
Proof.
  split; [vm_compute; reflexivity|].
  refine (proj1 (one_worker_per_message QDemo.tenants demo_nodup cfg 2 (ran stopping) 0 first 1 (ran_preach stopping) first_eq _)).
  vm_compute. left.
Defined.

Lemma run_returns_witness :
  sum_list_with (work cfg) (p_workers (ran stopping)) = 8%nat ∧
  ∃ e p', event_worker e = Some 0%nat ∧ pallowed e (ran stopping) ∧ pstep QDemo.tenants cfg e (ran stopping) = Some p'.
Proof.
  split; [vm_compute; reflexivity|].
  refine (proj2 (run_returns QDemo.tenants demo_nodup cfg 2 (ran stopping) _ (ran_preach stopping) _) 0%nat first first_eq _).
  - reflexivity.
  - vm_compute. reflexivity.
  - vm_compute. discriminate.
Defined.

End PoolWitnesses.
