(* ===== verification/Sink.v ===== *)
(** * internal/traffic/sink.go: the webhook endpoint and its record

    [Deliver] stamps, checks the canary, sleeps and records the delivery in the
    tenant's ring; [DeliveredBetween] reads the ring back.  The record is the
    checker's evidence, so what the ring remembers and when it admits to having
    forgotten is proved against the full history. *)

From S2P Require Import Prelude GoLib Kms.
Local Open Scope string_scope.
Local Open Scope Z_scope.

Definition ErrTenantMismatch : err :=
  Sentinel "sink.ErrTenantMismatch" "sink: payload canary names another tenant".

(** [bytes.HasPrefix] and [bytes.Index]. *)
Definition has_prefix (s pre : bytes) : bool := bool_decide (take (length pre) s = pre).
Fixpoint bytes_index (s sub : bytes) : option nat :=
  if has_prefix s sub then Some 0%nat
  else match s with [] => None | _ :: s' => S <$> bytes_index s' sub end.

Definition quote : bytes := [Byte.x22].

Record SinkConfig := mkSinkConfig { k_Tenants : nat; k_Ring : Z; k_CanaryPrefix : string }.

Record Sink := mkSink {
  k_cfg : SinkConfig; count : list Z; mismatches : Z; ring : list (list Z) }.

Definition NewSink (cfg : SinkConfig) : Sink :=
  let cfg := if k_Ring cfg <=? 0 then mkSinkConfig (k_Tenants cfg) 1024 (k_CanaryPrefix cfg) else cfg in
  mkSink cfg (replicate (k_Tenants cfg) 0) 0 (replicate (k_Tenants cfg) (replicate (Z.to_nat (k_Ring cfg)) 0)).

(** S2's test: the payload carries a canary and it is not this tenant's. *)
Definition foreign_canary (s : Sink) (tenant : string) (plaintext : bytes) : bool :=
  match bytes_index plaintext (quote ++ bytes_of (k_CanaryPrefix (k_cfg s))) with
  | Some i => negb (has_prefix (drop i plaintext)
                     (quote ++ bytes_of (k_CanaryPrefix (k_cfg s)) ++ bytes_of tenant ++ quote))
  | None => false
  end.

(** The critical section of [Deliver]. *)
Definition record (s : Sink) (idx : nat) (at_ : Time) : option Sink :=
  c ← count s !! idx;
  r ← ring s !! idx;
  let seq := c + 1 in
  let slot := Z.to_nat ((seq - 1) mod Z.of_nat (length r)) in
  Some (mkSink (k_cfg s) (<[idx := seq]> (count s)) (mismatches s)
         (<[idx := <[slot := Time.UnixNano at_]> r]> (ring s))).

(** [Deliver]; [at_] is its clock read and [ended] whether the context ended
    during the simulated latency.  [None] is an index out of range. *)
Definition Deliver (s : Sink) (tenant : string) (idx : nat) (plaintext : bytes) (at_ : Time) (ended : option err)
  : option (Time * option err * Sink) :=
  if foreign_canary s tenant plaintext then
    Some (at_, Some ErrTenantMismatch, mkSink (k_cfg s) (count s) (mismatches s + 1) (ring s))
  else
    match ended with
    | Some e => Some (at_, Some e, s)
    | None => s' ← record s idx at_; Some (at_, None, s')
    end.

(** The counting loop of [DeliveredBetween], over the seqs left. *)
Fixpoint count_loop (r : list Z) (loN hiN : Z) (seqs : list Z) : Z :=
  match seqs with
  | [] => 0
  | q :: seqs' =>
      let at_ := default 0 (r !! Z.to_nat ((q - 1) mod Z.of_nat (length r))) in
      (if (loN <? at_) && ((hiN =? 0) || (at_ <=? hiN)) then 1 else 0) + count_loop r loN hiN seqs'
  end.

Definition DeliveredBetween (s : Sink) (idx : Z) (sinceSeq : Z) (lo hi : Time) : Z * Z * bool :=
  match (if idx <? 0 then None else ring s !! Z.to_nat idx) with
  | None => (0, sinceSeq, false)
  | Some r =>
      let total := default 0 (count s !! Z.to_nat idx) in
      let size := Z.of_nat (length r) in
      let sinceSeq := if sinceSeq <? 0 then 0 else sinceSeq in
      let overrun := size <? total - sinceSeq in
      let sinceSeq := if overrun then total - size else sinceSeq in
      let loN := Time.UnixNano lo in
      let hiN := if negb (Time.IsZero hi) then Time.UnixNano hi else 0 in
      (count_loop r loN hiN (seqZ (sinceSeq + 1) (total - sinceSeq)), total, overrun)
  end.

Definition Delivered (s : Sink) (idx : nat) : option Z := count s !! idx.

(** [DeliveredAll]: the counts written over the front of [dst]. *)
Definition DeliveredAll (s : Sink) (dst : list Z) : list Z :=
  take (length dst) (count s) ++ drop (length (count s)) dst.

Definition Mismatches (s : Sink) : Z := mismatches s.

(** ** The ring against the history *)

(** The history of one tenant: the stamps of its deliveries, oldest first. *)
Definition ring_holds (r : list Z) (c : Z) (h : list Z) : Prop :=
  c = Z.of_nat (length h) ∧ (0 < length r)%nat ∧
  ∀ q, 0 < q <= c → c - Z.of_nat (length r) < q →
    r !! Z.to_nat ((q - 1) mod Z.of_nat (length r)) = h !! Z.to_nat (q - 1).

(** A sink with the history of every tenant. *)
Definition sink_ok (s : Sink) (hist : list (list Z)) : Prop :=
  length (count s) = length hist ∧ length (ring s) = length hist ∧
  ∀ i r c h, ring s !! i = Some r → count s !! i = Some c → hist !! i = Some h → ring_holds r c h.

Lemma NewSink_ok cfg : sink_ok (NewSink cfg) (replicate (k_Tenants cfg) []).
Proof.
  assert (∃ n, (0 < n)%nat ∧ ring (NewSink cfg) = replicate (k_Tenants cfg) (replicate n 0) ∧
    count (NewSink cfg) = replicate (k_Tenants cfg) 0) as (n & Hn & Hr & Hc).
  { unfold NewSink. destruct (Z.leb_spec (k_Ring cfg) 0); cbn.
    - exists 1024%nat. split_and!; [lia|done..].
    - exists (Z.to_nat (k_Ring cfg)). split_and!; [lia|done..]. }
  unfold sink_ok. rewrite Hr, Hc, !length_replicate. split_and!; [done..|].
  intros i r c h Hri Hci Hhi. apply lookup_replicate in Hri as [-> _]. apply lookup_replicate in Hci as [-> _].
  apply lookup_replicate in Hhi as [-> _]. split_and!; [done|by rewrite length_replicate|]. intros q Hq. lia.
Qed.

(** Two seqs a ring apart at most share a slot only when equal. *)
Lemma slot_inj (n a b : Z) : 0 < n → a <= b < a + n → a mod n = b mod n → a = b.
Proof.
  intros Hn Hab E. pose proof (Z.div_mod a n). pose proof (Z.div_mod b n).
  assert (b - a = n * (b / n - a / n)) by lia. assert (b / n - a / n = 0) by nia. lia.
Qed.

Lemma record_ring r c h at_ :
  ring_holds r c h → ring_holds (<[Z.to_nat (c mod Z.of_nat (length r)) := at_]> r) (c + 1) (h ++ [at_]).
Proof.
  intros (Hc & Hr & Hq). split_and!; [rewrite length_app; cbn; lia|by rewrite length_insert|].
  rewrite length_insert. intros q Hq1 Hq2. set (n := Z.of_nat (length r)) in *.
  pose proof (Z.mod_pos_bound c n ltac:(lia)) as Hcb. pose proof (Z.mod_pos_bound (q - 1) n ltac:(lia)) as Hqb.
  destruct (decide (q = c + 1)) as [->|Hne].
  - replace (c + 1 - 1) with c by lia. rewrite list_lookup_insert_eq by lia.
    rewrite lookup_app_r by lia. replace (Z.to_nat c - length h)%nat with 0%nat by lia. done.
  - rewrite list_lookup_insert_ne.
    + rewrite (Hq q) by lia. rewrite lookup_app_l by lia. done.
    + intros E. apply Z2Nat.inj in E; [|lia..]. symmetry in E. apply slot_inj in E; lia.
Qed.

Lemma record_ok s hist idx at_ s' :
  sink_ok s hist → record s idx at_ = Some s' →
  sink_ok s' (alter (λ h, h ++ [Time.UnixNano at_])%list idx hist).
Proof.
  intros (H1 & H2 & H3). unfold record. destruct (count s !! idx) as [c|] eqn:Ec; [|done].
  destruct (ring s !! idx) as [r|] eqn:Er; [|done]. cbn. intros [= <-]. unfold sink_ok. cbn.
  rewrite !length_insert, length_alter. split_and!; [done..|]. intros i r0 c0 h0.
  destruct (decide (i = idx)) as [->|Hne].
  - assert (idx < length hist)%nat as Hlt by (rewrite <- H1; by eapply lookup_lt_Some).
    rewrite list_lookup_insert_eq by lia. rewrite list_lookup_insert_eq by lia. rewrite list_lookup_alter_eq.
    intros [= <-] [= <-] Hh. destruct (hist !! idx) as [h|] eqn:Eh; [|done]. injection Hh as <-.
    replace (c + 1 - 1) with c by lia. apply record_ring. by eapply H3.
  - rewrite !list_lookup_insert_ne by done. rewrite list_lookup_alter_ne by done. apply H3.
Qed.

(** The reference definition of what [DeliveredBetween] counts. *)
Definition between (loN hiN : Z) (at_ : Z) : bool := (loN <? at_) && ((hiN =? 0) || (at_ <=? hiN)).

Lemma count_loop_spec r c h loN hiN since :
  ring_holds r c h → 0 <= since → c - Z.of_nat (length r) <= since →
  count_loop r loN hiN (seqZ (since + 1) (c - since)) = countZ (between loN hiN) (drop (Z.to_nat since) h).
Proof.
  intros (Hc & Hr & Hq) Hs Hw. remember (Z.to_nat (c - since)) as k eqn:Hk.
  revert since Hs Hw Hk. induction k as [|k IH]; intros since Hs Hw Hk.
  - unfold seqZ. replace (Z.to_nat (c - since)) with 0%nat by lia. cbn. rewrite drop_ge by lia. done.
  - rewrite seqZ_cons by lia. cbn [count_loop].
    replace (Z.succ (since + 1)) with (since + 1 + 1) by lia.
    replace (Z.pred (c - since)) with (c - (since + 1)) by lia. rewrite (IH (since + 1)) by lia.
    rewrite (Hq (since + 1)) by lia. replace (since + 1 - 1) with since by lia.
    destruct (h !! Z.to_nat since) as [x|] eqn:E; [|apply lookup_ge_None in E; lia].
    rewrite (drop_S h x (Z.to_nat since) E), countZ_cons. cbn [default]. unfold id.
    replace (Z.to_nat (since + 1)) with (S (Z.to_nat since)) by lia. done.
Qed.

(** The ring forgets, but never silently.  What [DeliveredBetween] returns is the
    number of deliveries after [sinceSeq] whose stamp is in the window, counted
    over the whole history, unless it says overrun; it says so exactly when some of
    them have left the ring, and even then it counts every one still there. *)
Theorem delivered_between_exact s hist idx since lo hi h n newSeq overrun :
  sink_ok s hist → hist !! idx = Some h → 0 <= since <= Z.of_nat (length h) →
  DeliveredBetween s (Z.of_nat idx) since lo hi = (n, newSeq, overrun) →
  let inside := between (Time.UnixNano lo) (if negb (Time.IsZero hi) then Time.UnixNano hi else 0) in
  newSeq = Z.of_nat (length h) ∧
  (overrun = false → n = countZ inside (drop (Z.to_nat since) h)) ∧
  (overrun = true ↔ ∃ r, ring s !! idx = Some r ∧ Z.of_nat (length r) < Z.of_nat (length h) - since) ∧
  (overrun = true → ∃ r, ring s !! idx = Some r ∧ n = countZ inside (drop (length h - length r) h)).
Proof.
  intros (H1 & H2 & H3) Hh Hs. unfold DeliveredBetween. destruct (Z.ltb_spec (Z.of_nat idx) 0); [lia|].
  rewrite Nat2Z.id. pose proof (lookup_lt_Some _ _ _ Hh) as Hlt.
  destruct (ring s !! idx) as [r|] eqn:Er; [|apply lookup_ge_None in Er; lia].
  destruct (count s !! idx) as [c|] eqn:Ec; [|apply lookup_ge_None in Ec; lia]. cbn [default]. unfold id.
  pose proof (H3 idx r c h Er Ec Hh) as Hring. pose proof Hring as (Hc & Hr & _).
  destruct (Z.ltb_spec since 0); [lia|]. set (inside := between _ _).
  destruct (Z.ltb_spec (Z.of_nat (length r)) (c - since)) as [Ho|Ho]; intros [= <- <- <-]; (split; [done|]).
  - split; [done|]. split; [split; [intros _; exists r; split; [done|lia]|done]|]. intros _. exists r.
    split; [done|]. rewrite (count_loop_spec r c h) by (done || lia). f_equal. f_equal. lia.
  - split; [intros _; by rewrite (count_loop_spec r c h) by (done || lia)|].
    split; [|done]. split; [done|]. intros (r' & [= <-] & ?). lia.
Qed.
