(* ===== verification/Checker.v ===== *)
(** * internal/check/checker.go: the verdicts

    One pass over the evidence: the stored rows, the sink's record and the KMS's
    ground truth.  A [Report] and a [Timeline] line are outputs; a detail is the
    format string it was built from, a constructor, with its arguments. *)

From S2P Require Import Prelude GoLib GoFloat Kms Tink Lease Cmek Store Sink.
Local Open Scope string_scope.
Local Open Scope Z_scope.

Inductive detail :=
  | DNone
  | DText (s : string)
  | DScanFailed (e : err)
  | DRows (n : Z)                                   (* "%d rows" *)
  | DLate (n : Z)                                   (* "%d decrypts after the bound" *)
  | DCensusFailed (e : err)
  | DOff (name : string) (off : Z)                  (* "%s off by %d" *)
  | DOutside (name : string) (sink lo hi : Z)       (* "%s sink %d outside [%d, %d]" *)
  | DViolations (n : Z)                             (* "%d violations so far" *)
  | DRejections (n : Z)                             (* "%d healthy rejections" *)
  | DHover (cur limit over for_ : Duration)         (* "p99 %.0fms > %.0fms for %.0f of %.0f s" *)
  | DOver (cur limit over : Duration)               (* "p99 %.0fms > %.0fms for %.0f s" *)
  | DDelivered (del want : float64)                 (* "delivered %.0f/s < %.0f" *)
  | DBacklog (total bound : Z)                      (* "backlog %d > %d" *)
  | DShed (n : Z).                                  (* "%d within-share tenants shed" *)

Inductive line :=
  | Report (id : string) (ok : bool) (count : Z) (at_ : Time) (d : detail)
  | Timeline (tenant : string) (revoke : Time) (detected : Duration).

(** [Health]'s answers; the metrics registry keeps them. *)
Record health := mkHealth {
  h_P99 : option (Duration * Duration);                     (* HealthyP99: current, baseline *)
  h_Rejections : Z; h_Overloaded : Z; h_DeliveredPS : float64;
  h_Scenario : string * bool * Time;
  h_Detected : Z → option (Time * Z) }.

Record Config := mkConfig {
  q_Tenants : list string; q_HasHealth : bool;
  q_Lease : Duration; q_FullScanEvery : Duration; q_L1Grace : Duration; q_L1For : Duration;
  q_L1Floor : Duration; q_L4Settle : Duration;
  q_CanaryPrefix : string; q_Capacity : float64; q_L1Ratio : float64; q_L4CapacityFactor : float64;
  q_GlobalCap : Z; q_Workers : Z; q_ClaimBatch : Z; q_L1 : bool; q_L4 : bool }.

Record Checker := mkChecker {
  c_cfg : Config; lastSeq : list Z; seen : gmap Z Time; posted : gmap Z Time; sink : list Z;
  lastScan : Time; s1Hits : Z; s3Late : Z; s4Bad : Z; l1Red : Z; l4Red : Z; s3Gap : bool;
  overSince : Time; l1Since : Time; lastCensus : Census_ }.

Definition no_census : Census_ := mkCensus [] [] [] [] [] [] 0 0 0.

Definition New (cfg : Config) : Checker :=
  let n := length (q_Tenants cfg) in
  mkChecker cfg (replicate n (-1)) ∅ ∅ (replicate n 0) 0 0 0 0 0 0 false 0 0 no_census.

(** Field updates. *)
Definition with_scan (t : Time) (hits : Z) (c : Checker) : Checker :=
  mkChecker (c_cfg c) (lastSeq c) (seen c) (posted c) (sink c) t hits (s3Late c) (s4Bad c) (l1Red c) (l4Red c)
    (s3Gap c) (overSince c) (l1Since c) (lastCensus c).
Definition with_s3 (seqs : list Z) (sn : gmap Z Time) (late : Z) (gap : bool) (c : Checker) : Checker :=
  mkChecker (c_cfg c) seqs sn (posted c) (sink c) (lastScan c) (s1Hits c) late (s4Bad c) (l1Red c) (l4Red c)
    gap (overSince c) (l1Since c) (lastCensus c).
Definition with_posted (p : gmap Z Time) (c : Checker) : Checker :=
  mkChecker (c_cfg c) (lastSeq c) (seen c) p (sink c) (lastScan c) (s1Hits c) (s3Late c) (s4Bad c) (l1Red c) (l4Red c)
    (s3Gap c) (overSince c) (l1Since c) (lastCensus c).
Definition with_s4 (sk : list Z) (bad : Z) (cs : Census_) (c : Checker) : Checker :=
  mkChecker (c_cfg c) (lastSeq c) (seen c) (posted c) sk (lastScan c) (s1Hits c) (s3Late c) bad (l1Red c) (l4Red c)
    (s3Gap c) (overSince c) (l1Since c) cs.
Definition with_l1 (red : Z) (t : Time) (c : Checker) : Checker :=
  mkChecker (c_cfg c) (lastSeq c) (seen c) (posted c) (sink c) (lastScan c) (s1Hits c) (s3Late c) (s4Bad c) red (l4Red c)
    (s3Gap c) (overSince c) t (lastCensus c).
Definition with_l4 (red : Z) (t : Time) (c : Checker) : Checker :=
  mkChecker (c_cfg c) (lastSeq c) (seen c) (posted c) (sink c) (lastScan c) (s1Hits c) (s3Late c) (s4Bad c) (l1Red c) red
    (s3Gap c) t (l1Since c) (lastCensus c).

(** ** S1, S2 *)

(** [s1]; [scan] is [CanaryFull]'s answer. *)
Definition s1 (scan : err + Z) (now : Time) (c : Checker) : Checker * list line :=
  if negb (Time.IsZero (lastScan c)) && (Time.Sub now (lastScan c) <? q_FullScanEvery (c_cfg c)) then (c, [])
  else
    let c := with_scan now (s1Hits c) c in
    match scan with
    | inl e => (c, [Report "S1" (s1Hits c =? 0) (s1Hits c) now (DScanFailed e)])
    | inr hits =>
        let c := with_scan now (s1Hits c + hits) c in
        (c, [Report "S1" (s1Hits c =? 0) (s1Hits c) now (if 0 <? s1Hits c then DRows (s1Hits c) else DNone)])
    end.

Definition s2 (m : Z) (now : Time) : list line := [Report "S2" (m =? 0) m now DNone].

(** ** S3 *)

Record window := mkWindow { w_idx : Z; w_revoke : Time; w_restore : Time }.

(** The loop of [windows]: the open window of an index by its place in [out]. *)
Definition window_step (st : gmap Z nat * list window) (e : KeyEvent) : gmap Z nat * list window :=
  let '(open, out) := st in
  if negb (ev_Enabled e) then
    match open !! ev_Idx e with
    | Some _ => (open, out)
    | None => (<[ev_Idx e := length out]> open, (out ++ [mkWindow (ev_Idx e) (ev_At e) 0])%list)
    end
  else
    match open !! ev_Idx e with
    | Some i => (delete (ev_Idx e) open,
                 alter (λ w, mkWindow (w_idx w) (w_revoke w) (ev_At e)) i out)
    | None => (open, out)
    end.

(** [sort.SliceStable] by index: insertion from the right keeps equals in order. *)
Fixpoint insert_window (w : window) (l : list window) : list window :=
  match l with
  | [] => [w]
  | x :: l' => if w_idx w <=? w_idx x then w :: l else x :: insert_window w l'
  end.
Definition sort_windows (l : list window) : list window := foldr insert_window [] l.

Definition windows (events : list KeyEvent) : list window :=
  sort_windows (foldl window_step (∅, []) events).2.

(** [detectionLine]. *)
Definition detectionLine (h : health) (idx : Z) (revoke : Time) (c : Checker) : Checker * list line :=
  if negb (q_HasHealth (c_cfg c)) || (default 0 (posted c !! idx) =? revoke) || (idx <? 0)
     || (Z.of_nat (length (q_Tenants (c_cfg c))) <=? idx)
  then (c, [])
  else
    match h_Detected h idx with
    | None => (c, [])
    | Some (at_, _) =>
        if negb (Time.After at_ revoke) then (c, [])
        else (with_posted (<[idx := revoke]> (posted c)) c,
              [Timeline (default "" (q_Tenants (c_cfg c) !! Z.to_nat idx)) revoke (Time.Sub at_ revoke)])
    end.

(** The windows of one tenant, counted from [since]: late deliveries, gap, and
    the furthest seq any window reached. *)
Definition count_windows (k : Sink) (lease : Duration) (idx since : Z) (ws : list window) : Z * bool * Z :=
  foldl (λ acc w,
           let '(late, gap, newSeq) := acc in
           let '(n, seq, overrun) := DeliveredBetween k idx since (Time.Add (w_revoke w) lease) (w_restore w) in
           (late + n, gap || overrun, if newSeq <? seq then seq else newSeq))
        (0, false, since) ws.

(** One tenant's episodes [ws[i:j]]; [None] is an index out of range. *)
Definition s3_tenant (k : Sink) (h : health) (idx : Z) (ws : list window) (c : Checker)
  : option (Checker * list line) :=
  latest ← last ws;
  if (idx <? 0) || (Z.of_nat (length (lastSeq c)) <=? idx) then None
  else
    let i := Z.to_nat idx in
    '(seqs, sn) ← (if negb (default 0 (seen c !! idx) =? w_revoke latest)
                   then d ← Delivered k i; Some (<[i := d]> (lastSeq c), <[idx := w_revoke latest]> (seen c))
                   else Some (lastSeq c, seen c));
    let since := default 0 (seqs !! i) in
    let '(late, gap, newSeq) := count_windows k (q_Lease (c_cfg c)) idx since ws in
    Some (detectionLine h idx (w_revoke latest)
            (with_s3 (<[i := newSeq]> seqs) sn (s3Late c + late) (s3Gap c || gap) c)).

(** The windows grouped by index, in order. *)
Fixpoint groups (ws : list window) : list (Z * list window) :=
  match ws with
  | [] => []
  | w :: ws' =>
      match groups ws' with
      | (i, g) :: gs => if i =? w_idx w then (i, w :: g) :: gs else (w_idx w, [w]) :: (i, g) :: gs
      | [] => [(w_idx w, [w])]
      end
  end.

Fixpoint s3_loop (k : Sink) (h : health) (gs : list (Z * list window)) (c : Checker) : option (Checker * list line) :=
  match gs with
  | [] => Some (c, [])
  | (idx, ws) :: gs' =>
      '(c, l) ← s3_tenant k h idx ws c;
      '(c, l') ← s3_loop k h gs' c;
      Some (c, (l ++ l')%list)
  end.

Definition s3 (events : list KeyEvent) (k : Sink) (h : health) (now : Time) (c : Checker)
  : option (Checker * list line) :=
  '(c, l) ← s3_loop k h (groups (windows events)) c;
  let d := if s3Gap c then DText "coverage gap" else if 0 <? s3Late c then DLate (s3Late c) else DNone in
  Some (c, (l ++ [Report "S3" ((s3Late c =? 0) && negb (s3Gap c)) (s3Late c) now d])%list).

(** ** S4 *)

Definition name (c : Checker) (i : nat) : string := default ("#" +:+ Itoa (Z.of_nat i)) (q_Tenants (c_cfg c) !! i).

(** The loop of [s4] over the tenants: violations, and the first one's detail. *)
Fixpoint s4_loop (c : Checker) (cs : Census_) (sk : list Z) (todo : list nat) (bad : Z) (d : detail) : Z * detail :=
  match todo with
  | [] => (bad, d)
  | i :: todo' =>
      let acc := get (cs_Accepted cs) i in let del := get (cs_Delivered cs) i in
      let exp := get (cs_Expired cs) i in let rdy := get (cs_Ready cs) i in
      let clm := get (cs_Claimed cs) i in let dead := get (cs_Dead cs) i in
      let sk_i := default 0 (sk !! i) in
      let off := acc - (del + rdy + clm + exp + dead) in
      let bound := (del <=? sk_i) && (sk_i <=? del + clm) in
      if negb (off =? 0) || negb bound then
        s4_loop c cs sk todo' (bad + 1)
          (match d with
           | DNone => if negb (off =? 0) then DOff (name c i) off else DOutside (name c i) sk_i del (del + clm)
           | _ => d
           end)
      else s4_loop c cs sk todo' bad d
  end.

(** [s4]; [census] is [Census]'s answer and [k] the sink it is sampled with. *)
Definition s4 (census : err + Census_) (k : Sink) (now : Time) (c : Checker) : Checker * list line :=
  match census with
  | inl e =>
      (* a census that fails has not run [under] *)
      (c, [Report "S4" (s4Bad c =? 0) (s4Bad c) now (DCensusFailed e)])
  | inr cs =>
      let sk := DeliveredAll k (sink c) in
      let '(bad, d) := s4_loop c cs sk (seq 0 (length (cs_Accepted cs))) 0 DNone in
      let total := s4Bad c + bad in
      let d := match d with DNone => if 0 <? total then DViolations total else DNone | _ => d end in
      (with_s4 sk total cs c, [Report "S4" (total =? 0) total now d])
  end.

(** ** L1, L4 *)

Definition global (name : string) : bool :=
  bool_decide (name = "global_surge") || bool_decide (name = "no_cache_surge").

Definition l1 (h : health) (now : Time) (c : Checker) : Checker * list line :=
  let '(nm, running, since) := h_Scenario h in
  let quiet d := (with_l1 (l1Red c) 0 c, [Report "L1" true (l1Red c) now (DText d)]) in
  if negb running then quiet "idle"
  else if global nm then quiet "global surge"
  else if Time.Sub now since <? q_L1Grace (c_cfg c) then quiet "grace"
  else
    match h_P99 h with
    | None => (c, [Report "L1" true (l1Red c) now (DText "no baseline")])
    | Some (cur, base) =>
        let limit := F.to_int64 (F.mul (q_L1Ratio (c_cfg c)) (F.of_Z (Z.max base (q_L1Floor (c_cfg c))))) in
        let rej := h_Rejections h in
        if 0 <? rej then
          (with_l1 (l1Red c + 1) (l1Since c) c,
           [Report "L1" false (l1Red c + 1) now (DRejections rej)])
        else if limit <? cur then
          let since := if Time.IsZero (l1Since c) then now else l1Since c in
          let over := Time.Sub now since in
          if over <? q_L1For (c_cfg c) then
            (with_l1 (l1Red c) since c, [Report "L1" true (l1Red c) now (DHover cur limit over (q_L1For (c_cfg c)))])
          else
            (with_l1 (l1Red c + 1) since c, [Report "L1" false (l1Red c + 1) now (DOver cur limit over)])
        else (with_l1 (l1Red c) 0 c, [Report "L1" true (l1Red c) now DNone])
    end.

(** The bound L4 holds the backlog to. *)
Definition l4_bound (cap backlogged : Z) : Z :=
  if 0 <? backlogged then cap + backlogged * Z.quot cap backlogged else cap.

Definition l4 (h : health) (now : Time) (c : Checker) : Checker * list line :=
  let '(nm, running, _) := h_Scenario h in
  let total := cs_Total (lastCensus c) in let backlogged := cs_Backlogged (lastCensus c) in
  if negb running || negb (global nm) || (total <=? q_Workers (c_cfg c) * q_ClaimBatch (c_cfg c))
  then (with_l4 (l4Red c) 0 c, [Report "L4" true (l4Red c) now (DText "idle")])
  else
    let since := if Time.IsZero (overSince c) then now else overSince c in
    let c := with_l4 (l4Red c) since c in
    if Time.Sub now since <? q_L4Settle (c_cfg c)
    then (c, [Report "L4" true (l4Red c) now (DText "settling")])
    else
      let del := h_DeliveredPS h in
      let want := F.mul (q_L4CapacityFactor (c_cfg c)) (q_Capacity (c_cfg c)) in
      let bound := l4_bound (q_GlobalCap (c_cfg c)) backlogged in
      let red d := (with_l4 (l4Red c + 1) since c, [Report "L4" false (l4Red c + 1) now d]) in
      if F.lt del want then red (DDelivered del want)
      else if bound <? total then red (DBacklog total bound)
      else if 0 <? h_Overloaded h then red (DShed (h_Overloaded h))
      else (c, [Report "L4" true (l4Red c) now DNone]).

(** [Once]; the evidence it reads is its argument. *)
Record evidence := mkEvidence {
  v_now : Time; v_scan : err + Z; v_sink : Sink; v_events : list KeyEvent; v_census : err + Census_;
  v_health : health }.

Definition Once (v : evidence) (c : Checker) : option (Checker * list line) :=
  let now := v_now v in
  let '(c, r1) := s1 (v_scan v) now c in
  let r2 := s2 (Mismatches (v_sink v)) now in
  '(c, r3) ← s3 (v_events v) (v_sink v) (v_health v) now c;
  let '(c, r4) := s4 (v_census v) (v_sink v) now c in
  let '(c, r5) := if q_L1 (c_cfg c) then l1 (v_health v) now c else (c, []) in
  let '(c, r6) := if q_L4 (c_cfg c) then l4 (v_health v) now c else (c, []) in
  Some (c, (r1 ++ r2 ++ r3 ++ r4 ++ r5 ++ r6)%list).
