(* ===== verification/CheckerSpec.v ===== *)
(** * What a verdict is worth

    The windows are the ground truth's own disabled intervals, every delivery S3
    counts is a real violation, counters never go back, an exact ledger is never
    called inexact, and one way S3 misses a violation. *)

From S2P Require Import Prelude GoLib GoFloat Kms Tink Lease Cmek Store StoreInv StoreOps Queue QueueSpec Demo Sink Checker.
From Stdlib Require Import Sorting.Sorted.
From stdpp Require sorting.
Local Open Scope string_scope.
Local Open Scope Z_scope.

(** ** Windows *)

(** Ground truth read directly: a key's state at [x] is what the last event of its
    index up to [x] set, enabled when there is none. *)
Definition enabled_at (evs : list KeyEvent) (idx : Z) (x : Time) : bool :=
  foldl (λ b e, if (ev_Idx e =? idx) && (ev_At e <=? x) then ev_Enabled e else b) true evs.

Definition covers (w : window) (idx : Z) (x : Time) : Prop :=
  w_idx w = idx ∧ w_revoke w <= x ∧ (w_restore w = 0 ∨ x < w_restore w).

(** The state of the loop after events up to [T]. *)
Record loop_ok (T : Time) (evs : list KeyEvent) (st : gmap Z nat * list window) : Prop := {
  lo_open : ∀ idx i, st.1 !! idx = Some i → ∃ r, st.2 !! i = Some (mkWindow idx r 0);
  lo_only : ∀ i w, st.2 !! i = Some w → w_restore w = 0 → st.1 !! w_idx w = Some i;
  lo_times : ∀ w, w ∈ st.2 → w_revoke w <= T ∧ w_restore w <= T;
  lo_truth : ∀ idx x, enabled_at evs idx x = false ↔ ∃ w, w ∈ st.2 ∧ covers w idx x }.

Lemma enabled_at_snoc evs e idx x :
  enabled_at (evs ++ [e]) idx x
  = if (ev_Idx e =? idx) && (ev_At e <=? x) then ev_Enabled e else enabled_at evs idx x.
Proof. unfold enabled_at. by rewrite foldl_app. Qed.

Section Step.
Context (T : Time) (evs : list KeyEvent) (open : gmap Z nat) (out : list window) (e : KeyEvent).
Context (Hok : loop_ok T evs (open, out)) (HT : T <= ev_At e) (Hp : 0 < ev_At e).

(** A window that does not touch the event's index, or an instant before it, is
    judged as before. *)
Lemma enabled_before idx x :
  ev_Idx e ≠ idx ∨ x < ev_At e → enabled_at (evs ++ [e]) idx x = enabled_at evs idx x.
Proof.
  intros H. rewrite enabled_at_snoc. destruct (Z.eqb_spec (ev_Idx e) idx), (Z.leb_spec (ev_At e) x); try done.
  destruct H; [done|lia].
Qed.

Lemma enabled_now x : ev_At e <= x → enabled_at (evs ++ [e]) (ev_Idx e) x = ev_Enabled e.
Proof. intros H. rewrite enabled_at_snoc, Z.eqb_refl. by destruct (Z.leb_spec (ev_At e) x); [|lia]. Qed.

(** No window but an open one reaches past the event. *)
Lemma covers_open w x :
  w ∈ out → covers w (ev_Idx e) x → ev_At e <= x → w_restore w = 0 ∧ ∃ i, open !! ev_Idx e = Some i ∧ out !! i = Some w.
Proof.
  intros Hw (<- & _ & Hc) Hle. destruct Hok as [_ Hl Ht _]. cbn in *. apply list_elem_of_lookup in Hw as (j & Hj).
  destruct Hc as [Hz|Hc]; [split; [done|]; exists j; split; [by apply Hl|done]|].
  apply list_elem_of_lookup_2, Ht in Hj. lia.
Qed.

Lemma times_weaken w : w ∈ out → w_revoke w <= ev_At e ∧ w_restore w <= ev_At e.
Proof using Hok HT. intros Hw. destruct (lo_times _ _ _ Hok w Hw). lia. Qed.

(** The loop leaves [out] alone when the event changes nothing. *)
Lemma same_ok :
  (ev_Enabled e = bool_decide (open !! ev_Idx e = None)) → loop_ok (ev_At e) (evs ++ [e]) (open, out).
Proof using Hok HT Hp.
  intros He. destruct Hok as [Ho Hl Ht Hx]. split; cbn [fst snd]; [done|done|apply times_weaken|].
  intros idx x. destruct (decide (ev_Idx e = idx)) as [<-|Hne]; [|rewrite enabled_before by (by left); apply Hx].
  destruct (decide (x < ev_At e)); [rewrite enabled_before by (by right); apply Hx|]. rewrite enabled_now, He by lia.
  case_bool_decide as Hopen; (split; [try done|]).
  - intros (w & Hw & Hc). destruct (covers_open w x Hw Hc) as (_ & i & Hi & _); [lia|congruence].
  - intros _. destruct (open !! ev_Idx e) as [i|] eqn:Ei; [|done]. destruct (Ho _ _ Ei) as (r & Hi).
    apply list_elem_of_lookup_2 in Hi. eexists. split; [exact Hi|]. apply times_weaken in Hi. cbn in *.
    split_and!; [done|cbn; lia|by left].
  - done.
Qed.

Lemma open_ok :
  ev_Enabled e = false → open !! ev_Idx e = None →
  loop_ok (ev_At e) (evs ++ [e]) (<[ev_Idx e := length out]> open, (out ++ [mkWindow (ev_Idx e) (ev_At e) 0])%list).
Proof using Hok HT Hp.
  intros Ee Ei. destruct Hok as [Ho Hl Ht Hx]. split; cbn [fst snd] in *.
  - intros idx j Hj. destruct (decide (idx = ev_Idx e)) as [->|Hne].
    { rewrite lookup_insert_eq in Hj. injection Hj as <-. exists (ev_At e). by rewrite lookup_app_r, Nat.sub_diag. }
    rewrite lookup_insert_ne in Hj by done. destruct (Ho _ _ Hj) as (r & Hr). exists r. by apply lookup_app_l_Some.
  - intros j w Hj Hz. apply lookup_app_Some in Hj as [Hj|[Hge Hj]].
    { pose proof (Hl j w Hj Hz) as Hw. rewrite lookup_insert_ne; [done|]. intros E. rewrite <- E in Hw. congruence. }
    destruct (j - length out)%nat eqn:Ej; [|done]. injection Hj as <-. cbn. rewrite lookup_insert_eq. f_equal. lia.
  - intros w [Hw|Hw%list_elem_of_singleton]%elem_of_app; [by apply times_weaken|]. subst w. cbn. lia.
  - intros idx x. destruct (decide (ev_Idx e = idx ∧ ev_At e <= x)) as [[<- Hle]|Hn].
    { rewrite enabled_now, Ee by done. split; [intros _|done]. eexists. split; [by apply elem_of_app; right; left|].
      split_and!; [done|done|by left]. }
    rewrite enabled_before by (destruct (decide (ev_Idx e = idx)); [right|left]; [lia|done]).
    rewrite Hx. split; intros (w & Hw & Hc); exists w; (split; [|done]); [apply elem_of_app; by left|].
    apply elem_of_app in Hw as [Hw|Hw%list_elem_of_singleton]; [done|]. subst w.
    destruct Hc as (Hc1 & Hc2 & _). cbn in *. lia.
Qed.

Section Close.
Context (i : nat) (r : Time) (Hi : open !! ev_Idx e = Some i) (Hw : out !! i = Some (mkWindow (ev_Idx e) r 0)).
Let out' := alter (λ w, mkWindow (w_idx w) (w_revoke w) (ev_At e)) i out.

(** Closing changes one window. *)
Lemma close_lookup j w :
  out' !! j = Some w ↔ (j = i ∧ w = mkWindow (ev_Idx e) r (ev_At e)) ∨ (j ≠ i ∧ out !! j = Some w).
Proof.
  unfold out'. destruct (decide (j = i)) as [->|Hne].
  - rewrite list_lookup_alter_eq, Hw. cbn. naive_solver.
  - rewrite list_lookup_alter_ne by done. naive_solver.
Qed.

Lemma close_covers idx x :
  ev_Idx e ≠ idx ∨ x < ev_At e → (∃ w, w ∈ out ∧ covers w idx x) ↔ (∃ w, w ∈ out' ∧ covers w idx x).
Proof using Hw.
  intros Hout. split; intros (w & Hin & Hc); apply list_elem_of_lookup in Hin as (j & Hj).
  - destruct (decide (j = i)) as [->|Hji].
    + rewrite Hw in Hj. injection Hj as <-. exists (mkWindow (ev_Idx e) r (ev_At e)). split.
      * eapply list_elem_of_lookup_2, close_lookup. by left.
      * destruct Hc as (H1 & H2 & _). split_and!; [done|done|right; cbn in *]. by destruct Hout.
    + exists w. split; [|done]. eapply list_elem_of_lookup_2, close_lookup. by right.
  - apply close_lookup in Hj as [[-> ->]|[Hji Hj]].
    + exists (mkWindow (ev_Idx e) r 0). split; [by eapply list_elem_of_lookup_2|].
      destruct Hc as (H1 & H2 & _). split_and!; [done|done|by left].
    + exists w. split; [by eapply list_elem_of_lookup_2|done].
Qed.

Lemma close_ok : ev_Enabled e = true → loop_ok (ev_At e) (evs ++ [e]) (delete (ev_Idx e) open, out').
Proof using Hok HT Hp Hi Hw.
  intros Ee. destruct Hok as [Ho Hl Ht Hx]. split; cbn [fst snd] in *.
  - intros idx j Hj. destruct (decide (idx = ev_Idx e)) as [->|Hne]; [by rewrite lookup_delete_eq in Hj|].
    rewrite lookup_delete_ne in Hj by done. destruct (Ho _ _ Hj) as (r' & Hr'). exists r'.
    apply close_lookup. right. split; [|done]. intros ->. congruence.
  - intros j w Hj Hz. apply close_lookup in Hj as [[-> ->]|[Hji Hj]]; [cbn in Hz; lia|].
    pose proof (Hl j w Hj Hz) as Hjw. rewrite lookup_delete_ne; [done|]. congruence.
  - intros w Hin. apply list_elem_of_lookup in Hin as (j & Hj). apply close_lookup in Hj as [[-> ->]|[Hji Hj]].
    + apply list_elem_of_lookup_2, times_weaken in Hw. cbn in *. lia.
    + by eapply times_weaken, list_elem_of_lookup_2.
  - intros idx x. destruct (decide (ev_Idx e = idx ∧ ev_At e <= x)) as [[<- Hle]|Hn].
    + rewrite enabled_now, Ee by done. split; [done|]. intros (w & Hin & Hc). exfalso.
      apply list_elem_of_lookup in Hin as (j & Hj). apply close_lookup in Hj as [[-> ->]|[Hji Hj]].
      { destruct Hc as (_ & _ & [?|?]); cbn in *; lia. }
      destruct (covers_open w x) as (Hz & k & Hk & _); [by eapply list_elem_of_lookup_2|done|done|].
      pose proof (Hl j w Hj Hz) as Hjw. destruct Hc as (Hc & _). rewrite Hc in Hjw. congruence.
    + assert (ev_Idx e ≠ idx ∨ x < ev_At e) as Hor by (destruct (decide (ev_Idx e = idx)); [right|left]; [lia|done]).
      rewrite enabled_before, Hx by done. by apply close_covers.
Qed.
End Close.

Lemma window_step_ok : loop_ok (ev_At e) (evs ++ [e]) (window_step (open, out) e).
Proof using Hok HT Hp.
  unfold window_step. destruct (ev_Enabled e) eqn:Ee, (open !! ev_Idx e) as [i|] eqn:Ei; cbn [negb].
  - destruct (lo_open _ _ _ Hok _ _ Ei) as (r & Hi). by eapply close_ok.
  - apply same_ok. by rewrite Ee, bool_decide_eq_true_2.
  - apply same_ok. by rewrite Ee, Ei, bool_decide_eq_false_2.
  - by apply open_ok.
Qed.
End Step.

Lemma insert_window_elem w l x : x ∈ insert_window w l ↔ x = w ∨ x ∈ l.
Proof.
  induction l as [|y l IH]; cbn; [set_solver|]. destruct (w_idx w <=? w_idx y); [set_solver|].
  rewrite elem_of_cons, IH. set_solver.
Qed.

Lemma sort_windows_elem l x : x ∈ sort_windows l ↔ x ∈ l.
Proof. induction l as [|w l IH]; [done|]. cbn. rewrite insert_window_elem, IH. set_solver. Qed.

(** C22. The checker's windows are the ground truth.  For events in time order, an
    instant lies in one of the intervals [windows] builds for a tenant, revoke
    included, restore excluded, exactly when the key is disabled at that instant:
    repeated revokes open nothing new and an episode without a restore is open. *)
Theorem windows_are_ground_truth evs idx x :
  StronglySorted Z.le (ev_At <$> evs) → Forall (λ e, 0 < ev_At e) evs →
  (enabled_at evs idx x = false ↔ ∃ w, w ∈ windows evs ∧ covers w idx x).
Proof.
  intros Hs Hp. unfold windows.
  assert (∃ T, loop_ok T evs (foldl window_step (∅, []) evs) ∧
    ∀ t, 0 < t → (∀ e, e ∈ evs → ev_At e <= t) → T <= t) as (T & Hok & _).
  { induction evs as [|e evs IH] using rev_ind.
    - exists 0. split; [|lia]. split; cbn; try done; [by intros w ?%not_elem_of_nil|].
      intros ? ?. split; [done|]. by intros (w & ?%not_elem_of_nil & _).
    - rewrite fmap_app in Hs. apply sorting.StronglySorted_app in Hs as (Hle & Hs & _).
      apply Forall_app in Hp as [Hp [He _]%Forall_cons]. destruct (IH Hs Hp) as (T & Hok & Hlast).
      exists (ev_At e). rewrite foldl_app. cbn. split; [|intros t _ Ht; apply Ht; set_solver].
      destruct (foldl _ _ evs) as [open out]. apply (window_step_ok T); [exact Hok| |done].
      apply Hlast; [done|]. intros e' He'. apply Hle; [by apply list_elem_of_fmap_2|by left]. }
  rewrite (lo_truth _ _ _ Hok). by setoid_rewrite sort_windows_elem.
Qed.

(** ** S3 counts only violations *)

Lemma count_loop_pos r loN hiN seqs :
  0 <= count_loop r loN hiN seqs ∧
  (0 < count_loop r loN hiN seqs → ∃ q, q ∈ seqs ∧
     between loN hiN (default 0 (r !! Z.to_nat ((q - 1) mod Z.of_nat (length r)))) = true).
Proof.
  induction seqs as [|q seqs [IH1 IH2]]; cbn [count_loop]; [split; [done|lia]|].
  fold (between loN hiN (default 0 (r !! Z.to_nat ((q - 1) mod Z.of_nat (length r))))).
  destruct (between loN hiN _) eqn:E; split; try lia.
  - intros _. exists q. split; [by left|done].
  - intros H. destruct IH2 as (q' & ? & ?); [lia|]. exists q'. split; [by right|done].
Qed.

(** What a non-zero count shows, for any resume point. *)
Lemma between_sound s hist idx since lo hi n newSeq overrun :
  sink_ok s hist → DeliveredBetween s idx since lo hi = (n, newSeq, overrun) →
  0 <= n ∧ (0 < n → ∃ h a, hist !! Z.to_nat idx = Some h ∧ a ∈ h ∧
    between (Time.UnixNano lo) (if negb (Time.IsZero hi) then Time.UnixNano hi else 0) a = true).
Proof.
  intros (H1 & H2 & H3). unfold DeliveredBetween. set (hiN := if negb _ then _ else _).
  destruct (if idx <? 0 then None else ring s !! Z.to_nat idx) as [r|] eqn:Er; [|intros [= <- <- <-]; lia].
  assert (ring s !! Z.to_nat idx = Some r) as Er' by (by destruct (idx <? 0)).
  pose proof (lookup_lt_Some _ _ _ Er') as Hlt.
  destruct (count s !! Z.to_nat idx) as [c|] eqn:Ec; [|apply lookup_ge_None in Ec; lia].
  destruct (hist !! Z.to_nat idx) as [h|] eqn:Eh; [|apply lookup_ge_None in Eh; lia].
  destruct (H3 _ _ _ _ Er' Ec Eh) as (Hc & Hr & Hq). cbn [default]. unfold id.
  set (since0 := if since <? 0 then 0 else since). assert (0 <= since0) by (unfold since0; destruct (Z.ltb_spec since 0); lia).
  set (since1 := if _ <? c - since0 then _ else since0).
  assert (0 <= since1 ∧ c - Z.of_nat (length r) <= since1) as [Hs1 Hs2].
  { unfold since1. destruct (Z.ltb_spec (Z.of_nat (length r)) (c - since0)); lia. }
  intros [= <- _ _]. pose proof (count_loop_pos r (Time.UnixNano lo) hiN (seqZ (since1 + 1) (c - since1))) as [Hp1 Hp2].
  split; [exact Hp1|]. intros Hp. destruct (Hp2 Hp) as (q & Hqin & Hb). apply elem_of_seqZ in Hqin.
  rewrite (Hq q) in Hb by lia. destruct (h !! Z.to_nat (q - 1)) as [a|] eqn:Ea; [|apply lookup_ge_None in Ea; lia].
  exists h, a. split; [done|]. split; [by eapply list_elem_of_lookup_2|exact Hb].
Qed.

(** A late delivery of one of the windows. *)
Definition violates (lease : Duration) (hist : list (list Z)) (w : window) : Prop :=
  ∃ h a, hist !! Z.to_nat (w_idx w) = Some h ∧ a ∈ h ∧
    Time.UnixNano (Time.Add (w_revoke w) lease) < a ∧ (w_restore w = 0 ∨ Time.UnixNano (w_restore w) = 0 ∨
      a <= Time.UnixNano (w_restore w)).

Lemma count_windows_sound k hist lease idx since ws late gap newSeq :
  sink_ok k hist → Forall (λ w, w_idx w = idx) ws → count_windows k lease idx since ws = (late, gap, newSeq) →
  0 <= late ∧ (0 < late → ∃ w, w ∈ ws ∧ violates lease hist w).
Proof.
  intros Hk. unfold count_windows. revert late gap newSeq.
  induction ws as [|w ws IH] using rev_ind; intros late gap newSeq Hall; [intros [= <- _ _]; lia|].
  rewrite foldl_app. cbn. apply Forall_app in Hall as [Hall [Hw _]%Forall_cons].
  destruct (foldl _ _ ws) as [[l0 g0] n0]. destruct (IH l0 g0 n0 Hall eq_refl) as [H1 H2].
  destruct (DeliveredBetween _ _ _ _ _) as [[n sq] ov] eqn:E. destruct (between_sound _ _ _ _ _ _ _ _ _ Hk E) as [Hn Hb].
  intros [= <- _ _]. split; [lia|]. intros Hp. destruct (decide (0 < l0)) as [Hl|Hl].
  - destruct (H2 Hl) as (w' & ? & ?). exists w'. split; [apply elem_of_app; by left|done].
  - destruct Hb as (h & a & Hh & Ha & Hbt); [lia|]. exists w. split; [apply elem_of_app; right; by left|].
    exists h, a. rewrite Hw. unfold between in Hbt. apply andb_true_iff in Hbt as [B1%Z.ltb_lt B2].
    split; [done|]. split; [done|]. split; [done|].
    unfold Time.IsZero in B2. destruct (Z.eqb_spec (w_restore w) 0); [by left|right]. cbn in B2.
    apply orb_true_iff in B2 as [B2|B2]; lia.
Qed.

Lemma groups_spec ws :
  (∀ idx g, (idx, g) ∈ groups ws → g ≠ [] ∧ Forall (λ w, w_idx w = idx) g ∧ ∀ w, w ∈ g → w ∈ ws).
Proof.
  induction ws as [|w ws IH]; intros idx g; cbn [groups]; [by intros ?%not_elem_of_nil|].
  destruct (groups ws) as [|[i g'] gs] eqn:E.
  - intros [= -> ->]%list_elem_of_singleton. split; [done|]. split; [by constructor|set_solver].
  - destruct (Z.eqb_spec i (w_idx w)) as [->|Hne].
    + intros [[= -> ->]|Hin]%elem_of_cons.
      * destruct (IH (w_idx w) g') as (H1 & H2 & H3); [by left|]. split; [done|].
        split; [by constructor|]. intros x [->|Hx]%elem_of_cons; [by left|right; by apply H3].
      * destruct (IH idx g) as (H1 & H2 & H3); [by right|]. split_and!; [done|done|]. intros x Hx. right. by apply H3.
    + intros [[= -> ->]|Hin]%elem_of_cons; [split; [done|]; split; [by constructor|set_solver]|].
      destruct (IH idx g Hin) as (H1 & H2 & H3). split_and!; [done|done|]. intros x Hx. right. by apply H3.
Qed.

Lemma detectionLine_counts h idx t c c' l :
  detectionLine h idx t c = (c', l) →
  s3Late c' = s3Late c ∧ s3Gap c' = s3Gap c ∧ c_cfg c' = c_cfg c ∧ s1Hits c' = s1Hits c ∧ s4Bad c' = s4Bad c ∧
  l1Red c' = l1Red c ∧ l4Red c' = l4Red c ∧ (∀ x, x ∈ l → ∃ a b d, x = Timeline a b d).
Proof.
  unfold detectionLine. repeat case_match; intros [= <- <-]; cbn; split_and!; try done;
    intros x; rewrite ?list_elem_of_singleton; intros Hx; try (by apply not_elem_of_nil in Hx); subst; by eexists _, _, _.
Qed.

Lemma s3_tenant_sound k hist h idx ws c c' l :
  sink_ok k hist → Forall (λ w, w_idx w = idx) ws → s3_tenant k h idx ws c = Some (c', l) →
  c_cfg c' = c_cfg c ∧ s3Late c <= s3Late c' ∧ (s3Gap c = true → s3Gap c' = true) ∧
  (s1Hits c' = s1Hits c ∧ s4Bad c' = s4Bad c ∧ l1Red c' = l1Red c ∧ l4Red c' = l4Red c) ∧
  (∀ x, x ∈ l → ∃ a b d, x = Timeline a b d) ∧
  (s3Late c < s3Late c' → ∃ w, w ∈ ws ∧ violates (q_Lease (c_cfg c)) hist w).
Proof.
  intros Hk Hall. unfold s3_tenant. destruct (last ws) as [latest|]; [|done]. cbn [mbind option_bind].
  destruct (_ || _); [done|]. destruct (if negb _ then _ else _) as [[seqs sn]|]; [|done]. cbn [mbind option_bind].
  destruct (count_windows _ _ _ _ _) as [[late gap] newSeq] eqn:E.
  destruct (count_windows_sound _ _ _ _ _ _ _ _ _ Hk Hall E) as [H1 H2].
  intros [= Hd]. apply detectionLine_counts in Hd as (E1 & E2 & E3 & E4 & E5 & E6 & E7 & E8). cbn in *.
  split_and!; [done|lia|rewrite E2; intros ->; done|done..|]. intros Hlt. apply H2. lia.
Qed.

Lemma s3_loop_sound k hist h gs c c' l :
  sink_ok k hist → (∀ idx g, (idx, g) ∈ gs → Forall (λ w, w_idx w = idx) g) → s3_loop k h gs c = Some (c', l) →
  c_cfg c' = c_cfg c ∧ s3Late c <= s3Late c' ∧ (s3Gap c = true → s3Gap c' = true) ∧
  (s1Hits c' = s1Hits c ∧ s4Bad c' = s4Bad c ∧ l1Red c' = l1Red c ∧ l4Red c' = l4Red c) ∧
  (∀ x, x ∈ l → ∃ a b d, x = Timeline a b d) ∧
  (s3Late c < s3Late c' → ∃ idx g w, (idx, g) ∈ gs ∧ w ∈ g ∧ violates (q_Lease (c_cfg c)) hist w).
Proof.
  intros Hk. revert c c' l. induction gs as [|[idx g] gs IH]; intros c c' l Hg; cbn [s3_loop].
  { intros [= <- <-]. split_and!; try done; [by intros x ?%not_elem_of_nil|lia]. }
  destruct (s3_tenant k h idx g c) as [[c1 l1]|] eqn:E1; [|done]. cbn [mbind option_bind].
  destruct (s3_loop k h gs c1) as [[c2 l2]|] eqn:E2; [|done]. cbn [mbind option_bind]. intros [= <- <-].
  destruct (s3_tenant_sound _ _ _ _ _ _ _ _ Hk (Hg idx g ltac:(by left)) E1) as (A1 & A2 & A3 & A4 & A5 & A6).
  destruct (IH _ _ _ (λ i g' Hin, Hg i g' ltac:(by right)) E2) as (B1 & B2 & B3 & (B4a & B4b & B4c & B4d) & B5 & B6).
  destruct A4 as (A4a & A4b & A4c & A4d). split_and!; try congruence; [lia|auto| |].
  - intros x [Hx|Hx]%elem_of_app; [by apply A5|by apply B5].
  - intros Hlt. destruct (decide (s3Late c < s3Late c1)) as [Hl|Hl].
    + destruct (A6 Hl) as (w & ? & ?). exists idx, g, w. split_and!; [by left|done|done].
    + destruct B6 as (i & g' & w & ? & ? & Hv); [lia|]. rewrite A1 in Hv. exists i, g', w. split_and!; [by right|done|done].
Qed.


(** ** Verdicts stick *)

Lemma s4_loop_mono c cs sk todo bad d : bad <= (s4_loop c cs sk todo bad d).1.
Proof.
  revert bad d. induction todo as [|i todo IH]; intros bad d; cbn [s4_loop]; [done|].
  destruct (_ || _); [|apply IH]. etrans; [|apply IH]. lia.
Qed.

(** The verdict lights of one pass, by the counters it leaves. *)
Definition light_red (c : Checker) (id : string) : Prop :=
  (id = "S1" ∧ 0 < s1Hits c) ∨ (id = "S3" ∧ (0 < s3Late c ∨ s3Gap c = true)) ∨ (id = "S4" ∧ 0 < s4Bad c).

(** Each step's counters and reports: [l]'s reports of light [id] are red when the
    counter was already positive. *)
Record step_ok (c c' : Checker) (l : list line) : Prop := {
  st_s1 : s1Hits c <= s1Hits c'; st_s3 : s3Late c <= s3Late c'; st_gap : s3Gap c = true → s3Gap c' = true;
  st_s4 : s4Bad c <= s4Bad c'; st_l1 : l1Red c <= l1Red c'; st_l4 : l4Red c <= l4Red c';
  st_red : ∀ id ok n t d, Report id ok n t d ∈ l → light_red c id → ok = false }.

Lemma step_refl c : step_ok c c [].
Proof. split; try done. intros ? ? ? ? ? H. by apply not_elem_of_nil in H. Qed.

Lemma step_trans c c1 c2 l l' : step_ok c c1 l → step_ok c1 c2 l' → step_ok c c2 (l ++ l').
Proof.
  intros [A1 A2 A3 A4 A5 A6 A7] [B1 B2 B3 B4 B5 B6 B7]. split; try lia; [auto|].
  intros id ok n t d [H|H]%elem_of_app Hr; [by eapply A7|]. eapply B7; [exact H|]. unfold light_red in *.
  destruct Hr as [[-> ?]|[[-> [?|?]]|[-> ?]]]; [left|right; left|right; left|right; right]; split; try done; [lia|left; lia|right; auto|lia].
Qed.

Lemma s1_step scan now c c' l :
  (∀ n, scan = inr n → 0 <= n) → s1 scan now c = (c', l) → step_ok c c' l.
Proof.
  intros Hn. unfold s1. destruct (_ && _); [intros [= <- <-]; apply step_refl|].
  destruct scan as [e|n]; intros [= <- <-]; [|specialize (Hn n eq_refl)]; (split; cbn; try done; [try lia|..]);
    intros id ok n0 t d [= -> -> -> -> ->]%list_elem_of_singleton [[_ H]|[[? _]|[? _]]]; try done;
    apply Z.eqb_neq; lia.
Qed.

Lemma s2_step m now c : step_ok c c (s2 m now).
Proof.
  split; try done. intros id ok n t d [= -> -> -> -> ->]%list_elem_of_singleton [[? _]|[[? _]|[? _]]]; done.
Qed.

Lemma s3_step events k hist h now c c' l :
  sink_ok k hist → s3 events k h now c = Some (c', l) → step_ok c c' l.
Proof.
  intros Hk. unfold s3. destruct (s3_loop _ _ _ _) as [[c1 l1]|] eqn:E; [|done]. cbn. intros [= <- <-].
  pose proof (groups_spec (windows events)) as Hg.
  destruct (s3_loop_sound _ _ _ _ _ _ _ Hk (λ i g Hin, proj1 (proj2 (Hg i g Hin))) E)
    as (_ & H1 & H2 & (H3a & H3b & H3c & H3d) & H4 & _).
  split; try lia; [done|]. intros id ok n t d [Hin|Hin%list_elem_of_singleton]%elem_of_app Hr.
  - by destruct (H4 _ Hin) as (? & ? & ? & ?).
  - injection Hin as -> -> -> -> ->. destruct Hr as [[? _]|[[_ Hr]|[? _]]]; [done| |done].
    apply andb_false_iff. destruct Hr as [?|Hgap]; [left; apply Z.eqb_neq; lia|right]. by rewrite (H2 Hgap).
Qed.

Lemma s4_step census k now c c' l : s4 census k now c = (c', l) → step_ok c c' l.
Proof.
  unfold s4. destruct census as [e|cs]; [intros [= <- <-]|].
  - split; try done. intros id ok n t d [= -> -> -> -> ->]%list_elem_of_singleton [[? _]|[[? _]|[_ ?]]]; try done.
    apply Z.eqb_neq; lia.
  - pose proof (s4_loop_mono c cs (DeliveredAll k (sink c)) (seq 0 (length (cs_Accepted cs))) 0 DNone) as Hm.
    destruct (s4_loop _ _ _ _ _ _) as [bad d0]. cbn [fst] in Hm. intros [= <- <-]. split; cbn; try done; [lia|].
    intros id ok n t d [= -> -> -> -> _]%list_elem_of_singleton [[? _]|[[? _]|[_ ?]]]; try done. apply Z.eqb_neq; lia.
Qed.

Lemma l1_step h now c c' l : l1 h now c = (c', l) → step_ok c c' l.
Proof.
  unfold l1. destruct (h_Scenario h) as [[nm running] since].
  repeat case_match; intros [= <- <-]; (split; cbn; try done; try lia);
    intros id ok n0 t d [= -> -> -> -> ->]%list_elem_of_singleton [[? _]|[[? _]|[? _]]]; done.
Qed.

Lemma l4_step h now c c' l : l4 h now c = (c', l) → step_ok c c' l.
Proof.
  unfold l4. destruct (h_Scenario h) as [[nm running] since].
  repeat case_match; intros [= <- <-]; (split; cbn; try done; try lia);
    intros id ok n0 t d [= -> -> -> -> ->]%list_elem_of_singleton [[? _]|[[? _]|[? _]]]; done.
Qed.

(** A violation stays red: no pass ever lowers a counter or forgets a coverage
    gap, and once plaintext was found at rest, a delivery counted late or a ledger
    found off, every later report of that light is red, scan failures included. *)
Theorem verdicts_stick v hist c c' l :
  sink_ok (v_sink v) hist → (∀ n, v_scan v = inr n → 0 <= n) → Once v c = Some (c', l) →
  (s1Hits c <= s1Hits c' ∧ s3Late c <= s3Late c' ∧ s4Bad c <= s4Bad c' ∧ l1Red c <= l1Red c' ∧
   l4Red c <= l4Red c' ∧ (s3Gap c = true → s3Gap c' = true)) ∧
  (∀ id ok n t d, Report id ok n t d ∈ l → light_red c id → ok = false).
Proof.
  intros Hk Hn E. assert (step_ok c c' l) as [H1 H2 H3 H4 H5 H6 H7]; [|by split_and!].
  unfold Once in E. destruct (s1 _ _ _) as [c1 r1] eqn:E1. apply s1_step in E1; [|done].
  destruct (s3 _ _ _ _ _) as [[c3 r3]|] eqn:E3; [|done]. eapply s3_step in E3; [|done].
  cbn [mbind option_bind] in E. destruct (s4 _ _ _ _) as [c4 r4] eqn:E4. apply s4_step in E4.
  assert (∃ c5 r5, (if q_L1 (c_cfg c4) then l1 (v_health v) (v_now v) c4 else (c4, [])) = (c5, r5) ∧ step_ok c4 c5 r5)
    as (c5 & r5 & E5 & S5).
  { destruct (q_L1 _); [|by eexists _, _; split; [|apply step_refl]]. destruct (l1 _ _ _) eqn:El. eexists _, _.
    split; [done|]. by eapply l1_step. }
  rewrite E5 in E.
  assert (∃ c6 r6, (if q_L4 (c_cfg c5) then l4 (v_health v) (v_now v) c5 else (c5, [])) = (c6, r6) ∧ step_ok c5 c6 r6)
    as (c6 & r6 & E6 & S6).
  { destruct (q_L4 _); [|by eexists _, _; split; [|apply step_refl]]. destruct (l4 _ _ _) eqn:El. eexists _, _.
    split; [done|]. by eapply l4_step. }
  rewrite E6 in E. injection E as <- <-.
  eapply step_trans; [exact E1|].
  apply (step_trans c1 c1 c6 (s2 (Mismatches (v_sink v)) (v_now v)) (r3 ++ r4 ++ r5 ++ r6)); [apply s2_step|].
  eapply step_trans; [exact E3|].
  eapply step_trans; [exact E4|]. by eapply step_trans.
Qed.

(** ** S4 against the real ledger *)

Section Exact.
Context `{MR : MapRange} `{RT : Returning}.
Context (tenants : list string) (Hnd : NoDup tenants).

Lemma s4_loop_exact c cs sk todo :
  (∀ i, i ∈ todo → get (cs_Accepted cs) i - (get (cs_Delivered cs) i + get (cs_Ready cs) i + get (cs_Claimed cs) i
     + get (cs_Expired cs) i + get (cs_Dead cs) i) = 0 ∧
     get (cs_Delivered cs) i <= default 0 (sk !! i) <= get (cs_Delivered cs) i + get (cs_Claimed cs) i) →
  s4_loop c cs sk todo 0 DNone = (0, DNone).
Proof.
  induction todo as [|i todo IH]; intros H; [done|]. cbn [s4_loop].
  destruct (H i) as [-> [H1 H2]]; [by left|]. apply Z.leb_le in H1, H2. rewrite H1, H2. cbn.
  apply IH. intros j Hj. apply H. by right.
Qed.

Lemma get_col (f : nat → Z) n i : (i < n)%nat → get (f <$> seq 0 n) i = f i.
Proof. intros Hi. unfold get. by rewrite list_lookup_fmap, (lookup_seq_lt _ _ _ Hi). Qed.

(** S4 never accuses an honest store: on the census of any reachable queue, as
    long as the sink has seen each tenant's acknowledged deliveries and at most the
    claimed ones besides, a pass finds no violation. *)
Theorem s4_accepts_exact_ledger q k start at_ end_ now c c' l cs s' :
  qreach tenants q → Census tenants None start at_ end_ (q_store q) = (inr cs, s') →
  (∀ i, (i < length tenants)%nat →
     get (delivered (led (q_store q))) i <= default 0 (DeliveredAll k (sink c) !! i)
       <= get (delivered (led (q_store q))) i + get (claimed (led (q_store q))) i) →
  s4 (inr cs) k now c = (c', l) → s4Bad c' = s4Bad c.
Proof using Hnd.
  intros Hq%(qreach_inv tenants Hnd) Ec Hk. unfold Census in Ec. injection Ec as <- _. unfold s4.
  cbn [cs_Accepted cs_Delivered]. rewrite length_fmap, length_seq.
  rewrite s4_loop_exact; [intros [= <- _]; cbn; lia|].
  intros i Hi. apply elem_of_seq in Hi. cbn [cs_Accepted cs_Delivered cs_Ready cs_Claimed cs_Dead cs_Expired].
  destruct (qi_store _ _ Hq) as [_ _ [Hcol Hc _] Hn _]. assert (i < length tenants)%nat as Hlt by lia.
  pose proof Hlt as [t Ht]%lookup_lt_is_Some. destruct (Hn i t Ht) as (R1 & R2 & R3).
  assert (∀ st, row_count tenants (q_store q) st i = tally (rows (q_store q)) t st) as Hrow.
  { intros st. unfold row_count. rewrite Ht, bool_decide_eq_true_2; [done|]. by apply index_Some. }
  rewrite !get_col, !Hrow by done. specialize (Hk i Hlt). specialize (Hc i Hlt). unfold conserves in Hc.
  split; lia.
Qed.
End Exact.

(** ** A violation S3 does not see *)

Module Missed.
Definition cfg : Config :=
  mkConfig ["t-0001"] false (30 * Second) (5 * Second) 0 0 0 0 "PLAINTEXT-CANARY-" F.one F.one F.one 1 1 1 false false.
Definition at_ (n : Z) : Time := Time.ofUnixMilli n.
Definition nothing : health := mkHealth None 0 0 F.one ("", false, 0) (λ _, None).
Definition revoked : KeyEvent := mkKeyEvent "kek-1" 0 (at_ 10000) false.
Definition restored : KeyEvent := mkKeyEvent "kek-1" 0 (at_ 100500) true.
Definition again : KeyEvent := mkKeyEvent "kek-1" 0 (at_ 100700) false.
Definition empty : Sink := NewSink (mkSinkConfig 1 1024 "PLAINTEXT-CANARY-").
(** One delivery 60 s past the bound of the first revocation. *)
Definition late : Sink := default empty (record empty 0 (at_ 100200)).
Definition census : err + Census_ := inr (mkCensus [1] [1] [0] [0] [0] [0] 0 0 (at_ 0)).
Definition pass (t : Z) (k : Sink) (evs : list KeyEvent) (c : Checker) : option (Checker * list line) :=
  Once (mkEvidence (at_ t) (inr 0) k evs census nothing) c.
End Missed.

(** S3 can miss a violation.  A delivery past the bound that is recorded after one
    pass, when the key is then restored and revoked again before the next, is never
    counted: the new revocation resets the resume point to the sink's current total,
    for the earlier episode's window too.  The key was disabled when it happened, the
    delivery is in the first window, and both passes, and any later one, are green. *)
Theorem s3_misses_across_episodes :
  let evs := [Missed.revoked; Missed.restored; Missed.again] in
  ∃ c1 l1 c2 l2 c3 l3,
    Missed.pass 100000 Missed.empty [Missed.revoked] (New Missed.cfg) = Some (c1, l1) ∧
    Missed.pass 101000 Missed.late evs c1 = Some (c2, l2) ∧
    Missed.pass 102000 Missed.late evs c2 = Some (c3, l3) ∧
    s3Late c3 = 0 ∧ s3Gap c3 = false ∧
    (∃ w, w ∈ windows evs ∧ violates (30 * Second) [[Time.UnixNano (Missed.at_ 100200)]] w) ∧
    enabled_at evs 0 (Missed.at_ 100200) = false.
Proof.
  do 6 eexists. split; [vm_compute; reflexivity|]. split; [vm_compute; reflexivity|].
  split; [vm_compute; reflexivity|]. split; [reflexivity|]. split; [reflexivity|]. split; [|vm_compute; reflexivity].
  exists (mkWindow 0 (Missed.at_ 10000) (Missed.at_ 100500)). split; [vm_compute; left|].
  eexists _, _. split; [reflexivity|]. split; [left|]. split; [vm_compute; reflexivity|].
  right. right. vm_compute. discriminate.
Qed.

(** ** Witnesses *)

Section CheckerWitnesses.
#[local] Existing Instance QDemo.in_order.
#[local] Existing Instance Demo.list_range.

Definition episode : list KeyEvent := [Missed.revoked; Missed.restored].

Lemma windows_are_ground_truth_witness :
  (∃ w, w ∈ windows episode ∧ covers w 0 (Missed.at_ 50000)) ∧
  ~ (∃ w, w ∈ windows episode ∧ covers w 0 (Missed.at_ 100500)).
Proof.
  assert (StronglySorted Z.le (ev_At <$> episode)) as Hs.
  { repeat constructor. vm_compute. discriminate. }
  assert (Forall (λ e, 0 < ev_At e) episode) as Hp by (repeat constructor).
  split.
  - apply (windows_are_ground_truth episode 0 (Missed.at_ 50000) Hs Hp). vm_compute. reflexivity.
  - intros H. apply (windows_are_ground_truth episode 0 (Missed.at_ 100500) Hs Hp) in H. vm_compute in H. discriminate H.
Defined.

Definition late_hist : list (list Z) := [[Time.UnixNano (Missed.at_ 100200)]].

Lemma late_ok : sink_ok Missed.late late_hist.
Proof.
  apply (record_ok Missed.empty [[]] 0 (Missed.at_ 100200)); [|vm_compute; reflexivity].
  apply (NewSink_ok (mkSinkConfig 1 1024 "PLAINTEXT-CANARY-")).
Defined.

Lemma delivered_between_exact_witness :
  DeliveredBetween Missed.late 0 0 (Missed.at_ 40000) 0 = (1, 1, false) ∧
  1 = countZ (between (Time.UnixNano (Missed.at_ 40000)) 0) [Time.UnixNano (Missed.at_ 100200)].
Proof.
  assert (DeliveredBetween Missed.late (Z.of_nat 0) 0 (Missed.at_ 40000) 0 = (1, 1, false)) as E
    by (vm_compute; reflexivity).
  split; [exact E|].
  refine (proj1 (proj2 (delivered_between_exact Missed.late late_hist 0 0 (Missed.at_ 40000) 0
    [Time.UnixNano (Missed.at_ 100200)] 1 1 false late_ok eq_refl _ E)) eq_refl). cbn. lia.
Defined.

(** One pass before, one after a late delivery: it is counted. *)
Definition seen_once : Checker :=
  match Missed.pass 100000 Missed.empty [Missed.revoked] (New Missed.cfg) with Some (c, _) => c | None => New Missed.cfg end.


Lemma verdicts_stick_witness :
  ∃ c1 l1 c2 l2, Missed.pass 101000 Missed.late [Missed.revoked] seen_once = Some (c1, l1) ∧ s3Late c1 = 1 ∧
    Missed.pass 102000 Missed.late episode c1 = Some (c2, l2) ∧ s3Late c1 <= s3Late c2.
Proof.
  eexists _, _, _, _. split; [vm_compute; reflexivity|]. split; [reflexivity|].
  split; [vm_compute; reflexivity|].
  refine (proj1 (proj2 (proj1 (verdicts_stick (mkEvidence (Missed.at_ 102000) (inr 0) Missed.late episode Missed.census
    Missed.nothing) late_hist _ _ _ late_ok _ _)))); [intros n [= <-]; lia|vm_compute; reflexivity].
Defined.

(** The sink saw the one acknowledged delivery of the queue's demo run. *)
Definition demo_sink : Sink :=
  default Missed.empty (record (NewSink (mkSinkConfig 2 8 "PLAINTEXT-CANARY-")) 0 (Missed.at_ 400)).
Definition demo_checker : Checker :=
  New (mkConfig QDemo.tenants false (30 * Second) (5 * Second) 0 0 0 0 "PLAINTEXT-CANARY-" F.one F.one F.one 1 1 1 false false).

Lemma s4_accepts_exact_ledger_witness :
  ∃ cs s' c' l, Census QDemo.tenants None 0 0 0 (q_store (QDemo.ran QDemo.ops)) = (inr cs, s') ∧
    s4 (inr cs) demo_sink (Missed.at_ 500) demo_checker = (c', l) ∧ s4Bad c' = s4Bad demo_checker.
Proof.
  eexists _, _, _, _. split; [vm_compute; reflexivity|]. split; [vm_compute; reflexivity|].
  refine (s4_accepts_exact_ledger QDemo.tenants demo_nodup (QDemo.ran QDemo.ops) demo_sink 0 0 0 (Missed.at_ 500)
    demo_checker _ _ _ _ (QDemo.ran_reach _) _ _ _).
  - vm_compute. reflexivity.
  - intros i Hi. destruct i as [|[|i]]; [vm_compute; split; discriminate..|cbn in Hi; lia].
  - vm_compute. reflexivity.
Defined.
End CheckerWitnesses.
