(* ===== verification/Metrics.v ===== *)
(** * internal/metrics/registry.go: the aggregates

    Counters, the audit and timeline rings, the detection episodes, the affected
    set and recovery marks, and the once-a-second flush of transitions.  The
    tick's snapshot and the streams are in Tick.v, the histograms in Hist.v. *)

From S2P Require Import Prelude GoLib GoFloat Kms.
Local Open Scope string_scope.
Local Open Scope Z_scope.

(** ** A ring of the newest entries *)

Record Ring (A : Type) := mkRing { r_buf : list A; r_head : nat; r_n : nat }.
Arguments mkRing {A}.
Arguments r_buf {A}.
Arguments r_head {A}.
Arguments r_n {A}.

Definition push {A} (x : A) (r : Ring A) : Ring A :=
  let len := length (r_buf r) in
  mkRing (<[r_head r := x]> (r_buf r)) ((r_head r + 1) mod len)%nat
    (if (r_n r <? len)%nat then r_n r + 1 else r_n r)%nat.

Definition newest {A} (n : nat) (r : Ring A) : list A :=
  let n := if (r_n r <? n)%nat then r_n r else n in
  let len := length (r_buf r) in
  omap (λ i, r_buf r !! ((r_head r + len - i) mod len)%nat) (seq 1 n).

(** ** The registry *)

Definition reasonAccepted : nat := 0.
Definition reasonRateLimited : nat := 1.
Definition reasonBacklogFull : nat := 2.
Definition reasonOverloaded : nat := 3.
Definition reasonKeyUnavailable : nat := 4.
Definition reasonKeyRevoked : nat := 5.
Definition reasonInternal : nat := 6.
Definition reasonCount : nat := 7.

Definition reasonIndex (reason : string) : nat :=
  if bool_decide (reason = "accepted") then reasonAccepted
  else if bool_decide (reason = "rate_limited") then reasonRateLimited
  else if bool_decide (reason = "backlog_full") then reasonBacklogFull
  else if bool_decide (reason = "overloaded") then reasonOverloaded
  else if bool_decide (reason = "key_unavailable") then reasonKeyUnavailable
  else if bool_decide (reason = "key_revoked") then reasonKeyRevoked
  else reasonInternal.

Record Audit := mkAudit {
  a_At : Time; a_Idx : Z; a_Op : string; a_Outcome : string; a_Detail : string;
  a_Class : Z; a_From : Z; a_To : Z; a_Latency : Duration; a_Purged : Z }.

Record event := mkEvent { e_Seq : Z; e_At : Z; e_Text : string }.
Record verdict := mkVerdict { vd_OK : bool; vd_N : Z; vd_At : Z; vd_Detail : string }.
Record detection := mkDetection { dt_at : Time; dt_purged : Z; dt_open : bool; dt_ok : bool }.
Record rtCount := mkRt { rt_up : Z; rt_down : Z }.
Record scenarioState := mkScen {
  sc_name : string; sc_phase : string; sc_endsAt : Time; sc_since : Time;
  sc_clearedAt : Time; sc_recoveredAt : Time; sc_drainedAt : Time }.
Definition no_scenario : scenarioState := mkScen "" "" 0 0 0 0 0.
Definition zero_audit : Audit := mkAudit 0 0 "" "" "" 0 0 0 0 0.

Record Config := mkConfig {
  m_Tenants : list string; m_Providers : list string; m_BaselineTicks : Z; m_AuditRing : Z; m_TimelineRing : Z;
  m_AggregateMin : Z; m_DrainSlack : Z }.

(** A tick's headline numbers, which the scenario lines quote. *)
Record Reading := mkReading {
  rd_DeliveredPS : float64; rd_KMSCallsPS : float64; rd_AcceptedPS : float64; rd_HealthyP99Ms : float64;
  rd_AffectedP99Ms : float64; rd_Inflight : gmap string Z; rd_ByState : list Z; rd_Backlog : Z;
  rd_ProviderCallsPS : gmap string float64 }.
Definition zeroReading : Reading :=
  mkReading (F.of_Z 0) (F.of_Z 0) (F.of_Z 0) (F.of_Z 0) (F.of_Z 0) ∅ [0; 0; 0; 0] 0 ∅.

(** The fields the modelled operations use, by the source's names. *)
Record Registry := mkRegistry {
  m_cfg : Config;
  ingest : list Z; kms : list Z; kmsProv : list Z; rejWithin : Z; rejOver : Z; overWithin : Z;
  affected : list bool; audits : list (Ring Audit); timeline : Ring event; tlSeq : Z;
  scen : scenarioState; targets : list Z; p99Ring : Ring Duration; baseline : Duration;
  pendTrans : list Audit; rt : list rtCount; rtFlushed : Time;
  verdicts : gmap string verdict; detected : list detection; lastHealthy : Duration; healthyRej : Z }.

Definition positive_or (x d : Z) : Z := if x <=? 0 then d else x.

Definition New (cfg : Config) : Registry :=
  let cfg := mkConfig (m_Tenants cfg) (m_Providers cfg) (positive_or (m_BaselineTicks cfg) 20)
               (positive_or (m_AuditRing cfg) 16) (positive_or (m_TimelineRing cfg) 200)
               (positive_or (m_AggregateMin cfg) 3) (m_DrainSlack cfg) in
  let n := length (m_Tenants cfg) in
  let p := length (m_Providers cfg) in
  mkRegistry cfg (replicate reasonCount 0) (replicate 3 0) (replicate p 0) 0 0 0
    (replicate n false) (replicate n (mkRing [] 0 0))
    (mkRing (replicate (Z.to_nat (m_TimelineRing cfg)) (mkEvent 0 0 "")) 0 0) 0
    no_scenario [] (mkRing (replicate (Z.to_nat (m_BaselineTicks cfg)) 0) 0 0) 0
    [] (replicate p (mkRt 0 0)) 0 ∅ (replicate n (mkDetection 0 0 false false)) 0 0.

(** Field updates. *)
Definition with_counts (ing : list Z) (rej : Z) (w o ow : Z) (r : Registry) : Registry :=
  mkRegistry (m_cfg r) ing (kms r) (kmsProv r) w o ow (affected r) (audits r) (timeline r) (tlSeq r) (scen r)
    (targets r) (p99Ring r) (baseline r) (pendTrans r) (rt r) (rtFlushed r) (verdicts r) (detected r)
    (lastHealthy r) rej.
Definition with_kms (k p : list Z) (r : Registry) : Registry :=
  mkRegistry (m_cfg r) (ingest r) k p (rejWithin r) (rejOver r) (overWithin r) (affected r) (audits r) (timeline r)
    (tlSeq r) (scen r) (targets r) (p99Ring r) (baseline r) (pendTrans r) (rt r) (rtFlushed r) (verdicts r)
    (detected r) (lastHealthy r) (healthyRej r).
Definition with_timeline (t : Ring event) (sq : Z) (r : Registry) : Registry :=
  mkRegistry (m_cfg r) (ingest r) (kms r) (kmsProv r) (rejWithin r) (rejOver r) (overWithin r) (affected r) (audits r)
    t sq (scen r) (targets r) (p99Ring r) (baseline r) (pendTrans r) (rt r) (rtFlushed r) (verdicts r)
    (detected r) (lastHealthy r) (healthyRej r).
Definition with_trans (p : list Audit) (c : list rtCount) (t : Time) (r : Registry) : Registry :=
  mkRegistry (m_cfg r) (ingest r) (kms r) (kmsProv r) (rejWithin r) (rejOver r) (overWithin r) (affected r) (audits r)
    (timeline r) (tlSeq r) (scen r) (targets r) (p99Ring r) (baseline r) p c t (verdicts r)
    (detected r) (lastHealthy r) (healthyRej r).
Definition with_audits (a : list (Ring Audit)) (d : list detection) (r : Registry) : Registry :=
  mkRegistry (m_cfg r) (ingest r) (kms r) (kmsProv r) (rejWithin r) (rejOver r) (overWithin r) (affected r) a
    (timeline r) (tlSeq r) (scen r) (targets r) (p99Ring r) (baseline r) (pendTrans r) (rt r) (rtFlushed r)
    (verdicts r) d (lastHealthy r) (healthyRej r).
Definition with_scen (s : scenarioState) (r : Registry) : Registry :=
  mkRegistry (m_cfg r) (ingest r) (kms r) (kmsProv r) (rejWithin r) (rejOver r) (overWithin r) (affected r) (audits r)
    (timeline r) (tlSeq r) s (targets r) (p99Ring r) (baseline r) (pendTrans r) (rt r) (rtFlushed r)
    (verdicts r) (detected r) (lastHealthy r) (healthyRej r).
Definition with_targets (a : list bool) (t : list Z) (b : Duration) (rej : Z) (r : Registry) : Registry :=
  mkRegistry (m_cfg r) (ingest r) (kms r) (kmsProv r) (rejWithin r) (rejOver r) (overWithin r) a (audits r)
    (timeline r) (tlSeq r) (scen r) t (p99Ring r) b (pendTrans r) (rt r) (rtFlushed r)
    (verdicts r) (detected r) (lastHealthy r) rej.
Definition with_verdicts (v : gmap string verdict) (r : Registry) : Registry :=
  mkRegistry (m_cfg r) (ingest r) (kms r) (kmsProv r) (rejWithin r) (rejOver r) (overWithin r) (affected r) (audits r)
    (timeline r) (tlSeq r) (scen r) (targets r) (p99Ring r) (baseline r) (pendTrans r) (rt r) (rtFlushed r)
    v (detected r) (lastHealthy r) (healthyRej r).

(** An index of a Go slice of [n] elements. *)
Definition in_bounds (i : Z) (n : nat) : bool := (0 <=? i) && (i <? Z.of_nat n).

Definition Report (id : string) (ok : bool) (count : Z) (at_ : Time) (d : string) (r : Registry) : Registry :=
  with_verdicts (<[id := mkVerdict ok count (Time.UnixMilli at_) d]> (verdicts r)) r.

Definition DetectedRevokedAt (idx : Z) (r : Registry) : Time * Z * bool :=
  if negb (in_bounds idx (length (detected r))) then (0, 0, false)
  else let d := default (mkDetection 0 0 false false) (detected r !! Z.to_nat idx) in
       (dt_at d, dt_purged d, dt_ok d).

Definition HealthyP99 (r : Registry) : Duration * Duration * bool :=
  (lastHealthy r, baseline r, negb (bool_decide (sc_name (scen r) = "")) && (0 <? baseline r)).

Definition HealthyRejections (r : Registry) : Z := healthyRej r.
Definition OverloadedWithinShare (r : Registry) : Z := overWithin r.

(** [provider]: the provider index of a grid index. *)
Definition provider (r : Registry) (idx : Z) : nat :=
  if bool_decide (m_Providers (m_cfg r) = []) || bool_decide (m_Tenants (m_cfg r) = []) then 0%nat
  else Z.to_nat (Z.quot (idx * Z.of_nat (length (m_Providers (m_cfg r)))) (Z.of_nat (length (m_Tenants (m_cfg r))))).

(** [post]. *)
Definition post (at_ : Time) (text : string) (r : Registry) : Registry :=
  let sq := tlSeq r + 1 in
  with_timeline (push (mkEvent sq (Time.UnixMilli at_) text) (timeline r)) sq r.

Definition Timeline (now : Time) (text : string) (r : Registry) : Registry := post now text r.

Definition events (n : nat) (r : Registry) : list event := newest n (timeline r).

Definition stateName (s : Z) : string :=
  if s =? 0 then "ACTIVE" else if s =? 1 then "RIDING_THROUGH" else if s =? 2 then "KEY_UNAVAILABLE"
  else if s =? 3 then "REVOKED" else "?".

Definition bump (i : nat) (l : list Z) : list Z := alter (λ x, x + 1) i l.

Definition Affected (idx : Z) (r : Registry) : bool :=
  in_bounds idx (length (affected r)) && default false (affected r !! Z.to_nat idx).

Definition Ingest (idx : Z) (reason : string) (withinShare : bool) (r : Registry) : Registry :=
  let i := reasonIndex reason in
  let ing := bump i (ingest r) in
  let rej := if negb (i =? reasonAccepted)%nat && in_bounds idx (length (affected r)) && negb (Affected idx r)
             then healthyRej r + 1 else healthyRej r in
  if (i =? reasonRateLimited)%nat || (i =? reasonBacklogFull)%nat || (i =? reasonOverloaded)%nat
  then if withinShare
       then with_counts ing rej (rejWithin r + 1) (rejOver r)
              (if (i =? reasonOverloaded)%nat then overWithin r + 1 else overWithin r) r
       else with_counts ing rej (rejWithin r) (rejOver r + 1) (overWithin r) r
  else with_counts ing rej (rejWithin r) (rejOver r) (overWithin r) r.

Definition SetScenario (now : Time) (name phase : string) (endsAt : Time) (r : Registry) : Registry :=
  if bool_decide (name = "") then with_scen no_scenario r
  else
    let s := scen r in
    let since := if bool_decide (sc_name s = name) then sc_since s else now in
    with_scen (mkScen name phase endsAt since (sc_clearedAt s) (sc_recoveredAt s) (sc_drainedAt s)) r.

Definition Scenario (r : Registry) : string * bool * Time :=
  (sc_name (scen r), negb (bool_decide (sc_name (scen r) = "")), sc_since (scen r)).

(** The unchecked [affected[i].Store(false)] over the old targets: [None] is an
    index out of range. *)
Fixpoint clear_all (ts : list Z) (a : list bool) : option (list bool) :=
  match ts with
  | [] => Some a
  | i :: ts' => if in_bounds i (length a) then clear_all ts' (<[Z.to_nat i := false]> a) else None
  end.
Fixpoint mark_all (ts : list Z) (a : list bool) : list bool :=
  match ts with
  | [] => a
  | i :: ts' => mark_all ts' (if in_bounds i (length a) then <[Z.to_nat i := true]> a else a)
  end.

Definition SetTargets (idx : list Z) (r : Registry) : option Registry :=
  a ← clear_all (targets r) (affected r);
  let a := mark_all idx a in
  let q := p99Ring r in
  let sum := foldl (λ s d, wrap64 (s + d)) 0 (take (r_n q) (r_buf q)) in
  let base := if (0 <? r_n q)%nat then Z.quot sum (Z.of_nat (r_n q)) else 0 in
  let s := scen r in
  Some (with_scen (mkScen (sc_name s) (sc_phase s) (sc_endsAt s) (sc_since s) 0 0 0)
          (with_targets a idx base 0 r)).

Definition ClearTargets (r : Registry) : option Registry :=
  a ← clear_all (targets r) (affected r); Some (with_targets a [] (baseline r) (healthyRej r) r).

Definition SetCleared (at_ : Time) (r : Registry) : Registry :=
  let s := scen r in
  with_scen (mkScen (sc_name s) (sc_phase s) (sc_endsAt s) (sc_since s) at_ 0 0) r.

Definition Recovered (r : Registry) : Duration * Duration * bool :=
  let s := scen r in
  let rec_ := if negb (Time.IsZero (sc_recoveredAt s)) then Time.Sub (sc_recoveredAt s) (sc_clearedAt s) else 0 in
  let dr := if negb (Time.IsZero (sc_drainedAt s)) then Time.Sub (sc_drainedAt s) (sc_clearedAt s) else 0 in
  (rec_, dr, negb (Time.IsZero (sc_recoveredAt s)) && negb (Time.IsZero (sc_drainedAt s))).

(** Step 5 of [tick]: stamping recovery from the tick's readings. *)
Definition tick_recovery (now : Time) (allActive : bool) (affectedSum : Z) (r : Registry) : Registry :=
  let s := scen r in
  if Time.IsZero (sc_clearedAt s) then r
  else
    let ra := if Time.IsZero (sc_recoveredAt s) && allActive then now else sc_recoveredAt s in
    let da := if Time.IsZero (sc_drainedAt s) && (affectedSum <=? m_DrainSlack (m_cfg r)) then now else sc_drainedAt s in
    with_scen (mkScen (sc_name s) (sc_phase s) (sc_endsAt s) (sc_since s) (sc_clearedAt s) ra da) r.

(** The episode step of [Audit]. *)
Definition detect (e : Audit) (d : detection) : detection :=
  if (a_To e =? 3) && negb (dt_open d) then mkDetection (a_At e) (a_Purged e) true true
  else if (a_From e =? 3) && negb (a_To e =? 3) then mkDetection (dt_at d) (dt_purged d) false (dt_ok d)
  else d.

Definition push_audit (size : Z) (e : Audit) (q : Ring Audit) : Ring Audit :=
  push e (match r_buf q with [] => mkRing (replicate (Z.to_nat size) zero_audit) (r_head q) (r_n q) | _ => q end).

Definition Audit_ (e : Audit) (r : Registry) : Registry :=
  if negb (in_bounds (a_Idx e) (length (audits r))) then r
  else
    let i := Z.to_nat (a_Idx e) in
    let r := if bool_decide (a_Op e = "unwrap") || bool_decide (a_Op e = "generate")
             then with_kms (if a_Class e <? 3 then bump (Z.to_nat (a_Class e)) (kms r) else kms r)
                    (bump (provider r (a_Idx e)) (kmsProv r)) r
             else r in
    let r := if bool_decide (a_Op e = "state")
             then
               let r := with_audits (audits r) (alter (detect e) i (detected r)) r in
               if a_To e =? 3 then
                 post (a_At e) (default "" (m_Tenants (m_cfg r) !! i) +:+ " REVOKED, " +:+ Itoa (a_Purged e) +:+ " DEKs purged") r
               else if (a_From e =? 0) && (a_To e =? 1) then
                 with_trans (pendTrans r) (alter (λ c, mkRt (rt_up c + 1) (rt_down c)) (provider r (a_Idx e)) (rt r)) (rtFlushed r) r
               else if (a_From e =? 1) && (a_To e =? 0) then
                 with_trans (pendTrans r) (alter (λ c, mkRt (rt_up c) (rt_down c + 1)) (provider r (a_Idx e)) (rt r)) (rtFlushed r) r
               else with_trans (pendTrans r ++ [e])%list (rt r) (rtFlushed r) r
             else r in
    with_audits (alter (push_audit (m_AuditRing (m_cfg r)) e) i (audits r)) (detected r) r.

Definition TenantAudit (idx : Z) (n : nat) (r : Registry) : list Audit :=
  if negb (in_bounds idx (length (audits r))) then []
  else newest n (default (mkRing [] 0 0) (audits r !! Z.to_nat idx)).

(** [flushTransitions]: the key of a transition, the lines of the buffered ones in
    order, then one line per provider with ride-through churn. *)
Definition trans_key (r : Registry) (e : Audit) : nat * Z * Z := ((provider r (a_Idx e) mod 256)%nat, a_From e, a_To e).
Definition trans_count (r : Registry) (k : nat * Z * Z) (es : list Audit) : Z :=
  countZ (λ e, bool_decide (trans_key r e = k)) es.

Definition aggregate_line (r : Registry) (k : nat * Z * Z) (n : Z) : string :=
  Itoa n +:+ " " +:+ default "" (m_Providers (m_cfg r) !! k.1.1) +:+ " tenants " +:+ stateName k.1.2 +:+ " → " +:+ stateName k.2.
Definition single_line (r : Registry) (e : Audit) : string :=
  default "" (m_Tenants (m_cfg r) !! Z.to_nat (a_Idx e)) +:+ " " +:+ stateName (a_From e) +:+ " → " +:+ stateName (a_To e)
  +:+ " (" +:+ a_Detail e +:+ ")".

Fixpoint flush_pending (now : Time) (all es : list Audit) (posted : gset (nat * Z * Z)) (r : Registry) : Registry :=
  match es with
  | [] => r
  | e :: es' =>
      let k := trans_key r e in
      let n := trans_count r k all in
      if (m_AggregateMin (m_cfg r) <=? n) && negb (bool_decide (k ∈ posted))
      then flush_pending now all es' ({[k]} ∪ posted) (post now (aggregate_line r k n) r)
      else if n <? m_AggregateMin (m_cfg r)
      then flush_pending now all es' posted (post now (single_line r e) r)
      else flush_pending now all es' posted r
  end.

Definition churn_line (r : Registry) (p : nat) (c : rtCount) : string :=
  default "" (m_Providers (m_cfg r) !! p) +:+ ": " +:+ Itoa (rt_up c)
  +:+ " ACTIVE → RIDING_THROUGH, " +:+ Itoa (rt_down c) +:+ " back".

Fixpoint flush_rt (now : Time) (ps : list nat) (r : Registry) : Registry :=
  match ps with
  | [] => r
  | p :: ps' =>
      let c := default (mkRt 0 0) (rt r !! p) in
      if (rt_up c =? 0) && (rt_down c =? 0) then flush_rt now ps' r
      else
        let r := with_trans (pendTrans r) (<[p := mkRt 0 0]> (rt r)) (rtFlushed r) r in
        flush_rt now ps'
          (post now (churn_line r p c) r)
  end.

Definition flushTransitions (now : Time) (r : Registry) : Registry :=
  if Time.Sub now (rtFlushed r) <? Second then r
  else
    let r := with_trans (pendTrans r) (rt r) now r in
    let es := pendTrans r in
    let r := flush_pending now es es ∅ r in
    let r := with_trans [] (rt r) (rtFlushed r) r in
    flush_rt now (seq 0 (length (rt r))) r.

(** ** Rings against the history *)

(** A ring of size [n] that was given the entries of [h], oldest first. *)
Definition ring_ok {A} (r : Ring A) (n : nat) (h : list A) : Prop :=
  (0 < n)%nat ∧ length (r_buf r) = n ∧ r_head r = (length h mod n)%nat ∧ r_n r = Nat.min (length h) n ∧
  ∀ k, (k < length h)%nat → (length h - n <= k)%nat → r_buf r !! (k mod n)%nat = h !! k.

(** An audit entry moves the key-service counters, the audit rings, the episodes,
    the lines and the pending transitions, and nothing else. *)
Definition audited (k kp : list Z) (a : list (Ring Audit)) (tl : Ring event) (sq : Z) (pt : list Audit) (rs : list rtCount) (fl : Time) (d : list detection)
    (r : Registry) : Registry :=
  mkRegistry (m_cfg r) (ingest r) k kp (rejWithin r) (rejOver r) (overWithin r) (affected r) a tl sq (scen r) (targets r)
    (p99Ring r) (baseline r) pt rs fl (verdicts r) d (lastHealthy r) (healthyRej r).

Lemma audited_refl r : r = audited (kms r) (kmsProv r) (audits r) (timeline r) (tlSeq r) (pendTrans r) (rt r) (rtFlushed r) (detected r) r.
Proof. by destruct r. Qed.

(** The calls by class after an entry. *)
Definition audit_kms (e : Audit) (r : Registry) : list Z :=
  if in_bounds (a_Idx e) (length (audits r)) && (bool_decide (a_Op e = "unwrap") || bool_decide (a_Op e = "generate")) && (a_Class e <? 3)
  then bump (Z.to_nat (a_Class e)) (kms r) else kms r.

Lemma Audit_shape e r : ∃ kp a tl sq pt rs fl d, Audit_ e r = audited (audit_kms e r) kp a tl sq pt rs fl d r.
Proof.
  unfold Audit_, audit_kms. destruct (in_bounds _ _); cbn [negb andb]; [|do 8 eexists; apply audited_refl]. cbv zeta.
  match goal with |- context [if bool_decide (a_Op e = "unwrap") || _ then ?a else r] =>
    assert (∃ kp, (if bool_decide (a_Op e = "unwrap") || bool_decide (a_Op e = "generate") then a else r)
      = audited (if (bool_decide (a_Op e = "unwrap") || bool_decide (a_Op e = "generate")) && (a_Class e <? 3) then bump (Z.to_nat (a_Class e)) (kms r) else kms r)
          kp (audits r) (timeline r) (tlSeq r) (pendTrans r) (rt r) (rtFlushed r) (detected r) r) as (kp & ->) end.
  { destruct (_ || _); [by eexists|eexists; apply audited_refl]. }
  destruct (bool_decide _); [|by do 8 eexists]. destruct (a_To e =? 3); [by do 8 eexists|].
  destruct (_ && _); [by do 8 eexists|]. destruct (_ && _); by do 8 eexists.
Qed.

Lemma mod_inj_near (n a b : nat) : (0 < n)%nat → (a <= b < a + n)%nat → (a mod n = b mod n)%nat → a = b.
Proof.
  intros Hn Hab E. pose proof (Nat.div_mod_eq a n) as Ha. pose proof (Nat.div_mod_eq b n) as Hb.
  rewrite E in Ha. assert (a / n <= b / n)%nat as Hle by (apply Nat.Div0.div_le_mono; lia).
  destruct (decide (b / n = a / n)%nat) as [Heq|Hne]; [rewrite Heq in Hb; lia|]. nia.
Qed.

Lemma push_ok {A} (r : Ring A) n h x : ring_ok r n h → ring_ok (push x r) n (h ++ [x]).
Proof.
  intros (Hn & Hl & Hh & Hc & Hk). unfold push. rewrite Hl. split_and!; cbn [r_buf r_head r_n length]; rewrite ?length_app; cbn [length].
  - done.
  - by rewrite length_insert.
  - rewrite Hh, Nat.Div0.add_mod_idemp_l. done.
  - rewrite Hc. destruct (Nat.ltb_spec (Nat.min (length h) n) n); lia.
  - intros k Hk1 Hk2. pose proof (Nat.mod_upper_bound (length h) n ltac:(lia)) as Hb.
    destruct (decide (k = length h)) as [->|Hne].
    + rewrite Hh, list_lookup_insert_eq by lia. by rewrite lookup_app_r, Nat.sub_diag by lia.
    + rewrite list_lookup_insert_ne.
      * rewrite Hk by lia. by rewrite lookup_app_l by lia.
      * rewrite Hh. intros E. symmetry in E. apply mod_inj_near in E; lia.
Qed.

Lemma newest_ok {A} (r : Ring A) n h m : ring_ok r n h → newest m r = take m (take n (reverse h)).
Proof.
  intros (Hn & Hl & Hh & Hc & Hk). unfold newest. rewrite Hl, Hc, Hh.
  assert (∀ j a, (a + j <= Nat.min (length h) n)%nat →
    omap (λ i, r_buf r !! ((length h mod n + n - i) mod n)%nat) (seq (S a) j) = take j (drop a (reverse h))) as Hgen.
  { induction j as [|j IH]; intros a Ha; [done|]. cbn [seq omap list_omap].
    destruct (drop a (reverse h)) as [|x l] eqn:E.
    { apply (f_equal length) in E. rewrite length_drop, length_reverse in E. cbn in E. lia. }
    assert (reverse h !! a = Some x) as Hx by (rewrite <- (Nat.add_0_r a), <- lookup_drop, E; done).
    assert (drop (S a) (reverse h) = l) as El by (rewrite <- Nat.add_1_r, <- drop_drop, E; done).
    rewrite reverse_lookup in Hx by lia.
    assert (((length h mod n + n - S a) mod n)%nat = ((length h - S a) mod n)%nat) as ->.
    { pose proof (Nat.mod_upper_bound (length h) n ltac:(lia)).
      pose proof (Nat.div_mod_eq (length h) n) as Hd.
      destruct (Nat.lt_ge_cases (length h) n) as [Hlt|Hge].
      - rewrite (Nat.mod_small (length h) n) by lia. replace (length h + n - S a)%nat with (length h - S a + 1 * n)%nat by lia.
        by rewrite Nat.Div0.mod_add.
      - destruct (length h / n)%nat as [|k] eqn:Ek; [apply Nat.div_small_iff in Ek; lia|].
        rewrite Nat.mul_succ_r, (Nat.mul_comm n k) in Hd.
        replace (length h - S a)%nat with (length h mod n + n - S a + k * n)%nat by lia.
        by rewrite Nat.Div0.mod_add. }
    rewrite Hk by lia. rewrite Hx. cbn [take]. f_equal. rewrite <- El. apply IH. lia. }
  pose proof (Hgen (if (Nat.min (length h) n <? m)%nat then Nat.min (length h) n else m) 0%nat) as H.
  rewrite drop_0 in H. rewrite H by (destruct (Nat.ltb_spec (Nat.min (length h) n) m); lia).
  rewrite take_take. destruct (Nat.ltb_spec (Nat.min (length h) n) m) as [Hm|Hm].
  - destruct (Nat.min_spec (length h) n) as [[? ->]|[? ->]]; [|f_equal; lia].
    rewrite !take_ge by (rewrite length_reverse; lia). done.
  - destruct (decide (m <= n)%nat); [f_equal; lia|lia].
Qed.

(** ** The audit log *)

(** The entries of one tenant among those given, and the ring size in force. *)
Definition of_idx (idx : Z) (es : list Audit) : list Audit := filter (λ e, a_Idx e = idx) es.
Definition run_audits (es : list Audit) (r : Registry) : Registry := foldl (λ r e, Audit_ e r) r es.

Definition audits_ok (r : Registry) (es : list Audit) : Prop :=
  0 < m_AuditRing (m_cfg r) ∧
  ∀ i q, audits r !! i = Some q →
    (r_buf q = [] ∧ r_head q = 0%nat ∧ r_n q = 0%nat ∧ of_idx (Z.of_nat i) es = []) ∨
    ring_ok q (Z.to_nat (m_AuditRing (m_cfg r))) (of_idx (Z.of_nat i) es).

Lemma post_audits t s r : audits (post t s r) = audits r ∧ m_cfg (post t s r) = m_cfg r ∧ detected (post t s r) = detected r.
Proof. done. Qed.

(** What [Audit_] does to the rings and to the detections. *)
Lemma Audit_fields e r :
  in_bounds (a_Idx e) (length (audits r)) = true →
  m_cfg (Audit_ e r) = m_cfg r ∧
  audits (Audit_ e r) = alter (push_audit (m_AuditRing (m_cfg r)) e) (Z.to_nat (a_Idx e)) (audits r) ∧
  detected (Audit_ e r) = (if bool_decide (a_Op e = "state") then alter (detect e) (Z.to_nat (a_Idx e)) (detected r)
                           else detected r).
Proof.
  intros Hin. unfold Audit_. rewrite Hin. cbn [negb].
  destruct (bool_decide (a_Op e = "unwrap") || bool_decide (a_Op e = "generate")), (bool_decide (a_Op e = "state"));
    try done; destruct (a_To e =? 3), ((a_From e =? 0) && (a_To e =? 1)), ((a_From e =? 1) && (a_To e =? 0)); done.
Qed.

Lemma push_audit_ok size e q h :
  0 < size →
  (r_buf q = [] ∧ r_head q = 0%nat ∧ r_n q = 0%nat ∧ h = []) ∨ ring_ok q (Z.to_nat size) h →
  ring_ok (push_audit size e q) (Z.to_nat size) (h ++ [e]).
Proof.
  intros Hs [(E1 & E2 & E3 & ->)|Hok]; unfold push_audit.
  - rewrite E1, E2, E3. apply push_ok. split_and!; cbn [r_buf r_head r_n length].
    + lia.
    + by rewrite length_replicate.
    + by rewrite Nat.Div0.mod_0_l.
    + done.
    + lia.
  - destruct (r_buf q) as [|x l] eqn:E; [|by apply push_ok].
    destruct Hok as (? & Hl & _). rewrite E in Hl. cbn in Hl. lia.
Qed.

Lemma Audit_ok e r es : audits_ok r es → audits_ok (Audit_ e r) (es ++ [e]).
Proof.
  intros [Hs Hq]. destruct (in_bounds (a_Idx e) (length (audits r))) eqn:Hin.
  - destruct (Audit_fields e r Hin) as (Ec & Ea & _). split; [by rewrite Ec|]. rewrite Ec, Ea. intros i q Hi.
    unfold in_bounds in Hin. apply andb_true_iff in Hin as [H1 H2]. unfold of_idx. rewrite filter_app.
    destruct (decide (i = Z.to_nat (a_Idx e))) as [->|Hne].
    + rewrite list_lookup_alter_eq in Hi. destruct (audits r !! Z.to_nat (a_Idx e)) as [q0|] eqn:E0; [|done].
      injection Hi as <-. right. rewrite filter_cons_True by lia. apply push_audit_ok; [done|]. by apply Hq.
    + rewrite list_lookup_alter_ne in Hi by done. rewrite filter_cons_False by lia.
      change (filter _ []) with (@nil Audit). rewrite app_nil_r. by apply Hq.
  - assert (Audit_ e r = r) as -> by (unfold Audit_; by rewrite Hin). split; [done|]. intros i q Hi.
    apply lookup_lt_Some in Hi as Hlt. unfold of_idx. rewrite filter_app, filter_cons_False.
    + change (filter _ []) with (@nil Audit). rewrite app_nil_r. by apply Hq.
    + unfold in_bounds in Hin. intros E. rewrite E in Hin. apply andb_false_iff in Hin. lia.
Qed.

Lemma New_audits_ok cfg : audits_ok (New cfg) [].
Proof.
  split; [cbn; unfold positive_or; destruct (Z.leb_spec (m_AuditRing cfg) 0); lia|].
  intros i q Hi. apply lookup_replicate in Hi as [-> _]. left. done.
Qed.

Lemma run_audits_ok es r es0 : audits_ok r es0 → audits_ok (run_audits es r) (es0 ++ es).
Proof.
  revert r es0. induction es as [|e es IH]; intros r es0 H; [by rewrite app_nil_r|]. cbn.
  replace (es0 ++ e :: es)%list with ((es0 ++ [e]) ++ es)%list by (by rewrite <- app_assoc).
  by apply IH, Audit_ok.
Qed.

Lemma Audit_length e r : length (audits (Audit_ e r)) = length (audits r) ∧ m_cfg (Audit_ e r) = m_cfg r ∧
  length (detected (Audit_ e r)) = length (detected r).
Proof.
  destruct (in_bounds (a_Idx e) (length (audits r))) eqn:Hin.
  - destruct (Audit_fields e r Hin) as (-> & -> & ->). rewrite length_alter.
    destruct (bool_decide _); by rewrite ?length_alter.
  - unfold Audit_. by rewrite Hin.
Qed.

Lemma run_audits_length es r : length (audits (run_audits es r)) = length (audits r) ∧ m_cfg (run_audits es r) = m_cfg r ∧
  length (detected (run_audits es r)) = length (detected r).
Proof.
  revert r. induction es as [|e es IH]; intros r; [done|].
  change (run_audits (e :: es) r) with (run_audits es (Audit_ e r)). destruct (IH (Audit_ e r)) as (-> & -> & ->).
  apply Audit_length.
Qed.

(** The audit log of a tenant is its latest entries: after any sequence of
    audits, whatever other tenants wrote in between, [TenantAudit] returns that
    tenant's last entries, newest first, as many as asked for or as the ring
    holds, and none of them altered. *)
Theorem tenant_audit_is_latest cfg es idx n :
  0 <= idx < Z.of_nat (length (m_Tenants cfg)) →
  TenantAudit idx n (run_audits es (New cfg))
  = take n (take (Z.to_nat (positive_or (m_AuditRing cfg) 16)) (reverse (of_idx idx es))).
Proof.
  intros Hi. unfold TenantAudit. destruct (run_audits_length es (New cfg)) as (El & Ec & _).
  assert (length (audits (New cfg)) = length (m_Tenants cfg)) as En by apply length_replicate.
  rewrite En in El. rewrite El.
  assert (in_bounds idx (length (m_Tenants cfg)) = true) as -> by (unfold in_bounds; lia). cbn [negb].
  destruct (run_audits_ok es (New cfg) [] (New_audits_ok cfg)) as [Hs Hq].
  rewrite Ec in Hq, Hs. change (m_AuditRing (m_cfg (New cfg))) with (positive_or (m_AuditRing cfg) 16) in *.
  destruct (audits (run_audits es (New cfg)) !! Z.to_nat idx) as [q|] eqn:E.
  2: { apply lookup_ge_None in E. rewrite El in E. lia. }
  cbn [default]. unfold id. destruct (Hq _ q E) as [(E1 & E2 & E3 & E4)|Hok]; rewrite Z2Nat.id in * by lia.
  - cbn [app] in E4. rewrite E4. unfold newest. rewrite E3. change (reverse []) with (@nil Audit).
    rewrite !take_nil. by destruct n.
  - by rewrite (newest_ok _ _ _ _ Hok).
Qed.

(** ** The detection of a revocation *)

(** The state audits of one tenant. *)
Definition states_of (idx : Z) (es : list Audit) : list Audit :=
  filter (λ e, a_Op e = "state") (of_idx idx es).

(** Each names the state the one before it entered. *)
Fixpoint state_chain (s : Z) (es : list Audit) : Prop :=
  match es with
  | [] => True
  | e :: es' => a_From e = s ∧ a_To e ≠ s ∧ state_chain (a_To e) es'
  end.

Definition final_state (s : Z) (es : list Audit) : Z := foldl (λ _ e, a_To e) s es.

(** The detections of a registry are the episode steps folded over the state
    audits of each tenant. *)
Lemma run_audits_detected es r i d :
  length (audits r) = length (detected r) → detected r !! i = Some d →
  detected (run_audits es r) !! i = Some (foldl (λ d e, detect e d) d (states_of (Z.of_nat i) es)).
Proof.
  revert r d. induction es as [|e es IH]; intros r d Hl Hd; [done|].
  change (run_audits (e :: es) r) with (run_audits es (Audit_ e r)).
  destruct (Audit_length e r) as (E1 & _ & E3). unfold states_of, of_idx.
  destruct (in_bounds (a_Idx e) (length (audits r))) eqn:Hin.
  - destruct (Audit_fields e r Hin) as (_ & _ & Ed). unfold in_bounds in Hin. apply andb_true_iff in Hin as [H1 H2].
    destruct (decide (a_Idx e = Z.of_nat i)) as [Hi|Hi].
    + rewrite filter_cons_True by done. destruct (decide (a_Op e = "state")) as [Ho|Ho].
      * rewrite filter_cons_True by done. cbn [foldl]. apply IH; [congruence|].
        rewrite Ed, bool_decide_eq_true_2, Hi, Nat2Z.id, list_lookup_alter_eq, Hd by done. done.
      * rewrite filter_cons_False by done. apply IH; [congruence|]. by rewrite Ed, bool_decide_eq_false_2.
    + rewrite filter_cons_False by done. apply IH; [congruence|]. rewrite Ed.
      destruct (bool_decide _); [|done]. rewrite list_lookup_alter_ne; [done|lia].
  - assert (Audit_ e r = r) as -> by (unfold Audit_; by rewrite Hin).
    rewrite filter_cons_False; [by apply IH|]. apply lookup_lt_Some in Hd. unfold in_bounds in Hin. lia.
Qed.

(** The last entry into REVOKED. *)
Definition last_revocation (es : list Audit) : option Audit := last (filter (λ e, a_To e = 3) es).

Lemma detect_chain es s d :
  state_chain s es → dt_open d = bool_decide (s = 3) →
  foldl (λ d e, detect e d) d es
  = match last_revocation es with
    | Some e => mkDetection (a_At e) (a_Purged e) (bool_decide (final_state s es = 3)) true
    | None => mkDetection (dt_at d) (dt_purged d) (bool_decide (final_state s es = 3)) (dt_ok d)
    end.
Proof.
  revert s d. induction es as [|e es IH]; intros s d Hc Ho; cbn [foldl state_chain] in *.
  { destruct d; cbn in *. by subst. }
  destruct Hc as (Hf & Ht & Hc).
  assert (dt_open (detect e d) = bool_decide (a_To e = 3)) as Ho'.
  { unfold detect. rewrite Ho, Hf. repeat case_bool_decide; subst; destruct (Z.eqb_spec (a_To e) 3), (Z.eqb_spec (a_From e) 3); cbn; congruence. }
  rewrite (IH _ _ Hc Ho'). unfold last_revocation. change (final_state s (e :: es)) with (final_state (a_To e) es).
  destruct (decide (a_To e = 3)) as [H3|H3].
  - rewrite filter_cons_True, last_cons by done. destruct (last (filter _ es)) as [e'|]; [done|].
    unfold detect. rewrite Ho, H3, bool_decide_eq_false_2 by congruence. done.
  - rewrite filter_cons_False by done. destruct (last (filter _ es)); [done|].
    unfold detect. destruct (Z.eqb_spec (a_To e) 3); [done|]. cbn. by destruct (a_From e =? 3).
Qed.

(** Detection reports the last revocation: when a tenant's state audits each
    start from the state the previous one entered, ACTIVE first,
    [DetectedRevokedAt] answers the instant and the purge count of its latest
    entry into REVOKED, and answers not detected when it never entered;
    other tenants' audits change nothing. *)
Theorem detection_is_last_revocation cfg es idx :
  0 <= idx < Z.of_nat (length (m_Tenants cfg)) → state_chain 0 (states_of idx es) →
  DetectedRevokedAt idx (run_audits es (New cfg))
  = match last_revocation (states_of idx es) with
    | Some e => (a_At e, a_Purged e, true)
    | None => (0, 0, false)
    end.
Proof.
  intros Hi Hc. unfold DetectedRevokedAt. destruct (run_audits_length es (New cfg)) as (_ & _ & El).
  assert (length (detected (New cfg)) = length (m_Tenants cfg)) as En by apply length_replicate.
  rewrite El, En. assert (in_bounds idx (length (m_Tenants cfg)) = true) as -> by (unfold in_bounds; lia). cbn [negb].
  rewrite (run_audits_detected es (New cfg) (Z.to_nat idx) (mkDetection 0 0 false false)).
  - rewrite Z2Nat.id by lia. cbn [default]. unfold id. rewrite (detect_chain _ 0) by done.
    by destruct (last_revocation _).
  - rewrite En. apply length_replicate.
  - cbn [New detected]. apply lookup_replicate_2. cbn [m_Tenants]. lia.
Qed.

(** ** The ingest counters *)

Definition run_ingests (cs : list (Z * string * bool)) (r : Registry) : Registry :=
  foldl (λ r c, Ingest c.1.1 c.1.2 c.2 r) r cs.

(** A refusal for want of capacity: rate, backlog or overload. *)
Definition is_capacity (reason : string) : bool :=
  bool_decide (reason = "rate_limited") || bool_decide (reason = "backlog_full") || bool_decide (reason = "overloaded").

Lemma capacity_index reason :
  (reasonIndex reason =? reasonRateLimited)%nat || (reasonIndex reason =? reasonBacklogFull)%nat
  || (reasonIndex reason =? reasonOverloaded)%nat = is_capacity reason.
Proof. unfold reasonIndex, is_capacity. by repeat (case_bool_decide; subst; cbn; try done). Qed.

Lemma overloaded_index reason : (reasonIndex reason =? reasonOverloaded)%nat = bool_decide (reason = "overloaded").
Proof. unfold reasonIndex. by repeat (case_bool_decide; subst; cbn; try done). Qed.

Lemma reasonIndex_lt reason : (reasonIndex reason < reasonCount)%nat.
Proof. unfold reasonIndex. repeat case_bool_decide; cbv; lia. Qed.

Lemma sumZ_bump l i : (i < length l)%nat → sumZ (alter (λ x, x + 1) i l) = sumZ l + 1.
Proof.
  revert i. induction l as [|x l IH]; intros i Hi; [cbn in Hi; lia|]. destruct i as [|i]; [cbn; lia|].
  change (x + sumZ (alter (λ x, x + 1) i l) = x + sumZ l + 1). cbn in Hi. rewrite IH by lia. lia.
Qed.

(** The calls each counter counts. *)
Definition capacity_call (within : bool) (c : Z * string * bool) : bool :=
  is_capacity c.1.2 && eqb c.2 within.
Definition overloaded_within (c : Z * string * bool) : bool := bool_decide (c.1.2 = "overloaded") && c.2.
Definition slot_call (k : nat) (c : Z * string * bool) : bool := (reasonIndex c.1.2 =? k)%nat.
Definition healthy_refusal (r : Registry) (c : Z * string * bool) : bool :=
  negb (reasonIndex c.1.2 =? reasonAccepted)%nat && in_bounds c.1.1 (length (affected r)) && negb (Affected c.1.1 r).

(** One call, counter by counter. *)
Lemma Ingest_fields c r :
  let r' := Ingest c.1.1 c.1.2 c.2 r in
  ingest r' = bump (reasonIndex c.1.2) (ingest r) ∧ affected r' = affected r ∧
  rejWithin r' = rejWithin r + (if capacity_call true c then 1 else 0) ∧
  rejOver r' = rejOver r + (if capacity_call false c then 1 else 0) ∧
  overWithin r' = overWithin r + (if overloaded_within c then 1 else 0) ∧
  healthyRej r' = healthyRej r + (if healthy_refusal r c then 1 else 0).
Proof.
  destruct c as [[idx reason] within]. cbv zeta. unfold Ingest. cbn [fst snd].
  rewrite capacity_index, overloaded_index. unfold capacity_call, overloaded_within, healthy_refusal. cbn [fst snd].
  destruct (negb _ && _ && _); destruct (is_capacity reason) eqn:Ec, within, (bool_decide (reason = "overloaded")) eqn:Eo;
    cbn; split_and!; try done; try lia.
  all: apply bool_decide_eq_true in Eo; subst; done.
Qed.

(** The refusal counters are exact: after any calls, each reason's slot has
    grown by the calls of that reason, so every call is counted in exactly one
    slot; the refusals for want of capacity are split by fair share with none
    lost, the overload refusals within share (the L1 check's input) are counted
    alone, and the refusals blamed on healthy tenants are those of tenants not in
    the affected set. *)
Theorem ingest_counters_exact cs r :
  length (ingest r) = reasonCount →
  let r' := run_ingests cs r in
  (∀ k, (k < reasonCount)%nat →
     ingest r' !! k = (λ x, x + countZ (slot_call k) cs) <$> ingest r !! k) ∧
  sumZ (ingest r') = sumZ (ingest r) + Z.of_nat (length cs) ∧
  rejWithin r' = rejWithin r + countZ (capacity_call true) cs ∧
  rejOver r' = rejOver r + countZ (capacity_call false) cs ∧
  OverloadedWithinShare r' = OverloadedWithinShare r + countZ overloaded_within cs ∧
  HealthyRejections r' = HealthyRejections r + countZ (healthy_refusal r) cs.
Proof.
  cbv zeta. revert r. induction cs as [|c cs IH]; intros r Hl.
  { rewrite !countZ_nil. cbn [run_ingests foldl length]. split_and!; try lia. intros k _. rewrite countZ_nil.
    destruct (ingest r !! k); cbn; f_equal; lia. }
  change (run_ingests (c :: cs) r) with (run_ingests cs (Ingest c.1.1 c.1.2 c.2 r)).
  destruct (Ingest_fields c r) as (Ei & Ea & Ew & Eo & Eov & Eh).
  destruct (IH (Ingest c.1.1 c.1.2 c.2 r)) as (H1 & H2 & H3 & H4 & H5 & H6).
  { rewrite Ei. unfold bump. by rewrite length_alter. }
  unfold OverloadedWithinShare, HealthyRejections in *. rewrite !countZ_cons, H3, H4, H5, H6.
  assert (healthy_refusal (Ingest c.1.1 c.1.2 c.2 r) = healthy_refusal r) as ->.
  { unfold healthy_refusal, Affected. by rewrite Ea. }
  split_and!; try lia.
  - intros k Hk. rewrite (H1 k Hk), Ei, countZ_cons. unfold bump.
    assert (slot_call k c = (reasonIndex c.1.2 =? k)%nat) as -> by done.
    destruct (Nat.eqb_spec (reasonIndex c.1.2) k) as [->|Hne].
    + rewrite list_lookup_alter_eq. destruct (ingest r !! k); cbn; f_equal; lia.
    + rewrite list_lookup_alter_ne by done. destruct (ingest r !! k); cbn; f_equal; lia.
  - rewrite H2, Ei. cbn [length]. unfold bump. rewrite sumZ_bump; [lia|]. rewrite Hl. apply reasonIndex_lt.
Qed.

(** ** The lines of a flush *)

Definition post_all (now : Time) (texts : list string) (r : Registry) : Registry :=
  foldl (λ r t, post now t r) r texts.

(** Whether the transition's kind reached the aggregation threshold. *)
Definition aggregated (r : Registry) (all : list Audit) (e : Audit) : bool :=
  m_AggregateMin (m_cfg r) <=? trans_count r (trans_key r e) all.
Definition kinds (r : Registry) (all es : list Audit) : gset (nat * Z * Z) :=
  list_to_set (trans_key r <$> filter (λ e, aggregated r all e = true) es).
Definition line_of (r : Registry) (all : list Audit) (e : Audit) : string :=
  if aggregated r all e then aggregate_line r (trans_key r e) (trans_count r (trans_key r e) all) else single_line r e.
Definition churning (c : rtCount) : bool := negb ((rt_up c =? 0) && (rt_down c =? 0)).

Lemma post_all_app now t1 t2 r : post_all now (t1 ++ t2) r = post_all now t2 (post_all now t1 r).
Proof. apply foldl_app. Qed.

Lemma post_all_with_trans now ts p c t r :
  post_all now ts (with_trans p c t r) = with_trans p c t (post_all now ts r).
Proof. revert r. induction ts as [|x ts IH]; intros r; [done|]. apply (IH (post now x r)). Qed.

Lemma post_all_fields now ts r :
  m_cfg (post_all now ts r) = m_cfg r ∧ pendTrans (post_all now ts r) = pendTrans r ∧ rt (post_all now ts r) = rt r ∧
  rtFlushed (post_all now ts r) = rtFlushed r.
Proof. revert r. induction ts as [|x ts IH]; intros r; [done|]. apply (IH (post now x r)). Qed.

Lemma difference_insert (k : nat * Z * Z) (K P : gset (nat * Z * Z)) :
  k ∉ P → ({[k]} ∪ K) ∖ P = {[k]} ∪ K ∖ ({[k]} ∪ P).
Proof.
  intros Hk. apply set_eq. intros y. rewrite elem_of_union, !elem_of_difference, !elem_of_union, !elem_of_singleton.
  destruct (decide (y = k)) as [->|]; tauto.
Qed.

Lemma size_difference_insert (k : nat * Z * Z) (K P : gset (nat * Z * Z)) :
  k ∉ P → size (({[k]} ∪ K) ∖ P) = S (size (K ∖ ({[k]} ∪ P))).
Proof.
  intros Hk. rewrite difference_insert by done. rewrite size_union, size_singleton; [done|].
  apply disjoint_singleton_l. rewrite elem_of_difference, elem_of_union, elem_of_singleton. tauto.
Qed.

Lemma difference_insert_in (k : nat * Z * Z) (K P : gset (nat * Z * Z)) : k ∈ P → ({[k]} ∪ K) ∖ P = K ∖ P.
Proof.
  intros Hk. apply set_eq. intros y. rewrite !elem_of_difference, !elem_of_union, !elem_of_singleton.
  destruct (decide (y = k)) as [->|]; tauto.
Qed.

(** The pending transitions: a line for each, one for a whole aggregated kind. *)
Lemma flush_pending_lines now all es posted r :
  ∃ texts, flush_pending now all es posted r = post_all now texts r ∧
    (∀ e, e ∈ es → aggregated r all e = false ∨ trans_key r e ∉ posted → line_of r all e ∈ texts) ∧
    Z.of_nat (length texts)
    = countZ (λ e, negb (aggregated r all e)) es + Z.of_nat (size (kinds r all es ∖ posted)).
Proof.
  revert posted r. induction es as [|e es IH]; intros posted r.
  { exists []. split; [done|]. split; [set_solver|]. rewrite countZ_nil. unfold kinds. cbn.
    by rewrite subseteq_empty_difference_L, size_empty by set_solver. }
  cbn [flush_pending]. rewrite countZ_cons. fold (aggregated r all e).
  assert (∀ t, line_of (post now t r) = line_of r) as Hline by done.
  assert (∀ t, kinds (post now t r) = kinds r) as Hkinds by done.
  destruct (aggregated r all e) eqn:Ea; cbn [andb negb].
  - assert (kinds r all (e :: es) = {[trans_key r e]} ∪ kinds r all es) as ->.
    { unfold kinds. rewrite filter_cons_True by done. done. }
    case_bool_decide as Hp; cbn [negb].
    + assert (trans_count r (trans_key r e) all <? m_AggregateMin (m_cfg r) = false) as -> by (unfold aggregated in Ea; lia).
      destruct (IH posted r) as (ts & E & Hin & Hlen). exists ts. split; [done|]. split.
      * intros e' [->|He']%elem_of_cons Hor; [destruct Hor as [Hf|Hf]; [congruence|done]|by apply Hin].
      * rewrite Hlen, difference_insert_in by done. lia.
    + destruct (IH ({[trans_key r e]} ∪ posted) (post now (line_of r all e) r)) as (ts & E & Hin & Hlen).
      exists (line_of r all e :: ts). split; [unfold line_of in E |- *; rewrite Ea in E |- *; exact E|]. split.
      * intros e' [->|He']%elem_of_cons Hor; [set_solver|]. apply elem_of_cons.
        destruct (decide (aggregated r all e' = false ∨ trans_key r e' ∉ {[trans_key r e]} ∪ posted)) as [H|H].
        -- right. by apply Hin.
        -- left. unfold line_of. rewrite Ea. destruct (aggregated r all e') eqn:Ea'; [|exfalso; apply H; by left].
           destruct (decide (trans_key r e' = trans_key r e)) as [->|Hk]; [done|].
           exfalso. apply H. right. rewrite elem_of_union, elem_of_singleton. destruct Hor; [done|tauto].
      * change (Z.of_nat (length ts) = countZ (λ e, negb (aggregated r all e)) es
                + Z.of_nat (size (kinds r all es ∖ ({[trans_key r e]} ∪ posted)))) in Hlen.
        cbn [length]. rewrite (size_difference_insert (trans_key r e)) by done. lia.
  - assert (trans_count r (trans_key r e) all <? m_AggregateMin (m_cfg r) = true) as -> by (unfold aggregated in Ea; lia).
    destruct (IH posted (post now (single_line r e) r)) as (ts & E & Hin & Hlen).
    exists (single_line r e :: ts). split; [done|]. split.
    + intros e' [->|He']%elem_of_cons Hor; apply elem_of_cons; [left; unfold line_of; by rewrite Ea|right; by apply Hin].
    + change (Z.of_nat (length ts) = countZ (λ e, negb (aggregated r all e)) es
              + Z.of_nat (size (kinds r all es ∖ posted))) in Hlen.
      cbn [length]. unfold kinds at 1. rewrite filter_cons_False by congruence.
      fold (kinds r all es). lia.
Qed.

(** The churn: a line for each provider that had any, and every counter back to
    zero.  [done] is the part of the table already visited. *)
Definition churn_lines (r : Registry) (p0 : nat) (cs : list rtCount) : list string :=
  omap (λ pc, if churning pc.2 then Some (churn_line r pc.1 pc.2) else None) (zip (seq p0 (length cs)) cs).

Lemma flush_rt_lines now cs done_ r :
  rt r = (done_ ++ cs)%list →
  flush_rt now (seq (length done_) (length cs)) r
  = post_all now (churn_lines r (length done_) cs)
      (with_trans (pendTrans r) (done_ ++ replicate (length cs) (mkRt 0 0)) (rtFlushed r) r).
Proof.
  revert done_ r. induction cs as [|c cs IH]; intros done_ r E.
  { unfold churn_lines. cbn. rewrite <- E. by destruct r. }
  cbn [length seq flush_rt]. rewrite E, list_lookup_middle by done. cbn [default]. unfold id.
  assert (∀ x : rtCount, (done_ ++ x :: cs) = (done_ ++ [x]) ++ cs)%list as Hcons by (intros; by rewrite <- app_assoc).
  assert (S (length done_) = length (done_ ++ [mkRt 0 0])) as Hs by (rewrite length_app; cbn; lia).
  unfold churn_lines. cbn [length seq zip zip_with omap list_omap snd fst]. unfold churning.
  destruct ((rt_up c =? 0) && (rt_down c =? 0)) eqn:Ec; cbn [negb].
  - assert (c = mkRt 0 0) as ->.
    { destruct c as [u d]. cbn in Ec. apply andb_true_iff in Ec as [?%Z.eqb_eq ?%Z.eqb_eq]. by subst. }
    rewrite Hs, (IH _ r) by (by rewrite E, Hcons). cbn [replicate]. by rewrite <- app_assoc.
  - change (post_all now ?l ?q) with (post_all now l q).
    rewrite insert_app_r_alt, Nat.sub_diag by done. cbn [insert list_insert].
    rewrite Hs, IH by (cbn; by rewrite Hcons). cbn [replicate]. rewrite <- app_assoc. reflexivity.
Qed.

Lemma churn_lines_length r p0 cs : Z.of_nat (length (churn_lines r p0 cs)) = countZ churning cs.
Proof.
  revert p0. induction cs as [|c cs IH]; intros p0; [done|]. rewrite countZ_cons, <- (IH (S p0)).
  unfold churn_lines. cbn [length seq zip zip_with omap list_omap snd fst]. destruct (churning c); cbn [length]; lia.
Qed.

Lemma churn_lines_in r p0 cs i c :
  cs !! i = Some c → churning c = true → churn_line r (p0 + i) c ∈ churn_lines r p0 cs.
Proof.
  revert p0 i. induction cs as [|c' cs IH]; intros p0 [|i] Hi Hc; try done;
    unfold churn_lines; cbn [length seq zip zip_with omap list_omap snd fst].
  - injection Hi as ->. rewrite Hc, Nat.add_0_r. apply elem_of_cons. by left.
  - pose proof (IH (S p0) i Hi Hc) as H. replace (p0 + S i)%nat with (S p0 + i)%nat by lia.
    destruct (churning c'); [apply elem_of_cons; by right|exact H].
Qed.

(** A flush reports every buffered transition, briefly: once a second has
    passed it posts one line for each transition whose kind (provider, from, to)
    stayed under the threshold, one line for each kind that reached it, however
    many its transitions, and one line for each provider with ride-through churn;
    nothing else is posted, and afterwards the buffer and all the churn counters
    are empty. *)
Theorem flush_reports_every_transition now r :
  Second <= Time.Sub now (rtFlushed r) →
  ∃ texts,
    flushTransitions now r = post_all now texts (with_trans [] (replicate (length (rt r)) (mkRt 0 0)) now r) ∧
    (∀ e, e ∈ pendTrans r → line_of r (pendTrans r) e ∈ texts) ∧
    (∀ p c, rt r !! p = Some c → churning c = true → churn_line r p c ∈ texts) ∧
    Z.of_nat (length texts)
    = countZ (λ e, negb (aggregated r (pendTrans r) e)) (pendTrans r)
      + Z.of_nat (size (kinds r (pendTrans r) (pendTrans r))) + countZ churning (rt r).
Proof.
  intros Ht. unfold flushTransitions. destruct (Z.ltb_spec (Time.Sub now (rtFlushed r)) Second); [lia|]. cbv zeta.
  set (r1 := with_trans (pendTrans r) (rt r) now r).
  destruct (flush_pending_lines now (pendTrans r) (pendTrans r) ∅ r1) as (ts & E & Hin & Hlen).
  change (pendTrans r1) with (pendTrans r). rewrite E. destruct (post_all_fields now ts r1) as (E1 & E2 & E3 & E4).
  rewrite E3, E4. change (rt r1) with (rt r). change (rtFlushed r1) with now.
  set (r2 := with_trans [] (rt r) now (post_all now ts r1)). change (rt r2) with (rt r).
  change 0%nat with (length (@nil rtCount)) at 1. rewrite (flush_rt_lines now (rt r) [] r2) by done. cbn [length app].
  assert (∀ p cs, churn_lines r2 p cs = churn_lines r p cs) as Hchurn.
  { intros p cs. unfold churn_lines, churn_line. cbn. by rewrite E1. }
  exists (ts ++ churn_lines r 0 (rt r))%list. split_and!.
  - rewrite post_all_app, Hchurn. subst r2 r1. by rewrite !post_all_with_trans.
  - intros e He. apply elem_of_app. left. apply (Hin e He). right. set_solver.
  - intros p c Hp Hc. apply elem_of_app. right. by apply (churn_lines_in r 0 (rt r) p c).
  - rewrite length_app, Nat2Z.inj_add, Hlen, churn_lines_length.
    change (kinds r1 (pendTrans r) (pendTrans r)) with (kinds r (pendTrans r) (pendTrans r)).
    replace (kinds r (pendTrans r) (pendTrans r) ∖ ∅) with (kinds r (pendTrans r) (pendTrans r)) by set_solver. done.
Qed.

(** ** Witnesses *)
Module MDemo.
Definition cfg : Config := mkConfig ["acme"; "bolt"] ["aws"] 0 2 4 0 0.
Definition entry (at_ idx : Z) (from to : Z) (purged : Z) : Audit := mkAudit at_ idx "state" "" "deny" 0 from to 0 purged.
Definition log : list Audit :=
  [entry 10 0 0 1 0; entry 20 1 0 3 2; entry 30 0 1 3 4; mkAudit 31 0 "unwrap" "DENIED" "" 2 0 0 5 0;
   entry 40 0 3 0 0; entry 50 0 0 3 1].
Definition busy : Registry :=
  run_audits [entry 5 0 1 2 0; entry 6 1 1 2 0; entry 7 0 2 1 0; entry 8 0 1 2 0; entry 9 1 0 1 0] (New cfg).
End MDemo.

Lemma tenant_audit_is_latest_witness :
  TenantAudit 0 5 (run_audits MDemo.log (New MDemo.cfg)) = [MDemo.entry 50 0 0 3 1; MDemo.entry 40 0 3 0 0].
Proof. rewrite (tenant_audit_is_latest MDemo.cfg MDemo.log 0 5) by (cbn; lia). vm_compute. reflexivity. Defined.

Lemma detection_is_last_revocation_witness :
  DetectedRevokedAt 0 (run_audits MDemo.log (New MDemo.cfg)) = (50, 1, true).
Proof.
  rewrite (detection_is_last_revocation MDemo.cfg MDemo.log 0); [vm_compute; reflexivity|cbn; lia|].
  vm_compute. repeat split; discriminate.
Defined.

Lemma ingest_counters_exact_witness :
  let r := run_ingests [(0, "accepted", true); (1, "overloaded", false); (1, "rate_limited", true)] (New MDemo.cfg) in
  length (ingest (New MDemo.cfg)) = reasonCount ∧ sumZ (ingest r) = 3 ∧ rejWithin r = 1 ∧ rejOver r = 1 ∧
  OverloadedWithinShare r = 0 ∧ HealthyRejections r = 2.
Proof.
  cbv zeta.
  destruct (ingest_counters_exact [(0, "accepted", true); (1, "overloaded", false); (1, "rate_limited", true)]
              (New MDemo.cfg) eq_refl) as (_ & H2 & H3 & H4 & H5 & H6).
  split; [reflexivity|]. rewrite H2, H3, H4, H5, H6. vm_compute. repeat split.
Defined.

(** Three transitions of one kind share a line, another has its own, and the
    provider's churn is one line. *)
Lemma flush_reports_every_transition_witness :
  Second <= Time.Sub (2 * Second) (rtFlushed MDemo.busy) ∧
  ∃ texts, Z.of_nat (length texts) = 3 ∧
    flushTransitions (2 * Second) MDemo.busy
    = post_all (2 * Second) texts (with_trans [] [mkRt 0 0] (2 * Second) MDemo.busy).
Proof.
  assert (Second <= Time.Sub (2 * Second) (rtFlushed MDemo.busy)) as H by (vm_compute; discriminate).
  split; [exact H|].
  destruct (flush_reports_every_transition (2 * Second) MDemo.busy H) as (ts & E & _ & _ & Hlen).
  exists ts. split; [rewrite Hlen; vm_compute; reflexivity|exact E].
Defined.
