(* ===== verification/Hist.v ===== *)
(** * internal/metrics/hist.go: the latency histograms

    Two classes of tenants, [P99Window] slots of 28 counters each.  Deliveries add
    to the slot they read last, the tick reads both windowed percentiles and opens
    the next slot. *)

From S2P Require Import Prelude GoLib GoFloat FloatBounds Metrics.
Local Open Scope Z_scope.

(** [math.Log]: assembly on amd64.  Nothing below depends on its results. *)
Class GoLog := Log : float64 → float64.

Definition histBuckets : Z := 28.
Abbreviation hist := (list Z) (only parsing).
Definition ln15 : float64 := F.div (F.of_Z 4054651081081644) (F.of_Z (10 ^ 16)).

Definition u32 (x : Z) : Z := x mod 2 ^ 32.

(** The registry's [hists], by class and slot, and [slot]. *)
Record Hists := mkHists { h_slots : list (list hist); h_slot : nat }.

Definition zero_hist : hist := replicate (Z.to_nat histBuckets) 0.
Definition NewHists (window : nat) : Hists := mkHists (replicate 2 (replicate window zero_hist)) 0.

(** ** Operations *)

Definition bucketLo (b : Z) : Duration := F.to_int64 (F.mul (F.Pow (F.lit 3 (-1)) b) (F.of_Z Millisecond)).

(** The sums of [p99]: per bucket, and of all. *)
Definition add_slot (acc : list Z * Z) (h : hist) : list Z * Z :=
  (zip_with (λ s c, u64 (s + c)) acc.1 h, foldl (λ n c, u64 (n + c)) acc.2 h).
Definition sums (slots : list hist) : list Z * Z := foldl add_slot (zero_hist, 0) slots.

Definition interpolate (b rank cum inB : Z) : Duration :=
  let lo := bucketLo b in
  let hi := bucketLo (b + 1) in
  wrap64 (lo + F.to_int64 (F.div (F.mul (F.of_Z (wrap64 (hi - lo))) (F.sub (F.of_Z (u64 (rank - cum))) F.half)) (F.of_Z inB))).

Fixpoint p99_scan (rank cum b : Z) (ins : list Z) : Duration :=
  match ins with
  | [] => bucketLo histBuckets
  | inB :: ins' => if rank <=? u64 (cum + inB) then interpolate b rank cum inB else p99_scan rank (u64 (cum + inB)) (b + 1) ins'
  end.

Definition rank_of (n : Z) : Z := u64 (F.floor_int (F.mul c99 (F.of_Z n)) + 1).

Definition p99 (class : nat) (h : Hists) : Duration :=
  let '(sum, n) := sums (default [] (h_slots h !! class)) in
  if n =? 0 then 0 else p99_scan (rank_of n) 0 0 sum.

Section Hist.
Context `{LG : GoLog}.

Definition bucket (d : Duration) : Z :=
  let ms := F.div (F.of_Z d) (F.of_Z Millisecond) in
  if F.lt ms F.one then 0
  else
    let b := F.floor_int (F.div (Log ms) ln15) in
    if b <? 0 then 0 else if histBuckets <=? b then histBuckets - 1 else b.

(** The increment of [record], on a slot read earlier. *)
Definition add_at (class slot : nat) (d : Duration) (h : Hists) : Hists :=
  mkHists (alter (alter (alter (λ c, u32 (c + 1)) (Z.to_nat (bucket d))) slot) class (h_slots h)) (h_slot h).
Definition record (class : nat) (d : Duration) (h : Hists) : Hists := add_at class (h_slot h) d h.
End Hist.

(** [len(r.hists[0])]. *)
Definition window (h : Hists) : nat := length (default [] (h_slots h !! 0%nat)).

Definition roll (h : Hists) : Duration * Duration * Hists :=
  let next := ((h_slot h + 1) mod window h)%nat in
  (p99 0 h, p99 1 h, mkHists ((λ slots, alter (fmap (λ _, 0)) next slots) <$> h_slots h) next).

(** ** Interleavings

    A delivery reads the slot and adds to it in two atomic steps; ticks come in
    between.  [w_pc] holds the deliveries in flight. *)

Inductive hact := HLoad (id class : nat) (d : Duration) | HAdd (id : nat) | HRoll.
Record hworld := mkHworld { hw_hists : Hists; hw_pc : gmap nat (nat * nat * Duration); hw_out : list (Duration * Duration) }.
Definition hworld0 (n : nat) : hworld := mkHworld (NewHists n) ∅ [].

Abbreviation Ticks := (list (list (nat * Duration))) (only parsing).

Section Runs.
Context `{LG : GoLog}.

Definition hist_step (a : hact) (w : hworld) : option hworld :=
  match a with
  | HLoad id class d =>
      if bool_decide (class < 2)%nat && bool_decide (hw_pc w !! id = None)
      then Some (mkHworld (hw_hists w) (<[id := (class, h_slot (hw_hists w), d)]> (hw_pc w)) (hw_out w)) else None
  | HAdd id =>
      '(class, slot, d) ← hw_pc w !! id;
      Some (mkHworld (add_at class slot d (hw_hists w)) (delete id (hw_pc w)) (hw_out w))
  | HRoll => let '(a, b, h) := roll (hw_hists w) in Some (mkHworld h (hw_pc w) (hw_out w ++ [(a, b)])%list)
  end.

(** The samples by the tick whose slot they were added to, oldest tick first: a
    slot is the newest tick's that it has been used for. *)
Definition landing (n slots slot : nat) : nat := (slot + slots * ((n - 1 - slot) / slots))%nat.
Definition note (a : hact) (w : hworld) (ts : Ticks) : Ticks :=
  match a with
  | HLoad _ _ _ => ts
  | HAdd id =>
      match hw_pc w !! id with
      | Some (class, slot, d) => alter (λ l, (class, d) :: l) (landing (length ts) (window (hw_hists w)) slot) ts
      | None => ts
      end
  | HRoll => (ts ++ [[]])%list
  end.

Fixpoint hist_run (acts : list hact) (s : hworld * Ticks) : option (hworld * Ticks) :=
  match acts with [] => Some s | a :: acts' => w ← hist_step a s.1; hist_run acts' (w, note a s.1 s.2) end.
End Runs.
