(* ===== verification/Latency.v ===== *)
(** * internal/kms/fake.go: the injected latency

    [lognormal], and [begin] with its race on a clock: the timer of the drawn
    latency against the end of the call's context.  [Fake.begin] takes the race's
    outcome; here it is derived, and with it when the gate answers. *)

From S2P Require Import Prelude GoLib GoFloat Kms Tink KmsModel Fake Hist.
Local Open Scope string_scope.
Local Open Scope Z_scope.

(** [math.Exp]. *)
Class GoExp := Exp : float64 → float64.

(** ** The draw *)

Section Lognormal.
Context `{LG : GoLog} `{GE : GoExp}.

(** The 99th percentile of a standard normal, the constant 2.326. *)
Definition z99 : float64 := F.div (F.of_Z 2326) (F.of_Z 1000).

(** [lognormal]; [z] is the normal draw. *)
Definition lognormal (p50 p99 : Duration) (z : float64) : Duration :=
  let mu := Log (seconds p50) in
  let sigma := if p50 <? p99 then F.div (F.sub (Log (seconds p99)) mu) z99 else F.of_Z 0 in
  F.to_int64 (F.mul (Exp (F.add mu (F.mul sigma z))) (F.of_Z Second)).
End Lognormal.

(** ** The race *)

(** How a context ends, if it does: when, and its [Err]. *)
Definition ctx_end := option (Time * err).

(** [select] between [Clock.After(d)] at [start] and [ctx.Done()]: the context's error
    if it ends first, and when; [timer_first] decides when both are ready.  A timer
    of no or negative length fires at once. *)
Definition race_latency (start : Time) (d : Duration) (ctx : ctx_end) (timer_first : bool) : option err * Time :=
  let fires := Z.max start (Time.Add start d) in
  match ctx with
  | None => (None, fires)
  | Some (t, e) =>
      let ends := Z.max start t in
      if ends <? fires then (Some e, ends)
      else if fires <? ends then (None, fires)
      else (if timer_first then None else Some e, fires)
  end.

Section Gate.
Context `{TK : Tink} `{LG : GoLog} `{GE : GoExp}.

(** What meets a call: its two draws, and the tie-break. *)
Record draws := mkDraws { dr_uniform : float64; dr_normal : float64; dr_timer_first : bool }.

(** The fault a call meets at its first read lock. *)
Definition fault_at (f : Fake) (kekID : string) : Fault :=
  match keks f !! kekID with
  | Some k => resolve (default zeroFault (provFaults f !! k_provider k)) (default zeroFault (kekFaults f !! kekID))
  | None => zeroFault
  end.
Definition fails_fast (d : draws) (x : Fault) : bool :=
  bool_decide (f_Mode x = ModeFastFail) || (positive_rate (f_ErrorRate x) && F.lt (dr_uniform d) (f_ErrorRate x)).

(** [begin] entered at [start] under a context: its answer, and when it is given.
    [f1] and [f2] are the fake at the two read locks. *)
Definition begin_timed (start : Time) (ctx : ctx_end) (d : draws) (f1 f2 : Fake) (kekID : string) : (err + kek) * Time :=
  let x := fault_at f1 kekID in
  if bool_decide (is_Some (keks f1 !! kekID)) && negb (fails_fast d x) && (0 <? f_P50 x) then
    let '(r, at_) := race_latency start (lognormal (f_P50 x) (f_P99 x) (dr_normal d)) ctx (dr_timer_first d) in
    (begin f1 (dr_uniform d) r f2 kekID, at_)
  else (begin f1 (dr_uniform d) None f2 kekID, start).

Lemma race_between start d ctx b :
  start <= (race_latency start d ctx b).2 ∧
  match ctx with Some (t, _) => (race_latency start d ctx b).2 <= Z.max start t | None => True end.
Proof.
  unfold race_latency. destruct ctx as [[t e]|]; cbn; [|split; [lia|done]].
  destruct (Z.ltb_spec (Z.max start t) (Z.max start (Time.Add start d))); cbn; [lia|].
  destruct (Z.ltb_spec (Z.max start (Time.Add start d)) (Z.max start t)); cbn; lia.
Qed.

Lemma race_outcome start d t e b : let r := (race_latency start d (Some (t, e)) b).1 in r = None ∨ r = Some e.
Proof. unfold race_latency. cbv zeta. repeat case_match; cbn; auto. Qed.

(** C14. A slow key service cannot hold a call past its context: whatever latency is
    injected and drawn, a call under a context that ends at [t] is answered at [t]
    at the latest and at once if nothing slows it, the answer is [begin]'s for a race
    the context's own error may win; and a call whose latency reaches past [t] fails
    with that error, at [t], never with an answer about the key. *)
Theorem slow_call_ends_with_context start t e d f1 f2 kekID :
  start <= t →
  let r := begin_timed start (Some (t, e)) d f1 f2 kekID in
  start <= r.2 <= t ∧
  (∃ race, (race = None ∨ race = Some e) ∧ r.1 = begin f1 (dr_uniform d) race f2 kekID) ∧
  (is_Some (keks f1 !! kekID) → fails_fast d (fault_at f1 kekID) = false → 0 < f_P50 (fault_at f1 kekID) →
   t < Time.Add start (lognormal (f_P50 (fault_at f1 kekID)) (f_P99 (fault_at f1 kekID)) (dr_normal d)) →
   r = (inl e, t)).
Proof.
  intros Ht r. subst r. unfold begin_timed. split; [|split].
  - case_match; [|cbn; lia].
    pose proof (race_between start (lognormal (f_P50 (fault_at f1 kekID)) (f_P99 (fault_at f1 kekID)) (dr_normal d))
      (Some (t, e)) (dr_timer_first d)) as H0. destruct (race_latency _ _ _ _) as [r at_]. cbn in *. lia.
  - case_match; [|by exists None; auto].
    pose proof (race_outcome start (lognormal (f_P50 (fault_at f1 kekID)) (f_P99 (fault_at f1 kekID)) (dr_normal d))
      t e (dr_timer_first d)) as H0. destruct (race_latency _ _ _ _) as [r at_]. cbn in *. by exists r.
  - intros [k Hk] Hf Hp Hlate. rewrite Hf, bool_decide_eq_true_2 by (by exists k).
    destruct (Z.ltb_spec 0 (f_P50 (fault_at f1 kekID))); [|lia]. cbn [andb negb].
    assert (race_latency start (lognormal (f_P50 (fault_at f1 kekID)) (f_P99 (fault_at f1 kekID)) (dr_normal d))
      (Some (t, e)) (dr_timer_first d) = (Some e, t)) as ->.
    { unfold race_latency. rewrite (Z.max_r start t) by done.
      destruct (Z.ltb_spec t (Z.max start (Time.Add start (lognormal (f_P50 (fault_at f1 kekID)) (f_P99 (fault_at f1 kekID)) (dr_normal d)))));
        [done|lia]. }
    unfold begin. unfold fault_at, fails_fast in *. rewrite Hk in *. rewrite Hf.
    by destruct (Z.ltb_spec 0 (f_P50 (resolve (default zeroFault (provFaults f1 !! k_provider k)) (default zeroFault (kekFaults f1 !! kekID))))); [|lia].
Qed.
End Gate.

(** ** Witnesses *)

Module SlowDemo.
#[export] Existing Instance Toy.tink.
(** Any functions do here; with these a draw of zero is the median. *)
#[export] Instance log_ : GoLog := λ x, x.
#[export] Instance exp_ : GoExp := λ x, x.
Definition slow : Fake := SetFault one_key (mkScope "aws" "") (mkFault ModeOK (2 * Second) (4 * Second) (S754_zero false)).
Definition d : draws := mkDraws F.half (S754_zero false) true.
Definition timeout : Time := 500 * Millisecond.
Example median : lognormal (2 * Second) (4 * Second) (dr_normal d) = 2 * Second.
Proof. vm_compute. reflexivity. Qed.
End SlowDemo.

Lemma slow_call_ends_with_context_witness :
  begin_timed (TK := Toy.tink) (LG := SlowDemo.log_) (GE := SlowDemo.exp_) 0 (Some (SlowDemo.timeout, DeadlineExceeded)) SlowDemo.d SlowDemo.slow SlowDemo.slow "kek1"
    = (inl DeadlineExceeded, SlowDemo.timeout).
Proof.
  refine (proj2 (proj2 (slow_call_ends_with_context (TK := Toy.tink) (LG := SlowDemo.log_) (GE := SlowDemo.exp_) 0 SlowDemo.timeout DeadlineExceeded
    SlowDemo.d SlowDemo.slow SlowDemo.slow "kek1" _)) _ _ _ _).
  - vm_compute. discriminate.
  - vm_compute. eauto.
  - vm_compute. reflexivity.
  - vm_compute. reflexivity.
  - vm_compute. reflexivity.
Defined.
