(* ===== verification/Hub.v ===== *)
(** * internal/metrics/hub.go: the fan-out of snapshots to viewers

    The hub's table of subscriptions, the buffered channels it made, and what it
    told the watcher.  A send on a closed channel and a second close panic in Go;
    here they are [None], and no run reaches one. *)

From S2P Require Import Prelude.
Local Open Scope string_scope.
Local Open Scope Z_scope.

(** ** State *)

(** A buffered channel of encoded snapshots. *)
Record Chan := mkChan { c_buf : list string; c_closed : bool }.

(** Channels are identities into the store [h_chans] (closed ones stay, as a
    viewer may still drain them); [h_once] holds the cancels already spent, and
    [h_told] the counts the watcher was called with, latest last. *)
Record hub := mkHub {
  h_subs : gset nat; h_depth : Z; h_closed : bool; h_watcher : bool;
  h_chans : gmap nat Chan; h_next : nat; h_once : gset nat; h_told : list Z }.

Definition newHub (depth : Z) (w : bool) : hub :=
  let depth := if depth <? 1 then 1 else depth in
  mkHub ∅ depth false w ∅ 0 ∅ [].

(** ** Operations *)

Definition notify (n : Z) (h : hub) : hub :=
  if h_watcher h
  then mkHub (h_subs h) (h_depth h) (h_closed h) (h_watcher h) (h_chans h) (h_next h) (h_once h) (h_told h ++ [n])%list
  else h.

Definition count (h : hub) : Z := Z.of_nat (size (h_subs h)).

(** [close(ch)]: of an open channel. *)
Definition close_chan (ch : nat) (cs : gmap nat Chan) : option (gmap nat Chan) :=
  c ← cs !! ch; if c_closed c then None else Some (<[ch := mkChan (c_buf c) true]> cs).

Definition with_chans (s : gset nat) (cs : gmap nat Chan) (nx : nat) (h : hub) : hub :=
  mkHub s (h_depth h) (h_closed h) (h_watcher h) cs nx (h_once h) (h_told h).

(** The channel and whether its cancel does anything. *)
Definition subscribe (h : hub) : option (nat * bool * hub) :=
  let ch := h_next h in
  let cs := <[ch := mkChan [] false]> (h_chans h) in
  if h_closed h then cs ← close_chan ch cs; Some (ch, false, with_chans (h_subs h) cs (S ch) h)
  else
    let h := with_chans ({[ch]} ∪ h_subs h) cs (S ch) h in
    Some (ch, true, notify (count h) h).

(** [cancel], the closure of a live subscription. *)
Definition cancel (ch : nat) (h : hub) : option hub :=
  if bool_decide (ch ∈ h_once h) then Some h
  else
    let h := mkHub (h_subs h) (h_depth h) (h_closed h) (h_watcher h) (h_chans h) (h_next h) ({[ch]} ∪ h_once h) (h_told h) in
    h ← (if bool_decide (ch ∈ h_subs h)
         then cs ← close_chan ch (h_chans h); Some (with_chans (h_subs h ∖ {[ch]}) cs (h_next h) h)
         else Some h);
    Some (if h_closed h then h else notify (count h) h).

(** The non-blocking send of [broadcast]. *)
Definition offer (depth : Z) (b : string) (c : Chan) : Chan :=
  if Z.of_nat (length (c_buf c)) <? depth then mkChan (c_buf c ++ [b])%list (c_closed c) else c.

Definition is_open (cs : gmap nat Chan) (ch : nat) : bool :=
  match cs !! ch with Some c => negb (c_closed c) | None => false end.

Definition broadcast (b : string) (h : hub) : option hub :=
  if forallb (is_open (h_chans h)) (elements (h_subs h))
  then Some (with_chans (h_subs h)
               (map_imap (λ ch c, Some (if bool_decide (ch ∈ h_subs h) then offer (h_depth h) b c else c)) (h_chans h))
               (h_next h) h)
  else None.

Definition closeAll (h : hub) : option hub :=
  cs ← foldr (λ ch cs, cs ← cs; close_chan ch cs) (Some (h_chans h)) (elements (h_subs h));
  Some (notify 0 (mkHub ∅ (h_depth h) true (h_watcher h) cs (h_next h) (h_once h) (h_told h))).

Definition viewers (h : hub) : Z := count h.

(** A viewer's receive: the oldest buffered snapshot, if there is one. *)
Definition recv (ch : nat) (h : hub) : option (string * hub) :=
  c ← h_chans h !! ch;
  match c_buf c with
  | [] => None
  | b :: bs => Some (b, with_chans (h_subs h) (<[ch := mkChan bs (c_closed c)]> (h_chans h)) (h_next h) h)
  end.

(** ** Runs *)

(** The calls on a hub, [recv] by the viewers included.  [HCancel] is the cancel
    of a live subscription. *)
Inductive hop := HSubscribe | HCancel (ch : nat) | HBroadcast (b : string) | HCloseAll | HRecv (ch : nat).

(** A channel's history: what was broadcast while it was subscribed, what its
    viewer received, and how many broadcasts found its buffer full. *)
Record History := mkHistory { sent : list string; got : list string; full : Z }.

(** The hub, the histories, and the subscriptions whose cancel is live (after
    [closeAll] a subscription gets a cancel that does nothing). *)
Record hstate := mkHstate { hs_hub : hub; hs_hist : gmap nat History; hs_live : gset nat }.
Definition hinit (depth : Z) (w : bool) : hstate := mkHstate (newHub depth w) ∅ ∅.

Definition is_full (h : hub) (ch : nat) : bool :=
  match h_chans h !! ch with Some c => negb (Z.of_nat (length (c_buf c)) <? h_depth h) | None => false end.
Definition note_broadcast (h : hub) (b : string) (ch : nat) (x : History) : History :=
  if bool_decide (ch ∈ h_subs h)
  then mkHistory (sent x ++ [b])%list (got x) (full x + (if is_full h ch then 1 else 0)) else x.
Definition note_recv (b : string) (x : History) : History := mkHistory (sent x) (got x ++ [b])%list (full x).

(** A call that panics leaves nothing.  A receive from an empty buffer waits. *)
Definition hexec (o : hop) (s : hstate) : option hstate :=
  let '(mkHstate h hs live) := s in
  match o with
  | HSubscribe =>
      r ← subscribe h;
      Some (mkHstate r.2 (<[r.1.1 := mkHistory [] [] 0]> hs) (if r.1.2 : bool then {[r.1.1]} ∪ live else live))
  | HCancel ch => if bool_decide (ch ∈ live) then h ← cancel ch h; Some (mkHstate h hs live) else Some s
  | HBroadcast b => h' ← broadcast b h; Some (mkHstate h' (map_imap (λ ch x, Some (note_broadcast h b ch x)) hs) live)
  | HCloseAll => h ← closeAll h; Some (mkHstate h hs live)
  | HRecv ch =>
      match recv ch h with
      | Some (b, h) => Some (mkHstate h (alter (note_recv b) ch hs) live)
      | None => Some s
      end
  end.

Fixpoint hrun (ops : list hop) (s : hstate) : option hstate :=
  match ops with [] => Some s | o :: ops' => s ← hexec o s; hrun ops' s end.

(** ** The invariant *)

(** A channel and its history agree. *)
Definition chan_ok (depth : Z) (c : Chan) (x : History) : Prop :=
  sublist (got x ++ c_buf c)%list (sent x) ∧
  Z.of_nat (length (sent x)) = Z.of_nat (length (got x)) + Z.of_nat (length (c_buf c)) + full x ∧
  0 <= full x ∧ Z.of_nat (length (c_buf c)) <= depth.

Definition told_ok (h : hub) : Prop :=
  if h_watcher h then last (h_told h) = Some (count h) ∨ (h_told h = [] ∧ h_subs h = ∅) else h_told h = [].

Record hinv (s : hstate) : Prop := mkHinv {
  hi_depth : 1 <= h_depth (hs_hub s);
  hi_subs : ∀ ch, ch ∈ h_subs (hs_hub s) ↔ ∃ c, h_chans (hs_hub s) !! ch = Some c ∧ c_closed c = false;
  hi_chan : ∀ ch c, h_chans (hs_hub s) !! ch = Some c →
    (ch < h_next (hs_hub s))%nat ∧ ∃ x, hs_hist s !! ch = Some x ∧ chan_ok (h_depth (hs_hub s)) c x;
  hi_closed : h_closed (hs_hub s) = true → h_subs (hs_hub s) = ∅;
  hi_told : told_ok (hs_hub s) }.

Lemma notify_fields n h :
  h_subs (notify n h) = h_subs h ∧ h_depth (notify n h) = h_depth h ∧ h_closed (notify n h) = h_closed h ∧
  h_chans (notify n h) = h_chans h ∧ h_next (notify n h) = h_next h.
Proof. unfold notify. by destruct (h_watcher h). Qed.

Lemma notify_told h : (if h_watcher h then True else h_told h = []) → told_ok (notify (count h) h).
Proof.
  unfold told_ok, notify. destruct (h_watcher h) eqn:E; cbn; rewrite ?E; [|done]. intros _. left. by rewrite last_snoc.
Qed.

Lemma told_weak h : told_ok h → if h_watcher h then True else h_told h = [].
Proof. unfold told_ok. by destruct (h_watcher h). Qed.

Lemma hinit_inv d w : hinv (hinit d w).
Proof.
  split; cbn; try assumption; try done.
  - destruct (Z.ltb_spec d 1); lia.
  - intros ch. rewrite lookup_empty. set_solver.
  - unfold told_ok. destruct w; cbn; [by right|done].
Qed.

(** A fold of closes over open channels closes exactly them. *)
Lemma close_list l cs :
  NoDup l → (∀ ch, ch ∈ l → is_open cs ch = true) →
  ∃ cs', foldr (λ ch cs, cs ← cs; close_chan ch cs) (Some cs) l = Some cs' ∧
    ∀ ch, cs' !! ch = if bool_decide (ch ∈ l) then (λ c, mkChan (c_buf c) true) <$> cs !! ch else cs !! ch.
Proof.
  induction l as [|x l IH]; intros Hnd Ho.
  { exists cs. split; [done|]. intros ch. by rewrite bool_decide_eq_false_2 by set_solver. }
  apply NoDup_cons in Hnd as [Hx Hnd]. destruct IH as (cs' & E & Hcs); [done|set_solver|].
  assert (is_open cs x = true) as Hox by set_solver. unfold is_open in Hox.
  destruct (cs !! x) as [c|] eqn:Ec; [|done]. pose proof (Hcs x) as Hx'. rewrite bool_decide_eq_false_2, Ec in Hx' by done.
  exists (<[x := mkChan (c_buf c) true]> cs'). cbn [foldr]. rewrite E. cbn. unfold close_chan. rewrite Hx'. cbn.
  destruct (c_closed c); [done|]. split; [done|]. intros ch. destruct (decide (ch = x)) as [->|Hne].
  - rewrite lookup_insert_eq, bool_decide_eq_true_2 by set_solver. by rewrite Ec.
  - rewrite lookup_insert_ne by done. rewrite Hcs. repeat case_bool_decide; set_solver.
Qed.

(** ** Every call preserves it and none panics *)

Lemma notify_inv h hs live n :
  hinv (mkHstate h hs live) → n = count h → hinv (mkHstate (notify n h) hs live).
Proof.
  intros [H1 H2 H3 H4 H5] ->. destruct (notify_fields (count h) h) as (E1 & E2 & E3 & E4 & E5). cbn in *.
  split; cbn; rewrite ?E1, ?E2, ?E3, ?E4, ?E5; try done. by apply notify_told, told_weak.
Qed.

(** All of the invariant but the watcher's part. *)
Record hshape (h : hub) (hs : gmap nat History) : Prop := mkHshape {
  sh_depth : 1 <= h_depth h;
  sh_subs : ∀ ch, ch ∈ h_subs h ↔ ∃ c, h_chans h !! ch = Some c ∧ c_closed c = false;
  sh_chan : ∀ ch c, h_chans h !! ch = Some c →
    (ch < h_next h)%nat ∧ ∃ x, hs !! ch = Some x ∧ chan_ok (h_depth h) c x;
  sh_closed : h_closed h = true → h_subs h = ∅ }.

Lemma hinv_shape s : hinv s ↔ hshape (hs_hub s) (hs_hist s) ∧ told_ok (hs_hub s).
Proof. split; [intros []; split; [split|]; done|intros [[] ?]; by split]. Qed.

Lemma notify_shape h hs n : hshape h hs → hshape (notify n h) hs.
Proof.
  intros [H1 H2 H3 H4]. destruct (notify_fields n h) as (E1 & E2 & E3 & E4 & E5).
  split; rewrite ?E1, ?E2, ?E3, ?E4, ?E5; done.
Qed.

Lemma chan_ok_nil d : 1 <= d → chan_ok d (mkChan [] false) (mkHistory [] [] 0).
Proof. intros. unfold chan_ok. cbn. split_and!; try done; lia. Qed.

Lemma subscribe_inv h hs live :
  hinv (mkHstate h hs live) → ∃ s, hexec HSubscribe (mkHstate h hs live) = Some s ∧ hinv s.
Proof.
  intros [[H1 H2 H3 H4] H5]%hinv_shape. cbn [hs_hub hs_hist] in *. cbn [hexec]. unfold subscribe, close_chan.
  assert (h_chans h !! h_next h = None) as Hfresh.
  { destruct (h_chans h !! h_next h) as [c|] eqn:E; [|done]. apply H3 in E as [? _]. lia. }
  destruct (h_closed h) eqn:Ec.
  - rewrite lookup_insert_eq. cbn. eexists; split; [done|]. apply hinv_shape. cbn. split; [|exact H5].
    rewrite insert_insert_eq. split; cbn; try assumption; try done.
    + intros ch. rewrite H2. split; intros (c & E & Hc).
      * exists c. rewrite lookup_insert_ne; [done|]. intros <-. congruence.
      * destruct (decide (ch = h_next h)) as [->|Hne]; [rewrite lookup_insert_eq in E; by simplify_eq|].
        rewrite lookup_insert_ne in E by done. by exists c.
    + intros ch c E. destruct (decide (ch = h_next h)) as [->|Hne].
      * rewrite lookup_insert_eq in E. injection E as <-. split; [lia|]. eexists; split; [apply lookup_insert_eq|].
        by apply chan_ok_nil.
      * rewrite lookup_insert_ne in E by done. apply H3 in E as (? & x & Ex & ?). split; [lia|].
        exists x. by rewrite lookup_insert_ne.
    + intros _. by apply H4.
  - cbn. eexists; split; [done|]. apply hinv_shape. cbn [hs_hub hs_hist]. split.
    2: { apply notify_told. cbn. by apply told_weak in H5. }
    apply notify_shape. split; cbn; try assumption; try done.
    + intros ch. rewrite elem_of_union, elem_of_singleton, H2. split.
      * intros [->|(c & E & Hc)]; [eexists; by rewrite lookup_insert_eq|].
        exists c. rewrite lookup_insert_ne; [done|]. intros <-. congruence.
      * intros (c & E & Hc). destruct (decide (ch = h_next h)) as [->|Hne]; [by left|].
        rewrite lookup_insert_ne in E by done. right. by exists c.
    + intros ch c E. destruct (decide (ch = h_next h)) as [->|Hne].
      * rewrite lookup_insert_eq in E. injection E as <-. split; [lia|]. eexists; split; [apply lookup_insert_eq|].
        by apply chan_ok_nil.
      * rewrite lookup_insert_ne in E by done. apply H3 in E as (? & x & Ex & ?). split; [lia|].
        exists x. by rewrite lookup_insert_ne.
    + congruence.
Qed.

Lemma cancel_inv ch h hs live :
  hinv (mkHstate h hs live) → ∃ s, hexec (HCancel ch) (mkHstate h hs live) = Some s ∧ hinv s.
Proof.
  intros Hinv. cbn [hexec]. case_bool_decide as Hl; [|by eauto]. unfold cancel.
  case_bool_decide as Ho; [cbn; by eauto|]. cbn [h_subs h_chans h_closed h_next].
  case_bool_decide as Hs.
  - pose proof Hinv as [[H1 H2 H3 H4] H5]%hinv_shape. cbn [hs_hub hs_hist] in *.
    destruct (proj1 (H2 ch) Hs) as (c & Ec & Hc). unfold close_chan. rewrite Ec. cbn. rewrite Hc. cbn.
    destruct (h_closed h) eqn:Ecl; [rewrite H4 in Hs by done; set_solver|].
    eexists; split; [done|]. apply hinv_shape. cbn [hs_hub hs_hist]. split.
    2: { apply notify_told. cbn. by apply told_weak in H5. }
    apply notify_shape. split; cbn; try assumption; try done.
    + intros ch'. rewrite elem_of_difference, elem_of_singleton, H2. destruct (decide (ch' = ch)) as [->|Hne].
      * rewrite lookup_insert_eq. split; [by intros [_ ?]|]. by intros (c' & [= <-] & ?).
      * rewrite lookup_insert_ne by done. tauto.
    + intros ch' c' E. destruct (decide (ch' = ch)) as [->|Hne].
      * rewrite lookup_insert_eq in E. injection E as <-. by apply H3 in Ec.
      * rewrite lookup_insert_ne in E by done. by apply H3.
  - assert (hinv (mkHstate (mkHub (h_subs h) (h_depth h) (h_closed h) (h_watcher h) (h_chans h) (h_next h)
      ({[ch]} ∪ h_once h) (h_told h)) hs live)) as Hinv' by (destruct Hinv; by split).
    cbn. destruct (h_closed h); eexists; split; try done. by apply notify_inv.
Qed.

Lemma offer_ok d b c x full_ :
  full_ = negb (Z.of_nat (length (c_buf c)) <? d) → chan_ok d c x →
  chan_ok d (offer d b c) (mkHistory (sent x ++ [b])%list (got x) (full x + (if full_ then 1 else 0))).
Proof.
  intros -> (Hs & Hl & Hf & Hd). unfold chan_ok, offer. destruct (Z.ltb_spec (Z.of_nat (length (c_buf c))) d);
    cbn [c_buf sent got full negb]; rewrite ?length_app; cbn [length]; split_and!; try lia.
  - rewrite app_assoc. by apply sublist_app.
  - rewrite <- (app_nil_r (got x ++ c_buf c)). apply sublist_app; [done|apply sublist_nil_l].
Qed.

Lemma broadcast_inv b h hs live :
  hinv (mkHstate h hs live) → ∃ s, hexec (HBroadcast b) (mkHstate h hs live) = Some s ∧ hinv s.
Proof.
  intros [[H1 H2 H3 H4] H5]%hinv_shape. cbn [hs_hub hs_hist] in *. cbn [hexec]. unfold broadcast.
  assert (forallb (is_open (h_chans h)) (elements (h_subs h)) = true) as ->.
  { apply forallb_forall. intros ch Hch%list_elem_of_In. apply elem_of_elements, H2 in Hch as (c & E & Hc).
    unfold is_open. by rewrite E, Hc. }
  cbn. eexists; split; [done|]. apply hinv_shape. cbn. split; [|exact H5]. split; cbn; try assumption; try done.
  - intros ch. rewrite H2, map_lookup_imap. destruct (h_chans h !! ch) as [c|]; cbn.
    + split; intros (c' & [= <-] & Hc); eexists; (split; [done|]); revert Hc; case_bool_decide; try done;
        unfold offer; by case_match.
    + naive_solver.
  - intros ch c E. rewrite map_lookup_imap in E. destruct (h_chans h !! ch) as [c0|] eqn:Ec; [|done]. cbn in E.
    injection E as <-. destruct (H3 _ _ Ec) as (? & x & Ex & Hok). split; [done|]. rewrite map_lookup_imap, Ex. cbn.
    eexists; split; [done|]. unfold note_broadcast. case_bool_decide; [|done].
    apply offer_ok; [|done]. unfold is_full. by rewrite Ec.
Qed.

Lemma closeAll_inv h hs live :
  hinv (mkHstate h hs live) → ∃ s, hexec HCloseAll (mkHstate h hs live) = Some s ∧ hinv s.
Proof.
  intros [[H1 H2 H3 H4] H5]%hinv_shape. cbn [hs_hub hs_hist] in *. cbn [hexec]. unfold closeAll.
  destruct (close_list (elements (h_subs h)) (h_chans h)) as (cs & E & Hcs); [apply NoDup_elements| |].
  { intros ch Hch. apply elem_of_elements, H2 in Hch as (c & E & Hc). unfold is_open. by rewrite E, Hc. }
  rewrite E. cbn. eexists; split; [done|]. apply hinv_shape. cbn [hs_hub hs_hist]. split.
  2: { set (h1 := mkHub ∅ _ _ _ _ _ _ _). assert (0 = count h1) as -> by (unfold count; cbn; by rewrite size_empty).
       apply notify_told. cbn. by apply told_weak in H5. }
  apply notify_shape. split; cbn; try assumption; try done.
  - intros ch. split; [set_solver|]. intros (c & Ec & Hc). rewrite Hcs in Ec. case_bool_decide as Hin.
    + destruct (h_chans h !! ch); [|done]. cbn in Ec. by simplify_eq.
    + exfalso. apply Hin, elem_of_elements, H2. by exists c.
  - intros ch c Ec. rewrite Hcs in Ec. case_bool_decide; [|by apply H3].
    destruct (h_chans h !! ch) as [c0|] eqn:E0; [|done]. cbn in Ec. injection Ec as <-. by apply H3 in E0.
Qed.

Lemma recv_inv ch h hs live :
  hinv (mkHstate h hs live) → ∃ s, hexec (HRecv ch) (mkHstate h hs live) = Some s ∧ hinv s.
Proof.
  intros Hinv. pose proof Hinv as [[H1 H2 H3 H4] H5]%hinv_shape. cbn [hs_hub hs_hist] in *. cbn [hexec]. unfold recv.
  destruct (h_chans h !! ch) as [c|] eqn:Ec; cbn; [|by eauto].
  destruct (c_buf c) as [|b bs] eqn:Eb; [by eauto|]. eexists; split; [done|]. apply hinv_shape. cbn. split; [|exact H5].
  split; cbn; try assumption; try done.
  - intros ch'. rewrite H2. destruct (decide (ch' = ch)) as [->|Hne]; [|by rewrite lookup_insert_ne].
    rewrite lookup_insert_eq, Ec. naive_solver.
  - intros ch' c' E. destruct (decide (ch' = ch)) as [->|Hne].
    + rewrite lookup_insert_eq in E. injection E as <-. destruct (H3 _ _ Ec) as (? & x & Ex & Hs & Hl & Hf & Hd).
      split; [done|]. rewrite lookup_alter_eq, Ex. cbn. eexists; split; [done|]. rewrite Eb in *. cbn [length] in *.
      unfold chan_ok. cbn [c_buf sent got full note_recv]. rewrite length_app. cbn [length].
      rewrite <- app_assoc. split_and!; [done|lia..].
    + rewrite lookup_insert_ne in E by done. rewrite lookup_alter_ne by done. by apply H3.
Qed.

Lemma hexec_inv o s : hinv s → ∃ s', hexec o s = Some s' ∧ hinv s'.
Proof.
  destruct s as [h hs live], o; eauto using subscribe_inv, cancel_inv, broadcast_inv, closeAll_inv, recv_inv.
Qed.

Lemma hrun_inv ops s : hinv s → ∃ s', hrun ops s = Some s' ∧ hinv s'.
Proof.
  revert s. induction ops as [|o ops IH]; intros s H; [by exists s|]. cbn.
  destruct (hexec_inv o s H) as (s' & -> & H'). by apply IH.
Qed.

(** ** What each call leaves alone *)

(** The parts of the hub a subscription depends on. *)
Definition subs_of (s : hstate) : gset nat * gset nat * nat * gset nat := (h_subs (hs_hub s), h_once (hs_hub s), h_next (hs_hub s), hs_live s).

Lemma notify_rest n h : h_subs (notify n h) = h_subs h ∧ h_once (notify n h) = h_once h ∧ h_next (notify n h) = h_next h.
Proof. unfold notify. by destruct (h_watcher h). Qed.

Lemma HSubscribe_spec s s' : h_closed (hs_hub s) = false → hexec HSubscribe s = Some s' →
  let ch := h_next (hs_hub s) in
  subs_of s' = ({[ch]} ∪ h_subs (hs_hub s), h_once (hs_hub s), S ch, {[ch]} ∪ hs_live s) ∧
  hs_hist s' = <[ch := mkHistory [] [] 0]> (hs_hist s).
Proof.
  destruct s as [h hs live]. cbn [hexec hs_hub hs_hist hs_live]. unfold subscribe. intros ->. cbn. intros [= <-].
  unfold subs_of. cbn [hs_hub hs_hist hs_live]. set (h1 := with_chans _ _ _ _). by destruct (notify_rest (count h1) h1) as (-> & -> & ->).
Qed.

Lemma HCancel_spec ch s s' : ch ∈ hs_live s → ch ∉ h_once (hs_hub s) → hexec (HCancel ch) s = Some s' →
  subs_of s' = (h_subs (hs_hub s) ∖ {[ch]}, {[ch]} ∪ h_once (hs_hub s), h_next (hs_hub s), hs_live s) ∧ hs_hist s' = hs_hist s.
Proof.
  destruct s as [h hs live]. cbn [hexec hs_hub hs_hist hs_live]. intros Hl Ho. rewrite bool_decide_eq_true_2 by done.
  unfold cancel. rewrite bool_decide_eq_false_2 by done. cbn [h_subs h_chans h_next].
  set (h1 := mkHub _ _ _ _ _ _ _ _). intros H.
  assert (∀ h2, h_subs h2 = h_subs h ∖ {[ch]} → h_once h2 = {[ch]} ∪ h_once h → h_next h2 = h_next h →
    subs_of (mkHstate (if h_closed h2 then h2 else notify (count h2) h2) hs live) = (h_subs h ∖ {[ch]}, {[ch]} ∪ h_once h, h_next h, live)) as Hd.
  { intros h2 E1 E2 E3. unfold subs_of. cbn [hs_hub hs_live]. destruct (notify_rest (count h2) h2) as (N1 & N2 & N3).
    by destruct (h_closed h2); rewrite ?N1, ?N2, ?N3, E1, E2, E3. }
  case_bool_decide as Hin.
  - destruct (close_chan _ _); [|done]. cbn [mbind option_bind] in H. apply (inj Some) in H as <-. split; [|done]. by apply Hd.
  - cbn [mbind option_bind] in H. apply (inj Some) in H as <-. split; [|done]. apply Hd; try done. cbn. set_solver.
Qed.

(** What was received through one channel. *)
Definition got_by (s : hstate) (ch : nat) : option (list string) := got <$> hs_hist s !! ch.

Lemma hexec_rest o s s' : hexec o s = Some s' → match o with HSubscribe | HCancel _ => True | _ =>
  h_once (hs_hub s') = h_once (hs_hub s) ∧ h_next (hs_hub s') = h_next (hs_hub s) ∧ hs_live s' = hs_live s ∧
  h_subs (hs_hub s') = match o with HCloseAll => ∅ | _ => h_subs (hs_hub s) end end.
Proof.
  destruct s as [h hs live], o as [|ch|b| |ch]; cbn [hexec hs_hub hs_live]; try done.
  - unfold broadcast. destruct (forallb _ _); [|done]. cbn. by intros [= <-].
  - unfold closeAll. destruct (foldr _ _ _); [|done]. cbn [mbind option_bind]. intros <-%(inj Some). cbn [hs_hub hs_live].
    set (h1 := mkHub _ _ _ _ _ _ _ _). by destruct (notify_rest 0 h1) as (-> & -> & ->).
  - unfold recv. destruct (h_chans h !! ch) as [c|]; cbn; [|by intros [= <-]]. by destruct (c_buf c); intros [= <-].
Qed.

(** Only a receive from it adds to what was received through a channel. *)
Lemma hexec_got o s s' ch : hexec o s = Some s' → (ch < h_next (hs_hub s))%nat →
  got_by s' ch = match o with
                 | HRecv ch' => if bool_decide (ch' = ch)
                     then match h_chans (hs_hub s) !! ch with Some (mkChan (b :: _) _) => (λ l, l ++ [b])%list <$> got_by s ch | _ => got_by s ch end
                     else got_by s ch
                 | _ => got_by s ch
                 end.
Proof.
  unfold got_by. destruct s as [h hs live], o as [|ch'|b| |ch']; cbn [hexec hs_hub hs_hist]; intros H Hlt.
  - unfold subscribe in H. destruct (h_closed h).
    + destruct (close_chan _ _); [|done]. cbn in H. injection H as <-. cbn. by rewrite lookup_insert_ne by lia.
    + cbn in H. injection H as <-. cbn. by rewrite lookup_insert_ne by lia.
  - case_bool_decide; [|by injection H as <-]. destruct (cancel ch' h); [|done]. cbn in H. by injection H as <-.
  - destruct (broadcast b h); [|done]. cbn in H. injection H as <-. cbn [hs_hist]. rewrite map_lookup_imap.
    destruct (hs !! ch); [|done]. cbn. unfold note_broadcast. by case_bool_decide.
  - destruct (closeAll h); [|done]. cbn in H. by injection H as <-.
  - unfold recv in H. case_bool_decide as E.
    + subst ch'. destruct (h_chans h !! ch) as [[[|b bs] cl]|]; cbn in H; injection H as <-; [done| |done]. cbn [hs_hist].
      rewrite lookup_alter_eq. by destruct (hs !! ch).
    + destruct (h_chans h !! ch') as [c|]; cbn in H; [|by injection H as <-]. destruct (c_buf c); injection H as <-; [done|].
      cbn [hs_hist]. by rewrite lookup_alter_ne.
Qed.

Lemma hexec_next o s s' : hexec o s = Some s' → (h_next (hs_hub s) <= h_next (hs_hub s'))%nat.
Proof.
  destruct s as [h hs live], o as [|ch|b| |ch]; cbn [hexec hs_hub]; intros H.
  - unfold subscribe in H. destruct (h_closed h).
    + destruct (close_chan _ _); [|done]. cbn in H. injection H as <-. cbn. lia.
    + cbn [mbind option_bind] in H. apply (inj Some) in H as <-. cbn [hs_hub fst snd]. set (h1 := with_chans _ _ _ _).
      destruct (notify_rest (count h1) h1) as (_ & _ & ->). cbn. lia.
  - case_bool_decide; [|by injection H as <-]. unfold cancel in H. case_bool_decide; [by injection H as <-|]. cbn [h_subs h_chans h_next] in H.
    destruct (bool_decide (ch ∈ h_subs h)); [destruct (close_chan _ _); [|done]|]; cbn [mbind option_bind] in H; apply (inj Some) in H as <-; cbn [hs_hub];
      repeat case_match; unfold notify; repeat case_match; done.
  - by destruct (hexec_rest (HBroadcast b) (mkHstate h hs live) s' H) as (_ & -> & _).
  - by destruct (hexec_rest HCloseAll (mkHstate h hs live) s' H) as (_ & -> & _).
  - by destruct (hexec_rest (HRecv ch) (mkHstate h hs live) s' H) as (_ & -> & _).
Qed.

(** A channel stays in the store. *)
Lemma close_chan_dom ch cs cs' : close_chan ch cs = Some cs' → dom cs ⊆ dom cs'.
Proof. unfold close_chan. destruct (cs !! ch) as [c|]; [|done]. cbn. destruct (c_closed c); [done|]. intros [= <-]. rewrite dom_insert. set_solver. Qed.

Lemma close_all_dom l cs cs' : foldr (λ ch cs, cs ← cs; close_chan ch cs) (Some cs) l = Some cs' → dom cs ⊆ dom cs'.
Proof.
  revert cs'. induction l as [|ch l IH]; intros cs'; [by intros [= <-]|]. cbn [foldr].
  destruct (foldr _ _ l) as [cs1|]; [|done]. cbn [mbind option_bind]. intros H%close_chan_dom. rewrite <- H. by apply IH.
Qed.

Lemma hexec_chans o s s' : hexec o s = Some s' → dom (h_chans (hs_hub s)) ⊆ dom (h_chans (hs_hub s')).
Proof.
  assert (∀ n h, h_chans (notify n h) = h_chans h) as Hn by (intros n h; unfold notify; by destruct (h_watcher h)).
  destruct s as [h hs live], o as [|ch|b| |ch]; cbn [hexec hs_hub]; intros H.
  - unfold subscribe in H. destruct (h_closed h).
    + destruct (close_chan _ _) as [cs|] eqn:E; [|done]. cbn in H. injection H as <-. cbn. apply close_chan_dom in E. rewrite <- E, dom_insert. set_solver.
    + cbn [mbind option_bind] in H. apply (inj Some) in H as <-. cbn [hs_hub fst snd]. rewrite Hn. cbn. rewrite dom_insert. set_solver.
  - case_bool_decide; [|by injection H as <-]. unfold cancel in H. case_bool_decide; [by injection H as <-|]. cbn [h_subs h_chans h_next] in H.
    destruct (bool_decide (ch ∈ h_subs h)); [destruct (close_chan _ _) as [cs|] eqn:E; [|done]|]; cbn [mbind option_bind] in H; apply (inj Some) in H as <-; cbn [hs_hub].
    + apply close_chan_dom in E. cbn. destruct (h_closed h); rewrite ?Hn; cbn; done.
    + cbn. destruct (h_closed h); rewrite ?Hn; cbn; done.
  - unfold broadcast in H. destruct (forallb _ _); [|done]. cbn in H. injection H as <-. cbn. intros k [c Hk]%elem_of_dom.
    apply elem_of_dom. rewrite map_lookup_imap, Hk. by eexists.
  - unfold closeAll in H. destruct (foldr _ _ _) as [cs|] eqn:E; [|done]. cbn [mbind option_bind] in H. apply (inj Some) in H as <-. cbn [hs_hub].
    rewrite Hn. cbn. by eapply close_all_dom.
  - unfold recv in H. destruct (h_chans h !! ch) as [c|]; cbn in H; [|by injection H as <-]. destruct (c_buf c); injection H as <-; cbn; [done|].
    rewrite dom_insert. set_solver.
Qed.

Lemma sublist_full {A} (l k : list A) : sublist l k → length l = length k → l = k.
Proof.
  induction 1 as [|x l k Hs IH|x l k Hs IH]; cbn; intros E; [done|f_equal; apply IH; lia|].
  apply sublist_length in Hs. lia.
Qed.

(** The fan-out is safe and orderly: no sequence of subscriptions, cancels
    (also repeated ones), broadcasts, receives and closes makes the hub send on a
    closed channel or close one twice; a viewer receives the snapshots broadcast
    while it was subscribed, in order and each at most once; it buffers at most
    the configured depth, and it misses exactly the snapshots that found its
    buffer full, so a viewer that keeps up misses none. *)
Theorem viewers_get_ordered_snapshots ops depth w :
  ∃ s, hrun ops (hinit depth w) = Some s ∧
    ∀ ch c x, h_chans (hs_hub s) !! ch = Some c → hs_hist s !! ch = Some x →
      sublist (got x ++ c_buf c)%list (sent x) ∧
      Z.of_nat (length (c_buf c)) <= h_depth (hs_hub s) ∧
      Z.of_nat (length (sent x)) = Z.of_nat (length (got x ++ c_buf c)%list) + full x ∧
      (full x = 0 → (got x ++ c_buf c)%list = sent x).
Proof.
  destruct (hrun_inv ops _ (hinit_inv depth w)) as (s & E & H). exists s. split; [exact E|]. intros ch c x Ec Ex.
  destruct (hi_chan s H ch c Ec) as (_ & x' & Ex' & Hs & Hl & Hf & Hd). simplify_eq.
  rewrite length_app, Nat2Z.inj_add. split_and!; try done. intros H0.
  apply (sublist_full _ _ Hs). rewrite length_app. lia.
Qed.

Lemma hexec_watcher o s s' : hexec o s = Some s' → h_watcher (hs_hub s') = h_watcher (hs_hub s).
Proof.
  assert (∀ n h, h_watcher (notify n h) = h_watcher h) as Hn.
  { intros n h. unfold notify. destruct (h_watcher h) eqn:E; [done|by rewrite E]. }
  destruct s as [h hs live], o; cbn [hexec].
  - unfold subscribe. destruct (h_closed h); [destruct (close_chan _ _)|]; cbn; intros; simplify_eq; cbn; by rewrite ?Hn.
  - case_bool_decide; [|by intros [= <-]]. unfold cancel. case_bool_decide; [by intros [= <-]|]. cbn [h_subs h_chans].
    case_bool_decide; [destruct (close_chan _ _); [|done]|]; cbn; destruct (h_closed h); intros; simplify_eq; cbn; by rewrite ?Hn.
  - unfold broadcast. destruct (forallb _ _); [|done]. cbn. by intros [= <-].
  - unfold closeAll. destruct (foldr _ _ _); [|done]. cbn. intros [= <-]. cbn. by rewrite Hn.
  - unfold recv. destruct (h_chans h !! ch) as [c|]; cbn; [|by intros [= <-]]. destruct (c_buf c); by intros [= <-].
Qed.

Lemma hrun_watcher ops s s' : hrun ops s = Some s' → h_watcher (hs_hub s') = h_watcher (hs_hub s).
Proof.
  revert s. induction ops as [|o ops IH]; intros s; cbn; [by intros [= <-]|].
  destruct (hexec o s) as [s1|] eqn:E; [|done]. cbn. intros H. rewrite (IH _ H). by apply hexec_watcher in E.
Qed.

(** The watcher hears the count as it is: after any calls, the last count it
    was told is the number of open subscriptions, which is the number of
    channels not closed, and 0 once the hub is closed. *)
Theorem watcher_hears_current_count ops depth :
  ∃ s, hrun ops (hinit depth true) = Some s ∧
    default 0 (last (h_told (hs_hub s))) = viewers (hs_hub s) ∧
    (∀ ch, ch ∈ h_subs (hs_hub s) ↔ ∃ c, h_chans (hs_hub s) !! ch = Some c ∧ c_closed c = false) ∧
    (h_closed (hs_hub s) = true → viewers (hs_hub s) = 0).
Proof.
  destruct (hrun_inv ops _ (hinit_inv depth true)) as (s & E & H). exists s. split; [exact E|].
  pose proof (hi_told s H) as Ht. unfold told_ok in Ht. rewrite (hrun_watcher _ _ _ E) in Ht. cbn in Ht.
  split_and!.
  - destruct Ht as [-> | [-> Hs]]; [done|]. unfold viewers, count. by rewrite Hs, size_empty.
  - apply (hi_subs s H).
  - intros Hc. unfold viewers, count. by rewrite (hi_closed s H Hc), size_empty.
Qed.
