(* ===== verification/Tick.v ===== *)
(** * internal/metrics/registry.go: deliveries, the tick and its snapshot

    The whole registry: the aggregates of [Metrics], the histograms of [Hist], the
    readings, the delivery rate, the hub, and [tick], which turns them into one
    snapshot.  What a tick reads of the core, the store and the generator is the
    record [Sources]; the JSON text of a snapshot is a parameter.  A tick is one
    step between the calls that count. *)

From S2P Require Import Prelude GoLib GoFloat Metrics Hist Hub.
Local Open Scope string_scope.
Local Open Scope Z_scope.

(** The fields of [Config] that [Metrics.Config] leaves out. *)
Record TickConfig := mkTickConfig {
  tc_Interval : Duration; tc_P99Window : Z; tc_SnapshotEvents : Z; tc_Capacity : float64; tc_WorldID : string;
  tc_ViewerQueue : Z; tc_Watcher : bool }.

(** What the tick reads before it takes the registry's lock; an absent source is
    [None]. *)
Record Sources := mkSources {
  so_States : list Z; so_Total : Z; so_Backlog : Z → Z; so_Inflight : option (string → Z); so_Offered : option float64 }.

(** ** The snapshot *)

Record Tiles := mkTiles {
  t_DeliveredPS : float64; t_CapacityPS : float64; t_OfferedPS : float64; t_HealthyP99Ms : float64;
  t_KMSCallsPS : float64; t_ByState : list Z }.
Record IngestPS := mkIngestPS {
  i_Accepted : float64; i_RateLimited : float64; i_BacklogFull : float64; i_Overloaded : float64;
  i_KeyUnavailable : float64; i_KeyRevoked : float64; i_Internal : float64 }.
Record L4 := mkL4 { l4_RejectedWithinSharePS : float64; l4_RejectedOverSharePS : float64 }.
Record P99Ms := mkP99Ms { p_Healthy : float64; p_Affected : float64; p_Baseline : float64 }.
Record KMSPS := mkKMSPS { k_OK : float64; k_Transient : float64; k_Deny : float64; k_EventsPS : float64 }.
Record Card := mkCard {
  c_Name : string; c_Phase : string; c_EndsAt : option Z; c_RecoveryS : option float64; c_DrainS : option float64 }.

Record snapshot := mkSnapshot {
  s_World : string; s_KeyFetch : string; s_Tick : Z; s_T : Z; s_Viewers : Z; s_Tiles : Tiles; s_IngestPS : IngestPS;
  s_L4 : L4; s_P99Ms : P99Ms; s_KMSPS : KMSPS; s_BacklogTotal : Z; s_BacklogAffected : Z; s_Inflight : gmap string Z;
  s_Scenario : Card; s_Grid : list Z; s_Events : list event; s_Invariants : option (gmap string verdict) }.

(** [json.Marshal]: [None] is its error. *)
Class JSON := Marshal : snapshot → option string.

(** ** State *)

(** [mt_open] tells the empty maps of an open peak window from the nil ones. *)
Record Meter := mkMeter {
  mt_cfg : TickConfig; mt_reg : Registry; mt_hists : Hists; mt_delivered : Z; mt_ticks : Z; mt_states : list Z;
  mt_delRing : list Z; mt_delHead : nat; mt_keyFetch : string; mt_last : Reading; mt_peak : Reading; mt_open : bool;
  mt_hub : hub }.

Definition NewMeter (cfg : Metrics.Config) (tc : TickConfig) : Meter :=
  let tc := mkTickConfig (tc_Interval tc) (positive_or (tc_P99Window tc) 10) (positive_or (tc_SnapshotEvents tc) 20)
              (tc_Capacity tc) (tc_WorldID tc) (tc_ViewerQueue tc) (tc_Watcher tc) in
  let w := Z.to_nat (tc_P99Window tc) in
  mkMeter tc (Metrics.New cfg) (NewHists w) 0 0 (replicate (length (m_Tenants cfg)) 0) (replicate w 0) 0 "async"
    zeroReading zeroReading false (newHub (tc_ViewerQueue tc) (tc_Watcher tc)).

Definition with_reg (r : Registry) (m : Meter) : Meter :=
  mkMeter (mt_cfg m) r (mt_hists m) (mt_delivered m) (mt_ticks m) (mt_states m) (mt_delRing m) (mt_delHead m)
    (mt_keyFetch m) (mt_last m) (mt_peak m) (mt_open m) (mt_hub m).
Definition with_peak (p : Reading) (o : bool) (m : Meter) : Meter :=
  mkMeter (mt_cfg m) (mt_reg m) (mt_hists m) (mt_delivered m) (mt_ticks m) (mt_states m) (mt_delRing m) (mt_delHead m)
    (mt_keyFetch m) (mt_last m) p o (mt_hub m).
Definition with_hub (h : hub) (m : Meter) : Meter :=
  mkMeter (mt_cfg m) (mt_reg m) (mt_hists m) (mt_delivered m) (mt_ticks m) (mt_states m) (mt_delRing m) (mt_delHead m)
    (mt_keyFetch m) (mt_last m) (mt_peak m) (mt_open m) h.

(** ** Reads *)

Definition ResetPeaks (m : Meter) : Meter := with_peak zeroReading true m.
Definition Peaks (m : Meter) : Reading := mt_peak m.
Definition Last (m : Meter) : Reading := mt_last m.
Definition ProviderCallsPS (provider : string) (m : Meter) : float64 :=
  default (F.of_Z 0) (rd_ProviderCallsPS (mt_last m) !! provider).
Definition Ticks_ (m : Meter) : Z := mt_ticks m.

Definition SetKeyFetch (mode : string) (m : Meter) : Meter :=
  mkMeter (mt_cfg m) (mt_reg m) (mt_hists m) (mt_delivered m) (mt_ticks m) (mt_states m) (mt_delRing m) (mt_delHead m)
    mode (mt_last m) (mt_peak m) (mt_open m) (mt_hub m).

Definition Subscribe (m : Meter) : option (nat * bool * Meter) := '(ch, live, h) ← subscribe (mt_hub m); Some (ch, live, with_hub h m).
Definition CloseAll (m : Meter) : option Meter := h ← closeAll (mt_hub m); Some (with_hub h m).
Definition Viewers (m : Meter) : Z := viewers (mt_hub m).

Definition DeliveredPS (m : Meter) : float64 :=
  F.div (F.of_Z (foldl (λ s v, wrap64 (s + v)) 0 (mt_delRing m)))
    (F.mul (F.of_Z (Z.of_nat (length (mt_delRing m)))) (seconds (tc_Interval (mt_cfg m)))).

Definition ms (d : Duration) : float64 := F.div (F.of_Z d) (F.of_Z Millisecond).

(** ** The tick's parts *)

(** What the counters held when the tick swapped them for zero. *)
Record Counts := mkCounts {
  n_ingest : list Z; n_delivered : Z; n_kms : list Z; n_within : Z; n_over : Z; n_prov : list Z }.
Definition counts (m : Meter) : Counts :=
  mkCounts (ingest (mt_reg m)) (mt_delivered m) (kms (mt_reg m)) (rejWithin (mt_reg m)) (rejOver (mt_reg m)) (kmsProv (mt_reg m)).

(** [States(dst)]: as many cells as both have. *)
Definition overlay (src dst : list Z) : list Z := (take (length dst) src ++ drop (length src) dst)%list.

(** The loop over the targets; [None] is an index out of range.  The state is
    looked at only while all were active. *)
Fixpoint read_targets (ts : list Z) (backlog : Z → Z) (states : list Z) (sum : Z) (all : bool) : option (Z * bool) :=
  match ts with
  | [] => Some (sum, all)
  | i :: ts' =>
      all ← (if all then if i <? 0 then None else st ← states !! Z.to_nat i; Some (st =? 0) else Some false);
      read_targets ts' backlog states (sum + backlog i) all
  end.

Definition inflight_of (providers : list string) (f : option (string → Z)) : gmap string Z :=
  foldl (λ m p, <[p := match f with Some f => f p | None => 0 end]> m) ∅ providers.

Definition by_state (states : list Z) : list Z :=
  foldl (λ l st, if st <? 4 then alter (λ n, n + 1) (Z.to_nat st) l else l) [0; 0; 0; 0] states.
Definition grid_byte (st : Z) (affected : bool) : Z :=
  let c := (48 + st) mod 256 in if affected then (c + 4) mod 256 else c.

(** The registry's part of a tick: the counters back to zero, the healthy p99 into
    the ring, recovery stamped, transitions flushed. *)
Definition swap_counters (healthy : Duration) (r : Registry) : Registry :=
  mkRegistry (m_cfg r) (replicate reasonCount 0) (replicate 3 0) ((λ _, 0) <$> kmsProv r) 0 0 (overWithin r) (affected r)
    (audits r) (timeline r) (tlSeq r) (scen r) (targets r) (push healthy (p99Ring r)) (baseline r) (pendTrans r) (rt r)
    (rtFlushed r) (verdicts r) (detected r) healthy (healthyRej r).
Definition tick_registry (now : Time) (healthy : Duration) (allActive : bool) (affectedSum : Z) (r : Registry) : Registry :=
  flushTransitions now (tick_recovery now allActive affectedSum (swap_counters healthy r)).

Definition card (r : Registry) : Card :=
  let s := scen r in
  if bool_decide (sc_name s = "") then mkCard (sc_name s) (sc_phase s) None None None
  else mkCard (sc_name s) (sc_phase s)
         (if Time.IsZero (sc_endsAt s) then None else Some (Time.UnixMilli (sc_endsAt s)))
         (if Time.IsZero (sc_recoveredAt s) then None else Some (seconds (Time.Sub (sc_recoveredAt s) (sc_clearedAt s))))
         (if Time.IsZero (sc_drainedAt s) then None else Some (seconds (Time.Sub (sc_drainedAt s) (sc_clearedAt s)))).

Definition reading_of (providers : list string) (n_prov : list Z) (perSec : float64) (inflight : gmap string Z) (total : Z)
    (t : Tiles) (i : IngestPS) (p : P99Ms) : Reading :=
  mkReading (t_DeliveredPS t) (t_KMSCallsPS t) (i_Accepted i) (p_Healthy p) (p_Affected p) inflight (t_ByState t) total
    (foldl (λ m '(p, n), <[p := F.mul (F.of_Z n) perSec]> m) ∅ (zip providers n_prov)).

(** The key's maximum, for every key the tick has. *)
Definition max_into {A} (mx : A → A → A) (zero : A) (pk now_ : gmap string A) : gmap string A :=
  merge (λ a b, match b with Some v => Some (mx (default zero a) v) | None => a end) pk now_.
Definition raise (pk l : Reading) : Reading :=
  mkReading (F.max (rd_DeliveredPS pk) (rd_DeliveredPS l)) (F.max (rd_KMSCallsPS pk) (rd_KMSCallsPS l))
    (F.max (rd_AcceptedPS pk) (rd_AcceptedPS l)) (F.max (rd_HealthyP99Ms pk) (rd_HealthyP99Ms l))
    (F.max (rd_AffectedP99Ms pk) (rd_AffectedP99Ms l)) (max_into Z.max 0 (rd_Inflight pk) (rd_Inflight l))
    (zip_with Z.max (rd_ByState pk) (rd_ByState l)) (Z.max (rd_Backlog pk) (rd_Backlog l))
    (max_into F.max (F.of_Z 0) (rd_ProviderCallsPS pk) (rd_ProviderCallsPS l)).

(** ** Deliveries and the tick *)

Section Tick.
Context `{LG : GoLog} `{JS : JSON}.

Definition Delivered (idx : Z) (latency : Duration) (m : Meter) : Meter :=
  let class := if Affected idx (mt_reg m) then 1%nat else 0%nat in
  mkMeter (mt_cfg m) (mt_reg m) (record class latency (mt_hists m)) (mt_delivered m + 1) (mt_ticks m) (mt_states m)
    (mt_delRing m) (mt_delHead m) (mt_keyFetch m) (mt_last m) (mt_peak m) (mt_open m) (mt_hub m).

(** The snapshot of the tick's readings; [r] is the registry after [tick_registry]. *)
Definition build_snapshot (now : Time) (m : Meter) (so : Sources) (states : list Z) (affectedSum : Z)
    (healthy affected_ : Duration) (r : Registry) : snapshot :=
  let perSec := F.div (F.of_Z Second) (F.of_Z (tc_Interval (mt_cfg m))) in
  let c := counts m in
  let rate n := F.mul (F.of_Z n) perSec in
  let ing k := rate (default 0 (n_ingest c !! k)) in
  let k i := default 0 (n_kms c !! i) in
  let tiles := mkTiles (rate (n_delivered c)) (tc_Capacity (mt_cfg m)) (default (F.of_Z 0) (so_Offered so)) (ms healthy)
                 (rate (k 0%nat + k 1%nat + k 2%nat)) (by_state states) in
  let ips := mkIngestPS (ing reasonAccepted) (ing reasonRateLimited) (ing reasonBacklogFull) (ing reasonOverloaded)
               (ing reasonKeyUnavailable) (ing reasonKeyRevoked) (ing reasonInternal) in
  mkSnapshot (tc_WorldID (mt_cfg m)) (mt_keyFetch m) (mt_ticks m + 1) (Time.UnixMilli now) (viewers (mt_hub m)) tiles ips
    (mkL4 (rate (n_within c)) (rate (n_over c))) (mkP99Ms (ms healthy) (ms affected_) (ms (baseline r)))
    (mkKMSPS (rate (k 0%nat)) (rate (k 1%nat)) (rate (k 2%nat)) (i_Accepted ips))
    (so_Total so) affectedSum (inflight_of (m_Providers (m_cfg r)) (so_Inflight so)) (card r)
    (zip_with grid_byte states (affected r)) (events (Z.to_nat (tc_SnapshotEvents (mt_cfg m))) r)
    (if bool_decide (verdicts r = ∅) then None else Some (verdicts r)).

(** [tick]; [None] is a panic. *)
Definition tick (now : Time) (so : Sources) (m : Meter) : option (snapshot * Meter) :=
  let states := overlay (so_States so) (mt_states m) in
  '(affectedSum, allActive) ← read_targets (targets (mt_reg m)) (so_Backlog so) states 0 true;
  let '(healthy, affected_, hists) := roll (mt_hists m) in
  let r := tick_registry now healthy allActive affectedSum (mt_reg m) in
  let s := build_snapshot now m so states affectedSum healthy affected_ r in
  let perSec := F.div (F.of_Z Second) (F.of_Z (tc_Interval (mt_cfg m))) in
  let l := reading_of (m_Providers (m_cfg r)) (kmsProv (mt_reg m)) perSec (s_Inflight s) (so_Total so) (s_Tiles s) (s_IngestPS s) (s_P99Ms s) in
  h ← match Marshal s with Some b => broadcast b (mt_hub m) | None => Some (mt_hub m) end;
  Some (s, mkMeter (mt_cfg m) r hists 0 (mt_ticks m + 1) states
             (<[mt_delHead m := mt_delivered m]> (mt_delRing m)) ((mt_delHead m + 1) mod length (mt_delRing m))%nat
             (mt_keyFetch m) l (if mt_open m then raise (mt_peak m) l else mt_peak m) (mt_open m) h).
End Tick.
