(* ===== verification/Generator.v ===== *)
(** * internal/traffic/generator.go: the load source

    One open-loop Poisson source per tenant: the synthetic payload with its
    canary, the gate that pauses every loop, the rates, and the absolute schedule
    of arrivals.  The clock and the exponential draw are readings of each turn;
    [ZipfRates] is in Zipf.v. *)

From S2P Require Import Prelude GoLib GoFloat Kms Sink.
Local Open Scope string_scope.
Local Open Scope Z_scope.

(** ** Payload *)

(** A double quote, as a string. *)
Definition dq : string := String.String (Ascii.ascii_of_nat 34) "".

(** The format string of [Payload], filled in. *)
Definition payload_head (tenant : string) (sq : Z) (prefix : string) : string :=
  "{" +:+ dq +:+ "tenant" +:+ dq +:+ ":" +:+ dq +:+ tenant +:+ dq +:+ "," +:+ dq +:+ "seq" +:+ dq +:+ ":" +:+ Itoa sq
  +:+ "," +:+ dq +:+ "canary" +:+ dq +:+ ":" +:+ dq +:+ prefix +:+ tenant +:+ dq +:+ "," +:+ dq +:+ "event" +:+ dq +:+ ":"
  +:+ dq +:+ "order.created" +:+ dq +:+ "," +:+ dq +:+ "pad" +:+ dq +:+ ":" +:+ dq.

Definition Payload (tenant : string) (sq size : Z) (prefix : string) : bytes :=
  let head := payload_head tenant sq prefix in
  let pad := size - Z.of_nat (String.length head) - 2 in
  let pad := if pad <? 0 then 0 else pad in
  (bytes_of head ++ replicate (Z.to_nat pad) Byte.x78 ++ bytes_of (dq +:+ "}"))%list.

(** ** State *)

Record GeneratorConfig := mkGeneratorConfig {
  n_Tenants : list string; n_Rates : list float64; n_PayloadBytes : Z; n_CanaryPrefix : string }.

(** [running] is a channel identity; [closed_chans] are the channels closed so
    far, and [fresh_chan] the next identity [make] gives. *)
Record Generator := mkGenerator {
  n_cfg : GeneratorConfig; running : nat; closed_chans : gset nat; fresh_chan : nat; on : bool;
  mult : list float64; global : float64; sqn : list Z }.

Definition NewGenerator (cfg : GeneratorConfig) : Generator :=
  mkGenerator cfg 0 ∅ 1 false (replicate (length (n_Tenants cfg)) F.one) F.one (replicate (length (n_Tenants cfg)) 0).

Definition runningCh (g : Generator) : nat := running g.

(** [rate]; [None] is an index out of range. *)
Definition rate (idx : nat) (g : Generator) : option float64 :=
  r ← n_Rates (n_cfg g) !! idx; m ← mult g !! idx; Some (F.mul (F.mul r m) (global g)).

Definition next (idx : nat) (g : Generator) : option (Z * Generator) :=
  s ← sqn g !! idx;
  let s := wrap64 (s + 1) in
  Some (s, mkGenerator (n_cfg g) (running g) (closed_chans g) (fresh_chan g) (on g) (mult g) (global g) (<[idx := s]> (sqn g))).

(** [SetRunning]; [None] is the panic of a second close. *)
Definition SetRunning (b : bool) (g : Generator) : option Generator :=
  if eqb b (on g) then Some g
  else if b then
    if bool_decide (running g ∈ closed_chans g) then None
    else Some (mkGenerator (n_cfg g) (running g) ({[running g]} ∪ closed_chans g) (fresh_chan g) true (mult g) (global g) (sqn g))
  else Some (mkGenerator (n_cfg g) (fresh_chan g) (closed_chans g) (S (fresh_chan g)) false (mult g) (global g) (sqn g)).

Definition SetMultiplier (idx : nat) (x : float64) (g : Generator) : option Generator :=
  if bool_decide (idx < length (mult g))%nat
  then Some (mkGenerator (n_cfg g) (running g) (closed_chans g) (fresh_chan g) (on g) (<[idx := x]> (mult g)) (global g) (sqn g))
  else None.

Definition SetGlobal (x : float64) (g : Generator) : Generator :=
  mkGenerator (n_cfg g) (running g) (closed_chans g) (fresh_chan g) (on g) (mult g) x (sqn g).

(** The loop of [OfferedPS] over the rates left. *)
Fixpoint offered_loop (rs ms : list float64) (sum : float64) : option float64 :=
  match rs with
  | [] => Some sum
  | r :: rs' => match ms with [] => None | m :: ms' => offered_loop rs' ms' (F.add sum (F.mul r m)) end
  end.
Definition OfferedPS (g : Generator) : option float64 :=
  (λ s, F.mul s (global g)) <$> offered_loop (n_Rates (n_cfg g)) (mult g) (F.of_Z 0).
Definition Offered (idx : nat) (g : Generator) : option float64 := rate idx g.

(** ** The loop of one tenant *)

(** The gap a draw gives, and the schedule step: the next scheduled arrival and
    the wait before it. *)
Definition gap_of (x r : float64) : Duration := F.to_int64 (F.mul (F.div x r) (F.of_Z Second)).
Definition restart (nxt now : Time) : Time :=
  if Time.IsZero nxt || Time.Before nxt (Time.Add now (- Second)) then now else nxt.
Definition schedule (nxt now : Time) (gap : Duration) : Time * Duration :=
  let nxt := Time.Add (restart nxt now) gap in
  (nxt, Z.min (Time.Sub nxt now) gap).

Inductive outcome :=
  | Idle                                  (* a rate of zero: wait a second *)
  | Paused (wait : Duration)              (* paused during the wait: nothing is sent *)
  | Sent (wait : Duration) (payload : bytes).

(** One turn past the gate: [g1] is the generator when the rate is read, [g2]
    when the wait is over.  The result has the local [next] of the next turn. *)
Definition loop_turn (idx : nat) (now : Time) (draw : float64) (g1 g2 : Generator) (nxt : Time)
  : option (outcome * Time * Generator) :=
  tenant ← n_Tenants (n_cfg g1) !! idx;
  r ← rate idx g1;
  if SFleb r (F.of_Z 0) then Some (Idle, 0, g2)
  else
    let '(nxt, wait) := schedule nxt now (gap_of draw r) in
    if negb (on g2) then Some (Paused wait, 0, g2)
    else
      s ← next idx g2;
      Some (Sent wait (Payload tenant s.1 (n_PayloadBytes (n_cfg g2)) (n_CanaryPrefix (n_cfg g2))), nxt, s.2).

(** ** The canary *)

(** No double quote: what every tenant id and the canary prefix satisfy. *)
Definition quote_free (b : bytes) : Prop := Byte.x22 ∉ b.

Lemma no_quote b : bool_decide (Byte.x22 ∈ b) = false → quote_free b.
Proof. apply bool_decide_eq_false_1. Qed.

Lemma has_prefix_head x y l P : x ≠ y → has_prefix (x :: l) (y :: P) = false.
Proof. intros H. apply bool_decide_eq_false. cbn. congruence. Qed.

Lemma has_prefix_cons x l P : has_prefix (x :: l) (x :: P) = has_prefix l P.
Proof. unfold has_prefix. cbn. apply bool_decide_ext. split; congruence. Qed.

Lemma has_prefix_app k l P : has_prefix (k ++ l) (k ++ P) = has_prefix l P.
Proof. induction k as [|x k IH]; [done|]. cbn [app]. by rewrite has_prefix_cons. Qed.

Lemma has_prefix_nil l : has_prefix l [] = true.
Proof. by apply bool_decide_eq_true. Qed.

(** A quoted word starts a quoted word only when they are the same. *)
Lemma has_prefix_word T U tail :
  quote_free T → quote_free U → has_prefix (T ++ Byte.x22 :: tail) (U ++ quote) = bool_decide (U = T).
Proof.
  unfold quote_free, quote. revert U. induction T as [|x T IH]; intros [|y U] HT HU; cbn [app].
  - by rewrite has_prefix_cons, has_prefix_nil.
  - rewrite has_prefix_head by set_solver. by rewrite bool_decide_eq_false_2.
  - rewrite has_prefix_head by set_solver. by rewrite bool_decide_eq_false_2.
  - destruct (decide (x = y)) as [->|Hne].
    + rewrite has_prefix_cons, IH by set_solver. apply bool_decide_ext. split; congruence.
    + rewrite has_prefix_head by done. rewrite bool_decide_eq_false_2; congruence.
Qed.

Lemma has_prefix_short T P l : quote_free P → has_prefix T P = false → has_prefix (T ++ Byte.x22 :: l) P = false.
Proof.
  unfold quote_free. revert P. induction T as [|x T IH]; intros [|y P] HP H; cbn [app]; try done.
  - apply has_prefix_head. set_solver.
  - destruct (decide (x = y)) as [->|Hne]; [|by apply has_prefix_head].
    rewrite has_prefix_cons in *. apply IH; [set_solver|done].
Qed.

(** The search for a quoted prefix [P] in [l] stops at its part [k]. *)
Definition finds (P l k : bytes) : Prop := ∃ pre, l = (pre ++ k)%list ∧ bytes_index l (quote ++ P) = Some (length pre).

Lemma finds_here P k : has_prefix k P = true → finds P (Byte.x22 :: k) (Byte.x22 :: k).
Proof. intros H. exists []. split; [done|]. cbn [bytes_index quote app]. by rewrite has_prefix_cons, H. Qed.

Lemma finds_quote P l k : has_prefix l P = false → finds P l k → finds P (Byte.x22 :: l) k.
Proof.
  intros H (pre & -> & E). exists (Byte.x22 :: pre). split; [done|]. unfold quote in *. cbn [bytes_index app] in *.
  by rewrite has_prefix_cons, H, E.
Qed.

Lemma finds_skip P m l k : quote_free m → finds P l k → finds P (m ++ l) k.
Proof.
  unfold quote_free. intros Hm Hf. induction m as [|x m IH]; [done|]. destruct IH as (pre & E1 & E2); [set_solver|].
  exists (x :: pre). cbn [app]. rewrite E1 in E2 |- *. split; [done|]. unfold quote in *. cbn [bytes_index app] in *.
  rewrite has_prefix_head by set_solver. by rewrite E2.
Qed.

Lemma digits_quote_free (x : N) (s : string) : quote_free (bytes_of s) → quote_free (bytes_of (pretty_N_go x s)).
Proof.
  unfold quote_free. revert s. induction (N.lt_wf_0 x) as [x _ IH]. intros s Hs.
  destruct (decide (x = 0%N)) as [->|Hx]; [by rewrite pretty_N_go_0|]. rewrite pretty_N_go_step by lia.
  apply IH; [apply N.div_lt; lia|]. rewrite bytes_of_cons. intros [Hb|]%elem_of_cons; [|done].
  revert Hb. unfold pretty_N_char. repeat case_match; done.
Qed.

Lemma Itoa_quote_free z : quote_free (bytes_of (Itoa z)).
Proof.
  assert (∀ x : N, quote_free (bytes_of (pretty x))) as HN.
  { intros x. unfold pretty, pretty_N. case_decide; [by apply no_quote|]. apply digits_quote_free. by apply no_quote. }
  destruct z as [|x|x]; [by apply no_quote|apply (HN (Npos x))|].
  change (Itoa (Z.neg x)) with ("-" +:+ pretty (Npos x)). rewrite bytes_of_app. unfold quote_free in *. intros [H|H]%elem_of_app.
  - revert H; by apply no_quote.
  - by apply (HN (Npos x)).
Qed.

(** The bytes of a payload, split at its quotes. *)
Definition payload_tail (size : Z) (head : string) : bytes :=
  let pad := size - Z.of_nat (String.length head) - 2 in
  (bytes_of ("," +:+ dq +:+ "event" +:+ dq +:+ ":" +:+ dq +:+ "order.created" +:+ dq +:+ "," +:+ dq +:+ "pad" +:+ dq +:+ ":" +:+ dq)
   ++ replicate (Z.to_nat (if pad <? 0 then 0 else pad)) Byte.x78 ++ bytes_of (dq +:+ "}"))%list.

Lemma payload_split tenant sq size prefix :
  Payload tenant sq size prefix
  = (bytes_of "{" ++ Byte.x22 :: bytes_of "tenant" ++ Byte.x22 :: bytes_of ":" ++ Byte.x22 :: bytes_of tenant
     ++ Byte.x22 :: bytes_of "," ++ Byte.x22 :: bytes_of "seq"
     ++ Byte.x22 :: (bytes_of ":" ++ bytes_of (Itoa sq) ++ bytes_of ",")
     ++ Byte.x22 :: bytes_of "canary" ++ Byte.x22 :: bytes_of ":"
     ++ Byte.x22 :: bytes_of prefix ++ bytes_of tenant ++ Byte.x22 :: payload_tail size (payload_head tenant sq prefix))%list.
Proof.
  unfold Payload, payload_tail. cbv zeta. set (n := replicate _ _). unfold payload_head.
  rewrite !bytes_of_app. change (bytes_of dq) with [Byte.x22]. rewrite <- !app_assoc. reflexivity.
Qed.

(** What a canary prefix must not start with: the bytes that follow a quote
    before the canary's own. *)
Definition marked (prefix : string) : Prop :=
  ∃ b P, bytes_of prefix = b :: P ∧ b ∉ bytes_of "t:,sc".

(** Steps the search over one constant field. *)
Ltac pass_field :=
  apply finds_quote;
    [match goal with H : ∀ x l, _ |- _ => apply H; by apply (bool_decide_unpack _) end|];
  apply finds_skip; [by apply no_quote|].

Lemma payload_finds tenant sq size prefix :
  quote_free (bytes_of tenant) → quote_free (bytes_of prefix) → marked prefix →
  has_prefix (bytes_of tenant) (bytes_of prefix) = false →
  finds (bytes_of prefix) (Payload tenant sq size prefix)
    (Byte.x22 :: bytes_of prefix ++ bytes_of tenant ++ Byte.x22 :: payload_tail size (payload_head tenant sq prefix))%list.
Proof.
  intros Ht Hp (b & P & Eb & Hb) Hn. rewrite payload_split.
  assert (∀ x l, x ∈ bytes_of "t:,sc" → has_prefix (x :: l) (bytes_of prefix) = false) as Hf.
  { intros x l Hx. rewrite Eb. apply has_prefix_head. intros ->. done. }
  apply finds_skip; [by apply no_quote|].
  pass_field.
  pass_field.
  apply finds_quote; [by apply has_prefix_short|]. apply finds_skip; [done|].
  pass_field.
  pass_field.
  apply finds_quote; [apply Hf; by apply (bool_decide_unpack _)|]. apply finds_skip.
  { unfold quote_free. rewrite !elem_of_app. intros [H|[H|H]]; [revert H; by apply no_quote| |revert H; by apply no_quote].
    by apply (Itoa_quote_free sq). }
  pass_field.
  pass_field.
  apply finds_here. rewrite <- (app_nil_r (bytes_of prefix)) at 2. rewrite has_prefix_app. apply has_prefix_nil.
Qed.

(** The canary identifies the tenant.  Whatever its sequence number and size, a
    generated payload that reaches the sink under its own tenant passes the S2
    test, and under any other tenant is refused as a mismatch and counted; ids
    and prefix hold no quote, the id does not itself start with the prefix, and
    the prefix does not start like a field of the payload. *)
Theorem payload_names_its_tenant s tenant u idx sq size at_ ended :
  let prefix := k_CanaryPrefix (k_cfg s) in
  quote_free (bytes_of tenant) → quote_free (bytes_of u) → quote_free (bytes_of prefix) → marked prefix →
  has_prefix (bytes_of tenant) (bytes_of prefix) = false →
  foreign_canary s u (Payload tenant sq size prefix) = negb (bool_decide (u = tenant)) ∧
  (u ≠ tenant → Deliver s u idx (Payload tenant sq size prefix) at_ ended
                = Some (at_, Some ErrTenantMismatch, mkSink (k_cfg s) (count s) (mismatches s + 1) (ring s))).
Proof.
  intros prefix Ht Hu Hp Hm Hn.
  assert (foreign_canary s u (Payload tenant sq size prefix) = negb (bool_decide (u = tenant))) as E.
  { unfold foreign_canary. fold prefix.
    destruct (payload_finds tenant sq size prefix Ht Hp Hm Hn) as (pre & E1 & E2). rewrite E2, E1, drop_app_length.
    f_equal. cbn [app quote]. rewrite has_prefix_cons, has_prefix_app, has_prefix_word by done.
    apply bool_decide_ext. split; [apply bytes_of_inj|by intros ->]. }
  split; [exact E|]. intros Hne. unfold Deliver. rewrite E. by rewrite bool_decide_eq_false_2.
Qed.

(** A payload has the size asked for, or just its envelope when that is larger. *)
Theorem payload_size tenant sq size prefix :
  Z.of_nat (length (Payload tenant sq size prefix))
  = Z.max size (Z.of_nat (String.length (payload_head tenant sq prefix)) + 2).
Proof.
  unfold Payload. cbv zeta. rewrite !length_app, length_bytes_of, length_replicate.
  change (length (bytes_of (dq +:+ "}"))) with 2%nat. destruct (Z.ltb_spec (size - Z.of_nat (String.length (payload_head tenant sq prefix)) - 2) 0); lia.
Qed.

(** ** The gate *)

(** The gate is open (its channel closed) exactly while running, so [close]
    meets an open channel. *)
Definition gate_ok (g : Generator) : Prop :=
  (running g ∈ closed_chans g ↔ on g = true) ∧ (running g < fresh_chan g)%nat ∧
  ∀ c, c ∈ closed_chans g → (c < fresh_chan g)%nat.

Lemma SetRunning_ok b g : gate_ok g → ∃ g', SetRunning b g = Some g' ∧ gate_ok g' ∧ on g' = b.
Proof.
  intros (H1 & H2 & H3). unfold SetRunning. destruct (eqb_spec b (on g)) as [->|Hne]; [by exists g|]. destruct b.
  - destruct (on g) eqn:Eo; [done|]. rewrite bool_decide_eq_false_2 by (rewrite H1; done).
    eexists; split; [done|]. split; [|done]. split_and!; cbn; [set_solver|done|]. intros c [->%elem_of_singleton|]%elem_of_union; auto.
  - eexists; split; [done|]. split; [|done]. split_and!; cbn.
    + split; [|done]. intros Hc. apply H3 in Hc. lia.
    + lia.
    + intros c Hc. apply H3 in Hc. lia.
Qed.

(** Pausing and resuming never panics: after any sequence of [SetRunning] calls,
    repeated ones included, the gate's channel is closed, so that every waiting
    loop passes, exactly when the last call said to run. *)
Theorem gate_follows_last_call cfg bs :
  ∃ g, foldl (λ o b, g ← o; SetRunning b g) (Some (NewGenerator cfg)) bs = Some g ∧
    on g = default false (last bs) ∧ (runningCh g ∈ closed_chans g ↔ default false (last bs) = true).
Proof.
  assert (gate_ok (NewGenerator cfg)) as H0 by (split_and!; cbn; [set_solver|lia|set_solver]).
  assert (∀ bs g, gate_ok g → ∃ g', foldl (λ o b, g ← o; SetRunning b g) (Some g) bs = Some g' ∧ gate_ok g' ∧
            on g' = default (on g) (last bs)) as Hrun.
  { clear bs H0. induction bs as [|b bs IH]; intros g Hg; [by exists g|]. cbn [foldl].
    destruct (SetRunning_ok b g Hg) as (g1 & E & Hg1 & Ho). cbn. rewrite E.
    destruct (IH g1 Hg1) as (g2 & E2 & Hg2 & Ho2). exists g2. split; [exact E2|]. split; [done|].
    rewrite Ho2, Ho, last_cons. by destruct (last bs). }
  destruct (Hrun bs _ H0) as (g & E & Hg & Ho). exists g. split; [exact E|]. cbn in Ho. split; [exact Ho|].
  rewrite <- Ho. apply Hg.
Qed.

(** ** Runs of one tenant's loop *)

(** What others do to the generator meanwhile: the gate, the multipliers, and
    the sends of other tenants. *)
Inductive gop := ORun (b : bool) | OMult (idx : nat) (x : float64) | OGlobal (x : float64) | OSend (idx : nat).

Definition gexec (o : gop) (g : Generator) : option Generator :=
  match o with
  | ORun b => SetRunning b g
  | OMult idx x => SetMultiplier idx x g
  | OGlobal x => Some (SetGlobal x g)
  | OSend idx => snd <$> next idx g
  end.
Definition gexecs (os : list gop) (g : Generator) : option Generator := foldl (λ o a, g ← o; gexec a g) (Some g) os.

(** A turn: what others did before the rate was read and during the wait, the
    clock and the draw. *)
Record turn := mkTurn { tn_before : list gop; tn_during : list gop; tn_now : Time; tn_draw : float64 }.

(** The trace of a run: the clock of each turn, the rate it read, its draw and
    what came of it. *)
Record entry := mkEntry { en_now : Time; en_gap : Duration; en_out : outcome }.

Fixpoint loop_run (idx : nat) (ts : list turn) (g : Generator) (nxt : Time) : option (list entry * Generator * Time) :=
  match ts with
  | [] => Some ([], g, nxt)
  | t :: ts' =>
      g1 ← gexecs (tn_before t) g;
      g2 ← gexecs (tn_during t) g1;
      r ← rate idx g1;
      x ← loop_turn idx (tn_now t) (tn_draw t) g1 g2 nxt;
      y ← loop_run idx ts' x.2 x.1.2;
      Some (mkEntry (tn_now t) (gap_of (tn_draw t) r) x.1.1 :: y.1.1, y.1.2, y.2)
  end.

(** The time a turn takes at least, and the gap its send or pause used. *)
Definition spent (e : entry) : Duration :=
  match en_out e with Idle => Second | Paused w | Sent w _ => Z.max 0 w end.
Definition drawn (e : entry) : Duration := match en_out e with Idle => 0 | _ => en_gap e end.

(** A clock that lets every wait elapse, read for the last time at [end_]. *)
Fixpoint honest (es : list entry) (end_ : Time) : Prop :=
  match es with
  | [] => True
  | e :: es' => 0 <= en_gap e ∧ en_now e + spent e <= (match es' with [] => end_ | e' :: _ => en_now e' end) ∧ honest es' end_
  end.

Definition start_of (es : list entry) (end_ : Time) : Time := match es with [] => end_ | e :: _ => en_now e end.

(** How far the schedule lags the clock, never more than a second. *)
Definition lag (nxt now : Time) : Z := Z.min 0 (restart nxt now - now).

Lemma lag_range nxt now : - Second <= lag nxt now <= 0.
Proof.
  unfold lag, restart, Time.IsZero, Time.Before, Time.Add.
  assert (0 < Second) by done.
  destruct (Z.eqb_spec nxt 0), (Z.ltb_spec nxt (now + - Second)); cbn [orb]; lia.
Qed.

Lemma lag_zero now : lag 0 now = 0.
Proof. unfold lag, restart. cbn. lia. Qed.

Lemma gap_range x r : gap_of x r <= maxInt64.
Proof.
  unfold gap_of, F.to_int64. destruct (F.trunc _) as [z|]; [|done].
  destruct (Z.leb_spec minInt64 z), (Z.leb_spec z maxInt64); cbn [andb]; unfold minInt64, maxInt64 in *; lia.
Qed.

(** One turn: the gap is paid for by the clock, up to the change of the lag. *)
Lemma schedule_pays nxt now gap nxt' wait now' :
  0 <= gap <= maxInt64 → schedule nxt now gap = (nxt', wait) → now + Z.max 0 wait <= now' →
  gap <= now' - now + lag nxt' now' - lag nxt now ∧ gap <= now' - now - lag nxt now.
Proof.
  intros Hg [= <- <-] Hn. pose proof (lag_range nxt now) as Hl. unfold lag in *.
  set (b := restart nxt now) in *. unfold Time.Sub, Time.Add in Hn.
  assert (minInt64 < - Second) as Hmin by done.
  assert (now' - now >= Z.min (b + gap - now) gap) as Hge.
  { unfold minInt64, maxInt64 in *. lia. }
  split; [|lia]. unfold restart, Time.IsZero, Time.Before, Time.Add.
  destruct (Z.eqb_spec (b + gap) 0), (Z.ltb_spec (b + gap) (now' + - Second)); cbn [orb]; lia.
Qed.

Lemma loop_turn_schedule idx now draw g1 g2 nxt r out nxt' g' :
  rate idx g1 = Some r → loop_turn idx now draw g1 g2 nxt = Some (out, nxt', g') →
  let e := mkEntry now (gap_of draw r) out in
  0 <= en_gap e → ∀ now', now + spent e <= now' → drawn e <= now' - now + lag nxt' now' - lag nxt now.
Proof.
  intros Hr H e Hg now' Hn. unfold loop_turn in H. rewrite Hr in H. destruct (n_Tenants _ !! idx); [|done]. cbn in H.
  pose proof (lag_range nxt now) as Hl. subst e. unfold spent, drawn in *. cbn [en_out en_gap] in *.
  destruct (SFleb r _).
  { injection H as <- <- <-. rewrite lag_zero. assert (0 < Second) by done. lia. }
  pose proof (gap_range draw r).
  destruct (negb (on g2)).
  - injection H as <- <- <-. rewrite lag_zero.
    destruct (schedule_pays nxt now (gap_of draw r) _ _ now' (conj Hg ltac:(done)) eq_refl Hn). lia.
  - destruct (next idx g2) as [[sq g3]|]; [|done]. cbn in H. injection H as <- <- <-.
    destruct (schedule_pays nxt now (gap_of draw r) _ _ now' (conj Hg ltac:(done)) eq_refl Hn). lia.
Qed.

Lemma run_pays idx ts g nxt es g' nxt' end_ :
  loop_run idx ts g nxt = Some (es, g', nxt') → honest es end_ →
  sumZ (drawn <$> es) <= end_ - start_of es end_ + lag nxt' end_ - lag nxt (start_of es end_).
Proof.
  revert g nxt es. induction ts as [|t ts IH]; intros g nxt es E Hh.
  { cbn in E. injection E as <- <- <-. cbn. lia. }
  cbn [loop_run] in E. destruct (gexecs (tn_before t) g) as [g1|]; [|done]. cbn in E.
  destruct (gexecs (tn_during t) g1) as [g2|]; [|done]. cbn in E. destruct (rate idx g1) as [r|] eqn:Er; [|done]. cbn in E.
  destruct (loop_turn idx (tn_now t) (tn_draw t) g1 g2 nxt) as [[[out n1] g3]|] eqn:Et; [|done]. cbn in E.
  destruct (loop_run idx ts g3 n1) as [[[es' g4] n2]|] eqn:Erun; [|done]. cbn in E. injection E as <- <- <-.
  destruct Hh as (Hg & Hn & Hh). pose proof (IH _ _ _ Erun Hh) as H. fold (start_of es' end_) in Hn.
  pose proof (loop_turn_schedule idx _ _ _ _ _ _ _ _ _ Er Et Hg (start_of es' end_) Hn) as H1.
  cbn [fmap list_fmap sumZ foldr start_of en_now]. unfold sumZ in H. cbn [en_now en_gap] in *. lia.
Qed.

(** C35. No burst: over any stretch of a tenant's loop, whatever pauses, resumes and
    rate changes fall in it and however late the loop wakes or long Ingest takes,
    the inter-arrival gaps of the events sent add up to at most the time that
    passed and one second; a loop that fell behind catches up one second of its
    schedule and no more. *)
Theorem no_catch_up_burst idx ts g nxt es g' nxt' end_ :
  loop_run idx ts g nxt = Some (es, g', nxt') → honest es end_ →
  sumZ (drawn <$> es) <= end_ - start_of es end_ + Second.
Proof.
  intros E H. pose proof (run_pays _ _ _ _ _ _ _ _ E H). pose proof (lag_range nxt' end_).
  pose proof (lag_range nxt (start_of es end_)). lia.
Qed.

(** The schedule of an uninterrupted stretch: every turn sends and none starts
    more than a second behind. *)
Fixpoint on_schedule (es : list entry) (nxt : Time) : Prop :=
  match es with
  | [] => True
  | e :: es' => nxt ≠ 0 ∧ en_now e - Second <= nxt ∧ (∃ w p, en_out e = Sent w p) ∧ on_schedule es' (nxt + en_gap e)
  end.

(** Lateness costs no throughput: while the loop keeps sending and is never more
    than a second behind, the next arrival is the first one plus all the gaps
    drawn, however late each turn began. *)
Theorem schedule_is_absolute idx ts g nxt es g' nxt' :
  loop_run idx ts g nxt = Some (es, g', nxt') → on_schedule es nxt → nxt' = nxt + sumZ (en_gap <$> es).
Proof.
  revert g nxt es. induction ts as [|t ts IH]; intros g nxt es E Hs.
  { cbn in E. injection E as <- <- <-. cbn. lia. }
  cbn [loop_run] in E. destruct (gexecs (tn_before t) g) as [g1|]; [|done]. cbn in E.
  destruct (gexecs (tn_during t) g1) as [g2|]; [|done]. cbn in E. destruct (rate idx g1) as [r|] eqn:Er; [|done]. cbn in E.
  destruct (loop_turn idx (tn_now t) (tn_draw t) g1 g2 nxt) as [[[out n1] g3]|] eqn:Et; [|done]. cbn in E.
  destruct (loop_run idx ts g3 n1) as [[[es' g4] n2]|] eqn:Erun; [|done]. cbn in E. injection E as <- <- <-.
  destruct Hs as (H0 & Hb & (w & p & Hout) & Hs). cbn [en_now en_gap en_out] in *. subst out.
  assert (n1 = nxt + gap_of (tn_draw t) r) as ->.
  { unfold loop_turn in Et. rewrite Er in Et. destruct (n_Tenants _ !! idx); [|done]. cbn in Et.
    destruct (SFleb r _); [done|]. unfold schedule, restart, Time.IsZero, Time.Before, Time.Add in Et.
    destruct (Z.eqb_spec nxt 0), (Z.ltb_spec nxt (tn_now t + - Second)); try lia. cbn [orb] in Et.
    destruct (negb (on g2)); [done|]. destruct (next idx g2); [|done]. cbn in Et. by injection Et as _ _ <- _. }
  rewrite (IH _ _ _ Erun Hs).
  change (nxt + gap_of (tn_draw t) r + sumZ (en_gap <$> es') = nxt + (gap_of (tn_draw t) r + sumZ (en_gap <$> es'))). lia.
Qed.

(** ** Sequence numbers *)

(** The others leave a tenant's number alone. *)
Definition spares (idx : nat) (o : gop) : Prop := match o with OSend j => j ≠ idx | _ => True end.

Lemma next_sqn j g s g' : next j g = Some (s, g') → sqn g' = <[j := s]> (sqn g) ∧ n_cfg g' = n_cfg g.
Proof. unfold next. destruct (sqn g !! j); [|done]. cbn. by intros [= <- <-]. Qed.

Lemma gexec_sqn idx o g g' : spares idx o → gexec o g = Some g' → sqn g' !! idx = sqn g !! idx ∧ n_cfg g' = n_cfg g.
Proof.
  destruct o; cbn; intros Hs H.
  - unfold SetRunning in H. destruct (eqb b (on g)); [by simplify_eq|]. destruct b; [case_bool_decide; [done|]|]; by simplify_eq.
  - unfold SetMultiplier in H. case_bool_decide; [|done]. by simplify_eq.
  - by simplify_eq.
  - destruct (next idx0 g) as [[s g1]|] eqn:E; [|done]. cbn in H. simplify_eq. apply next_sqn in E as [-> ?].
    split; [by rewrite list_lookup_insert_ne|done].
Qed.

Lemma gexecs_sqn idx os g g' :
  Forall (spares idx) os → gexecs os g = Some g' → sqn g' !! idx = sqn g !! idx ∧ n_cfg g' = n_cfg g.
Proof.
  unfold gexecs. revert g. induction os as [|o os IH]; intros g Hs H; [cbn in H; by simplify_eq|].
  apply Forall_cons in Hs as [Ho Hs]. cbn [foldl] in H. cbn in H. destruct (gexec o g) as [g1|] eqn:E.
  - destruct (IH g1 Hs H) as [-> ->]. by apply (gexec_sqn idx o).
  - exfalso. clear -H. induction os as [|o os IH]; [done|]. by apply IH.
Qed.

(** A turn sends with the next number or leaves it. *)
Lemma loop_turn_sqn idx now draw g1 g2 nxt out nxt' g' n :
  loop_turn idx now draw g1 g2 nxt = Some (out, nxt', g') → sqn g2 !! idx = Some n → minInt64 <= n < maxInt64 →
  n_cfg g' = n_cfg g2 ∧
  (((∀ w p, out ≠ Sent w p) ∧ sqn g' !! idx = Some n) ∨
   ∃ w tenant, out = Sent w (Payload tenant (n + 1) (n_PayloadBytes (n_cfg g2)) (n_CanaryPrefix (n_cfg g2))) ∧
     n_Tenants (n_cfg g1) !! idx = Some tenant ∧ sqn g' !! idx = Some (n + 1)).
Proof.
  intros H Hn Hr. unfold loop_turn in H. destruct (n_Tenants _ !! idx) as [tn|]; [|done]. cbn in H.
  destruct (rate idx g1); [|done]. cbn in H. destruct (SFleb _ _); [simplify_eq; by eauto|].
  destruct (negb (on g2)); [simplify_eq; by eauto|].
  destruct (next idx g2) as [[sq g3]|] eqn:En; [|done]. cbn in H. simplify_eq.
  pose proof (next_sqn _ _ _ _ En) as [Es Ec]. split; [done|]. right.
  assert (sq = n + 1) as ->. { unfold next in En. rewrite Hn in En. cbn in En. injection En as <- _. apply wrap64_id. lia. }
  eexists _, tn. split_and!; [done|done|]. rewrite Es. apply list_lookup_insert_eq. by eapply lookup_lt_Some.
Qed.

(** The payloads a run sent. *)
Definition sent_of (es : list entry) : list bytes :=
  omap (λ e, match en_out e with Sent _ p => Some p | _ => None end) es.

(** Sequence numbers have no gap and no repeat: whatever pauses, rate changes
    and other tenants' sends interleave, the payloads a tenant's loop sends carry
    its next numbers in order, one each, and its counter ends at the last. *)
Theorem sent_numbers_consecutive idx ts g nxt es g' nxt' n tenant :
  loop_run idx ts g nxt = Some (es, g', nxt') →
  Forall (λ t, Forall (spares idx) (tn_before t) ∧ Forall (spares idx) (tn_during t)) ts →
  n_Tenants (n_cfg g) !! idx = Some tenant → sqn g !! idx = Some n → 0 <= n → n + Z.of_nat (length ts) <= maxInt64 →
  sent_of es = (λ k, Payload tenant k (n_PayloadBytes (n_cfg g)) (n_CanaryPrefix (n_cfg g)))
                 <$> seqZ (n + 1) (Z.of_nat (length (sent_of es))) ∧
  sqn g' !! idx = Some (n + Z.of_nat (length (sent_of es))).
Proof.
  revert g nxt es n. induction ts as [|t ts IH]; intros g nxt es n E Hsp Ht Hn H0 Hmax.
  { cbn in E. injection E as <- <- <-. cbn. by rewrite Z.add_0_r. }
  apply Forall_cons in Hsp as [[Hb Hd] Hsp]. cbn [length] in Hmax.
  cbn [loop_run] in E. destruct (gexecs (tn_before t) g) as [g1|] eqn:E1; [|done]. cbn in E.
  destruct (gexecs (tn_during t) g1) as [g2|] eqn:E2; [|done]. cbn in E. destruct (rate idx g1) as [r|] eqn:Er; [|done]. cbn in E.
  destruct (loop_turn idx (tn_now t) (tn_draw t) g1 g2 nxt) as [[[out n1] g3]|] eqn:Et; [|done]. cbn in E.
  destruct (loop_run idx ts g3 n1) as [[[es' g4] n2]|] eqn:Erun; [|done]. cbn in E. injection E as <- <- <-.
  destruct (gexecs_sqn idx _ _ _ Hb E1) as [Hn1 Hc1], (gexecs_sqn idx _ _ _ Hd E2) as [Hn2 Hc2].
  assert (sqn g2 !! idx = Some n) as Hsq by congruence.
  destruct (loop_turn_sqn idx _ _ _ _ _ _ _ _ _ Et Hsq ltac:(unfold minInt64; lia)) as [Hc3 Hout].
  assert (n_Tenants (n_cfg g1) !! idx = Some tenant) as Ht1 by congruence.
  assert (n_cfg g3 = n_cfg g) as Hc4 by congruence. assert (n_cfg g2 = n_cfg g) as Hc5 by congruence.
  destruct Hout as [[Hs Hq]|(w & tn & Hs & Htn & Hq)].
  - destruct (IH g3 n1 es' n Erun Hsp) as [IH1 IH2]; [congruence|done|done|lia|].
    assert (sent_of (mkEntry (tn_now t) (gap_of (tn_draw t) r) out :: es') = sent_of es') as ->
      by (destruct out; [done..|by destruct (Hs wait payload)]).
    rewrite Hc4 in IH1. by split.
  - destruct (IH g3 n1 es' (n + 1) Erun Hsp) as [IH1 IH2]; [congruence|done|lia|lia|]. subst out.
    assert (tn = tenant) as -> by congruence.
    assert (sent_of (mkEntry (tn_now t) (gap_of (tn_draw t) r) (Sent w (Payload tenant (n + 1) (n_PayloadBytes (n_cfg g2)) (n_CanaryPrefix (n_cfg g2)))) :: es')
            = Payload tenant (n + 1) (n_PayloadBytes (n_cfg g2)) (n_CanaryPrefix (n_cfg g2)) :: sent_of es') as -> by done.
    cbn [length]. rewrite Nat2Z.inj_succ. split; [|by rewrite IH2; f_equal; lia].
    rewrite seqZ_cons by lia. rewrite Z.pred_succ. cbn [fmap list_fmap]. replace (Z.succ (n + 1)) with (n + 1 + 1) by lia.
    rewrite Hc4 in IH1. rewrite Hc5. by f_equal.
Qed.

(** ** Witnesses *)
Module GDemo.
Definition prefix : string := "PLAINTEXT-CANARY-".
Definition sink : Sink := NewSink (mkSinkConfig 2 4 prefix).
Definition cfg : GeneratorConfig := mkGeneratorConfig ["t-001"; "t-002"] [F.two; F.one] 128 prefix.
Definition gen : Generator := NewGenerator cfg.
(** Three turns of the first tenant at two events a second, the last one late;
    the second tenant sends in between, and the gate closes during the third. *)
Definition turns : list turn :=
  [mkTurn [ORun true] [OSend 1] (1000 * Second) F.one; mkTurn [] [] (1000 * Second + 800 * Millisecond) F.one;
   mkTurn [OMult 1 F.two] [ORun false] (1001 * Second) F.one].
Definition trace : option (list entry * Generator * Time) := loop_run 0 turns gen 0.
Definition end_ : Time := 1003 * Second.
End GDemo.

Lemma payload_names_its_tenant_witness :
  foreign_canary GDemo.sink "t-002" (Payload "t-001" 7 128 GDemo.prefix) = true ∧
  foreign_canary GDemo.sink "t-001" (Payload "t-001" 7 128 GDemo.prefix) = false.
Proof.
  assert (marked GDemo.prefix) as Hm.
  { exists Byte.x50, (bytes_of "LAINTEXT-CANARY-"). split; [reflexivity|]. by apply (bool_decide_unpack _). }
  split.
  - apply (payload_names_its_tenant GDemo.sink "t-001" "t-002" 0 7 128 0 None); try exact Hm;
      try (by apply no_quote); reflexivity.
  - apply (payload_names_its_tenant GDemo.sink "t-001" "t-001" 0 7 128 0 None); try exact Hm;
      try (by apply no_quote); reflexivity.
Defined.

Lemma no_catch_up_burst_witness :
  ∃ es g' nxt', GDemo.trace = Some (es, g', nxt') ∧ sumZ (drawn <$> es) = 1500 * Millisecond ∧
    sumZ (drawn <$> es) <= GDemo.end_ - start_of es GDemo.end_ + Second.
Proof.
  destruct GDemo.trace as [[[es g'] nxt']|] eqn:E; [|vm_compute in E; discriminate E].
  exists es, g', nxt'. split; [reflexivity|].
  assert (honest es GDemo.end_ ∧ sumZ (drawn <$> es) = 1500 * Millisecond) as [Hh Hs].
  { vm_compute in E. injection E as <- <- <-. split; [|vm_compute; reflexivity].
    vm_compute. repeat split; discriminate. }
  split; [exact Hs|]. exact (no_catch_up_burst 0 GDemo.turns GDemo.gen 0 es g' nxt' GDemo.end_ E Hh).
Defined.

Lemma schedule_is_absolute_witness :
  ∃ es g' nxt', loop_run 0 (take 1 (drop 1 GDemo.turns)) (default GDemo.gen (SetRunning true GDemo.gen)) (1000 * Second)
    = Some (es, g', nxt') ∧ nxt' = 1000 * Second + sumZ (en_gap <$> es).
Proof.
  destruct (loop_run 0 (take 1 (drop 1 GDemo.turns)) (default GDemo.gen (SetRunning true GDemo.gen)) (1000 * Second))
    as [[[es g'] nxt']|] eqn:E; [|vm_compute in E; discriminate E].
  exists es, g', nxt'. split; [reflexivity|].
  refine (schedule_is_absolute 0 _ _ _ es g' nxt' E _).
  clear -E. vm_compute in E. injection E as <- _ _. split_and!; [discriminate|vm_compute; discriminate|by eexists _, _|exact I].
Defined.

Lemma sent_numbers_consecutive_witness :
  ∃ es g' nxt', GDemo.trace = Some (es, g', nxt') ∧
    sent_of es = [Payload "t-001" 1 128 GDemo.prefix; Payload "t-001" 2 128 GDemo.prefix] ∧ sqn g' !! 0%nat = Some 2.
Proof.
  destruct GDemo.trace as [[[es g'] nxt']|] eqn:E; [|vm_compute in E; discriminate E].
  exists es, g', nxt'. split; [reflexivity|].
  destruct (sent_numbers_consecutive 0 GDemo.turns GDemo.gen 0 es g' nxt' 0 "t-001" E) as [H1 H2].
  - repeat constructor; done.
  - reflexivity.
  - reflexivity.
  - lia.
  - vm_compute. discriminate.
  - assert (length (sent_of es) = 2%nat) as Hl by (vm_compute in E; injection E as <- _ _; reflexivity).
    rewrite H1, H2, Hl. vm_compute. split; reflexivity.
Defined.
