(* ===== verification/Params.v ===== *)
(** * internal/world/params.go: every time constant and load setting

    The record of parameters, and the demo and test values. *)

From S2P Require Import Prelude GoLib GoFloat Lease Ingest.
Local Open Scope string_scope.
Local Open Scope Z_scope.

(** One field per parameter, by the source's names behind [P_]. *)
Record Params := mkParams {
  P_Tenants : Z; P_Providers : list string; P_Seed : Z; P_Lease : Duration; P_SoftTTL : Duration;
  P_EarlyExpiry : Duration; P_KMSTimeout : Duration; P_BackoffMin : Duration; P_BackoffMax : Duration;
  P_BackoffJitter : float64; P_RevokedReprobe : Duration; P_DEKMaxMessages : Z; P_DEKMaxAge : Duration;
  P_ProviderInflight : Z; P_TenantInflight : Z; P_IngestWaiters : Z; P_SweepInterval : Duration; P_Workers : Z;
  P_ClaimBatch : Z; P_ClaimTimeout : Duration; P_ReclaimInterval : Duration; P_IdlePoll : Duration;
  P_TwoClassSched : bool; P_SchedLightTurns : Z; P_DBDir : string; P_SyncMode : string; P_WALAutocheckpoint : Z;
  P_SinkLatencyMin : Duration; P_SinkLatencyMax : Duration; P_SinkRing : Z; P_BaseRate : float64;
  P_ZipfExponent : float64; P_PayloadBytes : Z; P_CanaryPrefix : string; P_SnapshotInterval : Duration;
  P_AuditRing : Z; P_TimelineRing : Z; P_SnapshotEvents : Z; P_ViewerQueue : Z; P_TenantRate : float64;
  P_TenantBurst : Z; P_TenantBacklogCap : Z; P_GlobalBacklogCap : Z; P_FairShare : bool; P_RetryAfter : RetryAfter;
  P_SurgeTenantRank : Z; P_TenantSurgeMult : float64; P_TenantSurgeFor : Duration; P_GlobalSurgeMult : float64;
  P_GlobalSurgeFor : Duration; P_GlobalSurgeAffectedTop : Z; P_ScenarioTailMin : Duration;
  P_ScenarioTailMax : Duration; P_OutageBlip : Duration; P_OutageLong : Duration; P_OutageProvider : string;
  P_SlowProvider : string; P_SlowP50 : Duration; P_SlowP99 : Duration; P_SlowFor : Duration; P_RevokeTenantRank : Z;
  P_NoCacheProvider : string; P_NoCacheFor : Duration; P_NoCacheBlip : Duration; P_NoCacheAfter : Duration;
  P_NoCacheKMSP50 : Duration; P_NoCacheKMSP99 : Duration; P_NoCacheSurgeLead : Duration;
  P_NoCacheSurgeFor : Duration; P_NoCacheSurgeAfter : Duration; P_ChartWindow : Duration; P_P99Window : Z;
  P_BaselineTicks : Z; P_L1Ratio : float64; P_L1Floor : Duration; P_L1Grace : Duration; P_L1For : Duration;
  P_L4CapacityFactor : float64; P_L4Settle : Duration; P_TimelineAggregateMin : Z; P_CheckInterval : Duration;
  P_CanaryFullScan : Duration; P_Lights : list string; P_Capacity : float64; P_Retention : Duration;
  P_ExpireInterval : Duration; P_ExpireLimit : Z; P_StreamMaxAge : Duration; P_StreamWriteTimeout : Duration;
  P_IdleRebuild : Duration; P_StopTimeout : Duration }.

Definition Judges (light : string) (p : Params) : bool :=
  existsb (λ l, bool_decide (l = light)) (P_Lights p).

Definition Demo : Params := {|
  P_Tenants := 1000; P_Providers := ["aws"; "gcp"; "azure"]; P_Seed := 1; P_Lease := 30 * Second;
  P_SoftTTL := 15 * Second; P_EarlyExpiry := Second; P_KMSTimeout := 500 * Millisecond;
  P_BackoffMin := 500 * Millisecond; P_BackoffMax := 8 * Second; P_BackoffJitter := F.half;
  P_RevokedReprobe := 5 * Second; P_DEKMaxMessages := 10000; P_DEKMaxAge := 10 * Minute; P_ProviderInflight := 32;
  P_TenantInflight := 2; P_IngestWaiters := 4; P_SweepInterval := 250 * Millisecond; P_Workers := 8;
  P_ClaimBatch := 8; P_ClaimTimeout := 30 * Second; P_ReclaimInterval := Second; P_IdlePoll := 20 * Millisecond;
  P_TwoClassSched := true; P_SchedLightTurns := 32; P_DBDir := String.EmptyString; P_SyncMode := "normal";
  P_WALAutocheckpoint := 4000; P_SinkLatencyMin := 5 * Millisecond; P_SinkLatencyMax := 20 * Millisecond;
  P_SinkRing := 1024; P_BaseRate := F.of_Z 300; P_ZipfExponent := F.one; P_PayloadBytes := 1024;
  P_CanaryPrefix := "PLAINTEXT-CANARY-"; P_SnapshotInterval := 500 * Millisecond; P_AuditRing := 16;
  P_TimelineRing := 200; P_SnapshotEvents := 20; P_ViewerQueue := 1; P_TenantRate := F.of_Z 100;
  P_TenantBurst := 200; P_TenantBacklogCap := 500; P_GlobalBacklogCap := 20000; P_FairShare := true;
  P_RetryAfter := mkRetryAfter 1 5 5 1; P_SurgeTenantRank := 5; P_TenantSurgeMult := F.of_Z 100;
  P_TenantSurgeFor := 60 * Second; P_GlobalSurgeMult := F.of_Z 5; P_GlobalSurgeFor := 90 * Second;
  P_GlobalSurgeAffectedTop := 150; P_ScenarioTailMin := 15 * Second; P_ScenarioTailMax := 90 * Second;
  P_OutageBlip := 10 * Second; P_OutageLong := 60 * Second; P_OutageProvider := "gcp"; P_SlowProvider := "azure";
  P_SlowP50 := 400 * Millisecond; P_SlowP99 := 3 * Second; P_SlowFor := 60 * Second; P_RevokeTenantRank := 3;
  P_NoCacheProvider := "gcp"; P_NoCacheFor := 30 * Second; P_NoCacheBlip := 10 * Second;
  P_NoCacheAfter := 15 * Second; P_NoCacheKMSP50 := 20 * Millisecond; P_NoCacheKMSP99 := 80 * Millisecond;
  P_NoCacheSurgeLead := 15 * Second; P_NoCacheSurgeFor := 60 * Second; P_NoCacheSurgeAfter := 15 * Second;
  P_ChartWindow := 2 * Minute; P_P99Window := 10; P_BaselineTicks := 20; P_L1Ratio := F.lit 5 (-2);
  P_L1Floor := 25 * Millisecond; P_L1Grace := 7 * Second; P_L1For := 3 * Second;
  P_L4CapacityFactor := F.lit 8106479329266893 (-53); P_L4Settle := 7 * Second; P_TimelineAggregateMin := 3;
  P_CheckInterval := Second; P_CanaryFullScan := 5 * Second; P_Lights := ["S1"; "S2"; "S3"; "S4"; "L1"; "L4"];
  P_Capacity := F.of_Z 620; P_Retention := 10 * Minute; P_ExpireInterval := 5 * Second; P_ExpireLimit := 1000;
  P_StreamMaxAge := 55 * Minute; P_StreamWriteTimeout := 5 * Second; P_IdleRebuild := 10 * Second;
  P_StopTimeout := 2 * Second |}.

(** [Small]: [Demo] with fewer tenants, workers and events. *)
Definition Small : Params :=
  let p := Demo in {|
    P_Tenants := 20; P_Providers := P_Providers p; P_Seed := P_Seed p; P_Lease := P_Lease p;
    P_SoftTTL := P_SoftTTL p; P_EarlyExpiry := P_EarlyExpiry p; P_KMSTimeout := P_KMSTimeout p;
    P_BackoffMin := P_BackoffMin p; P_BackoffMax := P_BackoffMax p; P_BackoffJitter := P_BackoffJitter p;
    P_RevokedReprobe := P_RevokedReprobe p; P_DEKMaxMessages := P_DEKMaxMessages p; P_DEKMaxAge := P_DEKMaxAge p;
    P_ProviderInflight := P_ProviderInflight p; P_TenantInflight := P_TenantInflight p;
    P_IngestWaiters := P_IngestWaiters p; P_SweepInterval := P_SweepInterval p; P_Workers := 2;
    P_ClaimBatch := P_ClaimBatch p; P_ClaimTimeout := P_ClaimTimeout p; P_ReclaimInterval := P_ReclaimInterval p;
    P_IdlePoll := P_IdlePoll p; P_TwoClassSched := P_TwoClassSched p; P_SchedLightTurns := P_SchedLightTurns p;
    P_DBDir := P_DBDir p; P_SyncMode := P_SyncMode p; P_WALAutocheckpoint := P_WALAutocheckpoint p;
    P_SinkLatencyMin := P_SinkLatencyMin p; P_SinkLatencyMax := P_SinkLatencyMax p; P_SinkRing := P_SinkRing p;
    P_BaseRate := F.of_Z 20; P_ZipfExponent := P_ZipfExponent p; P_PayloadBytes := P_PayloadBytes p;
    P_CanaryPrefix := P_CanaryPrefix p; P_SnapshotInterval := P_SnapshotInterval p; P_AuditRing := P_AuditRing p;
    P_TimelineRing := P_TimelineRing p; P_SnapshotEvents := P_SnapshotEvents p; P_ViewerQueue := P_ViewerQueue p;
    P_TenantRate := P_TenantRate p; P_TenantBurst := P_TenantBurst p; P_TenantBacklogCap := P_TenantBacklogCap p;
    P_GlobalBacklogCap := P_GlobalBacklogCap p; P_FairShare := P_FairShare p; P_RetryAfter := P_RetryAfter p;
    P_SurgeTenantRank := P_SurgeTenantRank p; P_TenantSurgeMult := P_TenantSurgeMult p;
    P_TenantSurgeFor := P_TenantSurgeFor p; P_GlobalSurgeMult := P_GlobalSurgeMult p;
    P_GlobalSurgeFor := P_GlobalSurgeFor p; P_GlobalSurgeAffectedTop := P_GlobalSurgeAffectedTop p;
    P_ScenarioTailMin := P_ScenarioTailMin p; P_ScenarioTailMax := P_ScenarioTailMax p;
    P_OutageBlip := P_OutageBlip p; P_OutageLong := P_OutageLong p; P_OutageProvider := P_OutageProvider p;
    P_SlowProvider := P_SlowProvider p; P_SlowP50 := P_SlowP50 p; P_SlowP99 := P_SlowP99 p;
    P_SlowFor := P_SlowFor p; P_RevokeTenantRank := P_RevokeTenantRank p; P_NoCacheProvider := P_NoCacheProvider p;
    P_NoCacheFor := P_NoCacheFor p; P_NoCacheBlip := P_NoCacheBlip p; P_NoCacheAfter := P_NoCacheAfter p;
    P_NoCacheKMSP50 := P_NoCacheKMSP50 p; P_NoCacheKMSP99 := P_NoCacheKMSP99 p;
    P_NoCacheSurgeLead := P_NoCacheSurgeLead p; P_NoCacheSurgeFor := P_NoCacheSurgeFor p;
    P_NoCacheSurgeAfter := P_NoCacheSurgeAfter p; P_ChartWindow := P_ChartWindow p; P_P99Window := P_P99Window p;
    P_BaselineTicks := P_BaselineTicks p; P_L1Ratio := P_L1Ratio p; P_L1Floor := P_L1Floor p;
    P_L1Grace := P_L1Grace p; P_L1For := P_L1For p; P_L4CapacityFactor := P_L4CapacityFactor p;
    P_L4Settle := P_L4Settle p; P_TimelineAggregateMin := P_TimelineAggregateMin p;
    P_CheckInterval := P_CheckInterval p; P_CanaryFullScan := P_CanaryFullScan p; P_Lights := P_Lights p;
    P_Capacity := P_Capacity p; P_Retention := P_Retention p; P_ExpireInterval := P_ExpireInterval p;
    P_ExpireLimit := P_ExpireLimit p; P_StreamMaxAge := P_StreamMaxAge p;
    P_StreamWriteTimeout := P_StreamWriteTimeout p; P_IdleRebuild := P_IdleRebuild p;
    P_StopTimeout := P_StopTimeout p |}.
