(* ===== verification/World.v ===== *)
(** * internal/world/world.go: the control plane

    One World as its control calls see it: the fake KMS, the tenants' key-fetch
    designs, the generator, the registry, and the calls that change them
    ([Fault], [Surge], [SetKey], [SetCache], [SetFetch], the viewer watcher, the
    sweep).  One call is one step; a call that walks the tenants takes each
    tenant's lock in turn, and the clock reads of one call are one instant.  The
    text of the float and duration verbs of package fmt is a parameter. *)

From S2P Require Import Prelude GoLib GoFloat Kms Tink KmsModel Fake Lease Cmek Tenant Prog Manager Api.
From S2P Require Import Store Ingest Generator Params Metrics.
Local Open Scope string_scope.
Local Open Scope Z_scope.

(** What fmt prints for %g, %.0f and %.1f of a float64, and for a Duration. *)
Class Fmt := { fmt_g : float64 → string; fmt_f0 : float64 → string; fmt_f1 : float64 → string; fmt_dur : Duration → string }.

Definition ErrBadFault : err := Sentinel "world.ErrBadFault" "world: bad fault request".

(** [fmt.Errorf("%w: ...", ErrBadFault)]. *)
Definition bad_fault (text : string) : err := Errorf "" ErrBadFault (": " +:+ text).

Record FaultRequest := mkFaultRequest {
  fr_Provider : string; fr_Tenant : string; fr_Mode : string; fr_LatencyP50Ms : Z; fr_LatencyP99Ms : Z;
  fr_ErrorRate : float64 }.

(** The variables the no-cache closures share. *)
Record notes := mkNotes {
  bandCalls : float64; otherCalls : float64; bandP99 : float64; healthyP99 : float64; parked : Z;
  lead : Reading; surged : Reading }.
Definition zeroNotes : notes :=
  mkNotes (F.of_Z 0) (F.of_Z 0) (F.of_Z 0) (F.of_Z 0) 0 zeroReading zeroReading.

Section World.
Context `{TK : Tink} `{MR : MapRange}.

(** ** State *)

(** [w_last] and [w_peak] are the registry's readings, which its tick writes. *)
Record World := mkWorld {
  w_P : Params; w_ids : list string; w_byRank : list nat; w_kms : Fake; w_tenants : list local; w_gen : Generator;
  w_metrics : Registry; w_keyFetch : string; w_last : Reading; w_peak : Reading; w_notes : notes; w_idleSince : Z }.

Definition with_kms (f : Fake) (w : World) : World :=
  mkWorld (w_P w) (w_ids w) (w_byRank w) f (w_tenants w) (w_gen w) (w_metrics w) (w_keyFetch w) (w_last w) (w_peak w) (w_notes w) (w_idleSince w).
Definition with_tenants (l : list local) (w : World) : World :=
  mkWorld (w_P w) (w_ids w) (w_byRank w) (w_kms w) l (w_gen w) (w_metrics w) (w_keyFetch w) (w_last w) (w_peak w) (w_notes w) (w_idleSince w).
Definition with_gen (g : Generator) (w : World) : World :=
  mkWorld (w_P w) (w_ids w) (w_byRank w) (w_kms w) (w_tenants w) g (w_metrics w) (w_keyFetch w) (w_last w) (w_peak w) (w_notes w) (w_idleSince w).
Definition with_metrics (r : Registry) (w : World) : World :=
  mkWorld (w_P w) (w_ids w) (w_byRank w) (w_kms w) (w_tenants w) (w_gen w) r (w_keyFetch w) (w_last w) (w_peak w) (w_notes w) (w_idleSince w).
Definition with_keyFetch (m : string) (w : World) : World :=
  mkWorld (w_P w) (w_ids w) (w_byRank w) (w_kms w) (w_tenants w) (w_gen w) (w_metrics w) m (w_last w) (w_peak w) (w_notes w) (w_idleSince w).
Definition with_readings (a b : Reading) (n : notes) (w : World) : World :=
  mkWorld (w_P w) (w_ids w) (w_byRank w) (w_kms w) (w_tenants w) (w_gen w) (w_metrics w) (w_keyFetch w) a b n (w_idleSince w).
Definition with_idle (z : Z) (w : World) : World :=
  mkWorld (w_P w) (w_ids w) (w_byRank w) (w_kms w) (w_tenants w) (w_gen w) (w_metrics w) (w_keyFetch w) (w_last w) (w_peak w) (w_notes w) z.

(** ** New *)

(** [%04d] of a non-negative index. *)
Definition pad4 (s : string) : string :=
  match String.length s with 0%nat => "0000" | 1%nat => "000" +:+ s | 2%nat => "00" +:+ s | 3%nat => "0" +:+ s | _ => s end.
Definition tenant_id (i : nat) : string := "t-" +:+ pad4 (Itoa (Z.of_nat i)).

(** [p.Providers[i*len(p.Providers)/n]]; [None] is an index out of range. *)
Definition provider_at (p : Params) (i : nat) : option string :=
  P_Providers p !! ((i * length (P_Providers p)) / Z.to_nat (P_Tenants p))%nat.
Definition provider_of (p : Params) (i : nat) : string := default "" (provider_at p i).
Definition kek_id (i : nat) : string := "kek-" +:+ tenant_id i.
Definition tenant_spec (p : Params) (i : nat) : TenantSpec := mkSpec (tenant_id i) (provider_of p i) (kek_id i).
Definition kek_spec (p : Params) (i : nat) : KEKSpec := mkKEKSpec (kek_id i) (provider_of p i) (Z.of_nat i).

(** The wiring of the core's, the generator's and the registry's configurations. *)
Definition cmek_config (p : Params) : Cmek.Config :=
  Cmek.mkConfig (tenant_spec p <$> seq 0 (Z.to_nat (P_Tenants p))) (P_Providers p) true (P_Lease p) (P_SoftTTL p) (P_EarlyExpiry p)
    (P_KMSTimeout p) (P_BackoffMin p) (P_BackoffMax p) (P_RevokedReprobe p) (P_DEKMaxAge p) (P_SweepInterval p)
    (P_BackoffJitter p) (P_DEKMaxMessages p) (P_ProviderInflight p) (P_TenantInflight p) (P_IngestWaiters p).
Definition generator_config (p : Params) (rates : list float64) : GeneratorConfig :=
  mkGeneratorConfig (tenant_id <$> seq 0 (Z.to_nat (P_Tenants p))) rates (P_PayloadBytes p) (P_CanaryPrefix p).
Definition metrics_config (p : Params) : Metrics.Config :=
  Metrics.mkConfig (tenant_id <$> seq 0 (Z.to_nat (P_Tenants p))) (P_Providers p) (P_BaselineTicks p) (P_AuditRing p)
    (P_TimelineRing p) (P_TimelineAggregateMin p) (P_Workers p * P_ClaimBatch p).

(** [rates[byRank[r]] = zipf[r]]. *)
Definition spread_rates (byRank : list nat) (zipf : list float64) (n : nat) : list float64 :=
  foldl (λ rs '(i, z), <[i := z]> rs) (replicate n (F.of_Z 0)) (zip byRank zipf).

(** [New], past the files and the goroutines: [byRank] is the seeded permutation,
    [zipf] the rates by rank, [material] the fresh key material. *)
Definition New (p : Params) (byRank : list nat) (zipf : list float64) (material : list bytes) : option World :=
  let n := Z.to_nat (P_Tenants p) in
  _ ← mapM (provider_at p) (seq 0 n);
  kms ← NewFake (kek_spec p <$> seq 0 n) material;
  Some (mkWorld p (tenant_id <$> seq 0 n) byRank kms (Manager.New (withDefaults (cmek_config p))).1
          (NewGenerator (generator_config p (spread_rates byRank zipf n))) (Metrics.New (metrics_config p)) "async"
          zeroReading zeroReading zeroNotes 0).

(** ** Readings and the timeline *)

Definition ResetPeaks (w : World) : World := with_readings (w_last w) zeroReading (w_notes w) w.
Definition Peaks (w : World) : Reading := w_peak w.
Definition Last (w : World) : Reading := w_last w.
Definition SetKeyFetch (mode : string) (w : World) : World := with_keyFetch mode w.
Definition timeline (now : Time) (text : string) (w : World) : World := with_metrics (Timeline now text (w_metrics w)) w.

(** ** The control calls *)

Definition known_provider (p : Params) (provider : string) : bool := existsb (λ x, bool_decide (x = provider)) (P_Providers p).

(** [keys.SetFetch] of one tenant, by grid index. *)
Definition set_fetch_at (mode : Fetch) (now : Time) (i : nat) (w : World) : World :=
  with_tenants (alter (λ l, (set_fetch_section mode now l).2) i (w_tenants w)) w.
Definition pass_through (b : bool) : Fetch := if b then FetchPassThrough else FetchAsync.

Definition SetCache (now : Time) (provider : string) (b : bool) (w : World) : option err * World :=
  if negb (bool_decide (provider = "")) && negb (known_provider (w_P w) provider)
  then (Some (bad_fault ("unknown provider " +:+ quoted provider)), w)
  else (None, foldl (λ w i, if bool_decide (provider = "") || bool_decide (provider_of (w_P w) i = provider)
                            then set_fetch_at (pass_through (negb b)) now i w else w)
                w (seq 0 (length (w_ids w)))).

Definition fetch_mode (mode : string) : option (Fetch * string) :=
  if bool_decide (mode = "async") then Some (FetchAsync, "key fetch: async (the design that ships: renewals in the background, workers never wait on the KMS)")
  else if bool_decide (mode = "sync") then Some (FetchSync, "key fetch: sync (cache, lease and bulkheads kept; the worker that finds a lease due fetches inline)")
  else if bool_decide (mode = "naive") then Some (FetchNaive, "key fetch: naive (no lease, no cache, no bulkheads: every seal and delivery is one inline KMS call)")
  else None.

Definition SetFetch (now : Time) (mode : string) (w : World) : option err * World :=
  match fetch_mode mode with
  | None => (Some (bad_fault ("unknown key-fetch mode " +:+ quoted mode)), w)
  | Some (f, line) =>
      let w := foldl (λ w i, set_fetch_at f now i w) w (seq 0 (length (w_ids w))) in
      (None, ResetPeaks (timeline now line (SetKeyFetch mode w)))
  end.

(** The scope of a request, the mode, and the latencies. *)
Definition fault_scope (f : FaultRequest) (w : World) : err + Scope :=
  if negb (bool_decide (fr_Provider f = "")) && negb (bool_decide (fr_Tenant f = "")) then inl (bad_fault "provider or tenant, not both")
  else if negb (bool_decide (fr_Provider f = "")) then
    if known_provider (w_P w) (fr_Provider f) then inr (mkScope (fr_Provider f) "")
    else inl (bad_fault ("unknown provider " +:+ quoted (fr_Provider f)))
  else if negb (bool_decide (fr_Tenant f = "")) then
    match index (w_ids w) (fr_Tenant f) with None => inl ErrUnknownTenant | Some idx => inr (mkScope "" (kek_id idx)) end
  else inl (bad_fault "provider or tenant required").

Definition fault_mode (m : string) : err + Mode :=
  if bool_decide (m = "") || bool_decide (m = "ok") then inr ModeOK
  else if bool_decide (m = "fast_fail") then inr ModeFastFail
  else inl (bad_fault ("unknown mode " +:+ quoted m)).

Definition fault_latency (f : FaultRequest) : err + (Z * Z) :=
  let p50 := fr_LatencyP50Ms f in
  let p99 := fr_LatencyP99Ms f in
  if (p50 <? 0) || (p99 <? 0) || F.lt (fr_ErrorRate f) (F.of_Z 0) || F.gt (fr_ErrorRate f) F.one
  then inl (bad_fault "latencies ≥ 0 and 0 ≤ error_rate ≤ 1")
  else if (0 <? p99) && (p50 =? 0) then inl (bad_fault "latency_p99_ms needs latency_p50_ms")
  else
    let p99 := if (0 <? p50) && (p99 =? 0) then p50 else p99 in
    if p99 <? p50 then inl (bad_fault "latency_p99_ms < latency_p50_ms") else inr (p50, p99).

Definition ms_dur (ms : Z) : Duration := wrap64 (ms * Millisecond).

Definition Fault_ (f : FaultRequest) (w : World) : option err * World :=
  match fault_scope f w with
  | inl e => (Some e, w)
  | inr scope =>
      match fault_mode (fr_Mode f) with
      | inl e => (Some e, w)
      | inr mode =>
          match fault_latency f with
          | inl e => (Some e, w)
          | inr (p50, p99) => (None, with_kms (SetFault (w_kms w) scope (mkFault mode (ms_dur p50) (ms_dur p99) (fr_ErrorRate f))) w)
          end
      end
  end.

Definition set_mult (idx : nat) (x : float64) (w : World) : option World :=
  g ← SetMultiplier idx x (w_gen w); Some (with_gen g w).
Definition set_global (x : float64) (w : World) : World := with_gen (SetGlobal x (w_gen w)) w.

Definition Surge (tenant : string) (x : float64) (w : World) : option (option err * World) :=
  if bool_decide (tenant = "") then Some (None, set_global x w)
  else match index (w_ids w) tenant with
       | None => Some (Some ErrUnknownTenant, w)
       | Some idx => w' ← set_mult idx x w; Some (None, w')
       end.

Definition revoke_key (now : Time) (idx : nat) (w : World) : World := with_kms (Revoke (w_kms w) (kek_id idx) now) w.
Definition restore_key (now : Time) (idx : nat) (w : World) : World := with_kms (Restore (w_kms w) (kek_id idx) now) w.

(** ** Viewers and idling *)

(** [watcher.Viewers]. *)
Definition watch (now : Time) (n : Z) (w : World) : option World :=
  if n =? 0 then
    let w := with_idle (Time.UnixMilli now) w in
    g ← SetRunning false (w_gen w); Some (with_gen g w)
  else
    g ← SetRunning true (w_gen w); Some (with_idle 0 (with_gen g w)).

Definition IdleFor (now : Time) (w : World) : Duration :=
  if w_idleSince w =? 0 then 0 else Time.Sub now (Time.ofUnixMilli (w_idleSince w)).

(** [band]: the grid indexes of one provider. *)
Definition band (provider : string) (w : World) : list nat :=
  filter (λ i, provider_of (w_P w) i = provider) (seq 0 (length (w_ids w))).

(** [gridAdapter.States]: the lock-free cells, as bytes. *)
Definition state_code (s : State) : Z := match s with Active => 0 | RidingThrough => 1 | KeyUnavailable => 2 | Revoked => 3 end.
Definition grid_states (w : World) : list Z := state_code <$> (l_cell <$> w_tenants w).

(** [auditBridge.Audit]: the core's entry as the registry's. *)
Definition class_code (c : Class_) : Z := match c with OK => 0 | Transient => 1 | Deny => 2 | Poison => 3 end.
Definition bridge (e : Cmek.Audit) (w : World) : World :=
  let idx := match index (w_ids w) (Cmek.a_Tenant e) with Some i => Z.of_nat i | None => -1 end in
  with_metrics (Audit_ (Metrics.mkAudit (Cmek.a_At e) idx (Cmek.a_Op e) (Cmek.a_Outcome e) (Cmek.a_Detail e) (class_code (Cmek.a_Class e))
                          (state_code (Cmek.a_From e)) (state_code (Cmek.a_To e)) (Cmek.a_Latency e) (Cmek.a_Purged e)) (w_metrics w)) w.

(** ** The sweep *)

(** The calls of one sweep turn at [now], and the two stamps it carries. *)
Inductive sweep_call := SweepTick (now : Time) | SweepReclaim (now : Time) | SweepExpire (before : Time) (limit : Z).
Definition sweep_turn (p : Params) (now : Time) (stamps : Time * Time) : list sweep_call * (Time * Time) :=
  let '(lastReclaim, lastExpire) := stamps in
  let reclaim := P_ReclaimInterval p <=? Time.Sub now lastReclaim in
  let expire := (0 <? P_Retention p) && (P_ExpireInterval p <=? Time.Sub now lastExpire) in
  (SweepTick now :: (if reclaim then [SweepReclaim now] else [])
     ++ (if expire then [SweepExpire (Time.Add now (- P_Retention p)) (P_ExpireLimit p)] else []),
   (if reclaim then now else lastReclaim, if expire then now else lastExpire))%list.
End World.
