(* ===== verification/Scenarios.v ===== *)
(** * internal/world/scenarios.go: the scripted faults and surges

    The eight scenarios, [StartScenario], [StopScenario], the signal of a restore,
    and the runner goroutine ([run] and [tail]) as a step machine.  What a runner
    does between two waits is one step (a phase's entry with its card; the exit
    with the summary and the tail's start; a poll), but for the end, where the
    freeing of the slot, the clearing of the targets and that of the card are
    three steps: the calls of other clients interleave between steps. *)

From S2P Require Import Prelude GoLib GoFloat Kms Tink KmsModel Fake Lease Cmek Tenant Prog Manager Api.
From S2P Require Import Store Ingest Generator Params Metrics World.
Local Open Scope string_scope.
Local Open Scope Z_scope.

Definition ErrBusy : err := Sentinel "world.ErrBusy" "world: scenario running".
Definition ErrUnknownScenario : err := Sentinel "world.ErrUnknownScenario" "world: unknown scenario".

Section Scenarios.
Context `{TK : Tink} `{MR : MapRange} `{FM : Fmt}.

(** ** The cards *)

(** [ph_enter] is the closure; [None] is an index out of range. *)
Record phase := mkPhase { ph_name : string; ph_dur : Duration; ph_enter : Time → World → option World }.

(** [s_targets] is the declared set, evaluated at Start. *)
Record scenario := mkScenario {
  s_name : string; s_scope : string; s_marker : string; s_targets : World → option (list nat); s_phases : list phase;
  s_exit : Time → World → option World; s_summary : option (Time → World → World) }.

(** [rank(r)]: clamped to the ranks there are. *)
Definition rank (r : Z) (w : World) : option nat :=
  let n := Z.of_nat (length (w_byRank w)) in
  let r := if r <? 1 then 1 else r in
  let r := if n <? r then n else r in
  if r <? 1 then None else w_byRank w !! Z.to_nat (r - 1).

(** [fault(f)]: a refused request is only logged. *)
Definition fault (f : FaultRequest) (w : World) : World := (Fault_ f w).2.
Definition plain (provider mode : string) : FaultRequest := mkFaultRequest provider "" mode 0 0 (F.of_Z 0).

Definition latencyAll (b : bool) (w : World) : World :=
  let p := w_P w in
  foldl (λ w prov, fault (if b then mkFaultRequest prov "" "" (Z.quot (P_NoCacheKMSP50 p) Millisecond)
                                     (Z.quot (P_NoCacheKMSP99 p) Millisecond) (F.of_Z 0)
                          else plain prov "") w) w (P_Providers p).
Definition withLatency (prov mode : string) (w : World) : World :=
  let p := w_P w in
  fault (mkFaultRequest prov "" mode (Z.quot (P_NoCacheKMSP50 p) Millisecond) (Z.quot (P_NoCacheKMSP99 p) Millisecond) (F.of_Z 0)) w.

Definition total (ts : list Duration) : Duration := foldl dur_add 0 ts.
Definition times_sign : string := "×".

Definition tenant_surge (surge : nat) (p : Params) : scenario :=
  let id := tenant_id surge in
  mkScenario "tenant_surge" id
    ("scenario tenant_surge started: " +:+ id +:+ " " +:+ times_sign +:+ fmt_g (P_TenantSurgeMult p) +:+ " for " +:+ fmt_dur (P_TenantSurgeFor p))
    (λ _, Some [surge])
    [mkPhase "surge" (P_TenantSurgeFor p) (λ _, set_mult surge (P_TenantSurgeMult p))]
    (λ _, set_mult surge F.one) None.

(** [w.byRank[:top]]; a negative [top] panics. *)
Definition top_ranks (w : World) : option (list nat) :=
  let top := Z.min (P_GlobalSurgeAffectedTop (w_P w)) (Z.of_nat (length (w_byRank w))) in
  if top <? 0 then None else Some (take (Z.to_nat top) (w_byRank w)).
Definition top_scope (p : Params) (n : nat) : string := "top " +:+ Itoa (Z.min (P_GlobalSurgeAffectedTop p) (Z.of_nat n)).

Definition global_surge (n : nat) (p : Params) : scenario :=
  mkScenario "global_surge" (top_scope p n)
    ("scenario global_surge started: every tenant " +:+ times_sign +:+ fmt_g (P_GlobalSurgeMult p) +:+ " for " +:+ fmt_dur (P_GlobalSurgeFor p))
    top_ranks
    [mkPhase "surge" (P_GlobalSurgeFor p) (λ _ w, Some (set_global (P_GlobalSurgeMult p) w))]
    (λ _ w, Some (set_global F.one w)) None.

Definition outage (name : string) (dur : Duration) (p : Params) : scenario :=
  let out := P_OutageProvider p in
  mkScenario name out
    ("scenario " +:+ name +:+ " started: " +:+ out +:+ " fast-fail for " +:+ fmt_dur dur)
    (λ w, Some (band out w))
    [mkPhase "fault" dur (λ _ w, Some (fault (plain out "fast_fail") w))]
    (λ _ w, Some (fault (plain out "ok") w)) None.

Definition slow_kms (p : Params) : scenario :=
  let slow := P_SlowProvider p in
  mkScenario "slow_kms" slow
    ("scenario slow_kms started: " +:+ slow +:+ " p50 " +:+ fmt_dur (P_SlowP50 p) +:+ " / p99 " +:+ fmt_dur (P_SlowP99 p) +:+ " for " +:+ fmt_dur (P_SlowFor p))
    (λ w, Some (band slow w))
    [mkPhase "slow" (P_SlowFor p) (λ _ w,
       Some (fault (mkFaultRequest slow "" "" (Z.quot (P_SlowP50 p) Millisecond) (Z.quot (P_SlowP99 p) Millisecond) (F.of_Z 0)) w))]
    (λ _ w, Some (fault (plain slow "ok") w)) None.

Definition calls_of (prov : string) (r : Reading) : float64 := default (F.of_Z 0) (rd_ProviderCallsPS r !! prov).

Definition no_cache (p : Params) : scenario :=
  let prov := P_NoCacheProvider p in
  let first := default "" (P_Providers p !! 0%nat) in
  let other := if bool_decide (first = prov) && (1 <? length (P_Providers p))%nat then default "" (P_Providers p !! 1%nat) else first in
  let dur := fmt_dur (total [P_NoCacheFor p; P_NoCacheBlip p; P_NoCacheAfter p]) in
  mkScenario "no_cache" prov
    ("scenario no_cache started: " +:+ prov +:+ " tenants run without the key cache for " +:+ dur
     +:+ "; every event is two KMS calls; all providers at p50 " +:+ fmt_dur (P_NoCacheKMSP50 p))
    (λ w, Some (band prov w))
    [mkPhase "cache_off" (P_NoCacheFor p) (λ now w,
       let n := w_notes w in
       let w := with_readings (w_last w) (w_peak w) (mkNotes (F.of_Z 0) (F.of_Z 0) (F.of_Z 0) (F.of_Z 0) 0 (lead n) (surged n)) w in
       Some (ResetPeaks (SetCache now prov false (latencyAll true w)).2));
     mkPhase "blip" (P_NoCacheBlip p) (λ now w,
       let pk := Peaks w in
       let n := w_notes w in
       let n := mkNotes (calls_of prov pk) (calls_of other pk) (rd_AffectedP99Ms pk) (rd_HealthyP99Ms pk) (parked n) (lead n) (surged n) in
       Some (withLatency prov "fast_fail" (ResetPeaks (with_readings (w_last w) (w_peak w) n w))));
     mkPhase "cache_off" (P_NoCacheAfter p) (λ now w,
       let n := w_notes w in
       let n := mkNotes (bandCalls n) (otherCalls n) (bandP99 n) (healthyP99 n) (default 0 (rd_ByState (Peaks w) !! 2%nat)) (lead n) (surged n) in
       let w := withLatency prov "ok" (with_readings (w_last w) (w_peak w) n w) in
       Some (timeline now ("no cache: the " +:+ prov +:+ " blip parked " +:+ Itoa (parked n)
         +:+ " tenants KEY_UNAVAILABLE, each on its first event (with the cache: a yellow ride-through, no 503)") w))]
    (λ now w, Some (latencyAll false (SetCache now prov true w).2))
    (Some (λ now w,
       let n := w_notes w in
       timeline now ("no cache (" +:+ prov +:+ ", " +:+ dur +:+ "): KMS calls peaked at " +:+ prov +:+ " " +:+ fmt_f0 (bandCalls n)
         +:+ "/s vs " +:+ other +:+ " " +:+ fmt_f0 (otherCalls n) +:+ "/s · p99 peaked at " +:+ fmt_f0 (bandP99 n)
         +:+ " ms affected vs " +:+ fmt_f0 (healthyP99 n) +:+ " ms healthy · blip: " +:+ Itoa (parked n) +:+ " tenants KEY_UNAVAILABLE") w)).

(** [inflightText]: in provider order. *)
Fixpoint inflightText (providers : list string) (m : gmap string Z) : string :=
  match providers with
  | [] => ""
  | [p] => p +:+ " " +:+ Itoa (default 0 (m !! p))
  | p :: ps => p +:+ " " +:+ Itoa (default 0 (m !! p)) +:+ " " +:+ inflightText ps m
  end.

Definition no_cache_surge (n : nat) (p : Params) : scenario :=
  let dur := fmt_dur (total [P_NoCacheSurgeLead p; P_NoCacheSurgeFor p; P_NoCacheSurgeAfter p]) in
  let capacity := F.div (F.of_Z (P_Workers p)) (seconds (Z.quot (dur_add (P_SinkLatencyMin p) (P_SinkLatencyMax p)) 2)) in
  mkScenario "no_cache_surge" (top_scope p n)
    ("scenario no_cache_surge started: every tenant runs without the key cache for " +:+ dur +:+ " at p50 " +:+ fmt_dur (P_NoCacheKMSP50 p)
     +:+ "; the global surge (" +:+ times_sign +:+ fmt_g (P_GlobalSurgeMult p) +:+ ") starts at " +:+ fmt_dur (P_NoCacheSurgeLead p))
    top_ranks
    [mkPhase "cache_off" (P_NoCacheSurgeLead p) (λ now w,
       let n := w_notes w in
       let n := mkNotes (bandCalls n) (otherCalls n) (bandP99 n) (healthyP99 n) (parked n) zeroReading zeroReading in
       Some (ResetPeaks (SetCache now "" false (latencyAll true (with_readings (w_last w) (w_peak w) n w))).2));
     mkPhase "surge" (P_NoCacheSurgeFor p) (λ now w,
       let n := w_notes w in
       let n := mkNotes (bandCalls n) (otherCalls n) (bandP99 n) (healthyP99 n) (parked n) (Last w) (surged n) in
       let w := with_readings (w_last w) (w_peak w) n w in
       let w := timeline now ("no cache (everyone): delivered " +:+ fmt_f0 (rd_DeliveredPS (lead n)) +:+ "/s at " +:+ fmt_f0 (rd_AcceptedPS (lead n))
         +:+ "/s accepted (capacity " +:+ fmt_f0 capacity +:+ "/s with the cache) · KMS calls " +:+ fmt_f0 (rd_KMSCallsPS (lead n))
         +:+ "/s · backlog " +:+ Itoa (rd_Backlog (lead n)) +:+ " and climbing") w in
       Some (set_global (P_GlobalSurgeMult p) (ResetPeaks w)));
     mkPhase "cache_off" (P_NoCacheSurgeAfter p) (λ now w,
       let n := w_notes w in
       let n := mkNotes (bandCalls n) (otherCalls n) (bandP99 n) (healthyP99 n) (parked n) (lead n) (Peaks w) in
       let w := set_global F.one (with_readings (w_last w) (w_peak w) n w) in
       Some (timeline now ("no cache + " +:+ times_sign +:+ fmt_g (P_GlobalSurgeMult p) +:+ " surge, peaks: KMS calls " +:+ fmt_f0 (rd_KMSCallsPS (surged n))
         +:+ "/s · in flight " +:+ inflightText (P_Providers p) (rd_Inflight (surged n)) +:+ " · backlog " +:+ Itoa (rd_Backlog (surged n))
         +:+ " · end-to-end p99 " +:+ fmt_f0 (F.div (rd_AffectedP99Ms (surged n)) (F.of_Z 1000)) +:+ " s · delivered never above "
         +:+ fmt_f0 (rd_DeliveredPS (surged n)) +:+ "/s (with the cache: delivered ≈ " +:+ fmt_f0 capacity +:+ "/s, KMS ≤ 70/s, backlog under its cap)") w))]
    (λ now w, Some (latencyAll false (SetCache now "" true (set_global F.one w)).2))
    (Some (λ now w,
       let n := w_notes w in
       timeline now ("no cache (everyone, " +:+ dur +:+ "): delivered " +:+ fmt_f0 (rd_DeliveredPS (lead n)) +:+ "/s before the surge at "
         +:+ fmt_f0 (rd_AcceptedPS (lead n)) +:+ "/s accepted, never above " +:+ fmt_f0 (rd_DeliveredPS (surged n)) +:+ "/s during it (capacity "
         +:+ fmt_f0 capacity +:+ "/s) · KMS calls " +:+ fmt_f0 (rd_KMSCallsPS (lead n)) +:+ "/s, peak " +:+ fmt_f0 (rd_KMSCallsPS (surged n)) +:+ "/s") w)).

(** [rankOf]. *)
Definition rankOf (idx : nat) (w : World) : Z :=
  match list_find (λ i, i = idx) (w_byRank w) with Some (r, _) => Z.of_nat r + 1 | None => 0 end.

Definition key_revocation (rev : nat) (rk : Z) : scenario :=
  let id := tenant_id rev in
  mkScenario "key_revocation" id
    ("scenario key_revocation started: " +:+ id +:+ " KEK disabled (rank " +:+ Itoa rk +:+ "); Restore ends it")
    (λ _, Some [rev])
    [mkPhase "revoked" 0 (λ now w, Some (revoke_key now rev w))]
    (λ now w, Some (restore_key now rev w)) None.

(** [s.defs[name]]. *)
Definition defs (w : World) (name : string) : option scenario :=
  let p := w_P w in
  let n := length (w_byRank w) in
  if bool_decide (name = "tenant_surge") then surge ← rank (P_SurgeTenantRank p) w; Some (tenant_surge surge p)
  else if bool_decide (name = "global_surge") then Some (global_surge n p)
  else if bool_decide (name = "provider_blip") then Some (outage "provider_blip" (P_OutageBlip p) p)
  else if bool_decide (name = "provider_outage") then Some (outage "provider_outage" (P_OutageLong p) p)
  else if bool_decide (name = "slow_kms") then Some (slow_kms p)
  else if bool_decide (name = "no_cache") then Some (no_cache p)
  else if bool_decide (name = "no_cache_surge") then Some (no_cache_surge n p)
  else if bool_decide (name = "key_revocation") then rev ← rank (P_RevokeTenantRank p) w; Some (key_revocation rev (rankOf rev w))
  else None.

(** ** The runner *)

(** Where a run is: waiting in phase [i] (until [t] when timed), past its last
    wait with the exit to run, in the tail (polls from [last]), or about to free
    the slot, clear the targets, clear the card. *)
Inductive rpc :=
  | RWait (i : nat) (t : option Time)
  | RExit (cancelled : bool)
  | RTail (start : Time) (openEnded : bool) (last : Time)
  | RFree
  | RClear
  | RCard.

(** A runner goroutine: its scenario, its context and its signal channel (a
    buffer of one). *)
Record runner := mkRunner { rn_sc : scenario; rn_pc : rpc; rn_ctx : bool; rn_sig : bool }.

(** The World with the [scenarios] record: [c_cur] names the run that holds the
    slot (cur, cancel, done and signal are set and cleared together). *)
Record cworld := mkCworld {
  c_world : World; c_cur : option nat; c_target : Z; c_stopping : bool; c_runs : gmap nat runner; c_nextrun : nat }.

Definition with_world (w : World) (c : cworld) : cworld :=
  mkCworld w (c_cur c) (c_target c) (c_stopping c) (c_runs c) (c_nextrun c).
Definition with_run (id : nat) (r : runner) (c : cworld) : cworld :=
  mkCworld (c_world c) (c_cur c) (c_target c) (c_stopping c) (<[id := r]> (c_runs c)) (c_nextrun c).
Definition set_pc (pc : rpc) (r : runner) : runner := mkRunner (rn_sc r) pc (rn_ctx r) (rn_sig r).
Definition cancel_ctx (r : runner) : runner := mkRunner (rn_sc r) (rn_pc r) true (rn_sig r).
Definition set_sig (b : bool) (r : runner) : runner := mkRunner (rn_sc r) (rn_pc r) (rn_ctx r) b.

Definition deadline (now : Time) (dur : Duration) : option Time := if 0 <? dur then Some (Time.Add now dur) else None.

(** The card of a phase: the countdown's end, or the zero time. *)
Definition card (now : Time) (sc : scenario) (ph : phase) (w : World) : World :=
  with_metrics (SetScenario now (s_name sc) (ph_name ph) (default 0 (deadline now (ph_dur ph))) (w_metrics w)) w.

Definition set_targets (ts : list nat) (w : World) : option World :=
  r ← SetTargets (Z.of_nat <$> ts) (w_metrics w); Some (with_metrics r w).
Definition clear_targets (w : World) : option World := r ← ClearTargets (w_metrics w); Some (with_metrics r w).

(** [newScenarios]: what building the table indexes; the record starts idle. *)
Definition newScenarios (w : World) : option cworld :=
  surge ← rank (P_SurgeTenantRank (w_P w)) w; _ ← w_ids w !! surge; _ ← P_Providers (w_P w) !! 0%nat;
  rev ← rank (P_RevokeTenantRank (w_P w)) w; _ ← w_ids w !! rev;
  Some (mkCworld w None 0 false ∅ 0).

(** [StartScenario], in one critical section; [None] is a panic. *)
Definition StartScenario (now : Time) (name : string) (c : cworld) : option (option err * cworld) :=
  if bool_decide (is_Some (c_cur c)) || c_stopping c then Some (Some ErrBusy, c)
  else match defs (c_world c) name with
  | None => Some (Some ErrUnknownScenario, c)
  | Some sc =>
      ts ← s_targets sc (c_world c);
      let target := match ts with [t] => if bool_decide (name = "key_revocation") then Z.of_nat t else -1 | _ => -1 end in
      w ← set_targets ts (c_world c);
      first ← s_phases sc !! 0%nat;
      w ← ph_enter first now w;
      let w := timeline now (s_marker sc) (card now sc first w) in
      let id := c_nextrun c in
      Some (None, mkCworld w (Some id) target (c_stopping c)
                    (<[id := mkRunner sc (RWait 0 (deadline now (ph_dur first))) false false]> (c_runs c)) (S id))
  end.

(** [StopScenario] cancels the current run; its wait for [done] is the run's end. *)
Definition StopScenario (c : cworld) : string * cworld :=
  match c_cur c with
  | None => ("", c)
  | Some id =>
      match c_runs c !! id with
      | Some r => (s_name (rn_sc r), with_run id (cancel_ctx r) c)
      | None => ("", c)
      end
  end.

(** [World.Stop], as far as the scenarios go: no run may start, every context is
    cancelled. *)
Definition Stop (c : cworld) : cworld :=
  mkCworld (c_world c) (c_cur c) (c_target c) true (cancel_ctx <$> c_runs c) (c_nextrun c).

(** [scenarios.restore]: a non-blocking send on the run's own channel. *)
Definition restore_signal (idx : nat) (c : cworld) : cworld :=
  match c_cur c with
  | None => c
  | Some id =>
      match c_runs c !! id with
      | Some r => if bool_decide (s_name (rn_sc r) = "key_revocation") && (c_target c =? Z.of_nat idx)
                  then with_run id (set_sig true r) c else c
      | None => c
      end
  end.

(** [SetKey]. *)
Definition SetKey (now : Time) (tenant action : string) (c : cworld) : option err * cworld :=
  match index (w_ids (c_world c)) tenant with
  | None => (Some ErrUnknownTenant, c)
  | Some idx =>
      if bool_decide (action = "revoke") then (None, with_world (revoke_key now idx (c_world c)) c)
      else if bool_decide (action = "restore") then (None, restore_signal idx (with_world (restore_key now idx (c_world c)) c))
      else (Some (bad_fault ("unknown action " +:+ quoted action)), c)
  end.

(** What the runner waits for, and the step it takes between waits. *)
Inductive wake := EvTimer | EvSignal | EvCancel | EvGo.

(** The next phase's entry, or the way out. *)
Definition next_phase (now : Time) (id : nat) (r : runner) (i : nat) (c : cworld) : option cworld :=
  match s_phases (rn_sc r) !! S i with
  | None => Some (with_run id (set_pc (RExit false) r) c)
  | Some ph =>
      w ← ph_enter ph now (c_world c);
      Some (with_run id (set_pc (RWait (S i) (deadline now (ph_dur ph))) r) (with_world (card now (rn_sc r) ph w) c))
  end.

(** The text of the restored line. *)
Definition restored_line (sc : scenario) (n : nat) (rec_ drain : Duration) (ok : bool) (max_ : Duration) : string :=
  if ok then s_scope sc +:+ " restored: " +:+ Itoa (Z.of_nat n) +:+ " tenants ACTIVE in " +:+ fmt_f1 (seconds rec_)
             +:+ " s, backlog drained in " +:+ fmt_f1 (seconds drain) +:+ " s"
  else if 0 <? rec_ then s_scope sc +:+ " restored: " +:+ Itoa (Z.of_nat n) +:+ " tenants ACTIVE in " +:+ fmt_f1 (seconds rec_)
             +:+ " s, backlog not drained within " +:+ fmt_dur max_
  else s_scope sc +:+ " not restored: targets still degraded after " +:+ fmt_dur max_.

(** One poll of [tail]: the new world, and whether the tail goes on (with
    [openEnded]) or ends.  The targets were evaluated at the start and do not
    change. *)
Definition tail_poll (now start : Time) (openEnded : bool) (sc : scenario) (w : World) : World * option bool :=
  let '(rec_, drain, ok) := Recovered (w_metrics w) in
  let el := Time.Sub now start in
  let opens := negb openEnded && (P_ScenarioTailMin (w_P w) <=? el) in
  let w := if opens then with_metrics (SetScenario now (s_name sc) "recovery" 0 (w_metrics w)) w else w in
  if (ok && (P_ScenarioTailMin (w_P w) <=? el)) || (P_ScenarioTailMax (w_P w) <=? el)
  then (timeline now (restored_line sc (length (default [] (s_targets sc w))) rec_ drain ok (P_ScenarioTailMax (w_P w))) w, None)
  else (w, Some (openEnded || opens)).

(** The start of [tail]. *)
Definition tail_start (now : Time) (sc : scenario) (w : World) : World :=
  let w := with_metrics (SetCleared now (w_metrics w)) w in
  with_metrics (SetScenario now (s_name sc) "recovery" (Time.Add now (P_ScenarioTailMin (w_P w))) (w_metrics w)) w.

(** One step of runner [id]; the outer [None] says it cannot take that step now,
    the inner one is a panic. *)
Definition run_step (now : Time) (id : nat) (e : wake) (c : cworld) : option (option cworld) :=
  r ← c_runs c !! id;
  let sc := rn_sc r in
  match rn_pc r, e with
  | RWait i (Some t), EvTimer => if t <=? now then Some (next_phase now id r i c) else None
  | RWait i None, EvSignal => if rn_sig r then Some (next_phase now id (set_sig false r) i c) else None
  | RWait i _, EvCancel => if rn_ctx r then Some (Some (with_run id (set_pc (RExit true) r) c)) else None
  | RExit cancelled, EvGo =>
      Some (w ← s_exit sc now (c_world c);
            if cancelled : bool then Some (with_run id (set_pc RFree r) (with_world w c))
            else
              let w := match s_summary sc with Some f => f now w | None => w end in
              Some (with_run id (set_pc (RTail now false now) r) (with_world (tail_start now sc w) c)))
  | RTail _ _ _, EvCancel => if rn_ctx r then Some (Some (with_run id (set_pc RFree r) c)) else None
  | RTail start oe last, EvTimer =>
      if Time.Add last (P_SnapshotInterval (w_P (c_world c))) <=? now then
        let '(w, go) := tail_poll now start oe sc (c_world c) in
        Some (Some (with_run id (set_pc (match go with Some oe => RTail start oe now | None => RFree end) r) (with_world w c)))
      else None
  | RFree, EvGo =>
      let c := with_run id (set_pc RClear r) c in
      Some (Some (mkCworld (c_world c) None (c_target c) (c_stopping c) (c_runs c) (c_nextrun c)))
  | RClear, EvGo => Some (w ← clear_targets (c_world c); Some (with_run id (set_pc RCard r) (with_world w c)))
  | RCard, EvGo =>
      let w := with_metrics (SetScenario now "" "" 0 (w_metrics (c_world c))) (c_world c) in
      Some (Some (mkCworld w (c_cur c) (c_target c) (c_stopping c) (delete id (c_runs c)) (c_nextrun c)))
  | _, _ => None
  end.
End Scenarios.
