(* ===== verification/Footprint.v ===== *)
(** * What a scenario touches

    A footprint names the faults, rates, keys and key-fetch designs a scenario
    may leave changed while it runs.  Each of the eight scenarios stays within
    its footprint and its exit leaves nothing of it. *)

From S2P Require Import Prelude GoLib GoFloat Kms Tink KmsModel Fake Lease Cmek Tenant Prog Manager Api.
From S2P Require Import Store Ingest Generator Params Metrics World Scenarios.
Local Open Scope string_scope.
Local Open Scope Z_scope.

Section Footprint.
Context `{TK : Tink} `{MR : MapRange} `{FM : Fmt}.

(** ** Setup and neutral changes *)

(** The generator's pause state. *)
Definition gate (g : Generator) : bool * nat * gset nat * nat := (on g, running g, closed_chans g, fresh_chan g).

(** The parameters, the tenants' names and ranks are those of [New], and traffic
    runs or rests as before. *)
Definition same_setup (w w' : World) : Prop :=
  w_P w' = w_P w ∧ w_ids w' = w_ids w ∧ w_byRank w' = w_byRank w ∧ w_idleSince w' = w_idleSince w ∧ gate (w_gen w') = gate (w_gen w).

(** A change of readings, notes and metrics only. *)
Definition neutral (w w' : World) : Prop :=
  same_setup w w' ∧ w_kms w' = w_kms w ∧ w_tenants w' = w_tenants w ∧ w_gen w' = w_gen w.

#[export] Instance same_setup_pre : PreOrder same_setup.
Proof. split; [by intros w|]. intros a b c (?&?&?&?&?) (?&?&?&?&?). repeat split; congruence. Qed.
#[export] Instance neutral_pre : PreOrder neutral.
Proof. split; [by intros w|]. intros a b c (?&?&?&?) (?&?&?&?). split; [by etrans|]. repeat split; congruence. Qed.

Lemma neutral_setup w w' : neutral w w' → same_setup w w'.
Proof. by intros []. Qed.

Lemma neutral_metrics r w : neutral w (with_metrics r w).
Proof. done. Qed.
Lemma neutral_readings a b n w : neutral w (with_readings a b n w).
Proof. done. Qed.

(** ** Footprints *)

(** Providers whose fault may differ, the tenant whose rate may, whether the
    global rate may, the key that may be disabled, and the provider whose
    tenants may run without the cache (the empty name: all). *)
Record footprint := mkFootprint {
  fp_prov : string → bool; fp_mult : option nat; fp_global : bool; fp_kek : option string; fp_fetch : option string }.
Definition no_footprint : footprint := mkFootprint (λ _, false) None false None None.

Definition fetch_touched (E : footprint) (w : World) (i : nat) : Prop :=
  ∃ p, fp_fetch E = Some p ∧ (p = "" ∨ provider_of (w_P w) i = p).

Record except (E : footprint) (w : World) : Prop := mkExcept {
  ex_prov : ∀ p f, provFaults (w_kms w) !! p = Some f → fp_prov E p = true ∧ p ≠ "" ∧ known_provider (w_P w) p = true;
  ex_kekf : kekFaults (w_kms w) = ∅;
  ex_keks : ∀ k x, keks (w_kms w) !! k = Some x → k_enabled x = true ∨ fp_kek E = Some k;
  ex_mult : ∀ i x, mult (w_gen w) !! i = Some x → x = F.one ∨ fp_mult E = Some i;
  ex_global : global (w_gen w) = F.one ∨ fp_global E = true;
  ex_fetch : ∀ i l, w_tenants w !! i = Some l → t_fetch (l_t l) = FetchAsync ∨ fetch_touched E w i;
  ex_size : length (w_tenants w) = length (w_ids w) }.

(** Calm: no fault injected, every key enabled, every rate at its baseline, and
    every tenant on the design that ships. *)
Definition calm_world : World → Prop := except no_footprint.

Lemma except_neutral E w w' : neutral w w' → except E w → except E w'.
Proof.
  intros ((HP & Hi & _) & Hk & Ht & Hg) []. split; rewrite ?Hk, ?Ht, ?Hg, ?HP, ?Hi; try done.
  intros i l Hl. unfold fetch_touched. rewrite HP. eauto.
Qed.

Lemma except_mono E w : calm_world w → except E w.
Proof.
  intros [Hp Hkf Hk Hm Hg Hf Hs]. split; try done.
  - intros p f H. by destruct (Hp p f H) as [? _].
  - intros k x H. destruct (Hk k x H) as [?|?]; [by left|done].
  - intros i x H. destruct (Hm i x H) as [?|?]; [by left|done].
  - destruct Hg; [by left|done].
  - intros i l H. destruct (Hf i l H) as [?|(p & ? & _)]; [by left|done].
Qed.
(** ** One call *)

Lemma Fault_cases f w :
  (Fault_ f w).2 = w ∨
  ∃ s m p50 p99, fault_scope f w = inr s ∧ fault_mode (fr_Mode f) = inr m ∧ fault_latency f = inr (p50, p99) ∧
    (Fault_ f w).2 = with_kms (SetFault (w_kms w) s (mkFault m (ms_dur p50) (ms_dur p99) (fr_ErrorRate f))) w.
Proof.
  unfold Fault_. destruct (fault_scope f w) as [e|s]; [by left|]. destruct (fault_mode _) as [e|m]; [by left|].
  destruct (fault_latency f) as [e|[a b]]; [by left|]. right. by eexists _, _, _, _.
Qed.

(** The scope of a request that names a provider only. *)
Lemma fault_scope_provider f w s : fr_Tenant f = "" → fault_scope f w = inr s →
  s = mkScope (fr_Provider f) "" ∧ fr_Provider f ≠ "" ∧ known_provider (w_P w) (fr_Provider f) = true.
Proof.
  intros Ht. unfold fault_scope. rewrite Ht. rewrite (bool_decide_eq_true_2 (@eq string "" "")) by done.
  rewrite andb_false_r. case_bool_decide as Hp; [done|]. cbn [negb].
  destruct (known_provider _ _); [|done]. by intros [= <-].
Qed.

Lemma fault_setup f w : same_setup w (fault f w).
Proof. unfold fault. destruct (Fault_cases f w) as [->|(s & m & a & b & _ & _ & _ & ->)]; done. Qed.

Lemma fault_except E f w : fr_Tenant f = "" → fp_prov E (fr_Provider f) = true → except E w → except E (fault f w).
Proof.
  intros Ht Hp Hw. unfold fault. destruct (Fault_cases f w) as [->|(s & m & a & b & Hs & _ & _ & ->)]; [done|].
  destruct (fault_scope_provider f w s Ht Hs) as (-> & Hne & Hk). destruct Hw. split; try done.
  unfold with_kms, SetFault. cbn [w_kms s_KEKID s_Provider w_P].
  rewrite bool_decide_eq_true_2 by done. cbn [negb provFaults]. intros p f' H. destruct (Fault_IsZero _).
  - apply lookup_delete_Some in H as [_ H]. eauto.
  - destruct (decide (p = fr_Provider f)) as [->|Hne']; [done|]. rewrite lookup_insert_ne in H by done. eauto.
Qed.

(** A plain request in mode ok clears a known provider. *)
Lemma fault_plain_clears E prov m w : m = "" ∨ m = "ok" → except E w →
  except (mkFootprint (λ p, fp_prov E p && negb (bool_decide (p = prov))) (fp_mult E) (fp_global E) (fp_kek E) (fp_fetch E))
    (fault (plain prov m) w).
Proof.
  intros Hm Hw. unfold fault.
  assert (fault_latency (plain prov m) = inr (0, 0)) as El by done.
  assert (fault_mode m = inr ModeOK) as Em by (destruct Hm as [->| ->]; done).
  unfold Fault_. rewrite El. cbn [fr_Mode plain]. rewrite Em.
  destruct (fault_scope (plain prov m) w) as [e|s] eqn:Hs; cbn [snd].
  - destruct Hw. split; try done. intros p f H. destruct (ex_prov0 p f H) as (Hf & Hne & Hk). split; [|done].
    cbn [fp_prov]. rewrite Hf. case_bool_decide as E'; [|done]. subst p. exfalso. revert Hs. unfold fault_scope. cbn [fr_Provider fr_Tenant plain].
    rewrite (bool_decide_eq_false_2 (prov = "")) by done. rewrite (bool_decide_eq_true_2 (@eq string "" "")) by done. cbn [negb andb]. by rewrite Hk.
  - destruct (fault_scope_provider (plain prov m) w s eq_refl Hs) as (-> & Hne & Hk). destruct Hw. split; try done.
    unfold with_kms, SetFault. cbn [w_kms s_KEKID s_Provider w_P fr_Provider plain].
    rewrite bool_decide_eq_true_2 by done. cbn [negb provFaults].
    assert (Fault_IsZero (mkFault ModeOK (ms_dur 0) (ms_dur 0) (fr_ErrorRate (plain prov m))) = true) as -> by done.
    intros p f H. apply lookup_delete_Some in H as [Hn H]. cbn [fp_prov].
    rewrite bool_decide_eq_false_2 by congruence. rewrite andb_true_r. eauto.
Qed.
Lemma latencyAll_setup b w : same_setup w (latencyAll b w).
Proof.
  unfold latencyAll. generalize (P_Providers (w_P w)) as ps. intros ps. generalize (w_P w) as p. intros p.
  revert w. induction ps as [|x ps IH]; intros w; [done|]. cbn [foldl]. etrans; [|apply IH]. apply fault_setup.
Qed.

Lemma latencyAll_on E w : (∀ p, fp_prov E p = true) → except E w → except E (latencyAll true w).
Proof.
  intros HE. unfold latencyAll. generalize (P_Providers (w_P w)) as ps. intros ps. generalize (w_P w) as p. intros p.
  revert w. induction ps as [|x ps IH]; intros w Hw; [done|]. cbn [foldl]. apply IH. by apply fault_except.
Qed.

(** The footprint less the providers of [ps]. *)
Definition less_prov (ps : list string) (E : footprint) : footprint :=
  mkFootprint (λ p, fp_prov E p && negb (bool_decide (p ∈ ps))) (fp_mult E) (fp_global E) (fp_kek E) (fp_fetch E).

(** Footprints compare by what they allow. *)
Lemma except_weaken E E' w :
  (∀ p, fp_prov E p = true → known_provider (w_P w) p = true → fp_prov E' p = true) →
  (∀ i, fp_mult E = Some i → fp_mult E' = Some i) → (fp_global E = true → fp_global E' = true) →
  (∀ k, fp_kek E = Some k → fp_kek E' = Some k) → (∀ p, fp_fetch E = Some p → fp_fetch E' = Some p) →
  except E w → except E' w.
Proof.
  intros H1 H2 H3 H4 H5 []. split; try done.
  - intros p f H. destruct (ex_prov0 p f H) as (?&?&?). eauto.
  - intros k x H. destruct (ex_keks0 k x H); auto.
  - intros i x H. destruct (ex_mult0 i x H); auto.
  - destruct ex_global0; auto.
  - intros i l H. destruct (ex_fetch0 i l H) as [?|(p & ? & ?)]; [by left|right]. exists p. auto.
Qed.

Lemma latencyAll_off E w : except E w →
  except (mkFootprint (λ _, false) (fp_mult E) (fp_global E) (fp_kek E) (fp_fetch E)) (latencyAll false w).
Proof.
  intros Hw. assert (∀ ps w, except E w → except (less_prov ps E)
    (foldl (λ w prov, fault (plain prov "") w) w ps)) as Hps.
  { intros ps. induction ps as [|x ps IH] using rev_ind; intros w' Hw'.
    - cbn. eapply except_weaken; [..|exact Hw']; try done. intros p H _. cbn. by rewrite H.
    - rewrite foldl_app. cbn [foldl]. eapply except_weaken; [..|apply fault_plain_clears, IH, Hw'; by left]; try done.
      cbn. intros p H _. apply andb_true_iff in H as [H Hx]. apply andb_true_iff in H as [H Hps].
      rewrite H. cbn. apply negb_true_iff, bool_decide_eq_false. apply negb_true_iff, bool_decide_eq_false in Hx, Hps.
      rewrite elem_of_app, list_elem_of_singleton. tauto. }
  eapply except_weaken; [..|apply Hps, Hw]; try done. intros p H Hk. exfalso. cbn in H.
  apply andb_true_iff in H as [_ H]. apply negb_true_iff, bool_decide_eq_false in H. apply H.
  rewrite (proj1 (latencyAll_setup false w)) in Hk. apply existsb_exists in Hk as (y & Hy & Hyp). apply bool_decide_eq_true in Hyp as ->.
  by apply list_elem_of_In.
Qed.
(** The footprint with no tenant's design touched, and so on. *)
Definition no_fetch (E : footprint) : footprint := mkFootprint (fp_prov E) (fp_mult E) (fp_global E) (fp_kek E) None.

Lemma purge_fetch t : t_fetch (purge t).2 = t_fetch t.
Proof.
  unfold purge. assert (∀ es n t, t_fetch (foldl purge_step (n, t) es).2 = t_fetch t) as H.
  { intros es. induction es as [|[k p] es IH]; intros n t'; [done|]. cbn. destruct (is_hot _); by rewrite IH. }
  specialize (H (range (t_deks t)) 0 t). by destruct (foldl _ _ _).
Qed.

Lemma set_fetch_section_sets mode now l : t_fetch (l_t (set_fetch_section mode now l).2) = mode.
Proof.
  unfold set_fetch_section. case_decide; [done|]. cbv zeta. destruct (_ && _); [|done].
  destruct (purge _) as [n t] eqn:E. apply (f_equal snd), (f_equal t_fetch) in E. rewrite purge_fetch in E.
  destruct (0 <? n); cbn in *; congruence.
Qed.

Lemma SetCache_setup now prov b w : same_setup w (SetCache now prov b w).2 ∧ w_kms (SetCache now prov b w).2 = w_kms w ∧
  w_gen (SetCache now prov b w).2 = w_gen w ∧ length (w_tenants (SetCache now prov b w).2) = length (w_tenants w).
Proof.
  unfold SetCache. destruct (_ && _); [done|]. cbn [snd]. generalize (seq 0 (length (w_ids w))) as js. intros js.
  induction js as [|i js IH] using rev_ind; [done|]. rewrite foldl_app. cbn [foldl].
  destruct (_ || _); [|done]. unfold set_fetch_at. cbn. by rewrite length_alter.
Qed.

(** Every tenant either is as it was or is one the call names, on its design. *)
Lemma SetCache_tenants now prov b w i l : w_tenants (SetCache now prov b w).2 !! i = Some l →
  (i < length (w_ids w))%nat →
  (prov = "" ∨ known_provider (w_P w) prov = true) ∧ (prov = "" ∨ provider_of (w_P w) i = prov) ∧
    t_fetch (l_t l) = pass_through (negb b) ∨
  w_tenants w !! i = Some l ∧ ¬ ((prov = "" ∨ known_provider (w_P w) prov = true) ∧ (prov = "" ∨ provider_of (w_P w) i = prov)).
Proof.
  unfold SetCache. intros H Hi. destruct (negb _ && negb _) eqn:Hb.
  { right. split; [done|]. apply andb_true_iff in Hb as [H1 H2].
    apply negb_true_iff, bool_decide_eq_false in H1. apply negb_true_iff in H2. intros [[?|?] _]; congruence. }
  assert (prov = "" ∨ known_provider (w_P w) prov = true) as Hk.
  { destruct (decide (prov = "")); [by left|right]. rewrite bool_decide_eq_false_2 in Hb by done. by destruct (known_provider _ _). }
  cbn [snd] in H. assert (∀ n, (n ≤ length (w_ids w))%nat →
    let w' := foldl (λ w i, if bool_decide (prov = "") || bool_decide (provider_of (w_P w) i = prov)
                            then set_fetch_at (pass_through (negb b)) now i w else w) w (seq 0 n) in
    w_P w' = w_P w ∧ ∀ l, w_tenants w' !! i = Some l →
      (i < n)%nat ∧ (prov = "" ∨ provider_of (w_P w) i = prov) ∧ t_fetch (l_t l) = pass_through (negb b) ∨
      w_tenants w !! i = Some l ∧ (n ≤ i ∨ ¬ (prov = "" ∨ provider_of (w_P w) i = prov))%nat) as Hloop.
  { intros n. induction n as [|n IH]; intros Hn; [split; [done|]; intros; right; split; [done|lia]|].
    rewrite seq_S, foldl_app. cbn [foldl Nat.add]. destruct (IH ltac:(lia)) as [HP IH']. clear IH. set (w1 := foldl _ w _) in *.
    rewrite HP. destruct (bool_decide (prov = "") || bool_decide (provider_of (w_P w) n = prov)) eqn:Hc.
    - split; [done|]. intros x Hx. unfold set_fetch_at in Hx. cbn [w_tenants with_tenants] in Hx.
      apply orb_true_iff in Hc. rewrite !bool_decide_eq_true in Hc. destruct (decide (i = n)) as [->|Hne].
      + rewrite list_lookup_alter_eq in Hx. apply fmap_Some in Hx as (y & Hy & ->). left. split; [lia|]. split; [done|]. apply set_fetch_section_sets.
      + rewrite list_lookup_alter_ne in Hx by done. destruct (IH' x Hx) as [(?&?&?)|[? [?|?]]]; [left; split; [lia|done]|right; split; [done|left; lia]|right; split; [done|by right]].
    - apply orb_false_iff in Hc. rewrite !bool_decide_eq_false in Hc. split; [done|]. intros x Hx.
      destruct (IH' x Hx) as [(?&?&?)|[? Hor]]; [left; split; [lia|done]|]. right. split; [done|].
      destruct (decide (i = n)) as [->|]; [right; tauto|]. destruct Hor as [?|?]; [left; lia|by right]. }
  destruct (Hloop (length (w_ids w)) ltac:(lia)) as [_ Hl]. destruct (Hl l H) as [(_ & ? & ?)|[? [?|?]]]; [by left|lia|].
  right. split; [done|]. tauto.
Qed.
Lemma provider_of_known p i : provider_of p i ≠ "" → known_provider p (provider_of p i) = true.
Proof.
  unfold provider_of, provider_at. destruct (_ !! _) as [x|] eqn:E; [|done]. intros _. cbn.
  apply existsb_exists. exists x. split; [apply list_elem_of_In; by eapply list_elem_of_lookup_2|]. by apply bool_decide_eq_true.
Qed.

Lemma SetCache_off E now prov w : fp_fetch E = Some prov → except E w → except E (SetCache now prov false w).2.
Proof.
  intros HE Hw. destruct (SetCache_setup now prov false w) as ((HP & Hi & _) & Hk & Hg & Hlen).
  pose proof (SetCache_tenants now prov false w) as Ht. destruct Hw. split; rewrite ?Hk, ?Hg, ?HP, ?Hi, ?Hlen; try done.
  intros i l Hl. destruct (Ht i l Hl) as [(_ & ? & _)|[? _]].
  - rewrite <- ex_size0, <- Hlen. by eapply lookup_lt_Some.
  - right. exists prov. split; [done|]. by rewrite HP.
  - destruct (ex_fetch0 i l) as [?|(p & ? & ?)]; [done|by left|right]. exists p. by rewrite HP.
Qed.

Lemma SetCache_on E now prov w : fp_fetch E = Some prov → except E w → except (no_fetch E) (SetCache now prov true w).2.
Proof.
  intros HE Hw. destruct (SetCache_setup now prov true w) as ((HP & Hi & _) & Hk & Hg & Hlen).
  pose proof (SetCache_tenants now prov true w) as Ht. destruct Hw. split; rewrite ?Hk, ?Hg, ?HP, ?Hi, ?Hlen; try done.
  intros i l Hl. left. destruct (Ht i l Hl) as [(_ & _ & ?)|[Hl' Hno]].
  - rewrite <- ex_size0, <- Hlen. by eapply lookup_lt_Some.
  - done.
  - destruct (ex_fetch0 i l Hl') as [?|(p & Hp & Hor)]; [done|]. exfalso. apply Hno.
    rewrite HE in Hp. injection Hp as <-. split; [|done]. destruct (decide (prov = "")); [by left|right].
    destruct Hor as [?|Hor]; [done|]. rewrite <- Hor. apply provider_of_known. congruence.
Qed.

Lemma set_mult_spec idx x w w' : set_mult idx x w = Some w' →
  (idx < length (mult (w_gen w)))%nat ∧
  w' = with_gen (mkGenerator (n_cfg (w_gen w)) (running (w_gen w)) (closed_chans (w_gen w)) (fresh_chan (w_gen w)) (on (w_gen w))
                   (<[idx := x]> (mult (w_gen w))) (global (w_gen w)) (sqn (w_gen w))) w.
Proof. unfold set_mult, SetMultiplier. case_bool_decide; [|done]. cbn. by intros [= <-]. Qed.

Lemma set_mult_except E idx x w w' : fp_mult E = Some idx → set_mult idx x w = Some w' → except E w → except E w'.
Proof.
  intros HE H []. apply set_mult_spec in H as [_ ->]. split; try done. cbn. intros i y Hy.
  destruct (decide (idx = i)) as [->|Hne]; [by right|]. rewrite list_lookup_insert_ne in Hy by done. eauto.
Qed.

Lemma set_mult_restores E idx w w' : fp_mult E = Some idx → set_mult idx F.one w = Some w' → except E w →
  except (mkFootprint (fp_prov E) None (fp_global E) (fp_kek E) (fp_fetch E)) w'.
Proof.
  intros HE H []. apply set_mult_spec in H as [Hlt ->]. split; try done. cbn. intros i y Hy. left.
  destruct (decide (idx = i)) as [->|Hne].
  - rewrite list_lookup_insert_eq in Hy by done. by injection Hy as <-.
  - rewrite list_lookup_insert_ne in Hy by done. destruct (ex_mult0 i y Hy) as [?|?]; [done|congruence].
Qed.

Lemma set_global_except E x w : fp_global E = true → except E w → except E (set_global x w).
Proof. intros HE []. split; try done. by right. Qed.

Lemma set_global_restores E w : except E w →
  except (mkFootprint (fp_prov E) (fp_mult E) false (fp_kek E) (fp_fetch E)) (set_global F.one w).
Proof. intros []. split; try done. by left. Qed.

Lemma flip_faults f k b now : provFaults (flip f k b now) = provFaults f ∧ kekFaults (flip f k b now) = kekFaults f.
Proof. unfold flip. destruct (keks f !! k); [|done]. by destruct (Bool.eqb _ _). Qed.

Lemma flip_keys f k b now k' x : keks (flip f k b now) !! k' = Some x →
  k' = k ∧ k_enabled x = b ∨ k' ≠ k ∧ keks f !! k' = Some x.
Proof.
  unfold flip. destruct (keks f !! k) as [y|] eqn:Hk.
  - destruct (Bool.eqb (k_enabled y) b) eqn:Hb; cbn.
    + intros H. destruct (decide (k' = k)) as [->|]; [left|by right]. split; [done|].
      apply eqb_prop in Hb. rewrite Hk in H. by injection H as <-.
    + intros [[<- <-]|[? H]]%lookup_insert_Some; [by left|by right].
  - intros H. right. split; [congruence|done].
Qed.

Lemma revoke_except E now rv w : fp_kek E = Some (kek_id rv) → except E w → except E (revoke_key now rv w).
Proof.
  intros HE Hw. destruct (flip_faults (w_kms w) (kek_id rv) false now) as [Hp Hkf]. destruct Hw.
  split; try done; cbn [w_kms with_kms revoke_key]; unfold Revoke; rewrite ?Hp, ?Hkf; try done.
  intros k x H. destruct (flip_keys _ _ _ _ _ _ H) as [[-> _]|[_ H']]; [by right|eauto].
Qed.

Lemma restore_restores E now rv w : fp_kek E = Some (kek_id rv) → except E w →
  except (mkFootprint (fp_prov E) (fp_mult E) (fp_global E) None (fp_fetch E)) (restore_key now rv w).
Proof.
  intros HE Hw. destruct (flip_faults (w_kms w) (kek_id rv) true now) as [Hp Hkf]. destruct Hw.
  split; try done; cbn [w_kms with_kms restore_key]; unfold Restore; rewrite ?Hp, ?Hkf; try done.
  intros k x H. left. destruct (flip_keys _ _ _ _ _ _ H) as [[_ ?]|[Hne H']]; [done|].
  destruct (ex_keks0 k x H') as [?|?]; [done|congruence].
Qed.
(** ** The scenarios *)

(** Every phase stays within [E]; the exit leaves the world calm. *)
Record within (E : footprint) (sc : scenario) : Prop := mkWithin {
  wi_enter : ∀ i ph now w w', s_phases sc !! i = Some ph → ph_enter ph now w = Some w' →
    same_setup w w' ∧ (except E w → except E w');
  wi_exit : ∀ now w w', s_exit sc now w = Some w' → same_setup w w' ∧ (except E w → calm_world w');
  wi_summary : ∀ f now w, s_summary sc = Some f → neutral w (f now w) }.

Lemma set_mult_setup idx x w w' : set_mult idx x w = Some w' → same_setup w w'.
Proof. intros H. by apply set_mult_spec in H as [_ ->]. Qed.

(** Phase lists of one and of three. *)
Ltac phase_cases i H := destruct i as [|[|[|i]]]; try discriminate H; apply (inj Some) in H as <-; cbn [ph_enter].

Lemma tenant_surge_within n p : within (mkFootprint (λ _, false) (Some n) false None None) (tenant_surge n p).
Proof.
  split; [intros i ph now w w' Hp|intros now w w'|done].
  - phase_cases i Hp. intros H. split; [by eapply set_mult_setup|]. by eapply set_mult_except.
  - cbn. intros H. split; [by eapply set_mult_setup|]. intros Hw. by eapply (set_mult_restores _ n) in Hw.
Qed.

Lemma global_surge_within n p : within (mkFootprint (λ _, false) None true None None) (global_surge n p).
Proof.
  split; [intros i ph now w w' Hp|intros now w w'|done].
  - phase_cases i Hp. intros [= <-]. split; [done|]. by apply set_global_except.
  - cbn. intros [= <-]. split; [done|]. apply set_global_restores.
Qed.

Lemma fault_exit_calm x prov m w : m = "" ∨ m = "ok" →
  except (mkFootprint (λ y, bool_decide (y = prov)) None false x None) w →
  except (mkFootprint (λ _, false) None false x None) (fault (plain prov m) w).
Proof.
  intros Hm Hw. eapply except_weaken; [..|by apply fault_plain_clears; [exact Hm|exact Hw]]; try done.
  cbn. intros y Hy. apply andb_true_iff in Hy as [H1 H2]. by rewrite H1 in H2.
Qed.

Lemma outage_within name dur p :
  within (mkFootprint (λ y, bool_decide (y = P_OutageProvider p)) None false None None) (outage name dur p).
Proof.
  split; [intros i ph now w w' Hp|intros now w w'|done].
  - phase_cases i Hp. intros [= <-]. split; [apply fault_setup|]. apply fault_except; [done|]. by apply bool_decide_eq_true.
  - cbn [s_exit outage]. intros [= <-]. split; [apply fault_setup|]. apply fault_exit_calm. by right.
Qed.

Lemma slow_kms_within p :
  within (mkFootprint (λ y, bool_decide (y = P_SlowProvider p)) None false None None) (slow_kms p).
Proof.
  split; [intros i ph now w w' Hp|intros now w w'|done].
  - phase_cases i Hp. intros [= <-]. split; [apply fault_setup|]. apply fault_except; [done|]. by apply bool_decide_eq_true.
  - cbn [s_exit slow_kms]. intros [= <-]. split; [apply fault_setup|]. apply fault_exit_calm. by right.
Qed.

Lemma key_revocation_within rv rk : within (mkFootprint (λ _, false) None false (Some (kek_id rv)) None) (key_revocation rv rk).
Proof.
  split; [intros i ph now w w' Hp|intros now w w'|done].
  - phase_cases i Hp. intros [= <-]. split; [done|]. by apply revoke_except.
  - cbn. intros [= <-]. split; [done|]. intros Hw. by apply (restore_restores _ now rv) in Hw.
Qed.
(** Steps that chain: a setup kept, and a footprint kept. *)
Definition keeps (E : footprint) (w w' : World) : Prop := same_setup w w' ∧ (except E w → except E w').
#[export] Instance keeps_pre E : PreOrder (keeps E).
Proof. split; [by intros w; split|]. intros a b c [] []. split; [by etrans|auto]. Qed.

Lemma keeps_neutral E w w' : neutral w w' → keeps E w w'.
Proof. intros H. split; [by apply neutral_setup|by apply except_neutral]. Qed.

Definition cacheless (g : bool) (prov : string) : footprint := mkFootprint (λ _, true) None g None (Some prov).

Lemma latencyAll_keeps g prov w : keeps (cacheless g prov) w (latencyAll true w).
Proof. split; [apply latencyAll_setup|by apply latencyAll_on]. Qed.

Lemma withLatency_keeps g prov x mode w : keeps (cacheless g prov) w (withLatency x mode w).
Proof. unfold withLatency. split; [apply fault_setup|by apply fault_except]. Qed.

Lemma SetCache_keeps g now prov w : keeps (cacheless g prov) w (SetCache now prov false w).2.
Proof. split; [apply SetCache_setup|by apply SetCache_off]. Qed.

Lemma set_global_keeps prov x w : keeps (cacheless true prov) w (set_global x w).
Proof. split; [done|by apply set_global_except]. Qed.

Lemma readings_keeps E a b n w : keeps E w (with_readings a b n w).
Proof. by apply keeps_neutral. Qed.
Lemma metrics_keeps E r w : keeps E w (with_metrics r w).
Proof. by apply keeps_neutral. Qed.

Create HintDb keeps.
#[local] Hint Resolve latencyAll_keeps withLatency_keeps SetCache_keeps set_global_keeps readings_keeps metrics_keeps : keeps.

(** One change at a time, the outermost first. *)
Ltac keep_all :=
  unfold ResetPeaks, timeline; repeat (etransitivity; [|solve [auto with keeps nocore]]); reflexivity.

Lemma cache_exit_calm prov now w : except (cacheless false prov) w → calm_world (latencyAll false (SetCache now prov true w).2).
Proof. intros Hw. apply (SetCache_on _ now prov) in Hw; [|done]. by apply latencyAll_off in Hw. Qed.

Lemma no_cache_within p : within (cacheless false (P_NoCacheProvider p)) (no_cache p).
Proof.
  split; [intros i ph now w w' Hp|intros now w w'|intros f now w].
  - intros He. change (keeps (cacheless false (P_NoCacheProvider p)) w w'). revert He. phase_cases i Hp; intros <-%(inj Some); keep_all.
  - cbn [s_exit no_cache]. intros [= <-]. split; [|apply cache_exit_calm].
    etrans; [apply (SetCache_setup now (P_NoCacheProvider p) true)|apply latencyAll_setup].
  - cbn. by intros [= <-].
Qed.

Lemma no_cache_surge_within n p : within (cacheless true "") (no_cache_surge n p).
Proof.
  split; [intros i ph now w w' Hp|intros now w w'|intros f now w].
  - intros He. change (keeps (cacheless true "") w w'). revert He. phase_cases i Hp; intros <-%(inj Some); keep_all.
  - cbn [s_exit no_cache_surge]. intros <-%(inj Some). split.
    + etrans; [|apply latencyAll_setup]. etrans; [|apply (SetCache_setup now "" true)]. done.
    + intros Hw. apply cache_exit_calm. by apply set_global_restores in Hw.
  - cbn. by intros [= <-].
Qed.

(** Every scenario the World defines. *)
Lemma defs_within w name sc : defs w name = Some sc → ∃ E, within E sc.
Proof.
  unfold defs. repeat case_bool_decide.
  - destruct (rank _ w) as [n|]; [|done]. intros [= <-]. eexists. apply tenant_surge_within.
  - intros [= <-]. eexists. apply global_surge_within.
  - intros [= <-]. eexists. apply outage_within.
  - intros [= <-]. eexists. apply outage_within.
  - intros [= <-]. eexists. apply slow_kms_within.
  - intros [= <-]. eexists. apply no_cache_within.
  - intros [= <-]. eexists. apply no_cache_surge_within.
  - destruct (rank _ w) as [n|]; [|done]. intros [= <-]. eexists. apply key_revocation_within.
  - done.
Qed.
End Footprint.
