(* ===== verification/ScenarioDemo.v ===== *)
(** * A World to run scenarios in

    The test values of the parameters with a short tail, over the toy AEAD: the
    concrete runs of the scenario runner start here. *)

From S2P Require Import Prelude GoLib GoFloat Kms Tink KmsModel Fake Lease Cmek Tenant Prog Manager Api Interleaving Exec Demo.
From S2P Require Import Store Ingest Generator Params Metrics World Scenarios.
Local Open Scope string_scope.
Local Open Scope Z_scope.

Module SDemo.
#[export] Existing Instance Demo.list_range.
#[export] Existing Instance Toy.tink.

(** Every number prints as a hash mark. *)
#[export] Instance fmt : Fmt := {| fmt_g := λ _, "#"; fmt_f0 := λ _, "#"; fmt_f1 := λ _, "#"; fmt_dur := λ _, "#" |}.

Definition built : option World :=
  World.New Small (seq 0 20) (replicate 20 F.one) (replicate 20 [Byte.x01]).
Definition start : option cworld := built ≫= newScenarios.

(** One hour into the simulation. *)
Definition t0 : Time := Time.ofUnixMilli 3600000.

Definition started : bool := match start with Some _ => true | None => false end.
Lemma start_some : started = true.
Proof. vm_compute. reflexivity. Qed.
End SDemo.
