(* ===== verification/Control.v ===== *)
(** * What the control calls promise

    The contract of a fault request: which requests are accepted, what an
    accepted one changes, and what a refused one leaves alone. *)

From S2P Require Import Prelude GoLib GoFloat Kms Tink KmsModel Fake Lease Cmek Tenant Prog Manager Api.
From S2P Require Import Store Ingest Generator Params Metrics World Scenarios Footprint ScenarioDemo.
Local Open Scope string_scope.
Local Open Scope Z_scope.

Section Control.
Context `{TK : Tink} `{MR : MapRange}.

(** A request for one known scope, in a known mode, with latencies and a rate
    that make sense. *)
Record well_formed (f : FaultRequest) (w : World) : Prop := mkWellFormed {
  wf_scope : (fr_Provider f ≠ "" ∧ fr_Tenant f = "" ∧ fr_Provider f ∈ P_Providers (w_P w)) ∨
             (fr_Provider f = "" ∧ fr_Tenant f ≠ "" ∧ is_Some (index (w_ids w) (fr_Tenant f)));
  wf_mode : fr_Mode f ∈ [""; "ok"; "fast_fail"];
  wf_rate : F.lt (fr_ErrorRate f) (F.of_Z 0) = false ∧ F.gt (fr_ErrorRate f) F.one = false;
  wf_latency : 0 <= fr_LatencyP50Ms f ∧ (fr_LatencyP99Ms f = 0 ∨ 0 < fr_LatencyP50Ms f <= fr_LatencyP99Ms f) }.

(** The scope key and the fault a request stands for. *)
Definition target_of (f : FaultRequest) (w : World) : Scope :=
  if bool_decide (fr_Provider f = "")
  then mkScope "" (kek_id (default 0%nat (index (w_ids w) (fr_Tenant f)))) else mkScope (fr_Provider f) "".
Definition fault_of (f : FaultRequest) : Fault :=
  let p99 := if fr_LatencyP99Ms f =? 0 then fr_LatencyP50Ms f else fr_LatencyP99Ms f in
  mkFault (if bool_decide (fr_Mode f = "fast_fail") then ModeFastFail else ModeOK)
    (ms_dur (fr_LatencyP50Ms f)) (ms_dur p99) (fr_ErrorRate f).

Lemma known_provider_elem p x : known_provider p x = true ↔ x ∈ P_Providers p.
Proof.
  unfold known_provider. rewrite existsb_exists. split.
  - intros (y & Hy & E). apply bool_decide_eq_true in E as ->. by apply list_elem_of_In.
  - intros H. exists x. split; [by apply list_elem_of_In|by apply bool_decide_eq_true].
Qed.

Lemma fault_scope_iff f w : (∃ s, fault_scope f w = inr s ∧ s = target_of f w) ↔
  (fr_Provider f ≠ "" ∧ fr_Tenant f = "" ∧ fr_Provider f ∈ P_Providers (w_P w)) ∨
  (fr_Provider f = "" ∧ fr_Tenant f ≠ "" ∧ is_Some (index (w_ids w) (fr_Tenant f))).
Proof.
  unfold fault_scope, target_of. rewrite <- known_provider_elem. repeat case_bool_decide; cbn [negb andb].
  - naive_solver.
  - destruct (index _ _); cbn; naive_solver.
  - destruct (known_provider _ _); naive_solver.
  - naive_solver.
Qed.

Lemma fault_scope_target f w s : fault_scope f w = inr s → s = target_of f w.
Proof.
  unfold fault_scope, target_of. repeat case_bool_decide; cbn [negb andb]; try done.
  - destruct (index _ _); cbn; naive_solver.
  - destruct (known_provider _ _); naive_solver.
Qed.

Lemma fault_mode_iff m : match fault_mode m with
  | inr k => m ∈ [""; "ok"; "fast_fail"] ∧ k = (if bool_decide (m = "fast_fail") then ModeFastFail else ModeOK)
  | inl _ => m ∉ [""; "ok"; "fast_fail"]
  end.
Proof.
  unfold fault_mode. destruct (decide (m = "")) as [->|H1]; [split; [set_solver|done]|].
  destruct (decide (m = "ok")) as [->|H2]; [split; [set_solver|done]|]. rewrite !(bool_decide_eq_false_2 (m = _)) by done. cbn [orb].
  destruct (decide (m = "fast_fail")) as [->|H3]; [split; [set_solver|done]|]. rewrite bool_decide_eq_false_2 by done. set_solver.
Qed.

Lemma fault_latency_iff f :
  match fault_latency f with
  | inr (a, b) => (F.lt (fr_ErrorRate f) (F.of_Z 0) = false ∧ F.gt (fr_ErrorRate f) F.one = false) ∧
      (0 <= fr_LatencyP50Ms f ∧ (fr_LatencyP99Ms f = 0 ∨ 0 < fr_LatencyP50Ms f <= fr_LatencyP99Ms f)) ∧
      a = fr_LatencyP50Ms f ∧ b = (if fr_LatencyP99Ms f =? 0 then fr_LatencyP50Ms f else fr_LatencyP99Ms f)
  | inl _ => ¬ ((F.lt (fr_ErrorRate f) (F.of_Z 0) = false ∧ F.gt (fr_ErrorRate f) F.one = false) ∧
      0 <= fr_LatencyP50Ms f ∧ (fr_LatencyP99Ms f = 0 ∨ 0 < fr_LatencyP50Ms f <= fr_LatencyP99Ms f))
  end.
Proof.
  unfold fault_latency. destruct (F.lt _ _), (F.gt _ _); rewrite ?orb_true_r; cbn [orb]; try (intros [[? ?] _]; congruence).
  destruct (Z.ltb_spec (fr_LatencyP50Ms f) 0), (Z.ltb_spec (fr_LatencyP99Ms f) 0); cbn [orb]; try lia.
  destruct (Z.ltb_spec 0 (fr_LatencyP99Ms f)), (Z.eqb_spec (fr_LatencyP50Ms f) 0), (Z.ltb_spec 0 (fr_LatencyP50Ms f)), (Z.eqb_spec (fr_LatencyP99Ms f) 0);
    cbn [andb]; try lia; destruct (Z.ltb_spec (fr_LatencyP99Ms f) (fr_LatencyP50Ms f)); try lia; try (destruct (Z.ltb_spec (fr_LatencyP50Ms f) (fr_LatencyP50Ms f)); try lia);
    split_and!; try done; try lia.
Qed.

(** The fault calls that are accepted. *)
Lemma Fault_accepts f w : (Fault_ f w).1 = None ↔ well_formed f w.
Proof.
  pose proof (fault_mode_iff (fr_Mode f)) as Hm. pose proof (fault_latency_iff f) as Hl. pose proof (fault_scope_iff f w) as Hs.
  pose proof (fault_scope_target f w) as Ht. unfold Fault_. destruct (fault_scope f w) as [e|s].
  { split; [done|]. intros [H _ _ _]. apply Hs in H as (? & ? & _). done. }
  specialize (Ht s eq_refl) as ->. destruct (fault_mode _) as [e|m].
  { split; [done|]. by intros [_ H _ _]. }
  destruct Hm as [Hm ->]. destruct (fault_latency f) as [e|[a b]].
  { split; [done|]. intros [_ _ H1 H2]. destruct Hl. by split. }
  destruct Hl as (H1 & H2 & -> & ->). split; [|done]. intros _. split; [|done..]. apply Hs. by eexists.
Qed.

(** The contract of a fault request: it is accepted exactly when it is well
    formed, an accepted one replaces the fault of its scope and nothing else of
    the World, and a refused one changes nothing. *)
Theorem fault_contract f w :
  ((Fault_ f w).1 = None ↔ well_formed f w) ∧
  (Fault_ f w).2 = match (Fault_ f w).1 with
                   | Some _ => w
                   | None => with_kms (SetFault (w_kms w) (target_of f w) (fault_of f)) w
                   end.
Proof.
  split; [apply Fault_accepts|]. pose proof (fault_mode_iff (fr_Mode f)) as Hm. pose proof (fault_latency_iff f) as Hl.
  pose proof (fault_scope_target f w) as Ht. unfold Fault_. destruct (fault_scope f w) as [e|s]; [done|]. specialize (Ht s eq_refl) as ->.
  destruct (fault_mode _) as [e|m]; [done|]. destruct Hm as [_ ->]. destruct (fault_latency f) as [e|[a b]]; [done|].
  by destruct Hl as (_ & _ & -> & ->).
Qed.
End Control.

(** The millisecond product of a latency is not checked. *)
Definition three_centuries : FaultRequest := mkFaultRequest "aws" "" "" 9300000000000 0 (F.of_Z 0).

(** A latency of 9.3e12 milliseconds is accepted as well formed and installed as
    a negative duration, which the gate ignores: the slow provider is as fast as
    before. *)
Theorem accepted_latency_wraps :
  match SDemo.built with
  | Some w => (Fault_ three_centuries w).1 = None ∧
      (f_P50 <$> (provFaults (w_kms (Fault_ three_centuries w).2) !! "aws")) = Some (9300000000000 * Millisecond - 2 ^ 64) ∧
      9300000000000 * Millisecond - 2 ^ 64 < 0
  | None => False
  end.
Proof. vm_compute. split_and!; reflexivity. Qed.
