(* ===== verification/ScenarioSpec.v ===== *)
(** * What the scenario runner guarantees

    One run at a time, a world left as it was found, a tail that ends, and the
    two races the code has. *)

From S2P Require Import Prelude GoLib GoFloat Kms Tink KmsModel Fake Lease Cmek Tenant Prog Manager Api.
From S2P Require Import Store Ingest Generator Params Metrics Hub Tick World Scenarios Footprint ScenarioDemo.
Local Open Scope string_scope.
Local Open Scope Z_scope.

Section ScenarioSpec.
Context `{TK : Tink} `{MR : MapRange} `{FM : Fmt}.

(** ** Runs of the control plane *)

(** The calls that reach a World's control plane, the runners' own steps, and
    what the rest of the system does to its metrics. *)
Inductive cop :=
  | CStart (name : string)
  | CStop
  | CHalt
  | CKey (tenant action : string)
  | CFault (f : FaultRequest)
  | CSurge (tenant : string) (x : float64)
  | CCache (provider : string) (b : bool)
  | CFetch (mode : string)
  | CRun (id : nat) (e : wake)
  | CTick (healthy : Duration) (allActive : bool) (affectedSum : Z) (last_ peak : Reading).

(** One of them at [now]; [None] is a call that panics or a step that is not
    enabled. *)
Definition cexec (now : Time) (o : cop) (c : cworld) : option cworld :=
  match o with
  | CStart name => snd <$> StartScenario now name c
  | CStop => Some (StopScenario c).2
  | CHalt => Some (Stop c)
  | CKey tenant action => Some (SetKey now tenant action c).2
  | CFault f => Some (with_world (fault f (c_world c)) c)
  | CSurge tenant x => r ← Surge tenant x (c_world c); Some (with_world r.2 c)
  | CCache provider b => Some (with_world (SetCache now provider b (c_world c)).2 c)
  | CFetch mode => Some (with_world (SetFetch now mode (c_world c)).2 c)
  | CRun id e => mjoin (run_step now id e c)
  | CTick h a s l p =>
      let w := with_metrics (tick_registry now h a s (w_metrics (c_world c))) (c_world c) in
      Some (with_world (with_readings l p (w_notes w) w) c)
  end.

Fixpoint cexecs (os : list (Time * cop)) (c : cworld) : option cworld :=
  match os with [] => Some c | (now, o) :: os' => c ← cexec now o c; cexecs os' c end.

(** ** One run at a time *)

(** A run holds the slot until it frees it. *)
Definition holding (pc : rpc) : bool := match pc with RClear | RCard => false | _ => true end.

Record slot_ok (c : cworld) : Prop := mkSlot {
  sl_cur : ∀ id r, c_runs c !! id = Some r → (c_cur c = Some id ↔ holding (rn_pc r) = true) ∧ (id < c_nextrun c)%nat;
  sl_some : ∀ id, c_cur c = Some id → is_Some (c_runs c !! id) }.

Lemma slot_with_world w c : slot_ok c → slot_ok (with_world w c).
Proof. intros []. by split. Qed.

Lemma slot_with_run id r r' c :
  slot_ok c → c_runs c !! id = Some r → holding (rn_pc r') = holding (rn_pc r) → slot_ok (with_run id r' c).
Proof.
  intros [H1 H2] Hr Hh. split; cbn.
  - intros id' x Hx. destruct (decide (id' = id)) as [->|Hne].
    + rewrite lookup_insert_eq in Hx. injection Hx as <-. rewrite Hh. by apply H1.
    + rewrite lookup_insert_ne in Hx by done. by apply H1.
  - intros id' Hc. destruct (decide (id' = id)) as [->|Hne]; [by rewrite lookup_insert_eq|].
    rewrite lookup_insert_ne by done. by apply H2.
Qed.

Lemma slot_free id r c : slot_ok c → c_runs c !! id = Some r → holding (rn_pc r) = true →
  slot_ok (mkCworld (c_world c) None (c_target c) (c_stopping c) (<[id := set_pc RClear r]> (c_runs c)) (c_nextrun c)).
Proof.
  intros [H1 H2] Hr Hh. split; cbn; [|done]. intros id' x Hx. destruct (decide (id' = id)) as [->|Hne].
  - rewrite lookup_insert_eq in Hx. injection Hx as <-. split; [done|]. by eapply H1.
  - rewrite lookup_insert_ne in Hx by done. destruct (H1 _ _ Hx) as [Hi Hlt]. split; [|done]. split; [done|].
    intros Hx2. apply Hi in Hx2. apply (H1 _ _ Hr) in Hh. congruence.
Qed.

Lemma slot_delete id r c : slot_ok c → c_runs c !! id = Some r → holding (rn_pc r) = false →
  ∀ w, slot_ok (mkCworld w (c_cur c) (c_target c) (c_stopping c) (delete id (c_runs c)) (c_nextrun c)).
Proof.
  intros [H1 H2] Hr Hh w. split; cbn.
  - intros id' x Hx. apply lookup_delete_Some in Hx as [_ Hx]. by apply H1.
  - intros id' Hc. rewrite lookup_delete_ne; [by apply H2|]. intros <-.
    apply (H1 _ _ Hr) in Hc. congruence.
Qed.

Lemma next_phase_slot now id r i c c' :
  slot_ok c → is_Some (c_runs c !! id) → (∀ x, c_runs c !! id = Some x → holding (rn_pc x) = true) →
  next_phase now id r i c = Some c' → slot_ok c'.
Proof.
  intros Hs [x Hx] Hh. unfold next_phase. destruct (s_phases (rn_sc r) !! S i) as [ph|].
  - destruct (ph_enter ph now (c_world c)) as [w|]; [|done]. cbn. intros [= <-].
    eapply slot_with_run; [by apply slot_with_world|exact Hx|]. cbn. by rewrite (Hh x).
  - intros [= <-]. eapply slot_with_run; [done|exact Hx|]. cbn. by rewrite (Hh x).
Qed.

Lemma run_step_slot now id e c c' : slot_ok c → run_step now id e c = Some (Some c') → slot_ok c'.
Proof.
  intros Hs H. unfold run_step in H. destruct (c_runs c !! id) as [r|] eqn:Hr; [|done]. cbn [mbind option_bind] in H.
  destruct (rn_pc r) as [i [t|]|b|start oe lst| | |] eqn:Hpc, e; try done.
  - destruct (t <=? now); [|done]. injection H as H. eapply next_phase_slot; [done| | |exact H]; [by eexists|].
    intros x Hx. simplify_eq. by rewrite Hpc.
  - destruct (rn_ctx r); [|done]. injection H as <-. eapply slot_with_run; [done|exact Hr|]. by rewrite Hpc.
  - destruct (rn_sig r); [|done]. injection H as H. eapply next_phase_slot; [done| | |exact H]; [by eexists|].
    intros x Hx. simplify_eq. by rewrite Hpc.
  - destruct (rn_ctx r); [|done]. injection H as <-. eapply slot_with_run; [done|exact Hr|]. by rewrite Hpc.
  - injection H as H. destruct (s_exit (rn_sc r) now (c_world c)) as [w|]; [|done]. cbn [mbind option_bind] in H.
    destruct b; injection H as <-; (eapply slot_with_run; [by apply slot_with_world|exact Hr|]); by rewrite Hpc.
  - destruct (Time.Add lst _ <=? now); [|done]. destruct (tail_poll _ _ _ _ _) as [w [go|]]; injection H as <-;
      (eapply slot_with_run; [by apply slot_with_world|exact Hr|]); by rewrite Hpc.
  - destruct (rn_ctx r); [|done]. injection H as <-. eapply slot_with_run; [done|exact Hr|]. by rewrite Hpc.
  - injection H as <-. eapply (slot_free id r); [done..|]. by rewrite Hpc.
  - injection H as H. destruct (clear_targets _) as [w|]; [|done]. cbn in H. injection H as <-.
    eapply slot_with_run; [by apply slot_with_world|exact Hr|]. by rewrite Hpc.
  - injection H as <-. eapply slot_delete; [done|exact Hr|]. by rewrite Hpc.
Qed.

Lemma restore_signal_slot idx c : slot_ok c → slot_ok (restore_signal idx c).
Proof.
  intros Hs. unfold restore_signal. destruct (c_cur c) as [id|]; [|done].
  destruct (c_runs c !! id) as [r|] eqn:Hr; [|done]. destruct (_ && _); [|done]. by eapply slot_with_run.
Qed.

Lemma start_slot now name c e c' : slot_ok c → StartScenario now name c = Some (e, c') → slot_ok c'.
Proof.
  intros Hs. unfold StartScenario. case_bool_decide as Hc; [by intros [= <- <-]|].
  destruct (c_stopping c); [by intros [= <- <-]|]. cbn [orb].
  destruct (defs (c_world c) name) as [sc|]; [|by intros [= <- <-]].
  destruct (s_targets sc _) as [ts|]; [|done]. cbn [mbind option_bind].
  destruct (set_targets _ _) as [w|]; [|done]. cbn [mbind option_bind]. destruct (s_phases sc !! 0%nat) as [ph|]; [|done]. cbn [mbind option_bind].
  destruct (ph_enter ph now w) as [w2|]; [|done]. cbn [mbind option_bind]. intros [= <- <-].
  destruct Hs as [H1 H2]. split; cbn.
  - intros id x Hx. destruct (decide (id = c_nextrun c)) as [->|Hne].
    + rewrite lookup_insert_eq in Hx. injection Hx as <-. cbn. split; [done|lia].
    + rewrite lookup_insert_ne in Hx by done. destruct (H1 _ _ Hx) as [Hi Hlt]. split; [|lia].
      split; [congruence|]. intros Hh. apply Hi in Hh. exfalso. apply Hc. by eexists.
  - intros id [= <-]. by rewrite lookup_insert_eq.
Qed.

Lemma cexec_slot now o c c' : slot_ok c → cexec now o c = Some c' → slot_ok c'.
Proof.
  intros Hs. destruct o; cbn.
  - destruct (StartScenario now name c) as [[e x]|] eqn:E; [|done]. cbn. intros [= <-]. by eapply start_slot.
  - intros [= <-]. unfold StopScenario. destruct (c_cur c) as [id|]; [|done].
    destruct (c_runs c !! id) as [r|] eqn:Hr; [|done]. by eapply slot_with_run.
  - intros [= <-]. destruct Hs as [H1 H2]. split; cbn.
    + intros id x Hx. rewrite lookup_fmap in Hx. destruct (c_runs c !! id) as [r|] eqn:Hr; [|done]. cbn in Hx.
      injection Hx as <-. by apply (H1 _ _ Hr).
    + intros id Hc. rewrite lookup_fmap. by apply fmap_is_Some, H2.
  - intros [= <-]. unfold SetKey. destruct (index _ _); [|done]. repeat case_bool_decide; cbn;
      eauto using slot_with_world, restore_signal_slot.
  - intros [= <-]. by apply slot_with_world.
  - destruct (Surge _ _ _) as [r|]; [|done]. cbn. intros [= <-]. by apply slot_with_world.
  - intros [= <-]. by apply slot_with_world.
  - intros [= <-]. by apply slot_with_world.
  - destruct (run_step now id e c) as [[x|]|] eqn:E; [|done..]. cbn. intros [= <-]. by eapply run_step_slot.
  - intros [= <-]. by apply slot_with_world.
Qed.

Lemma cexecs_slot os c c' : slot_ok c → cexecs os c = Some c' → slot_ok c'.
Proof.
  revert c. induction os as [|[now o] os IH]; intros c Hs H; [by injection H as <-|]. cbn in H.
  destruct (cexec now o c) as [c1|] eqn:E; [|done]. cbn in H. eapply IH; [|exact H]. by eapply cexec_slot.
Qed.

(** A fresh control plane: nothing runs. *)
Definition idle (c : cworld) : Prop := c_cur c = None ∧ c_runs c = ∅.

Lemma idle_slot c : idle c → slot_ok c.
Proof. intros [Hc Hr]. split; [by rewrite Hr|by rewrite Hc]. Qed.

(** The turn a runner's wait, step by step, leaves to it at most. *)
Definition polls_left (p : Params) (start last : Time) : nat :=
  Z.to_nat ((P_ScenarioTailMax p - (last - start)) / P_SnapshotInterval p).
Definition polls_max (p : Params) : nat := Z.to_nat (P_ScenarioTailMax p / P_SnapshotInterval p).
Definition steps_left (p : Params) (r : runner) : nat :=
  match rn_pc r with
  | RWait i _ => (length (s_phases (rn_sc r)) - i) + 6 + polls_max p
  | RExit _ => 5 + polls_max p
  | RTail start _ last => 4 + polls_left p start last
  | RFree => 3
  | RClear => 2
  | RCard => 1
  end%nat.
Definition steps_of (p : Params) (id : nat) (c : cworld) : nat :=
  match c_runs c !! id with Some r => steps_left p r | None => 0%nat end.

Lemma polls_start p t : polls_left p t t = polls_max p.
Proof. unfold polls_left, polls_max. by rewrite Z.sub_diag, Z.sub_0_r. Qed.

(** A poll that lets the tail go on came before the tail's maximum. *)
Lemma tail_poll_goes_on now start oe sc w w' oe' :
  minInt64 < P_ScenarioTailMax (w_P w) <= maxInt64 →
  tail_poll now start oe sc w = (w', Some oe') → now - start < P_ScenarioTailMax (w_P w).
Proof.
  intros Hmax. unfold tail_poll. destruct (Recovered (w_metrics w)) as [[rc dr] ok].
  set (w1 := if negb oe && _ then _ else w).
  assert (w_P w1 = w_P w) as -> by (unfold w1; by destruct (negb oe && _)).
  intros H. destruct (P_ScenarioTailMax (w_P w) <=? Time.Sub now start) eqn:E.
  - rewrite orb_true_r in H. by destruct ok.
  - apply Z.leb_gt in E. destruct (Sub_ge now start _ Hmax). lia.
Qed.

Lemma polls_step p start last now :
  0 < P_SnapshotInterval p → Time.Add last (P_SnapshotInterval p) <= now → now - start < P_ScenarioTailMax p →
  (polls_left p start now < polls_left p start last)%nat.
Proof.
  unfold Time.Add, polls_left. intros Hi Hn Hm. set (d := P_SnapshotInterval p) in *.
  assert ((P_ScenarioTailMax p - (now - start)) / d + 1 <= (P_ScenarioTailMax p - (last - start)) / d) as Hd.
  { rewrite <- Z.div_add by lia. apply Z.div_le_mono; lia. }
  assert (0 <= (P_ScenarioTailMax p - (now - start)) / d) by (apply Z.div_pos; lia). lia.
Qed.


(** ** The runner's transitions *)

(** Between two program points, what happens to the world. *)
Inductive moves (now : Time) (sc : scenario) (w : World) : rpc → option rpc → World → Prop :=
  | mv_next i t ph t' w1 w' : s_phases sc !! S i = Some ph → ph_enter ph now w = Some w1 → neutral w1 w' →
      moves now sc w (RWait i t) (Some (RWait (S i) t')) w'
  | mv_last i t : s_phases sc !! S i = None → moves now sc w (RWait i t) (Some (RExit false)) w
  | mv_cancel i t : moves now sc w (RWait i t) (Some (RExit true)) w
  | mv_exit b pc w1 w' : s_exit sc now w = Some w1 → neutral w1 w' → pc = RFree ∨ pc = RTail now false now →
      moves now sc w (RExit b) (Some pc) w'
  | mv_poll start oe oe' last w' : Time.Add last (P_SnapshotInterval (w_P w)) <= now → neutral w w' →
      (minInt64 < P_ScenarioTailMax (w_P w) <= maxInt64 → now - start < P_ScenarioTailMax (w_P w)) →
      moves now sc w (RTail start oe last) (Some (RTail start oe' now)) w'
  | mv_tail_end start oe last w' : neutral w w' → moves now sc w (RTail start oe last) (Some RFree) w'
  | mv_free : moves now sc w RFree (Some RClear) w
  | mv_clear w' : neutral w w' → moves now sc w RClear (Some RCard) w'
  | mv_card w' : neutral w w' → moves now sc w RCard None w'.

Lemma tail_poll_neutral now start oe sc w : neutral w (tail_poll now start oe sc w).1.
Proof.
  unfold tail_poll. destruct (Recovered _) as [[rc dr] ok]. destruct (negb oe && _), (_ || _); done.
Qed.

Lemma next_phase_moves now id r i t c c' : c_runs c !! id = Some r → rn_pc r = RWait i t →
  ∀ b, next_phase now id (set_sig b r) i c = Some c' ∨ next_phase now id r i c = Some c' →
  ∃ r', c_runs c' = <[id := r']> (c_runs c) ∧ rn_sc r' = rn_sc r ∧ moves now (rn_sc r) (c_world c) (rn_pc r) (Some (rn_pc r')) (c_world c').
Proof.
  intros Hr Hpc b. unfold next_phase. cbn [rn_sc set_sig]. rewrite Hpc. destruct (s_phases (rn_sc r) !! S i) as [ph|] eqn:Hph.
  - destruct (ph_enter ph now (c_world c)) as [w|] eqn:Hw; [|by intros [?|?]]. cbn [mbind option_bind].
    intros [H|H]; apply (inj Some) in H as <-; (eexists; split; [done|]; split; [done|]; cbn; by eapply mv_next).
  - intros [H|H]; apply (inj Some) in H as <-; (eexists; split; [done|]; split; [done|]; by apply mv_last).
Qed.

Definition runs_within (c : cworld) : Prop := ∀ id r, c_runs c !! id = Some r → ∃ E, within E (rn_sc r).

Lemma summary_neutral E sc now w : within E sc →
  neutral w (tail_start now sc (match s_summary sc with Some f => f now w | None => w end)).
Proof.
  intros HE. trans (match s_summary sc with Some f => f now w | None => w end); [|done].
  destruct (s_summary sc) as [f|] eqn:Hf; [|done]. by eapply wi_summary.
Qed.

(** What a step of runner [id] changes. *)
Lemma run_step_moves now id e c c' : runs_within c → run_step now id e c = Some (Some c') →
  ∃ r o, c_runs c !! id = Some r ∧ c_runs c' = partial_alter (λ _, o) id (c_runs c) ∧
    (∀ r', o = Some r' → rn_sc r' = rn_sc r) ∧ moves now (rn_sc r) (c_world c) (rn_pc r) (rn_pc <$> o) (c_world c').
Proof.
  intros Hin. unfold run_step. destruct (c_runs c !! id) as [r|] eqn:Hr; [|done]. cbn [mbind option_bind]. intros H. exists r.
  destruct (Hin _ _ Hr) as [E HE].
  enough ((∃ r', c_runs c' = <[id := r']> (c_runs c) ∧ rn_sc r' = rn_sc r ∧
             moves now (rn_sc r) (c_world c) (rn_pc r) (Some (rn_pc r')) (c_world c')) ∨
          (c_runs c' = delete id (c_runs c) ∧ moves now (rn_sc r) (c_world c) (rn_pc r) None (c_world c'))) as [(r' & H1 & H2 & H3)|[H1 H2]].
  { exists (Some r'). split_and!; [done|done| |done]. by intros ? [= ->]. }
  { exists None. by split_and!. }
  destruct (rn_pc r) as [i [t|]|b|start oe lst| | |] eqn:Hpc, e; try done.
  - destruct (t <=? now); [|done]. apply (inj Some) in H. left. rewrite <- Hpc. eapply (next_phase_moves _ _ _ _ _ _ _ Hr Hpc false). by right.
  - destruct (rn_ctx r); [|done]. do 2 apply (inj Some) in H. subst c'. left. eexists. split; [done|]. split; [done|apply mv_cancel].
  - destruct (rn_sig r); [|done]. apply (inj Some) in H. left. rewrite <- Hpc. eapply (next_phase_moves _ _ _ _ _ _ _ Hr Hpc false). by left.
  - destruct (rn_ctx r); [|done]. do 2 apply (inj Some) in H. subst c'. left. eexists. split; [done|]. split; [done|apply mv_cancel].
  - apply (inj Some) in H. destruct (s_exit (rn_sc r) now (c_world c)) as [w|] eqn:Hw; [|done]. cbn [mbind option_bind] in H.
    left. destruct b; apply (inj Some) in H as <-; (eexists; split; [done|]; split; [done|]); cbn.
    + eapply mv_exit; [done|done|by left].
    + eapply mv_exit; [done|by eapply summary_neutral|by right].
  - destruct (Time.Add lst _ <=? now) eqn:Hl; [|done]. pose proof (tail_poll_neutral now start oe (rn_sc r) (c_world c)) as Hn.
    destruct (tail_poll _ _ _ _ _) as [w [go|]] eqn:Ht; do 2 apply (inj Some) in H; subst c'; left;
      (eexists; split; [done|]; split; [done|]); cbn.
    + apply mv_poll; [lia|done|]. intros Hm. by eapply tail_poll_goes_on.
    + by apply mv_tail_end.
  - destruct (rn_ctx r); [|done]. do 2 apply (inj Some) in H. subst c'. left. eexists. split; [done|]. split; [done|by apply mv_tail_end].
  - do 2 apply (inj Some) in H. subst c'. left. eexists. split; [done|]. split; [done|apply mv_free].
  - apply (inj Some) in H. unfold clear_targets in H. destruct (ClearTargets _) as [m|]; [|done]. cbn [mbind option_bind] in H.
    apply (inj Some) in H as <-. left. eexists. split; [done|]. split; [done|by apply mv_clear].
  - do 2 apply (inj Some) in H. subst c'. right. split; [done|by apply mv_card].
Qed.

(** ** Setup and footprints along a run *)

Lemma moves_setup E now sc w pc o w' : within E sc → moves now sc w pc o w' → same_setup w w'.
Proof.
  intros [He Hx _] Hm. destruct Hm; try done; try (by apply neutral_setup).
  - etrans; [by eapply He|by apply neutral_setup].
  - etrans; [by eapply Hx|by apply neutral_setup].
Qed.

Lemma set_targets_neutral ts w w' : set_targets ts w = Some w' → neutral w w'.
Proof. unfold set_targets. destruct (SetTargets _ _); [|done]. cbn. by intros [= <-]. Qed.

(** A started run: what the start changed, and the runner it left. *)
Lemma StartScenario_cases now name c e c' : StartScenario now name c = Some (e, c') →
  (c' = c ∧ e ≠ None) ∨
  ∃ sc ph t w1 w2, e = None ∧ c_cur c = None ∧ c_stopping c = false ∧ defs (c_world c) name = Some sc ∧ s_phases sc !! 0%nat = Some ph ∧
    neutral (c_world c) w1 ∧ ph_enter ph now w1 = Some w2 ∧ neutral w2 (c_world c') ∧ c_cur c' = Some (c_nextrun c) ∧
    c_runs c' = <[c_nextrun c := mkRunner sc (RWait 0 t) false false]> (c_runs c) ∧ c_nextrun c' = S (c_nextrun c).
Proof.
  unfold StartScenario. case_bool_decide as Hc; [by intros [= <- <-]; left|].
  destruct (c_stopping c) eqn:Hs; [by intros [= <- <-]; left|]. cbn [orb].
  destruct (defs (c_world c) name) as [sc|]; [|by intros [= <- <-]; left].
  destruct (s_targets sc _) as [ts|]; [|done]. cbn [mbind option_bind].
  destruct (set_targets _ _) as [w1|] eqn:H1; [|done]. cbn [mbind option_bind].
  destruct (s_phases sc !! 0%nat) as [ph|] eqn:Hp; [|done]. cbn [mbind option_bind].
  destruct (ph_enter ph now w1) as [w2|] eqn:H2; [|done]. cbn [mbind option_bind]. intros [= <- <-].
  right. exists sc, ph, (deadline now (ph_dur ph)), w1, w2. cbn. split_and!; try done.
  - destruct (c_cur c); [by destruct Hc|done].
  - by eapply set_targets_neutral.
Qed.

(** The calls that inject no fault and change no rate, key or design themselves. *)
Definition undisturbing (o : cop) : Prop :=
  match o with
  | CKey _ action => action ≠ "revoke"
  | CFault _ | CSurge _ _ | CCache _ _ | CFetch _ => False
  | _ => True
  end.

(** The same runners at the same points. *)
Definition at_point (r : runner) : scenario * rpc := (rn_sc r, rn_pc r).
Definition alike (c c' : cworld) : Prop :=
  c_cur c' = c_cur c ∧ ∀ id, at_point <$> c_runs c' !! id = at_point <$> c_runs c !! id.

#[export] Instance alike_pre : PreOrder alike.
Proof. split; [by intros c|]. intros a b c [] []. split; [congruence|]. intros id. congruence. Qed.

Lemma alike_with_run id r r' c : c_runs c !! id = Some r → at_point r' = at_point r → alike c (with_run id r' c).
Proof.
  intros Hr Ha. split; [done|]. intros id'. cbn. destruct (decide (id' = id)) as [->|].
  - rewrite lookup_insert_eq, Hr. cbn. congruence.
  - by rewrite lookup_insert_ne.
Qed.

Lemma restore_signal_alike idx c : alike c (restore_signal idx c) ∧ c_world (restore_signal idx c) = c_world c.
Proof.
  unfold restore_signal. destruct (c_cur c) as [id|]; [|done]. destruct (c_runs c !! id) as [r|] eqn:Hr; [|done].
  destruct (_ && _); [|done]. split; [|done]. by eapply alike_with_run.
Qed.

Lemma restore_except E now i w : except E w → except E (restore_key now i w).
Proof.
  intros Hw. destruct (flip_faults (w_kms w) (kek_id i) true now) as [Hp Hkf]. destruct Hw.
  split; try done; cbn [w_kms with_kms restore_key]; unfold Restore; rewrite ?Hp, ?Hkf; try done.
  intros k x H. destruct (flip_keys _ _ _ _ _ _ H) as [[_ ?]|[Hne H']]; [by left|eauto].
Qed.

Definition is_run (o : cop) : bool := match o with CStart _ | CRun _ _ => true | _ => false end.

Lemma SetFetch_setup now mode w : same_setup w (SetFetch now mode w).2.
Proof.
  unfold SetFetch. destruct (fetch_mode mode) as [[f line]|]; [|done]. cbn [snd].
  generalize (seq 0 (length (w_ids w))) as js. intros js. unfold ResetPeaks, timeline, SetKeyFetch.
  enough (same_setup w (foldl (λ w i, set_fetch_at f now i w) w js)) as (?&?&?&?&?) by done.
  revert w. induction js as [|j js IH]; intros w; [done|]. cbn [foldl]. etrans; [|apply IH]. done.
Qed.

(** A call that is neither a start nor a runner's step. *)
Lemma cexec_other now o c c' : is_run o = false → cexec now o c = Some c' →
  alike c c' ∧ same_setup (c_world c) (c_world c') ∧
  (undisturbing o → ∀ E, except E (c_world c) → except E (c_world c')).
Proof.
  destruct o; cbn [is_run cexec undisturbing]; try done; intros _.
  - intros [= <-]. unfold StopScenario. destruct (c_cur c) as [id|]; [|done].
    destruct (c_runs c !! id) as [r|] eqn:Hr; [|done]. split; [|done]. by eapply alike_with_run.
  - intros [= <-]. split; [|done]. split; [done|]. intros id. cbn. rewrite lookup_fmap. by destruct (c_runs c !! id).
  - intros <-%(inj Some). unfold SetKey. destruct (index _ _) as [idx|]; [|done].
    case_bool_decide; [done|]. case_bool_decide; [|done]. cbn [snd].
    destruct (restore_signal_alike idx (with_world (restore_key now idx (c_world c)) c)) as [Ha ->].
    split; [etrans; [|exact Ha]; done|]. split; [done|]. intros _ E. apply restore_except.
  - intros <-%(inj Some). split; [done|]. split; [apply fault_setup|done].
  - destruct (Surge _ _ _) as [[e w]|] eqn:Hs; [|done]. cbn [mbind option_bind snd]. intros <-%(inj Some). split; [done|]. split; [|done].
    unfold Surge in Hs. case_bool_decide; [by injection Hs as <- <-|]. destruct (index _ _); [|by injection Hs as <- <-].
    destruct (set_mult _ _ _) as [w'|] eqn:Hm; [|done]. cbn in Hs. injection Hs as <- <-. by eapply set_mult_setup.
  - intros <-%(inj Some). split; [done|]. split; [apply SetCache_setup|done].
  - intros <-%(inj Some). split; [done|]. split; [apply SetFetch_setup|done].
  - intros <-%(inj Some). split; [done|]. split; [done|]. intros _ E. by apply except_neutral.
Qed.

(** The slot is held, and every runner runs one of the World's scenarios. *)
Definition runs_ok (c : cworld) : Prop := slot_ok c ∧ runs_within c.

Lemma alike_within c c' : alike c c' → runs_within c → runs_within c'.
Proof.
  intros [_ Ha] Hin id r Hr. specialize (Ha id). rewrite Hr in Ha. destruct (c_runs c !! id) as [x|] eqn:Hx; [|done].
  cbn in Ha. injection Ha as -> _. by eapply Hin.
Qed.

Lemma cexec_ok now o c c' : runs_ok c → cexec now o c = Some c' → runs_ok c' ∧ same_setup (c_world c) (c_world c').
Proof.
  intros [Hs Hin] He. split; [split; [by eapply cexec_slot|]|]; destruct (is_run o) eqn:Ho;
    try (destruct (cexec_other _ _ _ _ Ho He) as (Ha & Hw & _); [by eapply alike_within || done]).
  - destruct o; try done; cbn in He.
    + destruct (StartScenario _ _ _) as [[e x]|] eqn:E; [|done]. injection He as <-.
      destruct (StartScenario_cases _ _ _ _ _ E) as [[-> _]|(sc & ph & t & w1 & w2 & _ & _ & _ & Hd & _ & _ & _ & _ & _ & Hr & _)]; [done|].
      intros id r. rewrite Hr. intros [[<- <-]|[_ H]]%lookup_insert_Some; [by eapply defs_within|by eapply Hin].
    + destruct (run_step _ _ _ _) as [[x|]|] eqn:E; [|done..]. injection He as <-.
      destruct (run_step_moves _ _ _ _ _ Hin E) as (r & o & Hr & Hx & Hsc & _).
      intros id' r'. rewrite Hx. destruct (decide (id' = id)) as [->|Hne].
      * rewrite lookup_partial_alter_eq. intros ->. rewrite (Hsc r' eq_refl). by eapply Hin.
      * rewrite lookup_partial_alter_ne by done. apply Hin.
  - destruct o; try done; cbn in He.
    + destruct (StartScenario _ _ _) as [[e x]|] eqn:E; [|done]. injection He as <-.
      destruct (StartScenario_cases _ _ _ _ _ E) as [[-> _]|(sc & ph & t & w1 & w2 & _ & _ & _ & Hd & Hp & Hn & Hw & Hn' & _)]; [done|].
      destruct (defs_within _ _ _ Hd) as [F HF]. etrans; [by apply neutral_setup|]. etrans; [by eapply HF|by apply neutral_setup].
    + destruct (run_step _ _ _ _) as [[x|]|] eqn:E; [|done..]. injection He as <-.
      destruct (run_step_moves _ _ _ _ _ Hin E) as (r & o & Hr & _ & _ & Hm). destruct (Hin _ _ Hr) as [F HF]. by eapply moves_setup.
Qed.

Lemma cexecs_ok os c c' : runs_ok c → cexecs os c = Some c' → runs_ok c' ∧ same_setup (c_world c) (c_world c').
Proof.
  revert c. induction os as [|[now o] os IH]; intros c Hs H; [by injection H as <-|]. cbn in H.
  destruct (cexec now o c) as [c1|] eqn:E; [|done]. cbn in H. destruct (cexec_ok _ _ _ _ Hs E) as [H1 H2].
  destruct (IH _ H1 H). split; [done|]. by etrans.
Qed.

Lemma idle_ok c : idle c → runs_ok c.
Proof. intros Hi. split; [by apply idle_slot|]. intros id r. by rewrite (proj2 Hi). Qed.

(** ** A run ends *)

(** A tail's maximum an int64 holds, and a poll interval that is not zero. *)
Definition tail_params (p : Params) : Prop :=
  minInt64 < P_ScenarioTailMax p <= maxInt64 ∧ 0 < P_SnapshotInterval p.

Lemma moves_steps now r w o w' : tail_params (w_P w) → moves now (rn_sc r) w (rn_pc r) (rn_pc <$> o) w' →
  (∀ r', o = Some r' → rn_sc r' = rn_sc r) →
  (match o with Some r' => steps_left (w_P w) r' | None => 0%nat end < steps_left (w_P w) r)%nat.
Proof.
  intros [Hmax Hint] Hm Hsc. unfold steps_left at 2. destruct o as [r'|]; [specialize (Hsc r' eq_refl)|];
    inversion Hm as [i t ph t' w1 ? Hph Hen Hn Epc Eo|i t Hph Epc Eo|i t Epc Eo|b pc w1 ? Hx Hn Hpc Epc Eo
                    |start oe oe' last ? Hl Hn Hlt Epc Eo|start oe last ? Hn Epc Eo|Epc Eo|? Hn Epc Eo|? Hn Epc Eo]; subst;
    unfold steps_left; rewrite <- ?Eo, ?Hsc; try lia.
  - apply lookup_lt_Some in Hph. lia.
  - destruct Hpc as [-> | ->]; [lia|]. rewrite polls_start. lia.
  - specialize (Hlt Hmax). pose proof (polls_step _ _ _ _ Hint Hl Hlt). lia.
Qed.

Lemma defs_phases w name sc : defs w name = Some sc → (length (s_phases sc) ≤ 3)%nat.
Proof.
  unfold defs. repeat case_bool_decide; try (intros [= <-]; cbn; lia); try done;
    destruct (rank _ w) as [n|]; try done; intros [= <-]; cbn; lia.
Qed.

(** What runner [id] may still do: all of a run when it has not started. *)
Definition run_bound (p : Params) : nat := (9 + polls_max p)%nat.
Definition potential (p : Params) (id : nat) (c : cworld) : nat :=
  match c_runs c !! id with
  | Some r => steps_left p r
  | None => if bool_decide (c_nextrun c ≤ id)%nat then run_bound p else 0
  end.
Definition is_step_of (id : nat) (o : cop) : nat := match o with CRun j _ => if bool_decide (j = id) then 1 else 0 | _ => 0 end.
Definition steps_by (id : nat) (os : list (Time * cop)) : nat := sum_list ((λ o, is_step_of id o.2) <$> os).

Lemma next_phase_nextrun now id r i c c' : next_phase now id r i c = Some c' → c_nextrun c' = c_nextrun c.
Proof.
  unfold next_phase. destruct (s_phases (rn_sc r) !! S i) as [ph|]; [|by intros [= <-]].
  destruct (ph_enter ph now (c_world c)); [|done]. by intros [= <-].
Qed.

Lemma run_step_nextrun now id e c c' : run_step now id e c = Some (Some c') → c_nextrun c' = c_nextrun c.
Proof.
  unfold run_step. destruct (c_runs c !! id) as [r|] eqn:Hr; [|done]. cbn [mbind option_bind]. intros H.
  destruct (rn_pc r) as [i [t|]|b|start oe lst| | |], e; try done.
  - destruct (t <=? now); [|done]. apply (inj Some) in H. by eapply next_phase_nextrun.
  - destruct (rn_ctx r); [|done]. do 2 apply (inj Some) in H. by subst.
  - destruct (rn_sig r); [|done]. apply (inj Some) in H. by eapply next_phase_nextrun.
  - destruct (rn_ctx r); [|done]. do 2 apply (inj Some) in H. by subst.
  - apply (inj Some) in H. destruct (s_exit (rn_sc r) now (c_world c)); [|done]. by destruct b; apply (inj Some) in H as <-.
  - destruct (_ <=? now); [|done]. destruct (tail_poll _ _ _ _ _). do 2 apply (inj Some) in H. by subst.
  - destruct (rn_ctx r); [|done]. do 2 apply (inj Some) in H. by subst.
  - do 2 apply (inj Some) in H. by subst.
  - apply (inj Some) in H. destruct (clear_targets _); [|done]. by apply (inj Some) in H as <-.
  - do 2 apply (inj Some) in H. by subst.
Qed.

Lemma cexec_other_nextrun now o c c' : is_run o = false → cexec now o c = Some c' → c_nextrun c' = c_nextrun c.
Proof.
  destruct o; cbn [is_run cexec]; try done; intros _.
  - intros [= <-]. unfold StopScenario. by repeat case_match.
  - by intros [= <-].
  - intros <-%(inj Some). unfold SetKey. repeat case_match; try done. cbn. unfold restore_signal. by repeat case_match.
  - by intros <-%(inj Some).
  - destruct (Surge _ _ _); [|done]. by intros <-%(inj Some).
  - by intros <-%(inj Some).
  - by intros <-%(inj Some).
  - by intros <-%(inj Some).
Qed.

Lemma alike_steps p c c' id : alike c c' → c_nextrun c' = c_nextrun c → potential p id c' = potential p id c.
Proof.
  intros [_ Ha] Hn. unfold potential. specialize (Ha id). rewrite Hn. destruct (c_runs c !! id) as [r|], (c_runs c' !! id) as [r'|]; try done.
  cbn in Ha. injection Ha as H1 H2. unfold steps_left. by rewrite H1, H2.
Qed.

Lemma cexec_potential now o c c' id : runs_ok c → tail_params (w_P (c_world c)) → cexec now o c = Some c' →
  (is_step_of id o + potential (w_P (c_world c)) id c' ≤ potential (w_P (c_world c)) id c)%nat.
Proof.
  intros [Hs Hin] Hp He. destruct (is_run o) eqn:Ho.
  2:{ destruct (cexec_other _ _ _ _ Ho He) as (Ha & _ & _).
      rewrite (alike_steps _ _ _ _ Ha (cexec_other_nextrun _ _ _ _ Ho He)). by destruct o. }
  destruct o; try done; cbn [cexec] in He.
  - destruct (StartScenario _ _ _) as [[e x]|] eqn:E; [|done]. injection He as <-.
    destruct (StartScenario_cases _ _ _ _ _ E) as [[-> _]|(sc & ph & t & w1 & w2 & _ & _ & _ & Hd & _ & _ & _ & _ & _ & Hr & Hn)]; [done|].
    unfold potential. rewrite Hr, Hn. cbn [is_step_of]. destruct (decide (id = c_nextrun c)) as [->|Hne].
    + rewrite lookup_insert_eq. destruct (c_runs c !! c_nextrun c) as [r|] eqn:Hx; [apply (sl_cur _ Hs) in Hx; lia|].
      rewrite bool_decide_eq_true_2 by lia. cbn. apply defs_phases in Hd. unfold run_bound. lia.
    + rewrite lookup_insert_ne by done. destruct (c_runs c !! id); [lia|]. repeat case_bool_decide; lia.
  - destruct (run_step _ _ _ _) as [[x|]|] eqn:E; [|done..]. injection He as <-.
    pose proof (run_step_nextrun _ _ _ _ _ E) as Hn.
    destruct (run_step_moves _ _ _ _ _ Hin E) as (r & o & Hr & Hx & Hsc & Hm). cbn [is_step_of].
    unfold potential. rewrite Hx, Hn. case_bool_decide as Hid; [subst id0|].
    + rewrite lookup_partial_alter_eq, Hr. pose proof (moves_steps _ _ _ _ _ Hp Hm Hsc) as Hlt.
      destruct o as [r'|]; [lia|]. rewrite bool_decide_eq_false_2; [lia|]. destruct (sl_cur _ Hs _ _ Hr). lia.
    + by rewrite lookup_partial_alter_ne.
Qed.

Lemma cexecs_potential os c c' id : runs_ok c → tail_params (w_P (c_world c)) → cexecs os c = Some c' →
  (steps_by id os + potential (w_P (c_world c)) id c' ≤ potential (w_P (c_world c)) id c)%nat.
Proof.
  revert c. induction os as [|[now o] os IH]; intros c Hok Hp H; [by injection H as <-|]. cbn in H.
  destruct (cexec now o c) as [c1|] eqn:E; [|done]. cbn in H.
  pose proof (cexec_potential _ _ _ _ id Hok Hp E). destruct (cexec_ok _ _ _ _ Hok E) as [Hok1 (HP & _)].
  rewrite <- HP in Hp. specialize (IH c1 Hok1 Hp H). rewrite HP in IH. unfold steps_by in *. cbn. lia.
Qed.

(** A run waiting for a restore that has not come. *)
Definition waits_for_restore (r : runner) : bool :=
  match rn_pc r with RWait _ None => negb (rn_sig r) && negb (rn_ctx r) | _ => false end.

Lemma runner_wakes id r c : c_runs c !! id = Some r → waits_for_restore r = false →
  ∃ e t, ∀ now, t <= now → is_Some (run_step now id e c).
Proof.
  intros Hr Hw. unfold run_step. rewrite Hr. cbn [mbind option_bind].
  destruct r as [sc pc ctx sg]. unfold waits_for_restore in Hw. cbn [rn_pc rn_sig rn_ctx rn_sc] in *.
  destruct pc as [i [t|]|b|start oe lst| | |].
  - exists EvTimer, t. intros now Ht. rewrite (proj2 (Z.leb_le _ _)) by done. by eexists.
  - destruct sg; [exists EvSignal, 0; intros; by eexists|]. destruct ctx; [|done]. exists EvCancel, 0. intros; by eexists.
  - exists EvGo, 0. by eexists.
  - exists EvTimer, (Time.Add lst (P_SnapshotInterval (w_P (c_world c)))). intros now Ht.
    rewrite (proj2 (Z.leb_le _ _)) by done. destruct (tail_poll _ _ _ _ _). by eexists.
  - exists EvGo, 0. by eexists.
  - exists EvGo, 0. by eexists.
  - exists EvGo, 0. by eexists.
Qed.

(** ** The world a run leaves *)

Definition before_exit (pc : rpc) : bool := match pc with RWait _ _ | RExit _ => true | _ => false end.

(** A run before its exit stays within its footprint; else the world is calm. *)
Record tidy (c : cworld) : Prop := mkTidy {
  ti_run : ∀ id r, c_runs c !! id = Some r → before_exit (rn_pc r) = true → ∃ E, within E (rn_sc r) ∧ except E (c_world c);
  ti_calm : (∀ id r, c_runs c !! id = Some r → before_exit (rn_pc r) = false) → calm_world (c_world c) }.

Lemma slot_unique c id id' r r' : slot_ok c → c_runs c !! id = Some r → c_runs c !! id' = Some r' →
  holding (rn_pc r) = true → holding (rn_pc r') = true → id = id'.
Proof. intros Hs H1 H2 Hh Hh'. apply (sl_cur _ Hs _ _ H1) in Hh. apply (sl_cur _ Hs _ _ H2) in Hh'. congruence. Qed.

Lemma before_exit_holding pc : before_exit pc = true → holding pc = true.
Proof. by destruct pc. Qed.

Lemma tidy_neutral c c' : (∀ id, at_point <$> c_runs c' !! id = at_point <$> c_runs c !! id) →
  (∀ E, except E (c_world c) → except E (c_world c')) → tidy c → tidy c'.
Proof.
  intros Ha Hw [H1 H2]. split.
  - intros id r Hr Hb. specialize (Ha id). rewrite Hr in Ha. destruct (c_runs c !! id) as [x|] eqn:Hx; [|done].
    cbn in Ha. injection Ha as Hsc Hpc. rewrite Hpc in Hb. destruct (H1 id x Hx Hb) as (E & HE & He). exists E.
    rewrite Hsc. auto.
  - intros Hno. apply Hw, H2. intros id r Hr. specialize (Ha id). rewrite Hr in Ha.
    destruct (c_runs c' !! id) as [x|] eqn:Hx; [|done]. cbn in Ha. injection Ha as Hsc Hpc. rewrite <- Hpc. by eapply Hno.
Qed.

Lemma tidy_run now id e c c' : runs_ok c → tidy c → run_step now id e c = Some (Some c') → tidy c'.
Proof.
  intros [Hs Hin] Ht E. destruct (run_step_moves _ _ _ _ _ Hin E) as (r & o & Hr & Hx & Hsc & Hm).
  assert (∀ id' r', before_exit (rn_pc r) = true → id' ≠ id → c_runs c !! id' = Some r' → before_exit (rn_pc r') = false) as Hother.
  { intros id' r' Hb Hne Hr'. destruct (before_exit (rn_pc r')) eqn:Hb'; [|done]. destruct Hne.
    eapply slot_unique; eauto using before_exit_holding. }
  assert (∀ id' r', c_runs c' !! id' = Some r' → id' = id ∧ o = Some r' ∨ id' ≠ id ∧ c_runs c !! id' = Some r') as Hcases.
  { intros id' r'. rewrite Hx. destruct (decide (id' = id)) as [->|]; [rewrite lookup_partial_alter_eq; by left|].
    rewrite lookup_partial_alter_ne by done. by right. }
  assert (∀ r', o = Some r' → c_runs c' !! id = Some r') as Hid by (intros r' ->; by rewrite Hx, lookup_partial_alter_eq).
  destruct (before_exit (rn_pc r)) eqn:Hb.
  - destruct (ti_run _ Ht _ _ Hr Hb) as (F & HF & He).
    destruct o as [r'|]; [|by inversion Hm as [| | | | | | | |? ? Epc]; rewrite <- Epc in Hb].
    specialize (Hsc r' eq_refl). specialize (Hid r' eq_refl). cbn in Hm.
    assert (before_exit (rn_pc r') = true ∧ except F (c_world c') ∨ before_exit (rn_pc r') = false ∧ calm_world (c_world c')) as [[Hb' He']|[Hb' He']].
    { inversion Hm as [i t ph t' w1 ? Hph Hen Hn Epc Eo|i t Hph Epc Eo|i t Epc Eo|b pc w1 ? Hxt Hn Hpc Epc Eo
                      |? ? ? ? ? ? ? ? Epc|? ? ? ? ? Epc|Epc|? ? Epc|]; try (by rewrite <- Epc in Hb).
      - left. split; [done|]. eapply except_neutral; [exact Hn|]. by eapply HF.
      - by left.
      - by left.
      - right. subst pc. split; [by destruct Hpc as [-> | ->]|]. eapply except_neutral; [exact Hn|]. by eapply HF. }
    + split.
      * intros id' x Hx' Hbx. destruct (Hcases _ _ Hx') as [[-> [= ->]]|[Hne H]]; [exists F; by rewrite Hsc|].
        by rewrite (Hother _ _ eq_refl Hne H) in Hbx.
      * intros Hno. by rewrite (Hno _ _ Hid) in Hb'.
    + split; [|done]. intros id' x Hx' Hbx. destruct (Hcases _ _ Hx') as [[-> [= ->]]|[Hne H]]; [congruence|].
      by rewrite (Hother _ _ eq_refl Hne H) in Hbx.
  - assert (neutral (c_world c) (c_world c') ∧ ∀ r', o = Some r' → before_exit (rn_pc r') = false) as [Hn Ho].
    { remember (rn_pc r) as pc. remember (rn_pc <$> o) as po eqn:Hpo.
      destruct Hm; try discriminate Hb; (split; [done|]); intros r' ->; cbn in Hpo; try discriminate Hpo; injection Hpo as <-; done. }
    split.
    + intros id' x Hx' Hbx. destruct (Hcases _ _ Hx') as [[-> Hox]|[Hne H]]; [by rewrite (Ho _ Hox) in Hbx|].
      destruct (ti_run _ Ht _ _ H Hbx) as (F & HF & He). exists F. split; [done|by eapply except_neutral].
    + intros Hno. eapply except_neutral; [exact Hn|]. apply (ti_calm _ Ht). intros id' x Hx'.
      destruct (decide (id' = id)) as [->|Hne]; [congruence|]. apply (Hno id'). rewrite Hx. by rewrite lookup_partial_alter_ne.
Qed.

Lemma tidy_start now name c e c' : runs_ok c → tidy c → StartScenario now name c = Some (e, c') → tidy c'.
Proof.
  intros [Hs Hin] Ht E.
  destruct (StartScenario_cases _ _ _ _ _ E)
    as [[-> _]|(sc & ph & t & w1 & w2 & _ & Hc & _ & Hd & Hp & Hn & Hw & Hn' & _ & Hr & _)]; [done|].
  destruct (defs_within _ _ _ Hd) as [F HF].
  assert (∀ id r, c_runs c !! id = Some r → before_exit (rn_pc r) = false) as Hno.
  { intros id r Hx. destruct (before_exit (rn_pc r)) eqn:Hb; [|done].
    apply before_exit_holding, (sl_cur _ Hs _ _ Hx) in Hb. congruence. }
  split.
  - intros id r. rewrite Hr. intros [[<- <-]|[_ H]]%lookup_insert_Some Hb; [|by rewrite (Hno _ _ H) in Hb].
    exists F. split; [done|]. eapply except_neutral; [exact Hn'|]. eapply HF; [done..|].
    eapply except_neutral; [exact Hn|]. by apply except_mono, (ti_calm _ Ht).
  - intros Hall. specialize (Hall (c_nextrun c) (mkRunner sc (RWait 0 t) false false)). rewrite Hr, lookup_insert_eq in Hall.
    by specialize (Hall eq_refl).
Qed.

Lemma cexecs_tidy os c c' : runs_ok c → tidy c → Forall (λ o, undisturbing o.2) os → cexecs os c = Some c' → tidy c'.
Proof.
  revert c. induction os as [|[now o] os IH]; intros c Hok Ht Hu H; [by injection H as <-|]. cbn in H.
  apply Forall_cons in Hu as [Ho Hu]. destruct (cexec now o c) as [c1|] eqn:E; [|done]. cbn in H.
  apply (IH c1); [by eapply cexec_ok| |done..]. destruct (is_run o) eqn:Hr.
  - destruct o; try done; cbn in E.
    + destruct (StartScenario _ _ _) as [[e x]|] eqn:Es; [|done]. injection E as <-. by eapply tidy_start.
    + destruct (run_step _ _ _ _) as [[x|]|] eqn:Es; [|done..]. injection E as <-. by eapply tidy_run.
  - destruct (cexec_other _ _ _ _ Hr E) as ([_ Ha] & _ & He). by eapply tidy_neutral; eauto.
Qed.

(** ** The World [New] builds *)

Lemma New_calm p byRank zipf material w : World.New p byRank zipf material = Some w → calm_world w.
Proof.
  unfold World.New. destruct (mapM _ _); [|done]. cbn [mbind option_bind]. unfold NewFake.
  destruct (NewFake_keks _ _ _) as [m|] eqn:Hm; [|done]. cbn [mbind option_bind]. intros <-%(inj Some).
  split; cbn -[Manager.New withDefaults]; try done.
  - intros k x Hx. left. eapply NewFake_keks_enabled; [exact Hm| |exact Hx]. intros id y. by rewrite lookup_empty.
  - intros i x Hx. left. apply lookup_replicate_1 in Hx as [-> _]. done.
  - by left.
  - intros i y Hl. left. unfold Manager.New in Hl. cbn [fst] in Hl. rewrite list_lookup_imap in Hl.
    destruct (c_Tenants _ !! i); [|done]. by injection Hl as <-.
  - unfold Manager.New. cbn [fst]. rewrite length_imap. unfold withDefaults. cbn. by rewrite !length_fmap.
Qed.

Lemma newScenarios_idle w c : newScenarios w = Some c → idle c ∧ c_world c = w.
Proof.
  unfold newScenarios. repeat (match goal with |- context [mbind _ ?x] => destruct x; [cbn [mbind option_bind]|done] end).
  by intros [= <-].
Qed.

(** ** Theorems *)

(** C27. In every execution of the control plane at most one run is in its phases,
    its exit or its tail, and it is the one the slot names: as long as it is, a
    start of any scenario is refused as busy and changes nothing. *)
Theorem one_run_at_a_time w c os c' id r :
  newScenarios w = Some c → cexecs os c = Some c' → c_runs c' !! id = Some r → holding (rn_pc r) = true →
  c_cur c' = Some id ∧ (∀ id' r', c_runs c' !! id' = Some r' → holding (rn_pc r') = true → id' = id) ∧
  ∀ now name, StartScenario now name c' = Some (Some ErrBusy, c').
Proof.
  intros Hc He Hr Hh. destruct (newScenarios_idle _ _ Hc) as [Hi _].
  destruct (cexecs_ok _ _ _ (idle_ok _ Hi) He) as [[Hs _] _].
  pose proof (proj2 (proj1 (sl_cur _ Hs _ _ Hr)) Hh) as Hcur. split; [done|]. split.
  - intros id' r' Hr' Hh'. by eapply slot_unique.
  - intros now name. unfold StartScenario. rewrite Hcur. by rewrite bool_decide_eq_true_2 by (by eexists).
Qed.

(** C24. The scenarios undo what they do: whatever is started, stopped, restored or
    timed out, in any interleaving of the control calls that inject nothing
    themselves, once every run is past its exit no fault is injected, every key
    is enabled, every rate is at its baseline and every tenant fetches keys as
    shipped. *)
Theorem runs_leave_world_calm p byRank zipf material w c os c' :
  World.New p byRank zipf material = Some w → newScenarios w = Some c →
  Forall (λ o, undisturbing o.2) os → cexecs os c = Some c' →
  (∀ id r, c_runs c' !! id = Some r → before_exit (rn_pc r) = false) → calm_world (c_world c').
Proof.
  intros Hw Hc Hu He Hno. destruct (newScenarios_idle _ _ Hc) as [Hi <-].
  eapply ti_calm; [|exact Hno]. eapply cexecs_tidy; [by apply idle_ok| |done..].
  split; [|intros _; by eapply New_calm]. intros id r. by rewrite (proj2 Hi).
Qed.

(** C25. Every run ends: whatever else happens, a runner takes at most nine steps
    plus one per poll interval of the tail's maximum, and until it is gone it
    always has a step to take once enough time has passed, except while it waits
    for a restore that has not come. *)
Theorem every_run_ends w c os c' :
  newScenarios w = Some c → tail_params (w_P w) → cexecs os c = Some c' →
  (∀ id, (steps_by id os ≤ 9 + Z.to_nat (P_ScenarioTailMax (w_P w) / P_SnapshotInterval (w_P w)))%nat) ∧
  ∀ id r, c_runs c' !! id = Some r → waits_for_restore r = true ∨ ∃ e t, ∀ now, t <= now → is_Some (run_step now id e c').
Proof.
  intros Hc Hp He. destruct (newScenarios_idle _ _ Hc) as [Hi <-]. split.
  - intros id. pose proof (cexecs_potential _ _ _ id (idle_ok _ Hi) Hp He) as H.
    unfold potential at 2 in H. rewrite (proj2 Hi), lookup_empty in H. unfold run_bound, polls_max in H.
    case_bool_decide; lia.
  - intros id r Hr. destruct (waits_for_restore r) eqn:Hw; [by left|right]. by eapply runner_wakes.
Qed.
End ScenarioSpec.

(** ** Concrete runs *)

Module Runs.
Import SDemo.

(** Computed readings of an execution from the demo World. *)
Definition after (os : list (Time * cop)) : option cworld := c ← start; cexecs os c.
Definition card_of (o : option cworld) : option (option nat * string * list Z) :=
  (λ c, (c_cur c, sc_name (scen (w_metrics (c_world c))), targets (w_metrics (c_world c)))) <$> o.
Definition fetches (o : option cworld) : option (string * list Fetch) :=
  (λ c, (w_keyFetch (c_world c), (λ l, t_fetch (l_t l)) <$> w_tenants (c_world c))) <$> o.

(** A surge is started and stopped; its runner frees the slot, an outage starts,
    and then the old runner clears targets and card. *)
Definition surge_stopped : list (Time * cop) :=
  [(t0, CStart "tenant_surge"); (t0, CStop); (t0, CRun 0 EvCancel); (t0, CRun 0 EvGo); (t0, CRun 0 EvGo)].
Definition outage_starts : list (Time * cop) := (surge_stopped ++ [(t0 + Second, CStart "provider_outage")])%list.
Definition old_run_clears : list (Time * cop) :=
  (outage_starts ++ [(t0 + Second, CRun 0 EvGo); (t0 + Second, CRun 0 EvGo)])%list.

(** A run clears the targets and the card after it frees the slot: a start in
    between loses them.  The outage runs, holds the slot, and the registry shows
    no scenario and no target until its next phase. *)
Theorem late_clear_loses_next_card :
  card_of (after outage_starts) = Some (Some 1%nat, "provider_outage", [7; 8; 9; 10; 11; 12; 13]) ∧
  card_of (after old_run_clears) = Some (Some 1%nat, "", []).
Proof. split; vm_compute; reflexivity. Qed.

Definition cache_run_in_sync : list (Time * cop) :=
  [(t0, CFetch "sync"); (t0, CStart "no_cache"); (t0, CStop); (t0, CRun 0 EvCancel); (t0, CRun 0 EvGo)].

(** The exit of the no-cache run does not restore the key-fetch design it
    found: started with the sync design, it leaves its provider's tenants on the
    async one, while the World still reports sync. *)
Theorem no_cache_exit_forgets_sync :
  fetches (after (take 1 cache_run_in_sync)) = Some ("sync", replicate 20 FetchSync) ∧
  fetches (after cache_run_in_sync)
  = Some ("sync", replicate 7 FetchSync ++ replicate 7 FetchAsync ++ replicate 6 FetchSync)%list.
Proof. split; vm_compute; reflexivity. Qed.

(** An execution from the demo World, with what a test finds at its end. *)
Definition check (os : list (Time * cop)) (f : cworld → bool) : bool :=
  match after os with Some c => f c | None => false end.

Lemma check_cases os f : check os f = true →
  ∃ w c c', built = Some w ∧ newScenarios w = Some c ∧ cexecs os c = Some c' ∧ f c' = true.
Proof.
  unfold check, after, start. destruct built as [w|]; [|done]. cbn [mbind option_bind].
  destruct (newScenarios w) as [c|] eqn:Hc; [|done]. cbn [mbind option_bind].
  destruct (cexecs os c) as [c'|] eqn:He; [|done]. intros Hf. by exists w, c, c'.
Qed.

Definition run_holds (c : cworld) : bool := match c_runs c !! 0%nat with Some r => holding (rn_pc r) | None => false end.
Definition runs_past_exit (c : cworld) : bool := forallb (λ e, negb (before_exit (rn_pc e.2))) (map_to_list (c_runs c)).
Definition tail_ok (c : cworld) : bool :=
  let p := w_P (c_world c) in
  (minInt64 <? P_ScenarioTailMax p) && (P_ScenarioTailMax p <=? maxInt64) && (0 <? P_SnapshotInterval p)
  && (P_ScenarioTailMax p / P_SnapshotInterval p =? 180).

Lemma one_run_at_a_time_witness : ∃ c', after [(t0, CStart "slow_kms")] = Some c' ∧
  c_cur c' = Some 0%nat ∧ ∀ now name, StartScenario now name c' = Some (Some ErrBusy, c').
Proof.
  assert (check [(t0, CStart "slow_kms")] run_holds = true) as H by (vm_compute; reflexivity).
  destruct (check_cases _ _ H) as (w & c & c' & Hw & Hc & He & Hf).
  exists c'. split; [unfold after, start; rewrite Hw; cbn [mbind option_bind]; rewrite Hc; exact He|].
  unfold run_holds in Hf. destruct (c_runs c' !! 0%nat) as [r|] eqn:Hr; [|discriminate Hf].
  destruct (one_run_at_a_time w c _ c' 0 r Hc He Hr Hf) as (Hcur & _ & Hbusy). split; [exact Hcur|exact Hbusy].
Defined.

(** The cacheless surge, through its three phases to its tail. *)
Definition cache_surge : list (Time * cop) :=
  [(t0, CStart "no_cache_surge"); (t0 + 15 * Second, CRun 0 EvTimer); (t0 + 75 * Second, CRun 0 EvTimer);
   (t0 + 90 * Second, CRun 0 EvTimer); (t0 + 90 * Second, CRun 0 EvGo)].

Lemma runs_leave_world_calm_witness : ∃ c', after cache_surge = Some c' ∧ c_cur c' = Some 0%nat ∧ calm_world (c_world c').
Proof.
  assert (check cache_surge (λ c, bool_decide (c_cur c = Some 0%nat) && runs_past_exit c) = true) as H by (vm_compute; reflexivity).
  destruct (check_cases _ _ H) as (w & c & c' & Hw & Hc & He & Hf). apply andb_true_iff in Hf as [Hcur Hf].
  exists c'. split; [unfold after, start; rewrite Hw; cbn [mbind option_bind]; rewrite Hc; exact He|].
  split; [by apply bool_decide_eq_true in Hcur|].
  eapply (runs_leave_world_calm _ _ _ _ w c cache_surge c' Hw Hc); [repeat (constructor; [exact I|]); constructor|exact He|].
  intros id r Hr. unfold runs_past_exit in Hf. rewrite forallb_forall in Hf.
  specialize (Hf (id, r) (proj1 (list_elem_of_In _ _) (proj2 (elem_of_map_to_list _ _ _) Hr))).
  by apply negb_true_iff in Hf.
Defined.

Lemma every_run_ends_witness : ∃ c', after cache_surge = Some c' ∧ (steps_by 0 cache_surge ≤ 189)%nat ∧
  ∀ id r, c_runs c' !! id = Some r → waits_for_restore r = true ∨ ∃ e t, ∀ now, t <= now → is_Some (run_step now id e c').
Proof.
  assert (check [] tail_ok = true) as H0 by (vm_compute; reflexivity).
  assert (check cache_surge (λ _, true) = true) as H by (vm_compute; reflexivity).
  destruct (check_cases _ _ H0) as (w0 & c0 & c0' & Hw0 & Hc0 & He0 & Hf).
  destruct (check_cases _ _ H) as (w & c & c' & Hw & Hc & He & _).
  rewrite Hw0 in Hw. injection Hw as <-. rewrite Hc0 in Hc. injection Hc as <-. injection He0 as <-.
  unfold tail_ok in Hf. rewrite (proj2 (newScenarios_idle _ _ Hc0)) in Hf. rewrite !andb_true_iff in Hf.
  destruct Hf as [[[Hlo Hhi] Hint] Hq]. apply Z.ltb_lt in Hlo, Hint. apply Z.leb_le in Hhi. apply Z.eqb_eq in Hq.
  exists c'. split; [unfold after, start; rewrite Hw0; cbn [mbind option_bind]; rewrite Hc0; exact He|].
  destruct (every_run_ends w0 c0 cache_surge c' Hc0 (conj (conj Hlo Hhi) Hint) He) as [Hn Hp].
  split; [|exact Hp]. rewrite Hq in Hn. exact (Hn 0%nat).
Defined.
End Runs.
