(* ===== verification/Holder.v ===== *)
(** * internal/world/holder.go: the current World

    Building, sharing, idling out and resetting Worlds.  A [site] is a World with
    the hub its viewers subscribe to; what the hub tells the watcher reaches the
    World's generator and idle stamp.  Worlds that were stopped stay in the list:
    a handler may still hold one. *)

From S2P Require Import Prelude GoLib GoFloat Kms Tink KmsModel Fake Lease Cmek Tenant Prog Manager Api.
From S2P Require Import Store Ingest Hub Generator Params Metrics World Scenarios Footprint ScenarioDemo ScenarioSpec.
Local Open Scope string_scope.
Local Open Scope Z_scope.

Section Holder.
Context `{TK : Tink} `{MR : MapRange} `{FM : Fmt}.

(** ** One World and its hub *)

(** [si_ctl] is the World with its scenarios, [si_hub] the registry's hub,
    [si_holds] the handlers counted on it. *)
Record site := mkSite { si_ID : string; si_ctl : cworld; si_hub : hstate; si_holds : gset nat; si_nexthold : nat; si_stopped : bool }.

Definition with_ctl (c : cworld) (s : site) : site := mkSite (si_ID s) c (si_hub s) (si_holds s) (si_nexthold s) (si_stopped s).
Definition si_world (s : site) : World := c_world (si_ctl s).
Definition si_viewers (s : site) : Z := viewers (hs_hub (si_hub s)).

(** The watcher's calls for the counts told; [None] is a panic. *)
Definition hears (now : Time) (ns : list Z) (w : World) : option World := foldl (λ o n, w ← o; watch now n w) (Some w) ns.

(** A call on the hub, with what it tells the watcher. *)
Definition hub_call (now : Time) (o : hop) (s : site) : option site :=
  h ← hexec o (si_hub s);
  w ← hears now (drop (length (h_told (hs_hub (si_hub s)))) (h_told (hs_hub h))) (si_world s);
  Some (mkSite (si_ID s) (with_world w (si_ctl s)) h (si_holds s) (si_nexthold s) (si_stopped s)).

(** [Subscribe]: the channel. *)
Definition Subscribe (now : Time) (s : site) : option (nat * site) :=
  s' ← hub_call now HSubscribe s; Some (h_next (hs_hub (si_hub s)), s').

(** [hold] and its release. *)
Definition hold (s : site) : nat * site :=
  (si_nexthold s, mkSite (si_ID s) (si_ctl s) (si_hub s) ({[si_nexthold s]} ∪ si_holds s) (S (si_nexthold s)) (si_stopped s)).
Definition unhold (n : nat) (s : site) : site :=
  mkSite (si_ID s) (si_ctl s) (si_hub s) (si_holds s ∖ {[n]}) (si_nexthold s) (si_stopped s).

(** [World.Stop], but for the waits and the database. *)
Definition Stop_site (now : Time) (s : site) : option site :=
  hub_call now HCloseAll (mkSite (si_ID s) (Stop (si_ctl s)) (si_hub s) (si_holds s) (si_nexthold s) true).

(** ** The holder *)

(** [ho_cur] is an index into the Worlds built so far; [h.seq], the count in
    their names, also counts failed builds. *)
Record Holder := mkHolder { ho_p : Params; ho_cur : option nat; ho_sites : list site; ho_seq : Z }.
Definition NewHolder (p : Params) : Holder := mkHolder p None [] 0.

Definition world_id (n : Z) : string := "w-" +:+ Itoa n.

(** [build]: [fresh] is what [New] returns, [None] when it fails. *)
Definition build (fresh : option cworld) (h : Holder) : Holder :=
  match fresh with
  | None => mkHolder (ho_p h) None (ho_sites h) (ho_seq h + 1)
  | Some c =>
      mkHolder (ho_p h) (Some (length (ho_sites h)))
        (ho_sites h ++ [mkSite (world_id (ho_seq h + 1)) c (hinit (P_ViewerQueue (ho_p h)) true) ∅ 0 false])%list (ho_seq h + 1)
  end.

Definition on_site (i : nat) (f : site → option site) (h : Holder) : option Holder :=
  s ← ho_sites h !! i; s' ← f s; Some (mkHolder (ho_p h) (ho_cur h) (<[i := s']> (ho_sites h)) (ho_seq h)).
Definition current (h : Holder) : option site := i ← ho_cur h; ho_sites h !! i.
Definition drop_cur (h : Holder) : Holder := mkHolder (ho_p h) None (ho_sites h) (ho_seq h).

(** Stop the current World, when there is one. *)
Definition stop_cur (now : Time) (h : Holder) : option Holder :=
  match ho_cur h with None => Some h | Some i => h ← on_site i (Stop_site now) h; Some (drop_cur h) end.

(** The rule of an idle rebuild. *)
Definition idled_out (now : Time) (h : Holder) : bool :=
  match current h with
  | Some s => (si_viewers s =? 0) && (P_IdleRebuild (ho_p h) <? IdleFor now (si_world s))
  | None => false
  end.

(** [if h.cur == nil && h.build() == nil]. *)
Definition ensure_cur (fresh : option cworld) (h : Holder) : Holder := match ho_cur h with Some _ => h | None => build fresh h end.

(** The end of [Acquire]: subscribe to the current World and hold it. *)
Definition join (now : Time) (h : Holder) : option (option (nat * nat * nat) * Holder) :=
  match ho_cur h with
  | None => Some (None, h)
  | Some i =>
      s ← ho_sites h !! i; r ← Subscribe now s; let '(hd, s) := hold r.2 in
      Some (Some (i, r.1, hd), mkHolder (ho_p h) (ho_cur h) (<[i := s]> (ho_sites h)) (ho_seq h))
  end.

(** What [Acquire] returns: the World, the channel and the hold. *)
Definition Acquire (now : Time) (fresh : option cworld) (h : Holder) : option (option (nat * nat * nat) * Holder) :=
  h ← (if idled_out now h then stop_cur now h else Some h);
  join now (ensure_cur fresh h).

(** The World and the hold of [Ensure] and of [Current]. *)
Definition hold_cur (h : Holder) : option (nat * nat) * Holder :=
  match ho_cur h with
  | None => (None, h)
  | Some i =>
      match ho_sites h !! i with
      | Some s => let '(hd, s) := hold s in (Some (i, hd), mkHolder (ho_p h) (ho_cur h) (<[i := s]> (ho_sites h)) (ho_seq h))
      | None => (None, h)
      end
  end.
Definition Ensure (fresh : option cworld) (h : Holder) : option (nat * nat) * Holder := hold_cur (ensure_cur fresh h).
Definition Current (h : Holder) : option (nat * nat) * Holder := hold_cur h.

Definition Reset_ (now : Time) (fresh : option cworld) (h : Holder) : option Holder :=
  h ← stop_cur now h; Some (build fresh h).

(** The release [Acquire] returns. *)
Definition release (now : Time) (i ch hd : nat) (h : Holder) : option Holder :=
  on_site i (λ s, s ← hub_call now (HCancel ch) s; Some (unhold hd s)) h.

(** ** Runs *)

(** The holder's calls, the releases (of [Acquire], and of the others), a tick's
    broadcast, and a control call on a World a handler holds. *)
Inductive act :=
  | AAcquire (fresh : option cworld)
  | AEnsure (fresh : option cworld)
  | ACurrent
  | AReset (fresh : option cworld)
  | ARelease (i ch hd : nat)
  | AUnhold (i hd : nat)
  | ATick (i : nat) (snapshot : string)
  | AControl (i : nat) (o : cop).

Definition hact (now : Time) (a : act) (h : Holder) : option Holder :=
  match a with
  | AAcquire fresh => snd <$> Acquire now fresh h
  | AEnsure fresh => Some (Ensure fresh h).2
  | ACurrent => Some (Current h).2
  | AReset fresh => Reset_ now fresh h
  | ARelease i ch hd => release now i ch hd h
  | AUnhold i hd => on_site i (λ s, Some (unhold hd s)) h
  | ATick i b => on_site i (hub_call now (HBroadcast b)) h
  | AControl i o => on_site i (λ s, c ← cexec now o (si_ctl s); Some (with_ctl c s)) h
  end.

Fixpoint hacts (os : list (Time * act)) (h : Holder) : option Holder :=
  match os with [] => Some h | (now, a) :: os' => h ← hact now a h; hacts os' h end.

(** ** The hub's calls on a World *)

(** The watcher is only told more, and the hub is closed or not as before. *)
Definition grows (h h' : hub) : Prop := (∃ ns, h_told h' = (h_told h ++ ns)%list) ∧ h_closed h' = h_closed h.

#[local] Instance grows_pre : PreOrder grows.
Proof.
  split.
  - intros h. split; [|done]. exists []. by rewrite app_nil_r.
  - intros a b c [[n1 E1] C1] [[n2 E2] C2]. split; [|congruence]. exists (n1 ++ n2)%list. by rewrite E2, E1, app_assoc.
Qed.

Lemma notify_grows n h h' : grows h h' → grows h (notify n h').
Proof.
  intros Hg. etrans; [exact Hg|]. unfold notify. destruct (h_watcher h'); [|done]. split; [by eexists|done].
Qed.

Lemma grows_same h h' : h_told h' = h_told h → h_closed h' = h_closed h → grows h h'.
Proof. intros E1 E2. split; [exists []; by rewrite app_nil_r|congruence]. Qed.

Lemma cancel_grows ch h h' : cancel ch h = Some h' → grows h h'.
Proof.
  unfold cancel. case_bool_decide; [by intros [= <-]|]. cbn [h_subs h_chans h_next].
  set (h1 := mkHub _ _ _ _ _ _ _ _). assert (grows h h1) as H1 by by apply grows_same.
  assert (∀ h2, grows h1 h2 → Some (if h_closed h2 then h2 else notify (count h2) h2) = Some h' → grows h h') as Hd.
  { intros h2 H2 [= <-]. etrans; [exact H1|]. destruct (h_closed h2); [done|by apply notify_grows]. }
  case_bool_decide; [|by apply Hd]. destruct (close_chan _ _); [|done]. cbn [mbind option_bind]. apply Hd. by apply grows_same.
Qed.

Lemma hexec_told o s s' : hexec o s = Some s' →
  (∃ ns, h_told (hs_hub s') = (h_told (hs_hub s) ++ ns)%list) ∧
  h_closed (hs_hub s') = match o with HCloseAll => true | _ => h_closed (hs_hub s) end.
Proof.
  enough (match o with HCloseAll => hexec o s = Some s' → (∃ ns, h_told (hs_hub s') = (h_told (hs_hub s) ++ ns)%list) ∧ h_closed (hs_hub s') = true
          | _ => hexec o s = Some s' → grows (hs_hub s) (hs_hub s') end) as H by by destruct o.
  destruct s as [h hs live], o as [|ch|b| |ch]; cbn [hexec hs_hub].
  - unfold subscribe. destruct (h_closed h) eqn:E.
    + destruct (close_chan _ _); [|done]. cbn. intros [= <-]. by apply grows_same.
    + cbn. intros [= <-]. by apply notify_grows, grows_same.
  - case_bool_decide; [|by intros [= <-]]. destruct (cancel ch h) eqn:E; [|done]. cbn. intros [= <-]. by eapply cancel_grows.
  - unfold broadcast. destruct (forallb _ _); [|done]. cbn. intros [= <-]. by apply grows_same.
  - unfold closeAll. destruct (foldr _ _ _); [|done]. cbn. intros [= <-]. cbn [hs_hub]. unfold notify. cbn [h_watcher].
    destruct (h_watcher h); (split; [|done]); [by eexists|exists []; by rewrite app_nil_r].
  - unfold recv. destruct (h_chans h !! ch) as [c|]; cbn; [|by intros [= <-]].
    destruct (c_buf c); intros [= <-]; by apply grows_same.
Qed.

Lemma drop_told {A} (l ns : list A) : drop (length l) (l ++ ns) = ns.
Proof. by rewrite drop_app_length. Qed.

(** The counts told are the changes: the last one is the count now. *)
Lemma hexec_count o s s' ns : hinv s → h_watcher (hs_hub s) = true → hexec o s = Some s' → h_told (hs_hub s') = (h_told (hs_hub s) ++ ns)%list →
  viewers (hs_hub s') = default (viewers (hs_hub s)) (last ns).
Proof.
  intros Hi Hw He Ht. destruct (hexec_inv o s Hi) as (x & Hx & Hi'). rewrite He in Hx. injection Hx as <-.
  pose proof (hi_told _ Hi) as H1. pose proof (hi_told _ Hi') as H2. unfold told_ok in *.
  rewrite (hexec_watcher _ _ _ He) in H2. rewrite Hw in H1, H2. rewrite Ht in H2. unfold viewers.
  destruct ns as [|n ns _] using rev_ind.
  - rewrite app_nil_r in H2. cbn. destruct H1 as [H1|[H1 E1]], H2 as [H2|[H2 E2]].
    + congruence.
    + by rewrite H2 in H1.
    + by rewrite H1 in H2.
    + unfold count. by rewrite E1, E2.
  - rewrite app_assoc, !last_snoc in *. cbn. destruct H2 as [H2|[H2 _]]; [congruence|]. by apply app_nil in H2 as [_ ?].
Qed.

Lemma watch_ok now n w : gate_ok (w_gen w) → ∃ w', watch now n w = Some w' ∧ gate_ok (w_gen w') ∧
  on (w_gen w') = negb (n =? 0) ∧ w_idleSince w' = (if n =? 0 then Time.UnixMilli now else 0) ∧ w_P w' = w_P w.
Proof.
  intros Hg. unfold watch. destruct (n =? 0).
  - destruct (SetRunning_ok false (w_gen w) Hg) as (g & Hs & Hg' & Ho). cbn [w_gen with_idle]. rewrite Hs. cbn. by eexists.
  - destruct (SetRunning_ok true (w_gen w) Hg) as (g & Hs & Hg' & Ho). rewrite Hs. cbn. by eexists.
Qed.

Lemma hears_ok now ns w : gate_ok (w_gen w) → ∃ w', hears now ns w = Some w' ∧ gate_ok (w_gen w') ∧ w_P w' = w_P w ∧
  match last ns with
  | None => w' = w
  | Some n => on (w_gen w') = negb (n =? 0) ∧ w_idleSince w' = (if n =? 0 then Time.UnixMilli now else 0)
  end.
Proof.
  intros Hg. induction ns as [|n ns IH] using rev_ind; [by exists w|].
  destruct IH as (w1 & H1 & Hg1 & HP & _). destruct (watch_ok now n w1 Hg1) as (w2 & H2 & Hg2 & Ho & Hi & HP2).
  exists w2. unfold hears in *. rewrite foldl_app, H1. cbn. rewrite H2, last_snoc. split_and!; try done. congruence.
Qed.

(** ** The invariant *)

Record site_core (s : site) : Prop := mkSiteCore {
  so_hub : hinv (si_hub s);
  so_watcher : h_watcher (hs_hub (si_hub s)) = true;
  so_gate : gate_ok (w_gen (si_world s));
  so_on : on (w_gen (si_world s)) = negb (si_viewers s =? 0);
  so_idle : si_viewers s ≠ 0 → w_idleSince (si_world s) = 0;
  so_runs : runs_ok (si_ctl s) }.

(** A stopped World's hub is closed, and only a stopped one's. *)
Definition site_ok (s : site) : Prop := site_core s ∧ h_closed (hs_hub (si_hub s)) = si_stopped s.

Lemma runs_ok_with_world w c : runs_ok c → runs_ok (with_world w c).
Proof. intros [Hs Hi]. split; [by apply slot_with_world|exact Hi]. Qed.

Lemma hub_call_core now o s : site_core s → ∃ s', hub_call now o s = Some s' ∧ site_core s' ∧ si_stopped s' = si_stopped s ∧
  h_closed (hs_hub (si_hub s')) = match o with HCloseAll => true | _ => h_closed (hs_hub (si_hub s)) end.
Proof.
  intros []. destruct (hexec_inv o _ so_hub0) as (h & Hh & Hinv). destruct (hexec_told _ _ _ Hh) as ((ns & Hns) & Hcl).
  destruct (hears_ok now ns _ so_gate0) as (w & Hw & Hg & HP & Hlast). pose proof (hexec_count _ _ _ _ so_hub0 so_watcher0 Hh Hns) as Hcount.
  unfold hub_call. rewrite Hh. cbn [mbind option_bind]. rewrite Hns, drop_told, Hw. cbn [mbind option_bind]. eexists. split; [done|]. split; [|done].
  split; unfold si_viewers, si_world in *; cbn [si_hub si_ctl si_stopped c_world with_world]; try done.
  - by rewrite (hexec_watcher _ _ _ Hh).
  - rewrite Hcount. destruct (last ns) as [n|]; cbn; [by destruct Hlast|by subst].
  - rewrite Hcount. destruct (last ns) as [n|]; cbn; [|by subst]. intros Hn. destruct Hlast as [_ ->]. by rewrite (proj2 (Z.eqb_neq _ _) Hn).
  - by apply runs_ok_with_world.
Qed.

Lemma hub_call_ok now o s : site_ok s → o ≠ HCloseAll → ∃ s', hub_call now o s = Some s' ∧ site_ok s' ∧ si_stopped s' = si_stopped s.
Proof.
  intros [Hs Hc] Ho. destruct (hub_call_core now o s Hs) as (s' & H & Hs' & Hst & Hcl). exists s'. split; [done|]. split; [|done].
  split; [done|]. rewrite Hcl, Hst. by destruct o.
Qed.

(** Every World is in order, and the current one is the one not stopped. *)
Record holder_ok (h : Holder) : Prop := mkHolderOk {
  hk_site : ∀ i s, ho_sites h !! i = Some s → site_ok s ∧ (si_stopped s = false → ho_cur h = Some i);
  hk_cur : ∀ i, ho_cur h = Some i → ∃ s, ho_sites h !! i = Some s ∧ si_stopped s = false }.

(** A World [New] and [newScenarios] made. *)
Definition built_by (p : Params) (c : cworld) : Prop :=
  ∃ byRank zipf material w, World.New p byRank zipf material = Some w ∧ newScenarios w = Some c.

Lemma built_site p c id d : built_by p c → site_ok (mkSite id c (hinit d true) ∅ 0 false).
Proof.
  intros (byRank & zipf & material & w & Hw & Hc). destruct (newScenarios_idle _ _ Hc) as [Hi Hcw].
  unfold World.New in Hw. destruct (mapM _ _); [|done]. cbn [mbind option_bind] in Hw. destruct (NewFake _ _); [|done].
  cbn [mbind option_bind] in Hw. apply (inj Some) in Hw.
  split; [|done]. split; unfold si_viewers, si_world; cbn [si_ctl si_hub si_stopped]; rewrite ?Hcw, <- ?Hw; try done.
  - apply hinit_inv.
  - split_and!; cbn; [set_solver|lia|set_solver].
  - by apply idle_ok.
Qed.

Lemma set_site_ok h i s s' : holder_ok h → ho_sites h !! i = Some s → site_ok s' → si_stopped s' = si_stopped s →
  holder_ok (mkHolder (ho_p h) (ho_cur h) (<[i := s']> (ho_sites h)) (ho_seq h)).
Proof.
  intros [Hs Hc] Hi Hok Hst. split; cbn.
  - intros j x [(<- & <- & _)|[_ H]]%list_lookup_insert_Some; [|by apply Hs]. split; [done|]. rewrite Hst. by eapply Hs.
  - intros j Hj. destruct (Hc j Hj) as (x & Hx & Hxs). destruct (decide (j = i)) as [->|Hne].
    + exists s'. rewrite list_lookup_insert_eq by (by eapply lookup_lt_Some). split; [done|]. rewrite Hst. congruence.
    + exists x. by rewrite list_lookup_insert_ne.
Qed.

Lemma on_site_ok i f h h' : holder_ok h → (∀ s s', site_ok s → f s = Some s' → site_ok s' ∧ si_stopped s' = si_stopped s) →
  on_site i f h = Some h' → holder_ok h'.
Proof.
  intros Hok Hf. unfold on_site. destruct (ho_sites h !! i) as [s|] eqn:Hi; [|done]. cbn [mbind option_bind].
  destruct (f s) as [s'|] eqn:E; [|done]. cbn [mbind option_bind]. intros <-%(inj Some).
  destruct (Hf s s' (proj1 (hk_site _ Hok _ _ Hi)) E) as [H1 H2]. by eapply set_site_ok.
Qed.

Lemma hub_call_site now o s s' : site_ok s → o ≠ HCloseAll → hub_call now o s = Some s' → site_ok s' ∧ si_stopped s' = si_stopped s.
Proof. intros Hs Ho H. destruct (hub_call_ok now o s Hs Ho) as (x & Hx & ? & ?). rewrite H in Hx. by injection Hx as <-. Qed.

Lemma hold_site s : site_ok s → site_ok (hold s).2.
Proof. intros [[] ?]. by split. Qed.
Lemma unhold_site n s : site_ok s → site_ok (unhold n s).
Proof. intros [[] ?]. by split. Qed.

Lemma control_core now o s c b : site_core s → cexec now o (si_ctl s) = Some c →
  site_core (mkSite (si_ID s) c (si_hub s) (si_holds s) (si_nexthold s) b).
Proof.
  intros [] He. destruct (cexec_ok _ _ _ _ so_runs0 He) as [Hr (_ & _ & _ & Hid & Hg)]. unfold gate in Hg. injection Hg as H1 H2 H3 H4.
  split; unfold si_world, si_viewers, gate_ok in *; cbn [si_ctl si_hub si_stopped] in *; rewrite ?H1, ?H2, ?H3, ?H4, ?Hid; done.
Qed.

Lemma Stop_site_ok now s : site_ok s → ∃ s', Stop_site now s = Some s' ∧ site_ok s' ∧ si_stopped s' = true.
Proof.
  intros [Hs _]. unfold Stop_site. pose proof (control_core now CHalt s _ true Hs eq_refl) as Hc.
  destruct (hub_call_core now HCloseAll _ Hc) as (x & Hx & Hok & Hst & Hcl). exists x. split; [done|]. split; [|done]. split; [done|].
  by rewrite Hcl, Hst.
Qed.

Lemma stop_cur_ok now h : holder_ok h → ∃ h', stop_cur now h = Some h' ∧ holder_ok h' ∧ ho_cur h' = None ∧ ho_p h' = ho_p h.
Proof.
  intros Hok. unfold stop_cur. destruct (ho_cur h) as [i|] eqn:Hc; [|by exists h].
  destruct (hk_cur _ Hok _ Hc) as (s & Hs & _). destruct (Stop_site_ok now s (proj1 (hk_site _ Hok _ _ Hs))) as (s' & Hst & Hs' & Hd).
  unfold on_site. rewrite Hs. cbn [mbind option_bind]. rewrite Hst. cbn [mbind option_bind]. eexists. split; [done|].
  split; [|done]. split; cbn; [|done]. intros j x [(<- & <- & _)|[Hne H]]%list_lookup_insert_Some; [by rewrite Hd|].
  destruct (hk_site _ Hok _ _ H) as [Hx Hcur]. split; [done|]. intros Hf. apply Hcur in Hf. congruence.
Qed.

Lemma build_ok fresh h : holder_ok h → ho_cur h = None → (∀ c, fresh = Some c → built_by (ho_p h) c) → holder_ok (build fresh h).
Proof.
  intros Hok Hn Hf. destruct fresh as [c|]; cbn.
  - split; cbn.
    + intros i s [Hi|(Hge & Hi)]%lookup_app_Some.
      * destruct (hk_site _ Hok _ _ Hi) as [Hs Hc]. split; [done|]. intros Hx. apply Hc in Hx. congruence.
      * apply list_lookup_singleton_Some in Hi as [Hz <-]. split; [by eapply built_site, Hf|]. intros _. f_equal. lia.
    + intros i [= <-]. eexists. split; [by rewrite lookup_app_r, Nat.sub_diag by lia|done].
  - split; cbn; [|done]. intros i s Hi. destruct (hk_site _ Hok _ _ Hi) as [Hs Hc]. split; [done|].
    intros Hx. apply Hc in Hx. congruence.
Qed.
Lemma ensure_ok fresh h : holder_ok h → (∀ c, fresh = Some c → built_by (ho_p h) c) → holder_ok (ensure_cur fresh h).
Proof. intros Hok Hf. unfold ensure_cur. destruct (ho_cur h) eqn:Hc; [done|]. by apply build_ok. Qed.

Lemma hold_cur_ok h : holder_ok h → holder_ok (hold_cur h).2.
Proof.
  intros Hok. unfold hold_cur. destruct (ho_cur h) as [i|] eqn:Hc; [|done].
  destruct (ho_sites h !! i) as [s|] eqn:Hs; [|done]. cbn. rewrite <- Hc.
  eapply set_site_ok; [done|exact Hs| |done]. apply (hold_site s). by eapply hk_site.
Qed.

(** A subscription to an open hub counts. *)
Lemma Subscribe_counts now s : site_ok s → si_stopped s = false →
  ∃ ch s', Subscribe now s = Some (ch, s') ∧ site_ok s' ∧ si_stopped s' = false ∧ 0 < si_viewers s'.
Proof.
  intros Hs Hst. destruct (hub_call_ok now HSubscribe s Hs ltac:(done)) as (s' & H & Hs' & Hst'). unfold Subscribe. rewrite H. cbn [mbind option_bind].
  eexists _, s'. split; [done|]. split; [done|]. split; [congruence|]. unfold hub_call in H.
  destruct (hexec HSubscribe (si_hub s)) as [h|] eqn:Hh; [|done]. cbn [mbind option_bind] in H. destruct (hears _ _ _); [|done]. cbn in H. injection H as <-.
  unfold si_viewers, viewers, count. cbn [si_hub]. destruct Hs as [_ Hcl]. rewrite Hst in Hcl.
  destruct (si_hub s) as [h0 hs live]. cbn [hexec hs_hub] in *. unfold subscribe in Hh. rewrite Hcl in Hh. cbn in Hh. injection Hh as <-.
  cbn [hs_hub]. destruct (notify_fields (count (with_chans ({[h_next h0]} ∪ h_subs h0) (<[h_next h0:=mkChan [] false]> (h_chans h0)) (S (h_next h0)) h0))
    (with_chans ({[h_next h0]} ∪ h_subs h0) (<[h_next h0:=mkChan [] false]> (h_chans h0)) (S (h_next h0)) h0)) as (-> & _). cbn [h_subs with_chans].
  assert (size ({[h_next h0]} ∪ h_subs h0) ≠ 0%nat); [|lia]. rewrite size_non_empty_iff. set_solver.
Qed.

Lemma join_ok now h : holder_ok h → ∃ r h', join now h = Some (r, h') ∧ holder_ok h' ∧ ho_cur h' = ho_cur h ∧ ho_p h' = ho_p h ∧
  match ho_cur h with
  | None => r = None
  | Some i => ∃ ch hd s, r = Some (i, ch, hd) ∧ ho_sites h' !! i = Some s ∧ 0 < si_viewers s
  end.
Proof.
  intros Hok. unfold join. destruct (ho_cur h) as [i|] eqn:Hc; [|by eexists _, h].
  destruct (hk_cur _ Hok _ Hc) as (s & Hs & Hst). rewrite Hs. cbn [mbind option_bind].
  destruct (Subscribe_counts now s (proj1 (hk_site _ Hok _ _ Hs)) Hst) as (ch & s' & Hsub & Hs' & Hst' & Hpos).
  rewrite Hsub. cbn [mbind option_bind fst snd]. destruct (hold s') as [hd s2] eqn:Eh.
  assert (s2 = (hold s').2) as -> by by rewrite Eh. eexists _, _. split; [done|]. split_and!; [|done|done|].
  - rewrite <- Hc. eapply set_site_ok; [done|exact Hs|by apply hold_site|]. by cbn; rewrite Hst, Hst'.
  - exists ch, hd, (hold s').2. split_and!; [done| |done]. cbn. rewrite list_lookup_insert_eq; [done|by eapply lookup_lt_Some].
Qed.

(** The World a viewer gets: the current one unless it idled out, else a new one. *)
Definition served (now : Time) (fresh : option cworld) (h : Holder) : option nat :=
  match (if idled_out now h then None else ho_cur h) with
  | Some i => Some i
  | None => (λ _, length (ho_sites h)) <$> fresh
  end.

Lemma ensure_cur_cur fresh h : ho_p (ensure_cur fresh h) = ho_p h ∧
  ho_cur (ensure_cur fresh h) = match ho_cur h with Some i => Some i | None => (λ _, length (ho_sites h)) <$> fresh end.
Proof. unfold ensure_cur, build. destruct (ho_cur h) eqn:Hc; [by rewrite Hc|]. by destruct fresh. Qed.

Lemma on_site_length i f h h' : on_site i f h = Some h' → length (ho_sites h') = length (ho_sites h) ∧ ho_p h' = ho_p h.
Proof.
  unfold on_site. destruct (ho_sites h !! i); [|done]. cbn. destruct (f s); [|done]. cbn. intros [= <-]. cbn. by rewrite length_insert.
Qed.

Lemma stop_cur_length now h h' : stop_cur now h = Some h' → length (ho_sites h') = length (ho_sites h).
Proof.
  unfold stop_cur. destruct (ho_cur h); [|by intros [= <-]]. destruct (on_site _ _ _) eqn:E; [|done]. cbn. intros [= <-].
  by apply on_site_length in E as [? _].
Qed.

Lemma Acquire_ok now fresh h : holder_ok h → (∀ c, fresh = Some c → built_by (ho_p h) c) →
  ∃ r h', Acquire now fresh h = Some (r, h') ∧ holder_ok h' ∧ ho_p h' = ho_p h ∧ ho_cur h' = served now fresh h ∧
    match served now fresh h with
    | None => r = None
    | Some i => ∃ ch hd s, r = Some (i, ch, hd) ∧ ho_sites h' !! i = Some s ∧ 0 < si_viewers s
    end.
Proof.
  intros Hok Hf.
  assert (∃ h1, (if idled_out now h then stop_cur now h else Some h) = Some h1 ∧ holder_ok h1 ∧ ho_p h1 = ho_p h ∧
            ho_cur (ensure_cur fresh h1) = served now fresh h) as (h1 & H1 & Hok1 & HP & Hc1).
  { unfold served. destruct (idled_out now h).
    - destruct (stop_cur_ok now h Hok) as (h1 & E & ? & Hn & ?). exists h1. split_and!; [done..|].
      by rewrite (proj2 (ensure_cur_cur fresh h1)), Hn, (stop_cur_length _ _ _ E).
    - exists h. split_and!; [done..|]. apply ensure_cur_cur. }
  destruct (ensure_cur_cur fresh h1) as [HP' _].
  destruct (join_ok now (ensure_cur fresh h1)) as (r & h' & Hj & Hok' & Hc' & HP2 & Hr); [apply ensure_ok; [done|by rewrite HP]|].
  rewrite Hc1 in Hr, Hc'. exists r, h'. split; [|split_and!; [done|congruence|done|done]].
  unfold Acquire. rewrite H1. exact Hj.
Qed.

Lemma hold_cur_p h : ho_p (hold_cur h).2 = ho_p h.
Proof. unfold hold_cur. destruct (ho_cur h) as [i|]; [|done]. by destruct (ho_sites h !! i). Qed.

(** The Worlds handed to the holder come from [New]. *)
Definition act_ok (p : Params) (a : act) : Prop :=
  match a with
  | AAcquire fresh | AEnsure fresh | AReset fresh => ∀ c, fresh = Some c → built_by p c
  | _ => True
  end.

Lemma hact_ok now a h h' : holder_ok h → act_ok (ho_p h) a → hact now a h = Some h' → holder_ok h' ∧ ho_p h' = ho_p h.
Proof.
  intros Hok Ha. destruct a as [fresh|fresh| |fresh|i ch hd|i hd|i b|i o]; cbn [hact act_ok] in *.
  - destruct (Acquire_ok now fresh h Hok Ha) as (r & x & Hx & ? & ? & _). rewrite Hx. cbn. by intros [= <-].
  - intros [= <-]. unfold Ensure. split; [by apply hold_cur_ok, ensure_ok|].
    rewrite hold_cur_p. apply ensure_cur_cur.
  - intros [= <-]. split; [by apply hold_cur_ok|apply hold_cur_p].
  - unfold Reset_. destruct (stop_cur_ok now h Hok) as (x & -> & Hx & Hn & HP). cbn. intros [= <-].
    split; [apply build_ok; [done|done|by rewrite HP]|]. rewrite <- HP. unfold build. by destruct fresh.
  - intros H. split; [|exact (proj2 (on_site_length _ _ _ _ H))]. eapply on_site_ok; [done| |exact H]. intros s s' Hs.
    cbv beta. destruct (hub_call now (HCancel ch) s) as [x|] eqn:E; cbn [mbind option_bind]; [|done]. intros [= <-].
    assert (HCancel ch ≠ HCloseAll) as Hne by congruence.
    destruct (hub_call_site _ _ _ _ Hs Hne E). split; [by apply unhold_site|done].
  - intros H. split; [|exact (proj2 (on_site_length _ _ _ _ H))]. eapply on_site_ok; [done| |exact H]. intros s s' Hs [= <-].
    split; [by apply unhold_site|done].
  - intros H. split; [|exact (proj2 (on_site_length _ _ _ _ H))]. eapply on_site_ok; [done| |exact H]. intros s s' Hs. apply hub_call_site; [done|congruence].
  - intros H. split; [|exact (proj2 (on_site_length _ _ _ _ H))]. eapply on_site_ok; [done| |exact H]. intros s s' [Hs Hcl].
    cbv beta. destruct (cexec now o (si_ctl s)) as [c|] eqn:E; [|done]. cbn [mbind option_bind]. intros [= <-]. split; [|done].
    split; [by eapply control_core|done].
Qed.

Lemma hacts_ok os h h' : holder_ok h → Forall (λ a, act_ok (ho_p h) a.2) os → hacts os h = Some h' → holder_ok h' ∧ ho_p h' = ho_p h.
Proof.
  revert h. induction os as [|[now a] os IH]; intros h Hok Ha H; [by injection H as <-|]. cbn in H.
  apply Forall_cons in Ha as [Ha Has]. destruct (hact now a h) as [h1|] eqn:E; [|done]. cbn in H.
  destruct (hact_ok _ _ _ _ Hok Ha E) as [Hok1 HP]. rewrite <- HP in Has. destruct (IH h1 Hok1 Has H). split; [done|congruence].
Qed.

Lemma NewHolder_ok p : holder_ok (NewHolder p).
Proof. split; cbn; [|done]. intros i s. by rewrite lookup_nil. Qed.

(** C26. Traffic follows the viewers through resets, idle rebuilds and every control
    call: in any World ever built the generator runs exactly while someone
    watches, a watched World is not idle, a World is stopped exactly when it is
    no longer current, and a stopped one has no viewer and no traffic. *)
Theorem traffic_follows_viewers p os h i s :
  Forall (λ a, act_ok p a.2) os → hacts os (NewHolder p) = Some h → ho_sites h !! i = Some s →
  (on (w_gen (si_world s)) = true ↔ si_viewers s ≠ 0) ∧ (∀ now, si_viewers s ≠ 0 → IdleFor now (si_world s) = 0) ∧
  (si_stopped s = false ↔ ho_cur h = Some i) ∧ (si_stopped s = true → si_viewers s = 0 ∧ on (w_gen (si_world s)) = false).
Proof.
  intros Ha He Hi. destruct (hacts_ok _ _ _ (NewHolder_ok p) Ha He) as [Hok _]. destruct (hk_site _ Hok _ _ Hi) as [[Hs Hcl] Hc].
  pose proof (so_on _ Hs) as Hon. assert (si_stopped s = true → si_viewers s = 0) as Hst.
  { intros E. rewrite E in Hcl. unfold si_viewers, viewers, count. rewrite (hi_closed _ (so_hub _ Hs) Hcl). done. }
  split_and!.
  - rewrite Hon. destruct (Z.eqb_spec (si_viewers s) 0); cbn; split; congruence.
  - intros now Hv. unfold IdleFor. by rewrite (so_idle _ Hs Hv).
  - split; [done|]. intros Hx. destruct (hk_cur _ Hok _ Hx) as (y & Hy & Hys). congruence.
  - intros E. rewrite Hon. by rewrite (Hst E).
Qed.

(** A viewer is never moved off a World someone watches: [Acquire] does not
    fail as long as a World is there or can be built, hands out the current
    World unless nobody watches it and it has been idle for longer than
    IdleRebuild, and then a new one; the World it hands out is current, has a
    viewer, and its traffic runs. *)
Theorem acquire_serves p os h now fresh :
  Forall (λ a, act_ok p a.2) os → hacts os (NewHolder p) = Some h → act_ok p (AAcquire fresh) →
  ∃ r h', Acquire now fresh h = Some (r, h') ∧ ho_cur h' = served now fresh h ∧
    match served now fresh h with
    | None => r = None ∧ fresh = None
    | Some i => ∃ ch hd s, r = Some (i, ch, hd) ∧ ho_sites h' !! i = Some s ∧ 0 < si_viewers s ∧ on (w_gen (si_world s)) = true
    end.
Proof.
  intros Ha He Hf. destruct (hacts_ok _ _ _ (NewHolder_ok p) Ha He) as [Hok HP]. cbn in HP.
  destruct (Acquire_ok now fresh h Hok) as (r & h' & H1 & Hok' & HP' & Hc & Hr); [by rewrite HP|]. exists r, h'.
  split; [done|]. split; [done|]. unfold served in *. destruct (if idled_out now h then None else ho_cur h) as [i|].
  - destruct Hr as (ch & hd & s & ? & Hs & Hpos). exists ch, hd, s. split_and!; [done..|].
    destruct (hk_site _ Hok' _ _ Hs) as [[Hcore _] _]. rewrite (so_on _ Hcore). destruct (Z.eqb_spec (si_viewers s) 0); [lia|done].
  - destruct fresh as [c|]; cbn in *; [|done]. destruct Hr as (ch & hd & s & ? & Hs & Hpos). exists ch, hd, s. split_and!; [done..|].
    destruct (hk_site _ Hok' _ _ Hs) as [[Hcore _] _]. rewrite (so_on _ Hcore). destruct (Z.eqb_spec (si_viewers s) 0); [lia|done].
Qed.
End Holder.

(** ** Concrete runs *)

Module HDemo.
Import SDemo.

Lemma start_built c : start = Some c → built_by Small c.
Proof.
  unfold start, built. destruct (World.New _ _ _ _) as [w|] eqn:Hw; [|done]. cbn [mbind option_bind]. intros Hc.
  by exists (seq 0 20), (replicate 20 F.one), (replicate 20 [Byte.x01]), w.
Qed.

(** A viewer comes, starts a revocation and leaves. *)
Definition watched : list (Time * act) :=
  [(t0, AAcquire start); (t0, AControl 0 (CStart "key_revocation")); (t0, ARelease 0 0 0)].

(** The same calls without a viewer. *)
Definition unwatched : list (Time * act) :=
  [(t0, AEnsure start); (t0, AControl 0 (CStart "key_revocation"))].

(** The World a viewer who comes [d] later gets, and the card it shows. *)
Definition opens (os : list (Time * act)) (d : Duration) : option (nat * string) :=
  h ← hacts os (NewHolder Small); r ← Acquire (t0 + d) start h; x ← r.1; s ← ho_sites r.2 !! x.1.1;
  Some (x.1.1, sc_name (scen (w_metrics (si_world s)))).

(** A World nobody has watched yet is never idle: built by a call of the API and
    put through a revocation, it is what the first viewer opens a day later, the
    revocation still on; had it been watched once, a fresh World would open after
    eleven seconds. *)
Theorem never_watched_never_rebuilt :
  opens unwatched (86400 * Second) = Some (0%nat, "key_revocation") ∧
  opens watched (9 * Second) = Some (0%nat, "key_revocation") ∧ opens watched (11 * Second) = Some (1%nat, "").
Proof. split_and!; vm_compute; reflexivity. Qed.

Definition reached (os : list (Time * act)) (f : Holder → bool) : bool :=
  match hacts os (NewHolder Small) with Some h => f h | None => false end.
Lemma reached_cases os f : reached os f = true → ∃ h, hacts os (NewHolder Small) = Some h ∧ f h = true.
Proof. unfold reached. destruct (hacts os (NewHolder Small)) as [h|]; [|done]. by exists h. Qed.

Lemma watched_ok : Forall (λ a, act_ok Small a.2) watched.
Proof. repeat constructor; cbn; intros c; apply start_built. Qed.

Definition first_unwatched (h : Holder) : bool :=
  match ho_sites h !! 0%nat with Some s => (si_viewers s =? 0) && negb (si_stopped s) | None => false end.

Lemma traffic_follows_viewers_witness :
  ∃ h s, hacts watched (NewHolder Small) = Some h ∧ ho_sites h !! 0%nat = Some s ∧
    on (w_gen (si_world s)) ≠ true ∧ ho_cur h = Some 0%nat.
Proof.
  assert (reached watched first_unwatched = true) as H by (vm_compute; reflexivity).
  destruct (reached_cases _ _ H) as (h & Hh & Hf). unfold first_unwatched in Hf.
  destruct (ho_sites h !! 0%nat) as [s|] eqn:Hs; [|discriminate Hf]. apply andb_true_iff in Hf as [Hv Hst].
  apply Z.eqb_eq in Hv. apply negb_true_iff in Hst. exists h, s.
  destruct (traffic_follows_viewers Small watched h 0 s watched_ok Hh Hs) as (Hon & _ & Hcur & _).
  split; [exact Hh|]. split; [exact Hs|]. split; [intros Ho; exact (proj1 Hon Ho Hv)|exact (proj1 Hcur Hst)].
Defined.

Lemma acquire_serves_witness :
  ∃ h, hacts watched (NewHolder Small) = Some h ∧ ∃ r h', Acquire (t0 + 11 * Second) start h = Some (r, h') ∧ ho_cur h' = Some 1%nat.
Proof.
  assert (reached watched (λ h, bool_decide (served (t0 + 11 * Second) start h = Some 1%nat)) = true) as H by (vm_compute; reflexivity).
  destruct (reached_cases _ _ H) as (h & Hh & Hf). apply bool_decide_eq_true in Hf.
  exists h. split; [exact Hh|].
  destruct (acquire_serves Small watched h (t0 + 11 * Second) start watched_ok Hh (λ c, start_built c)) as (r & h' & E & Hc & _).
  exists r, h'. split; [exact E|]. rewrite Hc. exact Hf.
Defined.
End HDemo.
