(* ===== verification/Pages.v ===== *)
(** * internal/world/world.go: the read models

    The bodies of GET /health and GET /v1/tenants/{id}: [Health], [Tenant] and what
    they read of the registry, the store, the core and the generator. *)

From S2P Require Import Prelude GoLib GoFloat Kms Tink KmsModel Fake Lease Cmek Tenant Prog Manager Api.
From S2P Require Import Store Ingest Hub Generator Params Metrics World Scenarios Holder.
Local Open Scope string_scope.
Local Open Scope Z_scope.

(** ** Calls per minute *)

Definition kms_op (op : string) : bool := bool_decide (op = "unwrap") || bool_decide (op = "generate").
Definition recent_call (now : Time) (e : Metrics.Audit) : bool :=
  kms_op (Metrics.a_Op e) && Time.After (Metrics.a_At e) (Time.Add now (- Minute)).

(** The first [auditN] slots of the tenant's ring. *)
Definition TenantCallsPerMin (now : Time) (idx : Z) (r : Registry) : float64 :=
  if negb (in_bounds idx (length (audits r))) then F.of_Z 0
  else let q := default (mkRing [] 0 0) (audits r !! Z.to_nat idx) in
       F.of_Z (countZ (recent_call now) (take (r_n q) (r_buf q))).

Section Pages.
Context `{TK : Tink} `{MR : MapRange} `{FM : Fmt}.

(** ** Health *)

Record HealthInfo := mkHealthInfo {
  hi_World : string; hi_Ticks : Z; hi_UptimeS : float64; hi_Viewers : Z;
  hi_InsertMeanUs : Z; hi_InsertMaxUs : Z; hi_CensusMaxUs : Z }.

(** [Health] of a World started at [started], at its [ticks]-th tick. *)
Definition Health (now started : Time) (ticks : Z) (st : Store) (s : site) : HealthInfo :=
  mkHealthInfo (si_ID s) ticks (seconds (Time.Sub now started)) (si_viewers s)
    (is_MeanUs (Stats st)) (is_MaxUs (Stats st)) (is_CensusMaxUs (Stats st)).

(** ** One tenant *)

Record AuditEntry := mkAuditEntry {
  ae_At : Time; ae_Op : string; ae_Outcome : string; ae_Detail : string; ae_LatencyMs : float64; ae_Purged : Z }.

Definition auditEntries (l : list Metrics.Audit) : list AuditEntry :=
  (λ a, mkAuditEntry (Metrics.a_At a) (Metrics.a_Op a) (Metrics.a_Outcome a) (Metrics.a_Detail a)
          (F.div (F.of_Z (Metrics.a_Latency a)) (F.of_Z Millisecond)) (Metrics.a_Purged a)) <$> l.

Record TenantDetail := mkTenantDetail {
  td_ID : string; td_Provider : string; td_State : string; td_Rank : Z;
  td_LeaseAgeMs : Z; td_LeaseRemainingMs : Z; td_NextProbeMs : Z; td_Backlog : Z; td_Ready : Z;
  td_OfferedPS : float64; td_KMSCallsPerMin : float64; td_Affected : bool; td_Audit : list AuditEntry }.

(** [Duration.Milliseconds]. *)
Definition millis (d : Duration) : Z := Z.quot d Millisecond.

(** [World.Tenant]; [None] is an index out of range. *)
Definition Tenant (now : Time) (id : string) (st : Store) (w : World) : option (err + TenantDetail) :=
  match index (w_ids w) id with
  | None => Some (inl ErrUnknownTenant)
  | Some idx =>
      l ← w_tenants w !! idx; prov ← provider_at (w_P w) idx; offered ← Offered idx (w_gen w);
      let info := (info_section now l).1 in
      let i := Z.of_nat idx in
      Some (inr (mkTenantDetail id prov (State_String (i_State info)) (rankOf idx w)
        (millis (i_LeaseAge info)) (millis (i_LeaseRemaining info)) (millis (i_NextProbeIn info))
        (Backlog st idx) (Ready st idx) offered (TenantCallsPerMin now i (w_metrics w))
        (Affected i (w_metrics w)) (auditEntries (TenantAudit i 10 (w_metrics w)))))
  end.
End Pages.

(** ** The rate of a tenant's key calls *)

Lemma mod_window (n len j : nat) : (0 < n)%nat → (n <= len)%nat → (j < n)%nat →
  ((len - n + (j + (n - len mod n)) mod n) mod n = j)%nat.
Proof.
  intros Hn Hl Hj. pose proof (Nat.mod_upper_bound len n ltac:(lia)) as Hm. pose proof (Nat.div_mod_eq len n) as Hd.
  assert (1 <= len / n)%nat as Hq by (apply Nat.div_le_lower_bound; lia).
  destruct (decide (j < len mod n)%nat) as [Hc|Hc].
  - rewrite (Nat.mod_small (j + _)) by lia. symmetry. apply (Nat.mod_unique _ _ (len / n)); [done|]. nia.
  - rewrite <- (Nat.mod_unique (j + (n - len mod n)) n 1 (j - len mod n)) by lia.
    symmetry. apply (Nat.mod_unique _ _ (len / n - 1)); [done|]. nia.
Qed.

Lemma mod_range (n a : nat) : (0 < n)%nat → (a mod n < n)%nat.
Proof. intros. apply Nat.mod_upper_bound. lia. Qed.

(** The slots in use hold the newest entries, in some order. *)
Lemma ring_slots {A} (q : Ring A) n h : ring_ok q n h → take (r_n q) (r_buf q) ≡ₚ take n (reverse h).
Proof.
  intros (Hn & Hl & _ & Hr & Hb). rewrite take_reverse, (reverse_Permutation (drop _ h)), Hr.
  destruct (decide (length h <= n)%nat) as [Hc|Hc].
  - replace (length h - n)%nat with 0%nat by lia. rewrite drop_0, Nat.min_l by lia.
    assert (take (length h) (r_buf q) = h) as ->; [|done]. apply list_eq. intros k. destruct (decide (k < length h)%nat).
    + rewrite lookup_take_lt by done. rewrite <- (Hb k) by lia. by rewrite Nat.mod_small by lia.
    + rewrite lookup_take_ge by lia. symmetry. apply lookup_ge_None. lia.
  - rewrite Nat.min_r, take_ge by lia. set (d := drop (length h - n) h).
    assert (length d = n) as Hd by (unfold d; rewrite length_drop; lia).
    set (s := (length h mod n)%nat). pose proof (mod_range n (length h) Hn) as Hs. fold s in Hs.
    assert (r_buf q = drop (n - s) d ++ take (n - s) d)%list as ->.
    { apply list_eq. intros j. destruct (decide (j < n)%nat) as [Hj|Hj].
      - rewrite <- (mod_window n (length h) j) at 1 by lia. fold s. pose proof (mod_range n (j + (n - s)) Hn) as Hx.
        rewrite Hb by lia. unfold d. destruct (decide (j < s)%nat) as [Hjs|Hjs].
        + rewrite lookup_app_l by (rewrite !length_drop; lia). rewrite !lookup_drop. f_equal. rewrite Nat.mod_small by lia. lia.
        + rewrite lookup_app_r by (rewrite !length_drop; lia). rewrite !length_drop, lookup_take_lt, lookup_drop by lia. f_equal.
          rewrite <- (Nat.mod_unique (j + (n - s)) n 1 (j - s)) by lia. lia.
      - rewrite !(proj2 (lookup_ge_None _ _)); [done| |lia]. rewrite length_app, length_drop, length_take. lia. }
    rewrite (Permutation_app_comm (drop _ d)). by rewrite take_drop.
Qed.

(** A tenant's calls per minute are the generate and unwrap calls of the last
    minute among its newest audits, as many as its ring holds: no entry is counted
    twice, and none of another tenant. *)
Theorem calls_per_min_exact cfg es idx now :
  0 <= idx < Z.of_nat (length (m_Tenants cfg)) →
  TenantCallsPerMin now idx (run_audits es (Metrics.New cfg))
  = F.of_Z (countZ (recent_call now) (TenantAudit idx (Z.to_nat (positive_or (m_AuditRing cfg) 16)) (run_audits es (Metrics.New cfg)))).
Proof.
  intros Hi. unfold TenantCallsPerMin, TenantAudit. destruct (run_audits_length es (Metrics.New cfg)) as (El & Ec & _).
  assert (length (audits (Metrics.New cfg)) = length (m_Tenants cfg)) as En by apply length_replicate. rewrite En in El. rewrite El.
  assert (in_bounds idx (length (m_Tenants cfg)) = true) as -> by (unfold in_bounds; lia). cbn [negb]. f_equal.
  destruct (run_audits_ok es (Metrics.New cfg) [] (New_audits_ok cfg)) as [_ Hq]. rewrite Ec in Hq. change (m_AuditRing (m_cfg (Metrics.New cfg))) with (positive_or (m_AuditRing cfg) 16) in Hq.
  destruct (audits (run_audits es (Metrics.New cfg)) !! Z.to_nat idx) as [q|] eqn:E; [|apply lookup_ge_None in E; lia]. cbn [default]. unfold id.
  destruct (Hq _ q E) as [(E1 & E2 & E3 & _)|Hok].
  - rewrite E1, E3. unfold newest. rewrite E1, E3. destruct (Z.to_nat _); reflexivity.
  - rewrite (newest_ok _ _ _ _ Hok). rewrite take_take, Nat.min_id. by rewrite (ring_slots _ _ _ Hok).
Qed.

Lemma calls_per_min_exact_witness :
  TenantCallsPerMin (70 * Second) 0 (run_audits MDemo.log (Metrics.New MDemo.cfg)) = F.of_Z
    (countZ (recent_call (70 * Second)) (TenantAudit 0 (Z.to_nat (positive_or (m_AuditRing MDemo.cfg) 16)) (run_audits MDemo.log (Metrics.New MDemo.cfg)))).
Proof. apply calls_per_min_exact. vm_compute. split; [intros [=]|reflexivity]. Defined.
