(* ===== verification/HistSpec.v ===== *)
(** * What the latency histograms report

    The slots hold the samples of the last ticks, under any interleaving of
    deliveries and ticks, and [p99] reads the sample that starts the slowest
    hundredth to within its bucket. *)

From S2P Require Import Prelude GoLib GoFloat FloatBounds Metrics Pages Hist.
Local Open Scope Z_scope.

(** ** Rings *)

Lemma ring_alter {A} (r : Ring A) n h f k : ring_ok r n h → (k < length h)%nat → (length h - n <= k)%nat →
  ring_ok (mkRing (alter f (k mod n)%nat (r_buf r)) (r_head r) (r_n r)) n (alter f k h).
Proof.
  intros (Hn & Hl & Hh & Hc & Hk) Hk1 Hk2. split_and!; cbn [r_buf r_head r_n]; rewrite ?length_alter; try done.
  intros j Hj1 Hj2. destruct (decide (j = k)) as [->|Hne].
  - rewrite !list_lookup_alter_eq. by rewrite Hk.
  - rewrite !list_lookup_alter_ne; [by apply Hk|done|]. intros E. destruct (decide (k <= j)%nat).
    + apply mod_inj_near in E; lia.
    + symmetry in E. apply mod_inj_near in E; lia.
Qed.

Section HistSpec.
Context `{LG : GoLog}.

Lemma bucket_range d : 0 <= bucket d < histBuckets.
Proof.
  unfold bucket, histBuckets. destruct (F.lt _ _); [lia|]. set (b := F.floor_int _). destruct (Z.ltb_spec b 0); [lia|]. destruct (Z.leb_spec 28 b); lia.
Qed.

(** ** The contents of a slot *)

Definition of_class (class : nat) (b : Z) (x : nat * Duration) : bool := (x.1 =? class)%nat && (bucket x.2 =? b).
Definition hist_of (class : nat) (l : list (nat * Duration)) : hist :=
  (λ b, u32 (countZ (of_class class b) l)) <$> seqZ 0 histBuckets.

Lemma hist_of_nil class : hist_of class [] = zero_hist.
Proof. reflexivity. Qed.

Lemma hist_of_lookup class l b : 0 <= b < histBuckets → hist_of class l !! Z.to_nat b = Some (u32 (countZ (of_class class b) l)).
Proof. intros Hb. unfold hist_of. rewrite list_lookup_fmap, lookup_seqZ_lt by lia. cbn. by rewrite Z2Nat.id by lia. Qed.

Lemma hist_of_length class l : length (hist_of class l) = Z.to_nat histBuckets.
Proof. unfold hist_of. by rewrite length_fmap, length_seqZ. Qed.

Lemma u32_succ x : u32 (u32 x + 1) = u32 (1 + x).
Proof. unfold u32. by rewrite Z.add_mod_idemp_l, Z.add_comm. Qed.

Lemma hist_of_cons class d l : alter (λ c, u32 (c + 1)) (Z.to_nat (bucket d)) (hist_of class l) = hist_of class ((class, d) :: l).
Proof.
  pose proof (bucket_range d) as Hb. apply list_eq. intros i. destruct (decide (i < Z.to_nat histBuckets)%nat) as [Hi|Hi].
  2:{ rewrite !(proj2 (lookup_ge_None _ _)); [done| |]; rewrite ?length_alter, hist_of_length; lia. }
  replace i with (Z.to_nat (Z.of_nat i)) by lia. set (b := Z.of_nat i). assert (0 <= b < histBuckets) as Hb2 by lia.
  rewrite hist_of_lookup by done. rewrite countZ_cons. unfold of_class at 1. cbn [fst snd]. rewrite Nat.eqb_refl. cbn [andb].
  destruct (Z.eqb_spec (bucket d) b) as [->|Hne].
  - rewrite list_lookup_alter_eq, hist_of_lookup by done. cbn. f_equal. apply u32_succ.
  - rewrite list_lookup_alter_ne by lia. by rewrite hist_of_lookup.
Qed.

Lemma hist_of_other class class' d l : class' ≠ class → hist_of class ((class', d) :: l) = hist_of class l.
Proof.
  intros Hne. apply list_fmap_ext. intros i b _. f_equal. rewrite countZ_cons. unfold of_class at 1. cbn [fst].
  destruct (Nat.eqb_spec class' class); [done|]. cbn [andb]. lia.
Qed.

(** ** The invariant *)

Definition slots_ok (n class slot : nat) (slots : list hist) (ts : Ticks) : Prop :=
  ring_ok (mkRing slots ((slot + 1) mod n) (Nat.min (length ts) n)) n (hist_of class <$> ts) ∧
  ∀ i, (length ts <= i < n)%nat → slots !! i = Some zero_hist.

Record hist_inv (n : nat) (w : hworld) (ts : Ticks) : Prop := mkHistInv {
  hv_n : (0 < n)%nat;
  hv_ts : (0 < length ts)%nat;
  hv_two : length (h_slots (hw_hists w)) = 2%nat;
  hv_slot : h_slot (hw_hists w) = ((length ts - 1) mod n)%nat;
  hv_slots : ∀ class slots, h_slots (hw_hists w) !! class = Some slots → slots_ok n class (h_slot (hw_hists w)) slots ts;
  hv_pc : ∀ id class slot d, hw_pc w !! id = Some (class, slot, d) → (class < 2)%nat ∧ (slot < n)%nat ∧ (slot < length ts)%nat }.

Lemma slots_ok_length n class slot slots ts : slots_ok n class slot slots ts → length slots = n.
Proof. by intros [(_ & Hl & _) _]. Qed.

Lemma hist_inv_window n w ts : hist_inv n w ts → window (hw_hists w) = n.
Proof.
  intros H. unfold window. destruct (h_slots (hw_hists w)) as [|s0 l] eqn:E; [pose proof (hv_two _ _ _ H) as H2; by rewrite E in H2|].
  cbn. eapply slots_ok_length, (hv_slots _ _ _ H 0%nat). by rewrite E.
Qed.

Lemma hist_inv_init n : (0 < n)%nat → hist_inv n (hworld0 n) [[]].
Proof.
  intros Hn. constructor; cbn [hw_hists hw_pc hworld0 NewHists h_slots h_slot length]; [done|lia|done| | |by intros ???? ?%lookup_empty_Some].
  - symmetry. apply Nat.mod_small. lia.
  - intros class slots Hs. destruct class as [|[|class]]; [| |done]; cbn in Hs; injection Hs as <-.
    all: split; [|intros i Hi; apply lookup_replicate; split; [done|cbn in Hi; lia]].
    all: split_and!; cbn [r_buf r_head r_n fmap list_fmap length]; [done|by rewrite length_replicate|done|lia|].
    all: intros k Hk _; replace k with 0%nat by lia; rewrite Nat.mod_small by lia; rewrite lookup_replicate_2 by lia; by rewrite hist_of_nil.
Qed.

Lemma landing_spec n w s : (0 < w)%nat → (s < w)%nat → (s < n)%nat →
  let k := landing n w s in (k < n)%nat ∧ (n - w <= k)%nat ∧ (k mod w = s)%nat.
Proof.
  intros Hw Hs Hn. unfold landing. cbv zeta. pose proof (Nat.div_mod_eq (n - 1 - s) w) as Hd. pose proof (Nat.mod_upper_bound (n - 1 - s) w ltac:(lia)) as Hm.
  split_and!; [lia|lia|]. rewrite Nat.mul_comm, Nat.Div0.mod_add. by apply Nat.mod_small.
Qed.

Lemma slots_add n class slot slots ts d k : (k < length ts)%nat → (length ts - n <= k)%nat →
  slots_ok n class slot slots ts →
  slots_ok n class slot (alter (alter (λ c, u32 (c + 1)) (Z.to_nat (bucket d))) (k mod n)%nat slots) (alter (cons (class, d)) k ts).
Proof.
  intros Hk1 Hk2 [Hr Hz]. assert (0 < n)%nat as Hn by apply Hr. split.
  - rewrite length_alter. assert (hist_of class <$> alter (cons (class, d)) k ts
      = alter (alter (λ c, u32 (c + 1)) (Z.to_nat (bucket d))) k (hist_of class <$> ts)) as ->.
    { apply list_fmap_alter, Forall_forall. intros l _. symmetry. apply hist_of_cons. }
    apply (ring_alter _ _ _ _ k Hr); by rewrite length_fmap.
  - rewrite length_alter. intros i Hi. rewrite list_lookup_alter_ne; [by apply Hz|].
    pose proof (mod_range n k Hn). rewrite Nat.mod_small by lia. lia.
Qed.

Lemma slots_other n class class' slot slots ts d k : class' ≠ class → slots_ok n class slot slots ts →
  slots_ok n class slot slots (alter (cons (class', d)) k ts).
Proof.
  intros Hne [Hr Hz]. split; rewrite length_alter; [|exact Hz].
  assert (hist_of class <$> alter (cons (class', d)) k ts = hist_of class <$> ts) as ->; [|exact Hr].
  apply list_eq. intros i. rewrite !list_lookup_fmap. destruct (decide (i = k)) as [->|Hi].
  - rewrite list_lookup_alter_eq. destruct (ts !! k); [|done]. cbn. f_equal. by apply hist_of_other.
  - by rewrite list_lookup_alter_ne by done.
Qed.

Lemma slots_roll n class slot slots ts : (0 < length ts)%nat → slot = ((length ts - 1) mod n)%nat → slots_ok n class slot slots ts →
  slots_ok n class ((slot + 1) mod n)%nat (alter (fmap (λ _, 0)) ((slot + 1) mod n)%nat slots) (ts ++ [[]])%list.
Proof.
  intros Hts Hslot [Hr Hz]. pose proof Hr as (Hn & Hl & Hh & _ & Hk). cbn [r_buf r_head] in *. rewrite length_fmap in *.
  assert (alter (fmap (λ _ : Z, 0)) ((slot + 1) mod n)%nat slots = <[((slot + 1) mod n)%nat := zero_hist]> slots) as ->.
  { rewrite Hh. set (s := (length ts mod n)%nat). assert (∃ x, slots !! s = Some x ∧ length x = Z.to_nat histBuckets) as (x & Hx & Hxl).
    { destruct (decide (length ts < n)%nat) as [Hc|Hc].
      - exists zero_hist. split; [|done]. apply Hz. unfold s. rewrite Nat.mod_small by lia. lia.
      - unfold s. replace (length ts) with (length ts - n + 1 * n)%nat by lia. rewrite Nat.Div0.mod_add, Hk by lia.
        destruct (ts !! (length ts - n)%nat) as [l|] eqn:El; [|apply lookup_ge_None in El; lia]. rewrite list_lookup_fmap, El.
        eexists. split; [done|]. apply hist_of_length. }
    apply list_eq. intros i. destruct (decide (i = s)) as [->|Hi].
    - rewrite list_lookup_alter_eq, Hx, list_lookup_insert_eq by (apply lookup_lt_Some in Hx; done). cbn. f_equal.
      unfold zero_hist. rewrite <- Hxl. clear. induction x; cbn; [done|]. by f_equal.
    - by rewrite list_lookup_alter_ne, list_lookup_insert_ne by done. }
  split.
  - pose proof (push_ok _ _ _ zero_hist Hr) as Hp. rewrite fmap_app, <- (hist_of_nil class).
    unfold push in Hp. cbn [r_buf r_head r_n] in Hp. rewrite Hl in Hp. rewrite length_app. cbn [length fmap list_fmap].
    assert (Nat.min (length ts + 1) n = if (Nat.min (length ts) n <? n)%nat then Nat.min (length ts) n + 1 else Nat.min (length ts) n)%nat as ->
      by (destruct (Nat.ltb_spec (Nat.min (length ts) n) n); lia). exact Hp.
  - rewrite length_app. cbn [length]. intros i Hi. rewrite list_lookup_insert_ne; [apply Hz; lia|]. rewrite Hh, Nat.mod_small by lia. lia.
Qed.

Lemma hist_step_inv n a w ts w' : hist_inv n w ts → hist_step a w = Some w' → hist_inv n w' (note a w ts).
Proof.
  intros H. pose proof (hist_inv_window _ _ _ H) as Hwin. pose proof (hv_n _ _ _ H) as Hn. pose proof (hv_ts _ _ _ H) as Hts.
  destruct a as [id class d|id|]; cbn [hist_step note].
  - intros E. destruct (_ && _) eqn:Ec; [|done]. apply (inj Some) in E as <-. apply andb_true_iff in Ec as [Hc%bool_decide_eq_true_1 _].
    destruct H as [_ _ H2 Hs Hss Hpc]. constructor; cbn [hw_hists hw_pc]; try done.
    intros id' class' slot' d'. destruct (decide (id' = id)) as [->|Hne].
    + rewrite lookup_insert_eq. intros [= <- <- <-]. rewrite Hs. split; [done|]. split; [by apply mod_range|].
      pose proof (Nat.Div0.mod_le (length ts - 1) n). lia.
    + rewrite lookup_insert_ne by done. apply Hpc.
  - destruct (hw_pc w !! id) as [[[class slot] d]|] eqn:Ep; [|done]. cbn [mbind option_bind]. intros E. apply (inj Some) in E as <-.
    destruct (hv_pc _ _ _ H _ _ _ _ Ep) as (Hc & Hs & Hl). rewrite Hwin.
    destruct (landing_spec (length ts) n slot Hn Hs Hl) as (Hk1 & Hk2 & Hk3). set (k := landing _ _ _) in *.
    destruct H as [_ _ H2 Hslot Hss Hpc]. constructor; cbn [hw_hists hw_pc add_at h_slots h_slot]; rewrite ?length_alter; try done.
    + intros class' slots'. destruct (decide (class' = class)) as [->|Hne].
      * rewrite list_lookup_alter_eq. destruct (h_slots (hw_hists w) !! class) as [slots|] eqn:Es; [|done]. cbn. intros [= <-].
        rewrite <- Hk3. apply slots_add; [done|done|by apply Hss].
      * rewrite list_lookup_alter_ne by done. intros Es. apply slots_other; [done|by apply Hss].
    + intros id' class' slot' d' [_ Hp]%lookup_delete_Some. exact (Hpc _ _ _ _ Hp).
  - unfold roll. rewrite Hwin. intros E. apply (inj Some) in E as <-. destruct H as [_ _ H2 Hslot Hss Hpc].
    constructor; cbn [hw_hists hw_pc h_slots h_slot]; [done|rewrite length_app; cbn; lia|by rewrite length_fmap| | |].
    + rewrite Hslot, length_app. cbn [length]. rewrite Nat.Div0.add_mod_idemp_l. f_equal. lia.
    + intros class slots. rewrite list_lookup_fmap. destruct (h_slots (hw_hists w) !! class) as [slots0|] eqn:Es; [|done].
      cbn. intros [= <-]. apply slots_roll; [done|done|by apply Hss].
    + intros id class slot d Hp. rewrite length_app. destruct (Hpc _ _ _ _ Hp) as (? & ? & ?). cbn. lia.
Qed.

Lemma hist_run_inv n acts s s' : hist_inv n s.1 s.2 → hist_run acts s = Some s' → hist_inv n s'.1 s'.2.
Proof.
  revert s. induction acts as [|a acts IH]; intros s H E; [by apply (inj Some) in E as <-|]. cbn [hist_run] in E.
  destruct (hist_step a s.1) as [w|] eqn:Ea; [|done]. cbn [mbind option_bind] in E. apply (IH (w, note a s.1 s.2)); [|exact E].
  by apply (hist_step_inv _ _ _ _ _ H Ea).
Qed.

(** ** The sums *)

Definition total (slots : list hist) (b : nat) : Z := sumZ ((λ h : hist, default 0 (h !! b)) <$> slots).

#[local] Instance total_perm : Proper (Permutation ==> (=) ==> (=)) total.
Proof. intros l k H b ? <-. unfold total. by rewrite H. Qed.

Lemma u64_idem x c : u64 (u64 x + c) = u64 (x + c).
Proof. unfold u64. by rewrite Z.add_mod_idemp_l. Qed.

Lemma sum_counters (h : hist) x : foldl (λ n c, u64 (n + c)) (u64 x) h = u64 (x + sumZ h).
Proof. revert x. induction h as [|c h IH]; intros x; cbn [foldl]; [cbn; by rewrite Z.add_0_r|]. rewrite u64_idem, IH, sumZ_cons. f_equal. lia. Qed.

Lemma sums_from slots (acc : list Z) n0 : (∀ h, h ∈ slots → length h = length acc) →
  foldl add_slot (u64 <$> acc, u64 n0) slots
  = (u64 <$> imap (λ b x, x + total slots b) acc, u64 (n0 + sumZ (sumZ <$> slots))).
Proof.
  revert acc n0. induction slots as [|h slots IH]; intros acc n0 Hl.
  { cbn. f_equal; [|by rewrite Z.add_0_r]. f_equal. apply list_eq. intros b. rewrite list_lookup_imap. destruct (acc !! b); [|done].
    cbn. f_equal. unfold total. cbn. lia. }
  cbn [foldl]. unfold add_slot at 2. cbn [fst snd]. rewrite sum_counters.
  assert (zip_with (λ s c, u64 (s + c)) (u64 <$> acc) h = u64 <$> zip_with Z.add acc h) as ->.
  { rewrite zip_with_fmap_l. apply list_eq. intros b. rewrite list_lookup_fmap, !lookup_zip_with. destruct (acc !! b), (h !! b); try done. cbn. by rewrite u64_idem. }
  assert (length h = length acc) as Hh by (apply Hl; set_solver).
  rewrite IH; [|intros h' Hin; rewrite length_zip_with, Hh, Nat.min_id; apply Hl; set_solver]. f_equal; [|f_equal; rewrite fmap_cons, sumZ_cons; lia].
  f_equal. apply list_eq. intros b. rewrite !list_lookup_imap, lookup_zip_with. destruct (acc !! b) as [x|] eqn:Ex; [|done].
  apply lookup_lt_Some in Ex. destruct (h !! b) as [c|] eqn:Ec; [|apply lookup_ge_None in Ec; lia]. cbn [fmap option_fmap option_map]. f_equal. unfold total. rewrite fmap_cons, sumZ_cons, Ec. cbn [from_option mbind option_bind fmap option_fmap option_map]. unfold id. f_equal. lia.
Qed.

Lemma sums_spec slots : (∀ h, h ∈ slots → length h = Z.to_nat histBuckets) →
  sums slots = ((λ b, u64 (total slots b)) <$> seq 0 (Z.to_nat histBuckets), u64 (sumZ (sumZ <$> slots))).
Proof.
  intros Hl. unfold sums. change (zero_hist, 0) with (u64 <$> zero_hist, u64 0).
  rewrite sums_from by (intros h Hh; rewrite Hl by done; done). f_equal.
Qed.

(** The slots are the histograms of the last [n] ticks and empty ones. *)
Lemma slots_perm n class slot slots ts : slots_ok n class slot slots ts →
  ∃ k, slots ≡ₚ ((hist_of class <$> take n (reverse ts)) ++ replicate k zero_hist)%list.
Proof.
  intros [Hr Hz]. exists (n - length ts)%nat. pose proof (ring_slots _ _ _ Hr) as Hp. cbn [r_n r_buf] in Hp.
  assert (length slots = n) as Hl by apply Hr.
  rewrite <- (take_drop (Nat.min (length ts) n) slots). rewrite Hp, fmap_take, fmap_reverse. apply Permutation_app_head.
  assert (drop (Nat.min (length ts) n) slots = replicate (n - length ts) zero_hist) as ->; [|done].
  apply list_eq. intros i. rewrite lookup_drop. destruct (decide (i < n - length ts)%nat).
  - rewrite lookup_replicate_2 by done. rewrite Hz by lia. done.
  - rewrite (proj2 (lookup_ge_None _ _)) by lia. symmetry. apply lookup_ge_None. rewrite length_replicate. lia.
Qed.

(** The latencies of a class in some ticks. *)
Definition latencies (class : nat) (ts : Ticks) : list Duration :=
  omap (λ x : nat * Duration, if (x.1 =? class)%nat then Some x.2 else None) (concat ts).

Lemma latencies_cons class l ts : latencies class (l :: ts) = (latencies class [l] ++ latencies class ts)%list.
Proof. unfold latencies. cbn [concat]. by rewrite app_nil_r, omap_app. Qed.

Lemma latencies_count class b l : countZ (λ d, bucket d =? b) (latencies class [l]) = countZ (of_class class b) l.
Proof.
  unfold latencies. cbn [concat]. rewrite app_nil_r. induction l as [|[c d] l IH]; [done|]. rewrite countZ_cons, <- IH. unfold of_class at 1.
  cbn [omap list_omap fst snd]. destruct (c =? class)%nat; [by rewrite countZ_cons|]. cbn [andb]. lia.
Qed.

(** The counters of the histogram of a tick are exact below 2^32 samples. *)
Lemma u32_count class b l : Z.of_nat (length (latencies class [l])) < 2 ^ 32 →
  u32 (countZ (of_class class b) l) = countZ (λ d, bucket d =? b) (latencies class [l]).
Proof.
  intros Hl. rewrite latencies_count. apply Z.mod_small. rewrite <- latencies_count.
  pose proof (countZ_nonneg (λ d, bucket d =? b) (latencies class [l])). pose proof (countZ_le_length (λ d, bucket d =? b) (latencies class [l])). lia.
Qed.

Lemma count_buckets ds : sumZ ((λ b, countZ (λ d, bucket d =? b) ds) <$> seqZ 0 histBuckets) = Z.of_nat (length ds).
Proof.
  induction ds as [|d ds IH].
  { cbn [length]. transitivity (sumZ ((λ _, 0) <$> seqZ 0 histBuckets)); [|reflexivity]. f_equal. }
  pose proof (bucket_range d) as Hb. cbn [length]. rewrite Nat2Z.inj_succ, <- IH.
  assert (∀ lo n, 0 <= n → sumZ ((λ b, countZ (λ d, bucket d =? b) (d :: ds)) <$> seqZ lo n)
    = sumZ ((λ b, countZ (λ d, bucket d =? b) ds) <$> seqZ lo n) + (if (lo <=? bucket d) && (bucket d <? lo + n) then 1 else 0)) as H.
  { intros lo n Hn. revert lo. pattern n. apply natlike_ind; [|clear n Hn; intros n Hn IHn lo|done].
    - intros lo. cbn. destruct (_ && _) eqn:E; [|done]. lia.
    - rewrite seqZ_cons by lia. rewrite !fmap_cons, !sumZ_cons. replace (Z.pred (Z.succ n)) with n by lia. rewrite (IHn (Z.succ lo)), countZ_cons.
      destruct (Z.eqb_spec (bucket d) lo), (Z.leb_spec (Z.succ lo) (bucket d)), (Z.leb_spec lo (bucket d)),
        (Z.ltb_spec (bucket d) (Z.succ lo + n)), (Z.ltb_spec (bucket d) (lo + Z.succ n)); cbn [andb]; lia. }
  rewrite H by (unfold histBuckets; lia). replace ((0 <=? bucket d) && (bucket d <? 0 + histBuckets)) with true by lia. lia.
Qed.

Lemma window_sums class ts : Z.of_nat (length (latencies class ts)) < 2 ^ 32 →
  (∀ b, 0 <= b < histBuckets → total (hist_of class <$> ts) (Z.to_nat b) = countZ (λ d, bucket d =? b) (latencies class ts)) ∧
  sumZ (sumZ <$> (hist_of class <$> ts)) = Z.of_nat (length (latencies class ts)).
Proof.
  induction ts as [|l ts IH]; [done|]. rewrite latencies_cons, length_app. intros Hl. destruct IH as [IH1 IH2]; [lia|]. split.
  - intros b Hb. unfold total. rewrite !fmap_cons, sumZ_cons. fold (total (hist_of class <$> ts) (Z.to_nat b)).
    rewrite (IH1 b Hb), hist_of_lookup, countZ_app by done. cbn. rewrite u32_count by lia. done.
  - rewrite !fmap_cons, sumZ_cons, IH2. unfold hist_of.
    assert (((λ b, u32 (countZ (of_class class b) l)) <$> seqZ 0 histBuckets) = (λ b, countZ (λ d, bucket d =? b) (latencies class [l])) <$> seqZ 0 histBuckets) as ->.
    { apply list_fmap_ext. intros i b _. apply u32_count. lia. }
    rewrite count_buckets. lia.
Qed.

(** ** The percentile *)

Lemma bucket_edges b : 0 <= b < histBuckets → 0 < bucketLo b ∧ 0 < bucketLo (b + 1) - bucketLo b < 2 ^ 35 ∧ bucketLo b < 2 ^ 37.
Proof.
  intros Hb. assert (forallZ 0 28 (λ b, (0 <? bucketLo b) && (0 <? bucketLo (b + 1) - bucketLo b) && (bucketLo (b + 1) - bucketLo b <? 2 ^ 35)
    && (bucketLo b <? 2 ^ 37)) = true) as H by (vm_compute; reflexivity).
  pose proof (forallZ_spec _ _ _ b H ltac:(unfold histBuckets in Hb; lia)) as Hx. cbv beta in Hx. lia.
Qed.

(** The interpolated value lies in its bucket. *)
Lemma interpolate_in_bucket b rank cum inB : 0 <= b < histBuckets → 0 <= cum → cum < rank <= cum + inB → cum + inB < 2 ^ 40 →
  bucketLo b <= interpolate b rank cum inB < bucketLo (b + 1).
Proof.
  intros Hb Hc Hr Hlt. destruct (bucket_edges b Hb) as (H0 & Hw & Hlo). unfold interpolate.
  assert (u64 (rank - cum) = rank - cum) as -> by (apply Z.mod_small; lia).
  rewrite (wrap64_id (bucketLo (b + 1) - bucketLo b)) by (unfold minInt64, maxInt64; lia).
  destruct (interpolate_bounds (bucketLo (b + 1) - bucketLo b) (rank - cum) inB) as [Hd1 Hd2]; [lia..|].
  set (x := F.to_int64 _) in *. clearbody x. rewrite wrap64_id by (unfold minInt64, maxInt64; lia). lia.
Qed.

(** The number of latencies whose bucket is below [b]. *)
Definition below (b : Z) (ds : list Duration) : Z := countZ (λ d, bucket d <? b) ds.

Lemma below_succ b ds : below (b + 1) ds = below b ds + countZ (λ d, bucket d =? b) ds.
Proof.
  unfold below. induction ds as [|d ds IH]; [done|]. rewrite !countZ_cons, IH.
  destruct (Z.ltb_spec (bucket d) (b + 1)), (Z.ltb_spec (bucket d) b), (Z.eqb_spec (bucket d) b); lia.
Qed.

Lemma below_all ds : below histBuckets ds = Z.of_nat (length ds).
Proof.
  unfold below. induction ds as [|d ds IH]; [done|]. rewrite countZ_cons, IH. pose proof (bucket_range d). cbn [length].
  destruct (Z.ltb_spec (bucket d) histBuckets); lia.
Qed.

Lemma below_bounds b ds : 0 <= below b ds <= Z.of_nat (length ds).
Proof. split; [apply countZ_nonneg|apply countZ_le_length]. Qed.

Lemma p99_scan_spec ds rank n b : b + n = histBuckets → 0 <= b → 0 <= n →
  Z.of_nat (length ds) < 2 ^ 40 → below b ds < rank <= Z.of_nat (length ds) →
  ∃ b', b <= b' < histBuckets ∧ below b' ds < rank <= below (b' + 1) ds ∧
    p99_scan rank (below b ds) b ((λ b, countZ (λ d, bucket d =? b) ds) <$> seqZ b n)
    = interpolate b' rank (below b' ds) (countZ (λ d, bucket d =? b') ds).
Proof.
  intros Hbn Hb Hn Hlen. revert b Hbn Hb. pattern n. apply natlike_ind; [|clear n Hn; intros n Hn IH|done].
  - intros b Hbn Hb Hr. replace b with histBuckets in Hr by lia. rewrite below_all in Hr. lia.
  - intros b Hbn Hb Hr. rewrite seqZ_cons, fmap_cons by lia. cbn [p99_scan]. rewrite <- below_succ. pose proof (below_bounds (b + 1) ds) as Hx.
    assert (u64 (below (b + 1) ds) = below (b + 1) ds) as -> by (apply Z.mod_small; lia).
    destruct (Z.leb_spec rank (below (b + 1) ds)) as [Hc|Hc].
    + exists b. split; [lia|]. split; [lia|done].
    + replace (Z.pred (Z.succ n)) with n by lia. change (Z.succ b) with (b + 1).
      destruct (IH (b + 1) ltac:(lia) ltac:(lia) ltac:(lia)) as (b' & H1 & H2 & H3). exists b'. split; [lia|]. by split.
Qed.

Lemma rank_exact n : 0 < n < 2 ^ 40 → rank_of n = 99 * n / 100 + 1.
Proof.
  intros Hn. unfold rank_of. rewrite floor_99 by done. apply Z.mod_small.
  assert (0 <= 99 * n / 100) by (apply Z.div_pos; lia). assert (99 * n / 100 < n) by (apply Z.div_lt_upper_bound; lia). lia.
Qed.

Lemma total_empty k b : total (replicate k zero_hist) b = 0.
Proof.
  induction k as [|k IH]; [done|]. cbn [replicate]. unfold total. rewrite fmap_cons, sumZ_cons. fold (total (replicate k zero_hist) b).
  rewrite IH. destruct (zero_hist !! b) as [x|] eqn:Ex; [|done]. by apply lookup_replicate in Ex as [-> _].
Qed.

Lemma all_empty k : sumZ (sumZ <$> replicate k zero_hist) = 0.
Proof. induction k as [|k IH]; [done|]. cbn [replicate]. by rewrite fmap_cons, sumZ_cons, IH. Qed.

Lemma sums_window n class slot slots ts : slots_ok n class slot slots ts →
  let ds := latencies class (take n (reverse ts)) in
  Z.of_nat (length ds) < 2 ^ 32 →
  sums slots = ((λ b, countZ (λ d, bucket d =? b) ds) <$> seqZ 0 histBuckets, Z.of_nat (length ds)).
Proof.
  intros Hok. cbv zeta. intros Hlen. destruct (slots_perm _ _ _ _ _ Hok) as (k & Hp).
  destruct (window_sums class (take n (reverse ts)) Hlen) as [Hb Hs]. set (ds := latencies _ _) in *.
  pose proof (total_empty k) as Hz. pose proof (all_empty k) as Hz2.
  rewrite sums_spec.
  2:{ intros h Hh. rewrite Hp in Hh. apply elem_of_app in Hh as [[l [-> _]]%list_elem_of_fmap|Hh]; [apply hist_of_length|].
      apply elem_of_replicate in Hh as [-> _]. done. }
  f_equal.
  - apply list_eq. intros i. rewrite !list_lookup_fmap. unfold seqZ. rewrite list_lookup_fmap. destruct (seq 0 (Z.to_nat histBuckets) !! i) as [j|] eqn:Ej; [|done].
    apply lookup_seq in Ej as [-> Hj]. cbn. f_equal. rewrite Hp. unfold total. rewrite fmap_app, sumZ_app. fold (total (hist_of class <$> take n (reverse ts)) i).
    fold (total (replicate k zero_hist) i). rewrite Hz, Z.add_0_r. rewrite <- (Nat2Z.id i) at 1. rewrite Hb by (unfold histBuckets in *; lia).
    rewrite Z.add_0_r. apply Z.mod_small. pose proof (countZ_nonneg (λ d, bucket d =? Z.of_nat i) ds). pose proof (countZ_le_length (λ d, bucket d =? Z.of_nat i) ds). lia.
  - rewrite Hp, fmap_app, sumZ_app, Hz2, Hs, Z.add_0_r. apply Z.mod_small. lia.
Qed.

(** What [p99] reads of a window. *)
Definition percentile (ds : list Duration) (p : Duration) : Prop :=
  if bool_decide (ds = []) then p = 0
  else ∃ b, 0 <= b < histBuckets ∧ below b ds < 99 * Z.of_nat (length ds) / 100 + 1 <= below (b + 1) ds ∧ bucketLo b <= p < bucketLo (b + 1).

Lemma p99_window n w ts class : hist_inv n w ts → (class < 2)%nat →
  let ds := latencies class (take n (reverse ts)) in Z.of_nat (length ds) < 2 ^ 32 → percentile ds (p99 class (hw_hists w)).
Proof.
  intros H Hc. cbv zeta. intros Hlen.
  destruct (h_slots (hw_hists w) !! class) as [slots|] eqn:Es; [|apply lookup_ge_None in Es; rewrite (hv_two _ _ _ H) in Es; lia].
  pose proof (sums_window _ _ _ _ _ (hv_slots _ _ _ H _ _ Es) Hlen) as Hsum. cbv zeta in Hsum.
  unfold percentile, p99. rewrite Es. cbn [default]. unfold id. rewrite Hsum. set (ds := latencies class (take n (reverse ts))) in *.
  case_bool_decide as Hds; [by rewrite Hds|].
  assert (0 < Z.of_nat (length ds)) as Hpos by (destruct ds; [done|cbn; lia]).
  destruct (Z.eqb_spec (Z.of_nat (length ds)) 0) as [|_]; [lia|]. rewrite rank_exact by lia.
  assert (99 * Z.of_nat (length ds) / 100 + 1 <= Z.of_nat (length ds)) as Hk
    by (apply Z.le_succ_l, Z.div_lt_upper_bound; lia).
  assert (0 <= 99 * Z.of_nat (length ds) / 100) as Hk0 by (apply Z.div_pos; lia).
  assert (below 0 ds = 0) as H0.
  { apply countZ_zero. intros d _. pose proof (bucket_range d). destruct (Z.ltb_spec (bucket d) 0); [lia|done]. }
  destruct (p99_scan_spec ds (99 * Z.of_nat (length ds) / 100 + 1) histBuckets 0) as (b & Hb1 & Hb2 & E); [unfold histBuckets; lia..|].
  rewrite H0 in E. exists b. split; [exact Hb1|]. split; [exact Hb2|]. rewrite E. rewrite below_succ in Hb2.
  pose proof (below_bounds b ds). pose proof (below_bounds (b + 1) ds) as Hbb. rewrite below_succ in Hbb.
  apply interpolate_in_bucket; lia.
Qed.

Lemma percentile_range ds p : percentile ds p → 0 <= p < 2 ^ 37.
Proof.
  unfold percentile. case_bool_decide; [by intros ->|]. intros (b & Hb & _ & Hp). destruct (bucket_edges b Hb) as (H0 & _ & _).
  destruct (Z.eq_dec b 27) as [->|Hne]; [assert (bucketLo (27 + 1) < 2 ^ 37) by (vm_compute; reflexivity); lia|].
  destruct (bucket_edges (b + 1)) as (_ & _ & H1); unfold histBuckets in *; lia.
Qed.


(** ** No delivery is lost or counted twice *)

(** A slot still belongs to the tick it was read in until the window has passed. *)
Lemma landing_own n len t : (0 < n)%nat → (t < len)%nat → (len - t <= n)%nat → landing len n (t mod n) = t.
Proof.
  intros Hn Ht Hl. pose proof (mod_range n t Hn) as Hm. assert (t mod n <= t)%nat by apply Nat.Div0.mod_le.
  destruct (landing_spec len n (t mod n) Hn Hm ltac:(lia)) as (H1 & H2 & H3). destruct (decide (landing len n (t mod n) <= t)%nat).
  - apply mod_inj_near in H3; lia.
  - symmetry in H3. apply mod_inj_near in H3; lia.
Qed.

Definition is_add (a : hact) : bool := match a with HAdd _ => true | _ => false end.

Lemma concat_alter_cons {A} (x : A) k (ts : list (list A)) : (k < length ts)%nat → length (concat (alter (cons x) k ts)) = S (length (concat ts)).
Proof.
  revert k. induction ts as [|l ts IH]; intros [|k] Hk; cbn [length] in *; [lia|lia|done|].
  change (alter (cons x) (S k) (l :: ts)) with (l :: alter (cons x) k ts). cbn [concat]. rewrite !length_app, IH by lia. lia.
Qed.

(** Each addition puts its sample in one tick of the window. *)
Lemma additions_counted n acts s s' : hist_inv n s.1 s.2 → hist_run acts s = Some s' →
  Z.of_nat (length (concat s'.2)) = Z.of_nat (length (concat s.2)) + countZ is_add acts.
Proof.
  revert s. induction acts as [|a acts IH]; intros s H E; [apply (inj Some) in E as <-; rewrite countZ_nil; lia|]. cbn [hist_run] in E.
  destruct (hist_step a s.1) as [w|] eqn:Ea; [|done]. cbn [mbind option_bind] in E.
  rewrite (IH (w, note a s.1 s.2) (hist_step_inv _ _ _ _ _ H Ea) E), countZ_cons. cbn [snd].
  destruct a as [id class d|id|]; cbn [is_add note hist_step] in *; [lia| |rewrite concat_app, length_app; cbn; lia].
  destruct (hw_pc s.1 !! id) as [[[class slot] d]|] eqn:Ep; [|done]. destruct (hv_pc _ _ _ H _ _ _ _ Ep) as (_ & Hs & Hl).
  rewrite (hist_inv_window _ _ _ H). rewrite concat_alter_cons by (by apply landing_spec; [apply (hv_n _ _ _ H)|..]). lia.
Qed.
End HistSpec.

(** ** Witness *)
Module HistDemo.
(** A logarithm that is exact on the edges of the buckets. *)
#[local] Instance step_log : GoLog := λ x,
  F.mul ln15 (F.of_Z (countZ (λ b, F.le (F.lit (3 ^ b) (- b)) x) (seqZ 1 30))).
Definition acts : list hact :=
  [HLoad 0 0 (2 * Millisecond); HAdd 0; HLoad 1 0 (40 * Millisecond); HLoad 2 1 (9 * Second); HRoll; HAdd 1; HAdd 2; HRoll].
Definition final : hworld * list (list (nat * Duration)) := default (hworld0 3, [[]]) (hist_run acts (hworld0 3, [[]])).
Lemma runs : hist_run acts (hworld0 3, [[]]) = Some (final.1, final.2).
Proof. vm_compute. reflexivity. Qed.
Lemma samples : latencies 0 (take 3 (reverse final.2)) = [40 * Millisecond; 2 * Millisecond].
Proof. vm_compute. reflexivity. Qed.
End HistDemo.
#[local] Existing Instance HistDemo.step_log.


Example p99_of_two : bucket (40 * Millisecond) = 9 ∧ p99 0 (hw_hists HistDemo.final.1) = 48054199.
Proof. vm_compute. split; reflexivity. Qed.
