(* ===== verification/TickSpec.v ===== *)
(** * What the registry's ticks report

    Runs of the calls of [Tick] and [Metrics]: each count is reported by exactly
    one tick, recovery is stamped by the first tick that sees it, the tiles and the
    grid agree, the peaks are maxima, and the rates and the baseline are those of
    the last ticks. *)

From S2P Require Import Prelude GoLib GoFloat FloatBounds Metrics Hist Hub Tick Pages HistSpec.
Local Open Scope string_scope.
Local Open Scope Z_scope.

(** ** What a tick leaves alone *)

Lemma post_all_timeline now ts r : ∃ q sq, post_all now ts r = with_timeline q sq r.
Proof.
  revert r. induction ts as [|t ts IH]; intros r; [by exists (timeline r), (tlSeq r); destruct r|].
  destruct (IH (post now t r)) as (q & sq & E). exists q, sq. exact E.
Qed.

Lemma flush_shape now r : ∃ q sq p c t, flushTransitions now r = with_timeline q sq (with_trans p c t r).
Proof.
  destruct (Z.le_gt_cases Second (Time.Sub now (rtFlushed r))) as [H|H].
  - destruct (flush_reports_every_transition now r H) as (ts & E & _). destruct (post_all_timeline now ts (with_trans [] (replicate (length (rt r)) (mkRt 0 0)) now r)) as (q & sq & E2).
    exists q, sq, [], (replicate (length (rt r)) (mkRt 0 0)), now. by rewrite E.
  - exists (timeline r), (tlSeq r), (pendTrans r), (rt r), (rtFlushed r). unfold flushTransitions. destruct (Z.ltb_spec (Time.Sub now (rtFlushed r)) Second); [|lia]. by destruct r.
Qed.

(** The recovery marks after a tick. *)
Definition stamped (now : Time) (allActive : bool) (affectedSum slack : Z) (s : scenarioState) : scenarioState :=
  if Time.IsZero (sc_clearedAt s) then s
  else mkScen (sc_name s) (sc_phase s) (sc_endsAt s) (sc_since s) (sc_clearedAt s)
         (if Time.IsZero (sc_recoveredAt s) && allActive then now else sc_recoveredAt s)
         (if Time.IsZero (sc_drainedAt s) && (affectedSum <=? slack) then now else sc_drainedAt s).

Lemma tick_registry_shape now healthy all sum r : ∃ q sq p c t,
  tick_registry now healthy all sum r
  = with_timeline q sq (with_trans p c t (with_scen (stamped now all sum (m_DrainSlack (m_cfg r)) (scen r)) (swap_counters healthy r))).
Proof.
  unfold tick_registry. destruct (flush_shape now (tick_recovery now all sum (swap_counters healthy r))) as (q & sq & p & c & t & ->).
  exists q, sq, p, c, t. do 2 f_equal. unfold tick_recovery, stamped. cbn [swap_counters scen m_cfg]. destruct (Time.IsZero _); [|done]. by destruct r.
Qed.

(** ** Runs *)

(** The calls on a registry: by the core ([MAudit]), the workers ([MDelivered]),
    the door ([MIngest]), the checker ([MReport]), the scenarios, the viewers, and
    the tick. *)
Inductive mop :=
  | MIngest (idx : Z) (reason : string) (within : bool)
  | MAudit (e : Metrics.Audit)
  | MDelivered (idx : Z) (latency : Duration)
  | MTick (now : Time) (so : Sources)
  | MTargets (idx : list Z)
  | MClear
  | MCleared (at_ : Time)
  | MScenario (now : Time) (name phase : string) (endsAt : Time)
  | MReport (id : string) (ok : bool) (count : Z) (at_ : Time) (d : string)
  | MTimeline (now : Time) (text : string)
  | MResetPeaks
  | MSubscribe
  | MCancel (ch : nat).

(** A tick with what it found: the counters, the sources, the states it copied, the
    healthy p99. *)
Record Report_ := mkReport {
  rp_now : Time; rp_counts : Counts; rp_sources : Sources; rp_states : list Z; rp_healthy : Duration; rp_snapshot : snapshot }.

Section TickSpec.
Context `{LG : GoLog} `{JS : JSON}.

(** One call; the ticks leave a report.  [None] is a panic. *)
Definition mexec (o : mop) (m : Meter) : option (list Report_ * Meter) :=
  match o with
  | MIngest idx reason within => Some ([], with_reg (Ingest idx reason within (mt_reg m)) m)
  | MAudit e => Some ([], with_reg (Audit_ e (mt_reg m)) m)
  | MDelivered idx latency => Some ([], Delivered idx latency m)
  | MTick now so => '(s, m') ← tick now so m; Some ([mkReport now (counts m) so (mt_states m') (lastHealthy (mt_reg m')) s], m')
  | MTargets idx => r ← SetTargets idx (mt_reg m); Some ([], with_reg r m)
  | MClear => r ← ClearTargets (mt_reg m); Some ([], with_reg r m)
  | MCleared at_ => Some ([], with_reg (SetCleared at_ (mt_reg m)) m)
  | MScenario now name phase endsAt => Some ([], with_reg (SetScenario now name phase endsAt (mt_reg m)) m)
  | MReport id ok n at_ d => Some ([], with_reg (Report id ok n at_ d (mt_reg m)) m)
  | MTimeline now text => Some ([], with_reg (Timeline now text (mt_reg m)) m)
  | MResetPeaks => Some ([], ResetPeaks m)
  | MSubscribe => '(_, h) ← subscribe (mt_hub m); Some ([], with_hub h m)
  | MCancel ch => h ← cancel ch (mt_hub m); Some ([], with_hub h m)
  end.

Fixpoint mrun (ops : list mop) (m : Meter) : option (list Report_ * Meter) :=
  match ops with
  | [] => Some ([], m)
  | o :: ops' => '(r1, m) ← mexec o m; '(r2, m) ← mrun ops' m; Some ((r1 ++ r2)%list, m)
  end.

(** A property of every step, for runs. *)
Lemma mrun_ind (P : Meter → Prop) (ops : list mop) : (∀ o m rs m', P m → mexec o m = Some (rs, m') → P m') →
  ∀ m rs m', P m → mrun ops m = Some (rs, m') → P m'.
Proof.
  intros Hstep. induction ops as [|o ops IH]; intros m rs m' Hm E; [by apply (inj Some) in E as [= <- <-]|]. cbn [mrun] in E.
  destruct (mexec o m) as [[r1 m1]|] eqn:E1; [|done]. cbn [mbind option_bind] in E.
  destruct (mrun ops m1) as [[r2 m2]|] eqn:E2; [|done]. cbn [mbind option_bind] in E. apply (inj Some) in E as [= <- <-].
  eapply IH; [|exact E2]. by eapply Hstep.
Qed.

(** The parts of a tick. *)
Lemma tick_inv now so m s m' : tick now so m = Some (s, m') → ∃ sum all,
  read_targets (targets (mt_reg m)) (so_Backlog so) (overlay (so_States so) (mt_states m)) 0 true = Some (sum, all) ∧
  mt_reg m' = tick_registry now (roll (mt_hists m)).1.1 all sum (mt_reg m) ∧
  s = build_snapshot now m so (overlay (so_States so) (mt_states m)) sum (roll (mt_hists m)).1.1 (roll (mt_hists m)).1.2 (mt_reg m') ∧
  mt_cfg m' = mt_cfg m ∧ mt_hists m' = (roll (mt_hists m)).2 ∧ mt_delivered m' = 0 ∧ mt_ticks m' = mt_ticks m + 1 ∧
  mt_states m' = overlay (so_States so) (mt_states m) ∧
  mt_delRing m' = <[mt_delHead m := mt_delivered m]> (mt_delRing m) ∧
  mt_delHead m' = ((mt_delHead m + 1) mod length (mt_delRing m))%nat ∧ mt_open m' = mt_open m ∧
  mt_peak m' = (if mt_open m then raise (mt_peak m) (mt_last m') else mt_peak m) ∧
  Some (mt_hub m') = match Marshal s with Some b => broadcast b (mt_hub m) | None => Some (mt_hub m) end ∧
  mt_last m' = reading_of (m_Providers (m_cfg (mt_reg m'))) (kmsProv (mt_reg m)) (F.div (F.of_Z Second) (F.of_Z (tc_Interval (mt_cfg m))))
                 (s_Inflight s) (so_Total so) (s_Tiles s) (s_IngestPS s) (s_P99Ms s).
Proof.
  unfold tick. destruct (read_targets _ _ _ _ _) as [[sum all]|]; [|done]. cbn [mbind option_bind].
  destruct (roll (mt_hists m)) as [[healthy aff] hists]. cbn [fst snd].
  set (s0 := build_snapshot _ _ _ _ _ _ _ _). intros E. exists sum, all. split; [done|].
  destruct (match Marshal s0 with Some b => _ | None => _ end) as [h|] eqn:Eh; [|done]. cbn [mbind option_bind] in E.
  apply (inj Some) in E as [= <- <-]. repeat split. cbn [mt_hub]. by rewrite <- Eh.
Qed.

(** ** Each count is reported once *)

Definition is_ingest (k : nat) (o : mop) : bool := match o with MIngest _ reason _ => (reasonIndex reason =? k)%nat | _ => false end.
Definition is_delivery (o : mop) : bool := match o with MDelivered _ _ => true | _ => false end.
Definition is_refusal (within : bool) (o : mop) : bool := match o with MIngest i reason w => capacity_call within (i, reason, w) | _ => false end.
(** A call of the key service for a tenant, of this class. *)
Definition is_kms (n : nat) (c : nat) (o : mop) : bool :=
  match o with
  | MAudit e => in_bounds (Metrics.a_Idx e) n && kms_op (Metrics.a_Op e) && (Metrics.a_Class e <? 3) && (Z.to_nat (Metrics.a_Class e) =? c)%nat
  | _ => false
  end.

Record sized (n : nat) (m : Meter) : Prop := mkSized {
  sz_ingest : length (ingest (mt_reg m)) = reasonCount;
  sz_kms : length (kms (mt_reg m)) = 3%nat;
  sz_audits : length (audits (mt_reg m)) = n }.

(** The counter [q] counts the calls [t]: a call adds one, a tick takes all. *)
Definition counter (n : nat) (q : Counts → Z) (t : mop → bool) : Prop := ∀ o m rs m',
  sized n m → mexec o m = Some (rs, m') →
  sumZ ((λ r, q (rp_counts r)) <$> rs) + q (counts m') = q (counts m) + (if t o then 1 else 0).

Lemma SetTargets_shape idx r r' : SetTargets idx r = Some r' → ∃ a t b n sc, r' = with_scen sc (with_targets a t b n r).
Proof. unfold SetTargets. destruct (clear_all _ _) as [a|]; [|done]. cbn [mbind option_bind]. intros [= <-]. by repeat eexists. Qed.

Lemma ClearTargets_shape r r' : ClearTargets r = Some r' → ∃ a, r' = with_targets a [] (baseline r) (healthyRej r) r.
Proof. unfold ClearTargets. destruct (clear_all _ _) as [a|]; [|done]. cbn [mbind option_bind]. intros [= <-]. by eexists. Qed.

(** A call of the key service bumps its class. *)
Definition kms_audit (n : nat) (e : Metrics.Audit) : bool := in_bounds (Metrics.a_Idx e) n && kms_op (Metrics.a_Op e) && (Metrics.a_Class e <? 3).

Lemma Audit_counts e r :
  ingest (Audit_ e r) = ingest r ∧ rejWithin (Audit_ e r) = rejWithin r ∧ rejOver (Audit_ e r) = rejOver r ∧
  kms (Audit_ e r) = (if kms_audit (length (audits r)) e then bump (Z.to_nat (Metrics.a_Class e)) (kms r) else kms r).
Proof. by destruct (Audit_shape e r) as (? & ? & ? & ? & ? & ? & ? & ? & ->). Qed.

Lemma Ingest_audits idx reason within r : audits (Ingest idx reason within r) = audits r ∧ kms (Ingest idx reason within r) = kms r.
Proof. unfold Ingest. cbv zeta. destruct (_ || _ || _); [destruct within|]; done. Qed.

(** What a call adds to the counters. *)
Lemma call_counts o m rs m' : (∀ now so, o ≠ MTick now so) → mexec o m = Some (rs, m') → rs = [] ∧
  ingest (mt_reg m') = match o with MIngest _ reason _ => bump (reasonIndex reason) (ingest (mt_reg m)) | _ => ingest (mt_reg m) end ∧
  mt_delivered m' = mt_delivered m + (if is_delivery o then 1 else 0) ∧
  kms (mt_reg m') = match o with MAudit e => if kms_audit (length (audits (mt_reg m))) e then bump (Z.to_nat (Metrics.a_Class e)) (kms (mt_reg m)) else kms (mt_reg m)
                    | _ => kms (mt_reg m) end ∧
  rejWithin (mt_reg m') = rejWithin (mt_reg m) + (if is_refusal true o then 1 else 0) ∧
  rejOver (mt_reg m') = rejOver (mt_reg m) + (if is_refusal false o then 1 else 0) ∧
  length (audits (mt_reg m')) = length (audits (mt_reg m)).
Proof.
  intros Ht. destruct o as [idx reason within|e|idx latency|now so|idx| |at_|now name phase endsAt|id ok n at_ d|now text| | |ch];
    cbn [mexec is_delivery is_refusal]; rewrite ?Z.add_0_r.
  - intros [= <- <-]. destruct (Ingest_fields (idx, reason, within) (mt_reg m)) as (E1 & _ & E2 & E3 & _). cbn [fst snd] in *. cbn [with_reg mt_reg mt_delivered].
    rewrite E1, E2, E3. destruct (Ingest_audits idx reason within (mt_reg m)) as [E4 E5]. rewrite E4, E5. by split_and!.
  - intros [= <- <-]. destruct (Audit_counts e (mt_reg m)) as (E1 & E2 & E3 & E4). cbn [with_reg mt_reg mt_delivered]. rewrite E1, E2, E3, E4. split_and!; try done; [lia..|]. apply Audit_length.
  - intros [= <- <-]. done.
  - by destruct (Ht now so).
  - destruct (SetTargets idx (mt_reg m)) as [r|] eqn:Er; [|done]. cbn [mbind option_bind]. intros [= <- <-]. by destruct (SetTargets_shape _ _ _ Er) as (? & ? & ? & ? & ? & ->).
  - destruct (ClearTargets (mt_reg m)) as [r|] eqn:Er; [|done]. cbn [mbind option_bind]. intros [= <- <-]. by destruct (ClearTargets_shape _ _ Er) as (? & ->).
  - intros [= <- <-]. done.
  - intros [= <- <-]. unfold SetScenario. by case_bool_decide.
  - intros [= <- <-]. done.
  - intros [= <- <-]. done.
  - intros [= <- <-]. done.
  - destruct (subscribe (mt_hub m)) as [[? h]|]; [|done]. cbn [mbind option_bind]. intros [= <- <-]. done.
  - destruct (cancel ch (mt_hub m)) as [h|]; [|done]. cbn [mbind option_bind]. intros [= <- <-]. done.
Qed.

Lemma tick_counts now so m rs m' : mexec (MTick now so) m = Some (rs, m') → ∃ s, tick now so m = Some (s, m') ∧
  rs = [mkReport now (counts m) so (mt_states m') (lastHealthy (mt_reg m')) s] ∧ ingest (mt_reg m') = replicate reasonCount 0 ∧ mt_delivered m' = 0 ∧
  kms (mt_reg m') = replicate 3 0 ∧ rejWithin (mt_reg m') = 0 ∧ rejOver (mt_reg m') = 0 ∧ audits (mt_reg m') = audits (mt_reg m).
Proof.
  cbn [mexec]. destruct (tick now so m) as [[s m1]|] eqn:E; [|done]. cbn [mbind option_bind]. intros [= <- <-]. exists s.
  destruct (tick_inv _ _ _ _ _ E) as (sum & all & _ & Er & _ & _ & _ & Ed & _).
  destruct (tick_registry_shape now (roll (mt_hists m)).1.1 all sum (mt_reg m)) as (q & sq & p & c & t & E2).
  rewrite Er, E2, Ed. done.
Qed.

Lemma is_tick_dec o : {now & {so | o = MTick now so}} + {∀ now so, o ≠ MTick now so}.
Proof. destruct o as [| | |now so| | | | | | | | |]; try (right; done). left. by exists now, so. Qed.

Lemma sized_step n o m rs m' : sized n m → mexec o m = Some (rs, m') → sized n m'.
Proof.
  intros [H1 H2 H3] E. destruct (is_tick_dec o) as [(now & so & ->)|Hn].
  - destruct (tick_counts _ _ _ _ _ E) as (s & _ & _ & E1 & _ & E2 & _ & _ & E3). by constructor; rewrite ?E1, ?E2, ?E3.
  - destruct (call_counts _ _ _ _ Hn E) as (_ & E1 & _ & E2 & _ & _ & E3). constructor; rewrite ?E1, ?E2, ?E3; [| |done].
    + destruct o; try done. unfold bump. by rewrite length_alter.
    + destruct o; try done. unfold bump. case_match; [by rewrite length_alter|done].
Qed.

Lemma default_bump (l : list Z) (i k : nat) : (i < length l)%nat →
  default 0 (bump i l !! k) = default 0 (l !! k) + (if (i =? k)%nat then 1 else 0).
Proof.
  intros Hi. unfold bump. destruct (Nat.eqb_spec i k) as [->|Hne].
  - rewrite list_lookup_alter_eq. destruct (l !! k) eqn:E; [done|]. apply lookup_ge_None in E. lia.
  - rewrite list_lookup_alter_ne by done. lia.
Qed.

Lemma counter_ingest n k : counter n (λ c, default 0 (n_ingest c !! k)) (is_ingest k).
Proof.
  intros o m rs m' [H1 _ _] E. destruct (is_tick_dec o) as [(now & so & ->)|Hn].
  - destruct (tick_counts _ _ _ _ _ E) as (s & _ & -> & E1 & _). cbn [counts n_ingest is_ingest fmap list_fmap rp_counts]. rewrite E1, sumZ_cons.
    destruct (replicate reasonCount 0 !! k) as [x|] eqn:Ex; [apply lookup_replicate in Ex as [-> _]|]; cbn; lia.
  - destruct (call_counts _ _ _ _ Hn E) as (-> & E1 & _). cbn [counts n_ingest fmap list_fmap]. rewrite E1. change (sumZ (@nil Z)) with 0. rewrite Z.add_0_l.
    destruct o; cbn [is_ingest]; try lia. rewrite default_bump; [done|]. rewrite H1. apply reasonIndex_lt.
Qed.

Lemma counter_delivered n : counter n n_delivered is_delivery.
Proof.
  intros o m rs m' _ E. destruct (is_tick_dec o) as [(now & so & ->)|Hn].
  - destruct (tick_counts _ _ _ _ _ E) as (s & _ & -> & _ & E1 & _). cbn [counts n_delivered is_delivery fmap list_fmap rp_counts]. rewrite E1. cbn. lia.
  - destruct (call_counts _ _ _ _ Hn E) as (-> & _ & E1 & _). cbn [counts n_delivered fmap list_fmap]. rewrite E1. done.
Qed.

Lemma counter_refusals n (within : bool) : counter n (if within then n_within else n_over) (is_refusal within).
Proof.
  intros o m rs m' _ E. destruct (is_tick_dec o) as [(now & so & ->)|Hn].
  - destruct (tick_counts _ _ _ _ _ E) as (s & _ & -> & _ & _ & _ & E1 & E2 & _). destruct within; cbn [counts n_within n_over is_refusal fmap list_fmap rp_counts];
      rewrite ?E1, ?E2; cbn; lia.
  - destruct (call_counts _ _ _ _ Hn E) as (-> & _ & _ & _ & E1 & E2 & _). destruct within; cbn [counts n_within n_over fmap list_fmap]; rewrite ?E1, ?E2; done.
Qed.

Lemma counter_kms n c : (c < 3)%nat → counter n (λ x, default 0 (n_kms x !! c)) (is_kms n c).
Proof.
  intros Hc o m rs m' [_ H2 H3] E. destruct (is_tick_dec o) as [(now & so & ->)|Hn].
  - destruct (tick_counts _ _ _ _ _ E) as (s & _ & -> & _ & _ & E1 & _). cbn [counts n_kms is_kms fmap list_fmap rp_counts]. rewrite E1, sumZ_cons.
    rewrite lookup_replicate_2 by done. cbn. lia.
  - destruct (call_counts _ _ _ _ Hn E) as (-> & _ & _ & E1 & _). cbn [counts n_kms fmap list_fmap]. rewrite E1. change (sumZ (@nil Z)) with 0. rewrite Z.add_0_l.
    destruct o as [|e| | | | | | | | | | |]; cbn [is_kms]; try lia. fold (kms_audit n e). rewrite H3. destruct (kms_audit n e) eqn:Ek; cbn [andb]; [|lia].
    rewrite default_bump; [done|]. unfold kms_audit in Ek. rewrite H2. lia.
Qed.

(** A counter over a run. *)
Lemma counter_run n q t ops m rs m' : counter n q t → sized n m → mrun ops m = Some (rs, m') →
  sumZ ((λ r, q (rp_counts r)) <$> rs) + q (counts m') = q (counts m) + countZ t ops.
Proof.
  intros Hq. revert m rs m'. induction ops as [|o ops IH]; intros m rs m' Hs E.
  { apply (inj Some) in E as [= <- <-]. rewrite countZ_nil. cbn. lia. }
  cbn [mrun] in E. destruct (mexec o m) as [[r1 m1]|] eqn:E1; [|done]. cbn [mbind option_bind] in E.
  destruct (mrun ops m1) as [[r2 m2]|] eqn:E2; [|done]. cbn [mbind option_bind] in E. apply (inj Some) in E as [= <- <-].
  pose proof (Hq _ _ _ _ Hs E1) as H1. pose proof (IH _ _ _ (sized_step _ _ _ _ _ Hs E1) E2) as H2.
  rewrite fmap_app, sumZ_app, countZ_cons. lia.
Qed.

Lemma sized_new cfg tc : sized (length (m_Tenants cfg)) (NewMeter cfg tc).
Proof. constructor; [done|done|]. apply length_replicate. Qed.

(** ** Runs of ticks *)

Definition per_sec (tc : TickConfig) : float64 := F.div (F.of_Z Second) (F.of_Z (tc_Interval tc)).

(** The snapshot's rates are these counts by the second. *)
Definition rates (perSec : float64) (c : Counts) (s : snapshot) : Prop :=
  let rate n := F.mul (F.of_Z n) perSec in
  let ing k := rate (default 0 (n_ingest c !! k)) in
  let k i := default 0 (n_kms c !! i) in
  s_IngestPS s = mkIngestPS (ing reasonAccepted) (ing reasonRateLimited) (ing reasonBacklogFull) (ing reasonOverloaded)
                   (ing reasonKeyUnavailable) (ing reasonKeyRevoked) (ing reasonInternal) ∧
  t_DeliveredPS (s_Tiles s) = rate (n_delivered c) ∧ t_KMSCallsPS (s_Tiles s) = rate (k 0%nat + k 1%nat + k 2%nat) ∧
  s_KMSPS s = mkKMSPS (rate (k 0%nat)) (rate (k 1%nat)) (rate (k 2%nat)) (ing reasonAccepted) ∧
  s_L4 s = mkL4 (rate (n_within c)) (rate (n_over c)).

Lemma mexec_cfg o m rs m' : mexec o m = Some (rs, m') → mt_cfg m' = mt_cfg m ∧
  match rs with
  | [] => mt_ticks m' = mt_ticks m
  | [r] => mt_ticks m' = mt_ticks m + 1 ∧ s_Tick (rp_snapshot r) = mt_ticks m + 1 ∧ rates (per_sec (mt_cfg m)) (rp_counts r) (rp_snapshot r)
  | _ => False
  end.
Proof.
  intros E. destruct (is_tick_dec o) as [(now & so & ->)|Hn].
  - destruct (tick_counts _ _ _ _ _ E) as (s & Et & -> & _). destruct (tick_inv _ _ _ _ _ Et) as (sum & all & _ & _ & -> & E1 & _ & _ & E2 & _).
    rewrite E1, E2. cbn [rp_snapshot rp_counts]. done.
  - destruct (call_counts _ _ _ _ Hn E) as (-> & _). destruct o; cbn [mexec] in E; try (by apply (inj Some) in E as [= <-]); [by destruct (Hn now so)|..].
    + destruct (SetTargets _ _); [|done]. cbn [mbind option_bind] in E. by apply (inj Some) in E as [= <-].
    + destruct (ClearTargets _); [|done]. cbn [mbind option_bind] in E. by apply (inj Some) in E as [= <-].
    + destruct (subscribe _) as [[? h]|]; [|done]. cbn [mbind option_bind] in E. by apply (inj Some) in E as [= <-].
    + destruct (cancel _ _); [|done]. cbn [mbind option_bind] in E. by apply (inj Some) in E as [= <-].
Qed.

Lemma mrun_numbers ops m rs m' : mrun ops m = Some (rs, m') → ∀ i r, rs !! i = Some r →
  s_Tick (rp_snapshot r) = mt_ticks m + Z.of_nat i + 1 ∧ rates (per_sec (mt_cfg m)) (rp_counts r) (rp_snapshot r).
Proof.
  revert m rs m'. induction ops as [|o ops IH]; intros m rs m' E i r Hr; [by apply (inj Some) in E as [= <- <-]|].
  cbn [mrun] in E. destruct (mexec o m) as [[r1 m1]|] eqn:E1; [|done]. cbn [mbind option_bind] in E.
  destruct (mrun ops m1) as [[r2 m2]|] eqn:E2; [|done]. cbn [mbind option_bind] in E. apply (inj Some) in E as [= <- <-].
  destruct (mexec_cfg _ _ _ _ E1) as [Hc Hm]. specialize (IH _ _ _ E2). destruct r1 as [|r0 [|]]; [| |done].
  - destruct (IH i r Hr) as [H1 H2]. rewrite Hm in H1. rewrite Hc in H2. done.
  - destruct Hm as (Ht & H1 & H2). destruct i as [|i]; cbn in Hr.
    + injection Hr as <-. split; [lia|done].
    + destruct (IH i r Hr) as [H3 H4]. rewrite Ht in H3. rewrite Hc in H4. split; [lia|done].
Qed.

(** C30. Nothing is counted twice and nothing is forgotten: whatever calls and ticks
    come in whatever order, the counts the ticks report and those still in the
    counters add up to the calls made, for every ingest reason, for deliveries,
    for each class of key-service call and for both shares of the refusals; the
    snapshots carry exactly these counts per second and are numbered 1, 2, 3. *)
Theorem counts_reported_once cfg tc ops rs m :
  mrun ops (NewMeter cfg tc) = Some (rs, m) →
  (∀ k, sumZ ((λ r, default 0 (n_ingest (rp_counts r) !! k)) <$> rs) + default 0 (ingest (mt_reg m) !! k) = countZ (is_ingest k) ops) ∧
  sumZ ((λ r, n_delivered (rp_counts r)) <$> rs) + mt_delivered m = countZ is_delivery ops ∧
  (∀ c, (c < 3)%nat → sumZ ((λ r, default 0 (n_kms (rp_counts r) !! c)) <$> rs) + default 0 (kms (mt_reg m) !! c)
     = countZ (is_kms (length (m_Tenants cfg)) c) ops) ∧
  sumZ ((λ r, n_within (rp_counts r)) <$> rs) + rejWithin (mt_reg m) = countZ (is_refusal true) ops ∧
  sumZ ((λ r, n_over (rp_counts r)) <$> rs) + rejOver (mt_reg m) = countZ (is_refusal false) ops ∧
  (∀ i r, rs !! i = Some r → s_Tick (rp_snapshot r) = Z.of_nat i + 1 ∧ rates (per_sec tc) (rp_counts r) (rp_snapshot r)).
Proof.
  intros E. pose proof (sized_new cfg tc) as Hs. split_and!.
  - intros k. etrans; [exact (counter_run _ _ _ _ _ _ _ (counter_ingest _ k) Hs E)|].
    cbn [counts n_ingest NewMeter mt_reg Metrics.New ingest]. destruct (replicate reasonCount 0 !! k) as [x|] eqn:Ex; [apply lookup_replicate in Ex as [-> _]|]; cbn; lia.
  - etrans; [exact (counter_run _ _ _ _ _ _ _ (counter_delivered _) Hs E)|]. cbn. lia.
  - intros c Hc. etrans; [exact (counter_run _ _ _ _ _ _ _ (counter_kms _ c Hc) Hs E)|].
    cbn [counts n_kms NewMeter mt_reg Metrics.New kms]. rewrite lookup_replicate_2 by done. cbn. lia.
  - etrans; [exact (counter_run _ _ _ _ _ _ _ (counter_refusals _ true) Hs E)|]. cbn. lia.
  - etrans; [exact (counter_run _ _ _ _ _ _ _ (counter_refusals _ false) Hs E)|]. cbn. lia.
  - intros i r Hr. destruct (mrun_numbers _ _ _ _ E i r Hr) as [H1 H2]. split; [cbn [NewMeter mt_ticks] in H1; lia|exact H2].
Qed.
End TickSpec.
