(* ===== verification/Readings.v ===== *)
(** * What the tick's readings mean

    Recovery is stamped by the first tick that sees it; the tiles count the cells
    of the grid; the peaks are maxima; the delivery rate and the baseline are those
    of the last ticks; the percentiles are those of the latencies delivered. *)

From S2P Require Import Prelude GoLib GoFloat FloatBounds Metrics Hist Hub Tick Pages HistSpec TickSpec.
Local Open Scope string_scope.
Local Open Scope Z_scope.

(** ** Recovery *)

(** The target is in range and ACTIVE. *)
Definition active_in (states : list Z) (i : Z) : bool := (0 <=? i) && bool_decide (states !! Z.to_nat i = Some 0).
Definition backlog_of (ts : list Z) (so : Sources) : Z := sumZ (so_Backlog so <$> ts).

Lemma read_targets_spec ts bl states sum all sum' all' : read_targets ts bl states sum all = Some (sum', all') →
  sum' = sum + sumZ (bl <$> ts) ∧ all' = all && forallb (active_in states) ts.
Proof.
  revert sum all. induction ts as [|i ts IH]; intros sum all; cbn [read_targets].
  { intros [= <- <-]. cbn. rewrite Z.add_0_r, andb_true_r. done. }
  rewrite fmap_cons, sumZ_cons. cbn [forallb]. unfold active_in at 1. destruct all.
  - destruct (Z.ltb_spec i 0) as [|Hi]; [done|]. assert ((0 <=? i) = true) as -> by lia.
    destruct (states !! Z.to_nat i) as [st|] eqn:E; [|done]. cbn [mbind option_bind]. intros H. destruct (IH _ _ H) as [-> ->]. split; [lia|].
    cbn [andb]. destruct (Z.eqb_spec st 0) as [Hst|Hst]; [rewrite bool_decide_eq_true_2 by congruence|rewrite bool_decide_eq_false_2 by congruence]; done.
  - cbn [mbind option_bind]. intros H. destruct (IH _ _ H) as [-> ->]. split; [lia|done].
Qed.

(** The instant of the first report the test accepts, and zero when there is none. *)
Fixpoint first_at (p : Report_ → bool) (rs : list Report_) : Time :=
  match rs with [] => 0 | r :: rs' => if p r then rp_now r else first_at p rs' end.

Section Readings.
Context `{LG : GoLog} `{JS : JSON}.

(** The calls that leave the recovery marks and the targets to the ticks; the
    clock of a tick is past Go's zero time. *)
Definition undisturbed (o : mop) : bool :=
  match o with MTargets _ | MClear | MCleared _ | MScenario _ _ _ _ => false | MTick now _ => negb (now =? 0) | _ => true end.

Lemma Audit_scen e r : scen (Audit_ e r) = scen r ∧ targets (Audit_ e r) = targets r ∧ affected (Audit_ e r) = affected r ∧
  p99Ring (Audit_ e r) = p99Ring r ∧ m_cfg (Audit_ e r) = m_cfg r.
Proof. by destruct (Audit_shape e r) as (? & ? & ? & ? & ? & ? & ? & ? & ->). Qed.

Lemma Ingest_scen idx reason within r : let r' := Ingest idx reason within r in
  scen r' = scen r ∧ targets r' = targets r ∧ affected r' = affected r ∧ p99Ring r' = p99Ring r ∧ m_cfg r' = m_cfg r.
Proof. unfold Ingest. cbv zeta. destruct (_ || _ || _); [destruct within|]; done. Qed.

Lemma undisturbed_step o m rs m' : undisturbed o = true → mexec o m = Some (rs, m') →
  targets (mt_reg m') = targets (mt_reg m) ∧ m_cfg (mt_reg m') = m_cfg (mt_reg m) ∧
  match rs with
  | [] => scen (mt_reg m') = scen (mt_reg m)
  | [r] => rp_now r ≠ 0 ∧ scen (mt_reg m') = stamped (rp_now r) (forallb (active_in (rp_states r)) (targets (mt_reg m)))
                            (backlog_of (targets (mt_reg m)) (rp_sources r)) (m_DrainSlack (m_cfg (mt_reg m))) (scen (mt_reg m))
  | _ => False
  end.
Proof.
  intros Hu E. destruct (is_tick_dec o) as [(now & so & ->)|Hn].
  - destruct (tick_counts _ _ _ _ _ E) as (s & Et & -> & _). destruct (tick_inv _ _ _ _ _ Et) as (sum & all & Hr & E1 & _ & _ & _ & _ & _ & E2 & _).
    destruct (tick_registry_shape now (roll (mt_hists m)).1.1 all sum (mt_reg m)) as (q & sq & p & c & t & E3).
    rewrite E1, E3. cbn [rp_now rp_states rp_sources]. rewrite E2. cbn [undisturbed] in Hu.
    destruct (read_targets_spec _ _ _ _ _ _ _ Hr) as [-> ->]. repeat split. destruct (Z.eqb_spec now 0); done.
  - destruct (call_counts _ _ _ _ Hn E) as (-> & _). destruct o as [idx reason within|e|idx latency|now so|idx| |at_|now name phase endsAt|id ok n at_ d|now text| | |ch]; try done; cbn [mexec] in E; try (by apply (inj Some) in E as [= <-]).
    + apply (inj Some) in E as [= <-]. destruct (Ingest_scen idx reason within (mt_reg m)) as (E1 & E2 & _ & _ & E3). done.
    + apply (inj Some) in E as [= <-]. destruct (Audit_scen e (mt_reg m)) as (E1 & E2 & _ & _ & E3). done.
    + by destruct (Hn now so).
    + destruct (subscribe _) as [[? h]|]; [|done]. cbn [mbind option_bind] in E. by apply (inj Some) in E as [= <-].
    + destruct (cancel _ _); [|done]. cbn [mbind option_bind] in E. by apply (inj Some) in E as [= <-].
Qed.

(** The marks after some ticks: what was stamped stays, the rest is the first. *)
Lemma marks_after ops m rs m' : forallb undisturbed ops = true → mrun ops m = Some (rs, m') → sc_clearedAt (scen (mt_reg m)) ≠ 0 →
  let ts := targets (mt_reg m) in
  let s := scen (mt_reg m) in
  let s' := scen (mt_reg m') in
  sc_clearedAt s' = sc_clearedAt s ∧
  sc_recoveredAt s' = (if Time.IsZero (sc_recoveredAt s) then first_at (λ r, forallb (active_in (rp_states r)) ts) rs else sc_recoveredAt s) ∧
  sc_drainedAt s' = (if Time.IsZero (sc_drainedAt s) then first_at (λ r, backlog_of ts (rp_sources r) <=? m_DrainSlack (m_cfg (mt_reg m))) rs
                     else sc_drainedAt s).
Proof.
  cbv zeta. revert m rs m'. induction ops as [|o ops IH]; intros m rs m' Hu E Hc.
  { apply (inj Some) in E as [= <- <-]. cbn [first_at]. unfold Time.IsZero. split; [done|].
    destruct (Z.eqb_spec (sc_recoveredAt (scen (mt_reg m))) 0), (Z.eqb_spec (sc_drainedAt (scen (mt_reg m))) 0); done. }
  cbn [forallb] in Hu. apply andb_true_iff in Hu as [Ho Hu]. cbn [mrun] in E.
  destruct (mexec o m) as [[r1 m1]|] eqn:E1; [|done]. cbn [mbind option_bind] in E.
  destruct (mrun ops m1) as [[r2 m2]|] eqn:E2; [|done]. cbn [mbind option_bind] in E. apply (inj Some) in E as [= <- <-].
  destruct (undisturbed_step _ _ _ _ Ho E1) as (Et & Ecfg & Hs). destruct r1 as [|r0 [|]]; [| |done].
  - destruct (IH _ _ _ Hu E2) as (H1 & H2 & H3); rewrite ?Hs, ?Et, ?Ecfg in *; done.
  - destruct Hs as [Hnow Hs]. assert (Time.IsZero (sc_clearedAt (scen (mt_reg m))) = false) as Hz by (unfold Time.IsZero; lia).
    unfold stamped in Hs. rewrite Hz in Hs.
    destruct (IH _ _ _ Hu E2) as (H1 & H2 & H3); [by rewrite Hs|]. rewrite H1, H2, H3, Hs, Et, Ecfg. cbn [sc_clearedAt sc_recoveredAt sc_drainedAt app first_at]. split; [done|].
    assert (Time.IsZero (rp_now r0) = false) as Hn0 by (unfold Time.IsZero; lia).
    split.
    + destruct (Time.IsZero (sc_recoveredAt (scen (mt_reg m)))) eqn:Ez; cbn [andb]; [|by rewrite Ez].
      destruct (forallb (active_in (rp_states r0)) (targets (mt_reg m))); [by rewrite Hn0|by rewrite Ez].
    + destruct (Time.IsZero (sc_drainedAt (scen (mt_reg m)))) eqn:Ez; cbn [andb]; [|by rewrite Ez].
      destruct (_ <=? _); [by rewrite Hn0|by rewrite Ez].
Qed.

(** Recovery is measured, not guessed: from the instant the fault is cleared, as
    long as nobody replaces the targets or the card, the service counts as
    recovered at the first tick that found every target ACTIVE and as drained at
    the first that found their backlog at or under the slack, whatever else the
    registry was told meanwhile, and [Recovered] gives the two times since the
    clearing. *)
Theorem recovery_is_first_tick ops m0 at_ rs m :
  at_ ≠ 0 → forallb undisturbed ops = true → mrun ops (with_reg (SetCleared at_ (mt_reg m0)) m0) = Some (rs, m) →
  let ts := targets (mt_reg m0) in
  let t1 := first_at (λ r, forallb (active_in (rp_states r)) ts) rs in
  let t2 := first_at (λ r, backlog_of ts (rp_sources r) <=? m_DrainSlack (m_cfg (mt_reg m0))) rs in
  Recovered (mt_reg m) = (if t1 =? 0 then 0 else Time.Sub t1 at_, if t2 =? 0 then 0 else Time.Sub t2 at_,
                          negb (t1 =? 0) && negb (t2 =? 0)).
Proof.
  intros Hat Hu E. cbv zeta. destruct (marks_after _ _ _ _ Hu E Hat) as (H1 & H2 & H3). cbv zeta in *.
  cbn [with_reg mt_reg SetCleared with_scen scen sc_clearedAt sc_recoveredAt sc_drainedAt targets m_cfg] in H1, H2, H3.
  unfold Recovered. rewrite H1, H2, H3. change (Time.IsZero 0) with true. cbn match. unfold Time.IsZero. destruct (_ =? 0), (_ =? 0); done.
Qed.

(** ** The registry against its reports *)

Lemma clear_all_length ts a a' : clear_all ts a = Some a' → length a' = length a.
Proof.
  revert a. induction ts as [|i ts IH]; intros a; cbn [clear_all]; [by intros [= <-]|]. destruct (in_bounds _ _); [|done].
  intros H. rewrite (IH _ H). apply length_insert.
Qed.

Lemma mark_all_length ts a : length (mark_all ts a) = length a.
Proof.
  revert a. induction ts as [|i ts IH]; intros a; [done|]. cbn [mark_all]. rewrite IH. destruct (in_bounds _ _); [apply length_insert|done].
Qed.

(** The ring and the cells it has not written yet. *)
Definition padded_ring (buf : list Z) (head n : nat) (h : list Z) : Prop :=
  ring_ok (mkRing buf head (Nat.min (length h) n)) n h ∧ ∀ i, (length h <= i < n)%nat → buf !! i = Some 0.

Lemma padded_push buf head n h x : padded_ring buf head n h → padded_ring (<[head := x]> buf) ((head + 1) mod length buf) n (h ++ [x]).
Proof.
  intros [Hr Hz]. pose proof (push_ok _ _ _ x Hr) as Hp. pose proof Hr as (Hn & Hl & Hh & _). cbn [r_buf r_head] in *.
  unfold push in Hp. cbn [r_buf r_head r_n] in Hp. split.
  - rewrite length_app. cbn [length]. replace (Nat.min (length h + 1) n) with (if (Nat.min (length h) n <? length buf)%nat then Nat.min (length h) n + 1 else Nat.min (length h) n)%nat; [exact Hp|].
    rewrite Hl. destruct (Nat.ltb_spec (Nat.min (length h) n) n); lia.
  - rewrite length_app. cbn [length]. intros i Hi. rewrite list_lookup_insert_ne; [apply Hz; lia|]. rewrite Hh, Nat.mod_small by lia. lia.
Qed.

(** The sum of a padded ring is that of its last entries. *)
Lemma padded_sum buf head n h : padded_ring buf head n h → sumZ buf = sumZ (take n (reverse h)).
Proof.
  intros [Hr Hz]. pose proof (ring_slots _ _ _ Hr) as Hp. cbn [r_n r_buf] in Hp. assert (length buf = n) as Hl by apply Hr.
  rewrite <- (take_drop (Nat.min (length h) n) buf), sumZ_app, Hp.
  assert (drop (Nat.min (length h) n) buf = replicate (n - length h) 0) as ->.
  { apply list_eq. intros i. rewrite lookup_drop. destruct (decide (i < n - length h)%nat).
    - rewrite lookup_replicate_2, Hz by lia. done.
    - rewrite (proj2 (lookup_ge_None _ _)) by lia. symmetry. apply lookup_ge_None. rewrite length_replicate. lia. }
  assert (∀ k, sumZ (replicate k 0) = 0) as -> by (induction k as [|k IH]; [done|]; cbn [replicate]; rewrite sumZ_cons, IH; done). lia.
Qed.

Record minv (n w b : nat) (m : Meter) (rs : list Report_) : Prop := mkMinv {
  mi_affected : length (affected (mt_reg m)) = n;
  mi_states : length (mt_states m) = n;
  mi_del : padded_ring (mt_delRing m) (mt_delHead m) w (n_delivered ∘ rp_counts <$> rs);
  mi_p99 : ring_ok (p99Ring (mt_reg m)) b (rp_healthy <$> rs) }.

Definition window_of (tc : TickConfig) : nat := Z.to_nat (positive_or (tc_P99Window tc) 10).
Definition baseline_of (cfg : Metrics.Config) : nat := Z.to_nat (positive_or (m_BaselineTicks cfg) 20).

Lemma positive_or_pos x d : 0 < d → 0 < positive_or x d.
Proof. unfold positive_or. destruct (Z.leb_spec x 0); lia. Qed.

Lemma minv_new cfg tc : minv (length (m_Tenants cfg)) (window_of tc) (baseline_of cfg) (NewMeter cfg tc) [].
Proof.
  assert (0 < window_of tc)%nat as Hw by (pose proof (positive_or_pos (tc_P99Window tc) 10 ltac:(lia)); unfold window_of; lia).
  assert (0 < baseline_of cfg)%nat as Hb by (pose proof (positive_or_pos (m_BaselineTicks cfg) 20 ltac:(lia)); unfold baseline_of; lia).
  constructor; cbn [NewMeter mt_reg mt_states mt_delRing mt_delHead Metrics.New affected p99Ring fmap list_fmap tc_P99Window]; rewrite ?length_replicate; try done.
  - split; [|intros i Hi; apply lookup_replicate_2; unfold window_of in Hi; cbn in Hi; lia].
    split_and!; cbn [r_buf r_head r_n length]; [done|by rewrite length_replicate|by rewrite Nat.Div0.mod_0_l|done|intros; lia].
  - split_and!; cbn [r_buf r_head r_n length]; [done|by rewrite length_replicate|by rewrite Nat.Div0.mod_0_l|done|intros; lia].
Qed.

Lemma SetTargets_keeps idx r r' : SetTargets idx r = Some r' → length (affected r') = length (affected r) ∧ p99Ring r' = p99Ring r.
Proof.
  unfold SetTargets. destruct (clear_all _ _) as [a|] eqn:E; [|done]. cbn [mbind option_bind]. intros [= <-]. cbn. split; [|done].
  rewrite mark_all_length. by apply clear_all_length in E.
Qed.

Lemma minv_step n w b o m rs r1 m' : minv n w b m rs → mexec o m = Some (r1, m') → minv n w b m' (rs ++ r1).
Proof.
  intros [H1 H2 H3 H4] E. destruct (is_tick_dec o) as [(now & so & ->)|Hn].
  - destruct (tick_counts _ _ _ _ _ E) as (s & Et & -> & _). destruct (tick_inv _ _ _ _ _ Et) as (sum & all & _ & E1 & _ & _ & _ & _ & _ & E2 & E3 & E4 & _).
    destruct (tick_registry_shape now (roll (mt_hists m)).1.1 all sum (mt_reg m)) as (q & sq & p & c & t & E5). rewrite E5 in E1.
    constructor; rewrite ?E1, ?E2, ?E3, ?E4, ?fmap_app; try done.
    + unfold overlay. rewrite length_app, length_take, length_drop. lia.
    + by apply padded_push.
    + by apply push_ok.
  - destruct (call_counts _ _ _ _ Hn E) as (-> & _). rewrite app_nil_r.
    destruct o as [idx reason within|e|idx latency|now so|idx| |at_|now name phase endsAt|id ok cnt at_ d|now text| | |ch]; try done; cbn [mexec] in E.
    + apply (inj Some) in E as [= <-]. destruct (Ingest_scen idx reason within (mt_reg m)) as (_ & _ & E1 & E2 & _). constructor; cbn [with_reg mt_reg]; rewrite ?E1, ?E2; done.
    + apply (inj Some) in E as [= <-]. destruct (Audit_scen e (mt_reg m)) as (_ & _ & E1 & E2 & _). constructor; cbn [with_reg mt_reg]; rewrite ?E1, ?E2; done.
    + apply (inj Some) in E as [= <-]. by constructor.
    + by destruct (Hn now so).
    + destruct (SetTargets idx (mt_reg m)) as [r|] eqn:Er; [|done]. cbn [mbind option_bind] in E. apply (inj Some) in E as [= <-].
      destruct (SetTargets_keeps _ _ _ Er) as [E1 E2]. constructor; cbn [with_reg mt_reg]; rewrite ?E1, ?E2; done.
    + unfold ClearTargets in E. destruct (clear_all _ _) as [a|] eqn:Er; [|done]. cbn [mbind option_bind] in E. apply (inj Some) in E as [= <-].
      constructor; try done. cbn. by rewrite (clear_all_length _ _ _ Er).
    + apply (inj Some) in E as [= <-]. by constructor.
    + apply (inj Some) in E as [= <-]. unfold SetScenario. case_bool_decide; by constructor.
    + apply (inj Some) in E as [= <-]. by constructor.
    + apply (inj Some) in E as [= <-]. by constructor.
    + apply (inj Some) in E as [= <-]. by constructor.
    + destruct (subscribe _) as [[? h]|]; [|done]. cbn [mbind option_bind] in E. apply (inj Some) in E as [= <-]. by constructor.
    + destruct (cancel _ _) as [h|]; [|done]. cbn [mbind option_bind] in E. apply (inj Some) in E as [= <-]. by constructor.
Qed.

Lemma minv_run n w b ops m rs rs' m' : minv n w b m rs → mrun ops m = Some (rs', m') → minv n w b m' (rs ++ rs').
Proof.
  revert m rs rs' m'. induction ops as [|o ops IH]; intros m rs rs' m' H E; [apply (inj Some) in E as [= <- <-]; by rewrite app_nil_r|].
  cbn [mrun] in E. destruct (mexec o m) as [[r1 m1]|] eqn:E1; [|done]. cbn [mbind option_bind] in E.
  destruct (mrun ops m1) as [[r2 m2]|] eqn:E2; [|done]. cbn [mbind option_bind] in E. apply (inj Some) in E as [= <- <-].
  rewrite app_assoc. eapply IH; [|exact E2]. by eapply minv_step.
Qed.

(** ** The percentiles of a snapshot *)

(** The latencies delivered, by tick, with the class the tenant was in. *)
Definition log_op (o : mop) (m : Meter) (ts : list (list (nat * Duration))) : list (list (nat * Duration)) :=
  match o with
  | MDelivered idx d => alter (cons (if Affected idx (mt_reg m) then 1%nat else 0%nat, d)) (length ts - 1)%nat ts
  | MTick _ _ => (ts ++ [[]])%list
  | _ => ts
  end.
Fixpoint latency_log (ops : list mop) (m : Meter) (ts : list (list (nat * Duration))) : list (list (nat * Duration)) :=
  match ops with
  | [] => ts
  | o :: ops' => match mexec o m with Some (_, m') => latency_log ops' m' (log_op o m ts) | None => ts end
  end.

Definition hists_inv (n : nat) (m : Meter) (ts : list (list (nat * Duration))) : Prop := hist_inv n (mkHworld (mt_hists m) ∅ []) ts.

Lemma hists_inv_step n o m ts rs m' : hists_inv n m ts → mexec o m = Some (rs, m') → hists_inv n m' (log_op o m ts).
Proof.
  intros H E. pose proof (hv_n _ _ _ H) as Hn. pose proof (hv_ts _ _ _ H) as Hts.
  destruct (is_tick_dec o) as [(now & so & ->)|Hnt].
  - destruct (tick_counts _ _ _ _ _ E) as (s & Et & _). destruct (tick_inv _ _ _ _ _ Et) as (sum & all & _ & _ & _ & _ & E1 & _).
    pose proof (hist_step_inv _ HRoll _ _ _ H eq_refl) as H2. destruct H2 as [A1 A2 A3 A4 A5 _]. cbn [log_op note] in *. cbn [hist_step roll hw_hists] in *.
    unfold hists_inv. rewrite E1. by constructor.
  - destruct o as [idx reason within|e|idx d|now so|idx| |at_|now name phase endsAt|id ok cnt at_ d|now text| | |ch]; cbn [mexec log_op] in *; try (by apply (inj Some) in E as [= <- <-]).
    + apply (inj Some) in E as [= <- <-]. set (class := if Affected idx (mt_reg m) then 1%nat else 0%nat).
      assert (class < 2)%nat as Hc by (unfold class; destruct (Affected _ _); lia).
      set (w := mkHworld (mt_hists m) ∅ []) in *.
      pose proof (hist_step_inv n (HLoad 0 class d) w ts (mkHworld (mt_hists m) {[0%nat := (class, h_slot (mt_hists m), d)]} []) H) as H2.
      cbn [hist_step] in H2. rewrite bool_decide_eq_true_2 in H2 by done. specialize (H2 eq_refl). cbn [note] in H2.
      pose proof (hist_step_inv n (HAdd 0) _ _ (mkHworld (record class d (mt_hists m)) ∅ []) H2) as H3. cbn [hist_step hw_pc] in H3.
      rewrite lookup_singleton_eq in H3. cbn [mbind option_bind] in H3. rewrite delete_singleton_eq in H3. specialize (H3 eq_refl).
      cbn [note hw_pc] in H3. rewrite lookup_singleton_eq in H3. rewrite (hist_inv_window _ _ _ H2) in H3.
      assert (h_slot (mt_hists m) = ((length ts - 1) mod n)%nat) as Hs by exact (hv_slot _ _ _ H). rewrite Hs, landing_own in H3 by lia. exact H3.
    + by destruct (Hnt now so).
    + destruct (SetTargets _ _); [|done]. cbn [mbind option_bind] in E. by apply (inj Some) in E as [= <- <-].
    + destruct (ClearTargets _); [|done]. cbn [mbind option_bind] in E. by apply (inj Some) in E as [= <- <-].
    + destruct (subscribe _) as [[? h]|]; [|done]. cbn [mbind option_bind] in E. by apply (inj Some) in E as [= <- <-].
    + destruct (cancel _ _); [|done]. cbn [mbind option_bind] in E. by apply (inj Some) in E as [= <- <-].
Qed.

Lemma log_length n o m ts : hists_inv n m ts → (length (concat (log_op o m ts)) <= S (length (concat ts)))%nat.
Proof.
  intros H. pose proof (hv_ts _ _ _ H). destruct o; cbn [log_op]; try lia.
  - rewrite concat_alter_cons by lia. lia.
  - rewrite concat_app, length_app. cbn. lia.
Qed.

Lemma window_length class n (ts : list (list (nat * Duration))) : (length (latencies class (take n (reverse ts))) <= length (concat ts))%nat.
Proof.
  assert (∀ l, length (latencies class l) <= length (concat l))%nat as H1.
  { intros l. unfold latencies. induction (concat l) as [|[c d] k IH]; [done|]. cbn [omap list_omap fst]. destruct (c =? class)%nat; cbn [length]; lia. }
  etrans; [apply H1|]. assert (length (concat ts) = length (concat (take n (reverse ts) ++ drop n (reverse ts)))) as ->
    by (rewrite take_drop; by rewrite reverse_Permutation).
  rewrite concat_app, length_app. lia.
Qed.

Lemma hists_p99 n m ts class : hists_inv n m ts → (class < 2)%nat → Z.of_nat (length (concat ts)) < 2 ^ 32 →
  percentile (latencies class (take n (reverse ts))) (p99 class (mt_hists m)).
Proof.
  intros H Hc Hl. apply (p99_window n _ ts class H Hc). pose proof (window_length class n ts). lia.
Qed.

Lemma hists_run n ops m ts rs m' : hists_inv n m ts → mrun ops m = Some (rs, m') →
  Z.of_nat (length (concat ts)) + Z.of_nat (length ops) < 2 ^ 32 →
  hists_inv n m' (latency_log ops m ts) ∧ Forall (λ r, 0 <= rp_healthy r < 2 ^ 37) rs ∧
  (length (concat (latency_log ops m ts)) <= length (concat ts) + length ops)%nat.
Proof.
  revert m ts rs m'. induction ops as [|o ops IH]; intros m ts rs m' H E Hl.
  { apply (inj Some) in E as [= <- <-]. cbn [latency_log length]. split; [done|]. split; [done|lia]. }
  cbn [mrun] in E. cbn [latency_log]. destruct (mexec o m) as [[r1 m1]|] eqn:E1; [|done]. cbn [mbind option_bind] in E.
  destruct (mrun ops m1) as [[r2 m2]|] eqn:E2; [|done]. cbn [mbind option_bind] in E. apply (inj Some) in E as [= <- <-].
  pose proof (log_length n o m ts H) as Hlog. cbn [length] in Hl.
  destruct (IH m1 (log_op o m ts) r2 m2 (hists_inv_step _ _ _ _ _ _ H E1) E2) as (H1 & H2 & H3); [lia|]. split; [exact H1|]. split; [|cbn [length]; lia].
  apply Forall_app. split; [|exact H2]. destruct (is_tick_dec o) as [(now & so & ->)|Hn].
  - destruct (tick_counts _ _ _ _ _ E1) as (s & Et & -> & _). destruct (tick_inv _ _ _ _ _ Et) as (sum & all & _ & Er & _).
    destruct (tick_registry_shape now (roll (mt_hists m)).1.1 all sum (mt_reg m)) as (q & sq & p & c & t & E5). rewrite E5 in Er.
    constructor; [|done]. cbn [rp_healthy]. rewrite Er. cbn [with_timeline with_trans with_scen swap_counters lastHealthy roll fst snd].
    apply (percentile_range (latencies 0 (take n (reverse ts)))), (hists_p99 _ _ _ 0%nat H); lia.
  - by destruct (call_counts _ _ _ _ Hn E1) as (-> & _).
Qed.

Lemma hists_new cfg tc : hists_inv (window_of tc) (NewMeter cfg tc) [[]].
Proof.
  apply hist_inv_init. pose proof (positive_or_pos (tc_P99Window tc) 10 ltac:(lia)). unfold window_of. lia.
Qed.

(** The percentiles a viewer reads are those of the deliveries: after any calls
    and ticks, the next snapshot's healthy and affected p99 are each the 99th
    percentile, to within a bucket, of the latencies delivered in the last
    [P99Window] ticks to tenants that were outside, or inside, the affected set
    when the delivery was recorded. *)
Theorem snapshot_p99_of_deliveries cfg tc ops rs m now so s m' :
  mrun ops (NewMeter cfg tc) = Some (rs, m) → tick now so m = Some (s, m') → Z.of_nat (length ops) < 2 ^ 32 →
  let recent := take (window_of tc) (reverse (latency_log ops (NewMeter cfg tc) [[]])) in
  ∃ h a, percentile (latencies 0 recent) h ∧ percentile (latencies 1 recent) a ∧
    p_Healthy (s_P99Ms s) = ms h ∧ t_HealthyP99Ms (s_Tiles s) = ms h ∧ p_Affected (s_P99Ms s) = ms a.
Proof.
  intros E Et Hl. cbv zeta. destruct (hists_run _ _ _ _ _ _ (hists_new cfg tc) E) as (H1 & _ & H3); [cbn; lia|].
  destruct (tick_inv _ _ _ _ _ Et) as (sum & all & _ & _ & -> & _). exists (p99 0 (mt_hists m)), (p99 1 (mt_hists m)).
  assert (Z.of_nat (length (concat (latency_log ops (NewMeter cfg tc) [[]]))) < 2 ^ 32) as Hx by (cbn [concat length app] in H3; lia).
  split; [by apply hists_p99; [..|lia|]|]. split; [by apply hists_p99; [..|lia|]|]. done.
Qed.

(** ** The delivery rate and the baseline *)

Lemma wrap_sum l acc : foldl (λ s v, wrap64 (s + v)) (wrap64 acc) l = wrap64 (acc + sumZ l).
Proof. revert acc. induction l as [|x l IH]; intros acc; cbn [foldl]; [cbn; by rewrite Z.add_0_r|]. rewrite wrap64_add_l, IH, sumZ_cons. f_equal. lia. Qed.

Lemma wrap_sum0 l : foldl (λ s v, wrap64 (s + v)) 0 l = wrap64 (sumZ l).
Proof. exact (wrap_sum l 0). Qed.

Lemma sumZ_bounds l lo hi : Forall (λ x, lo <= x <= hi) l → Z.of_nat (length l) * lo <= sumZ l <= Z.of_nat (length l) * hi.
Proof. induction 1; [cbn; lia|]. rewrite sumZ_cons. cbn [length]. lia. Qed.

(** The last [n] values of the reports, newest first. *)
Definition last_ticks {A} (n : nat) (f : Report_ → A) (rs : list Report_) : list A := take n (reverse (f <$> rs)).

Lemma delivered_nonneg ops m rs m' : 0 <= mt_delivered m → mrun ops m = Some (rs, m') →
  0 <= mt_delivered m' ∧ Forall (λ r, 0 <= n_delivered (rp_counts r)) rs.
Proof.
  revert m rs m'. induction ops as [|o ops IH]; intros m rs m' Hd E; [by apply (inj Some) in E as [= <- <-]|].
  cbn [mrun] in E. destruct (mexec o m) as [[r1 m1]|] eqn:E1; [|done]. cbn [mbind option_bind] in E.
  destruct (mrun ops m1) as [[r2 m2]|] eqn:E2; [|done]. cbn [mbind option_bind] in E. apply (inj Some) in E as [= <- <-].
  rewrite Forall_app. destruct (is_tick_dec o) as [(now & so & ->)|Hn].
  - destruct (tick_counts _ _ _ _ _ E1) as (s & _ & -> & _ & E3 & _). destruct (IH _ _ _ (eq_ind_r (λ z, 0 <= z) (Z.le_refl 0) E3) E2) as [H1 H2].
    split; [done|]. split; [|done]. by constructor.
  - destruct (call_counts _ _ _ _ Hn E1) as (-> & _ & E3 & _). destruct (IH m1 r2 m2) as [H1 H2]; [rewrite E3; destruct (is_delivery o); lia|done|]. done.
Qed.

Lemma sumZ_last l n : Forall (λ x, 0 <= x) l → 0 <= sumZ (take n (reverse l)) <= sumZ l.
Proof.
  intros Hl. assert (Forall (λ x, 0 <= x) (reverse l)) as Hr by (by rewrite reverse_Permutation).
  assert (sumZ l = sumZ (take n (reverse l)) + sumZ (drop n (reverse l))) as -> by (rewrite <- sumZ_app, take_drop; by rewrite reverse_Permutation).
  rewrite <- (take_drop n (reverse l)) in Hr. apply Forall_app in Hr as [H1 H2]. apply sumZ_nonneg in H1, H2. lia.
Qed.

Lemma mrun_cfg ops m rs m' : mrun ops m = Some (rs, m') → mt_cfg m' = mt_cfg m.
Proof.
  intros E. apply (mrun_ind (λ x, mt_cfg x = mt_cfg m) ops) with (m := m) (rs := rs); [|done|done].
  intros o m1 r1 m2 H1 E1. destruct (mexec_cfg _ _ _ _ E1) as [-> _]. done.
Qed.

(** The rate is that of the last ticks, and the baseline is the mean of the
    healthy p99s of the last ticks: [DeliveredPS] divides what the last
    [P99Window] ticks delivered by the time they took, and a scenario that sets
    its targets freezes the mean, rounded down, of the healthy p99 of the last
    [BaselineTicks] ticks, or of as many as there were; neither sum overflows. *)
Theorem rate_and_baseline_of_last_ticks cfg tc ops rs m idx r :
  mrun ops (NewMeter cfg tc) = Some (rs, m) → Z.of_nat (length ops) < 2 ^ 32 → m_BaselineTicks cfg < 2 ^ 20 →
  SetTargets idx (mt_reg m) = Some r →
  let hs := last_ticks (baseline_of cfg) rp_healthy rs in
  DeliveredPS m = F.div (F.of_Z (sumZ (last_ticks (window_of tc) (n_delivered ∘ rp_counts) rs)))
                    (F.mul (F.of_Z (Z.of_nat (window_of tc))) (seconds (tc_Interval tc))) ∧
  baseline r = (if bool_decide (hs = []) then 0 else sumZ hs / Z.of_nat (length hs)).
Proof.
  intros E Hl Hb Er. cbv zeta. destruct (hists_run _ _ _ _ _ _ (hists_new cfg tc) E) as (_ & Hh & _); [cbn; lia|].
  destruct (minv_run _ _ _ _ _ _ _ _ (minv_new cfg tc) E) as [_ _ Hd Hp]. cbn [app] in *. split.
  - unfold DeliveredPS. rewrite (mrun_cfg _ _ _ _ E). rewrite wrap_sum0, (padded_sum _ _ _ _ Hd).
    assert (length (mt_delRing m) = window_of tc) as -> by apply Hd.
    destruct (delivered_nonneg _ _ _ _ (Z.le_refl 0 : 0 <= mt_delivered (NewMeter cfg tc)) E) as [Hm Hn].
    pose proof (counter_run _ _ _ _ _ _ _ (counter_delivered _) (sized_new cfg tc) E) as Hc. change (n_delivered (counts (NewMeter cfg tc))) with 0 in Hc.
    change (n_delivered (counts m)) with (mt_delivered m) in Hc.
    destruct (sumZ_last ((n_delivered ∘ rp_counts) <$> rs) (window_of tc)) as [H0 H1]; [by apply Forall_fmap|].
    assert (sumZ ((n_delivered ∘ rp_counts) <$> rs) = sumZ ((λ r, n_delivered (rp_counts r)) <$> rs)) as Heq by done.
    pose proof (countZ_le_length is_delivery ops). unfold last_ticks. rewrite wrap64_id; [done|]. unfold minInt64, maxInt64. lia.
  - unfold SetTargets in Er. destruct (clear_all _ _) as [a|]; [|done]. cbn [mbind option_bind] in Er. apply (inj Some) in Er as <-.
    cbn [with_scen with_targets baseline]. rewrite wrap_sum0.
    pose proof (ring_slots _ _ _ Hp) as Hslots. fold (last_ticks (baseline_of cfg) rp_healthy rs) in Hslots.
    assert (r_n (p99Ring (mt_reg m)) = length (last_ticks (baseline_of cfg) rp_healthy rs)) as En.
    { destruct Hp as (_ & _ & _ & -> & _). unfold last_ticks. rewrite length_take, length_reverse. lia. }
    assert (length (last_ticks (baseline_of cfg) rp_healthy rs) <= baseline_of cfg)%nat as Hlen by (unfold last_ticks; rewrite length_take; lia).
    assert (Forall (λ x, 0 <= x <= 2 ^ 37) (last_ticks (baseline_of cfg) rp_healthy rs)) as Hrange.
    { unfold last_ticks. apply Forall_take. rewrite reverse_Permutation. apply Forall_fmap. eapply Forall_impl; [exact Hh|]. cbn. lia. }
    pose proof (sumZ_bounds _ _ _ Hrange) as Hs. rewrite Hslots. rewrite En. set (hs := last_ticks _ _ _) in *.
    assert (Z.of_nat (baseline_of cfg) <= 2 ^ 20) as HB by (unfold baseline_of, positive_or; destruct (Z.leb_spec (m_BaselineTicks cfg) 0); lia).
    rewrite wrap64_id by (unfold minInt64, maxInt64; nia). case_bool_decide as He; [by rewrite He|].
    assert (0 < length hs)%nat by (destruct hs; [done|cbn; lia]). destruct (Nat.ltb_spec 0 (length hs)); [|lia]. apply Z.quot_div_nonneg; lia.
Qed.
End Readings.
