(* ===== verification/Tiles.v ===== *)
(** * The grid, the tiles and the peaks of a snapshot *)

From S2P Require Import Prelude GoLib GoFloat Metrics Hist Hub Tick Pages HistSpec TickSpec Readings.
Local Open Scope string_scope.
Local Open Scope Z_scope.

Section Tiles.
Context `{LG : GoLog} `{JS : JSON}.

(** ** The affected set *)

(** A tenant's bit is set when it is a target. *)
Definition marked (r : Registry) : Prop := ∀ i, in_bounds i (length (affected r)) = true → (Affected i r = true ↔ i ∈ targets r).

Lemma lookup_bits (a : list bool) i : in_bounds i (length a) = true → ∃ b, a !! Z.to_nat i = Some b.
Proof. intros H. apply lookup_lt_is_Some_2. unfold in_bounds in H. lia. Qed.

Lemma clear_all_bits ts a a' i : clear_all ts a = Some a' → in_bounds i (length a) = true →
  a' !! Z.to_nat i = if bool_decide (i ∈ ts) then Some false else a !! Z.to_nat i.
Proof.
  revert a. induction ts as [|j ts IH]; intros a; cbn [clear_all].
  { intros [= <-] _. rewrite bool_decide_eq_false_2 by set_solver. done. }
  destruct (in_bounds j (length a)) eqn:Ej; [|done]. intros H Hi. rewrite (IH _ H) by (by rewrite length_insert).
  destruct (decide (i ∈ ts)) as [Hin|Hin]; [rewrite !bool_decide_eq_true_2 by set_solver; done|]. rewrite (bool_decide_eq_false_2 (i ∈ ts)) by done.
  unfold in_bounds in *. destruct (decide (i = j)) as [->|Hne].
  - rewrite bool_decide_eq_true_2 by set_solver. rewrite list_lookup_insert_eq by lia. done.
  - rewrite bool_decide_eq_false_2 by set_solver. rewrite list_lookup_insert_ne by lia. done.
Qed.

Lemma mark_all_bits ts a i : in_bounds i (length a) = true →
  mark_all ts a !! Z.to_nat i = if bool_decide (i ∈ ts) then Some true else a !! Z.to_nat i.
Proof.
  revert a. induction ts as [|j ts IH]; intros a Hi; cbn [mark_all]; [rewrite bool_decide_eq_false_2 by set_solver; done|].
  rewrite IH by (destruct (in_bounds j _); [by rewrite length_insert|done]).
  destruct (decide (i ∈ ts)) as [Hin|Hin]; [rewrite !bool_decide_eq_true_2 by set_solver; done|]. rewrite (bool_decide_eq_false_2 (i ∈ ts)) by done.
  destruct (decide (i = j)) as [->|Hne].
  - rewrite Hi, bool_decide_eq_true_2 by set_solver. unfold in_bounds in Hi. rewrite list_lookup_insert_eq by lia. done.
  - rewrite bool_decide_eq_false_2 by set_solver. destruct (in_bounds j _) eqn:Ej; [|done]. unfold in_bounds in *. rewrite list_lookup_insert_ne by lia. done.
Qed.

Lemma marked_targets idx r r' : marked r → SetTargets idx r = Some r' → marked r'.
Proof.
  intros Hm H. unfold SetTargets in H. destruct (clear_all (targets r) (affected r)) as [a|] eqn:E; [|done]. cbn [mbind option_bind] in H.
  apply (inj Some) in H as <-. intros i. unfold Affected. cbn [with_scen with_targets affected targets]. rewrite mark_all_length. intros Hi. rewrite Hi. cbn [andb].
  rewrite mark_all_bits by done. pose proof (clear_all_length _ _ _ E) as El. rewrite El in Hi. case_bool_decide as Hin; [done|].
  rewrite (clear_all_bits _ _ _ _ E Hi). case_bool_decide as Hold; [done|]. specialize (Hm i Hi). unfold Affected in Hm. rewrite Hi in Hm. cbn [andb] in Hm.
  split; [intros Hx; by apply Hm in Hx|done].
Qed.

Lemma marked_clear r r' : marked r → ClearTargets r = Some r' → marked r'.
Proof.
  intros Hm H. unfold ClearTargets in H. destruct (clear_all (targets r) (affected r)) as [a|] eqn:E; [|done]. cbn [mbind option_bind] in H.
  apply (inj Some) in H as <-. intros i. unfold Affected. cbn [with_targets affected targets]. pose proof (clear_all_length _ _ _ E) as El. rewrite El. intros Hi. rewrite Hi.
  cbn [andb]. rewrite (clear_all_bits _ _ _ _ E Hi). case_bool_decide as Hold; [set_solver|]. specialize (Hm i Hi). unfold Affected in Hm. rewrite Hi in Hm. cbn [andb] in Hm.
  split; [intros Hx; by apply Hm in Hx|set_solver].
Qed.

Lemma marked_eq r r' : affected r' = affected r → targets r' = targets r → marked r → marked r'.
Proof. unfold marked, Affected. by intros -> ->. Qed.

Lemma marked_step o m rs m' : marked (mt_reg m) → mexec o m = Some (rs, m') → marked (mt_reg m').
Proof.
  intros H E. destruct (is_tick_dec o) as [(now & so & ->)|Hn].
  - destruct (tick_counts _ _ _ _ _ E) as (s & Et & _). destruct (tick_inv _ _ _ _ _ Et) as (sum & all & _ & E1 & _).
    destruct (tick_registry_shape now (roll (mt_hists m)).1.1 all sum (mt_reg m)) as (q & sq & p & c & t & E5). rewrite E1, E5. revert H. by apply marked_eq.
  - destruct o as [idx reason within|e|idx d|now so|idx| |at_|now name phase endsAt|id ok cnt at_ d|now text| | |ch]; cbn [mexec] in E;
      try (apply (inj Some) in E as [= <- <-]; exact H).
    + apply (inj Some) in E as [= <- <-]. destruct (Ingest_scen idx reason within (mt_reg m)) as (_ & E1 & E2 & _). revert H. by apply marked_eq.
    + apply (inj Some) in E as [= <- <-]. destruct (Audit_scen e (mt_reg m)) as (_ & E1 & E2 & _). revert H. by apply marked_eq.
    + by destruct (Hn now so).
    + destruct (SetTargets _ _) as [r|] eqn:Er; [|done]. cbn [mbind option_bind] in E. apply (inj Some) in E as [= <- <-]. by apply (marked_targets _ _ _ H Er).
    + destruct (ClearTargets _) as [r|] eqn:Er; [|done]. cbn [mbind option_bind] in E. apply (inj Some) in E as [= <- <-]. by apply (marked_clear _ _ H Er).
    + apply (inj Some) in E as [= <- <-]. cbn [with_reg mt_reg]. unfold SetScenario. case_bool_decide; exact H.
    + destruct (subscribe _) as [[? h]|]; [|done]. cbn [mbind option_bind] in E. by apply (inj Some) in E as [= <- <-].
    + destruct (cancel _ _); [|done]. cbn [mbind option_bind] in E. by apply (inj Some) in E as [= <- <-].
Qed.

Lemma marked_run cfg tc ops rs m : mrun ops (NewMeter cfg tc) = Some (rs, m) → marked (mt_reg m).
Proof.
  intros E. apply (mrun_ind (λ x, marked (mt_reg x)) ops) with (m := NewMeter cfg tc) (rs := rs); [|intros i Hi|exact E].
  - intros o m1 r1 m2. apply marked_step.
  - unfold Affected. cbn [NewMeter mt_reg Metrics.New affected targets]. destruct (replicate _ false !! Z.to_nat i) as [b|] eqn:Eb; [apply lookup_replicate in Eb as [-> _]|];
      rewrite andb_false_r; set_solver.
Qed.

(** ** The grid *)

Lemma by_state_spec states : Forall (λ st, 0 <= st < 4) states → by_state states = (λ k, countZ (λ st, st =? k) states) <$> [0; 1; 2; 3].
Proof.
  unfold by_state. intros Hs.
  assert (∀ a b c d, foldl (λ l st, if st <? 4 then alter (λ n, n + 1) (Z.to_nat st) l else l) [a; b; c; d] states
    = [a + countZ (λ st, st =? 0) states; b + countZ (λ st, st =? 1) states; c + countZ (λ st, st =? 2) states; d + countZ (λ st, st =? 3) states]) as H.
  { induction Hs as [|st l Hst _ IH]; intros a b c d; [cbn; by rewrite !Z.add_0_r|]. cbn [foldl]. rewrite !countZ_cons.
    assert ((if st <? 4 then alter (λ n, n + 1) (Z.to_nat st) [a; b; c; d] else [a; b; c; d])
      = [a + (if st =? 0 then 1 else 0); b + (if st =? 1 then 1 else 0); c + (if st =? 2 then 1 else 0); d + (if st =? 3 then 1 else 0)]) as ->
      by (assert (st = 0 ∨ st = 1 ∨ st = 2 ∨ st = 3) as [->|[->|[->| ->]]] by lia; cbn; by rewrite ?Z.add_0_r).
    rewrite IH. by rewrite !Z.add_assoc. }
  by rewrite H.
Qed.

Lemma grid_decode st (b : bool) : 0 <= st < 4 → grid_byte st b = 48 + st + (if b then 4 else 0) ∧ (grid_byte st b - 48) mod 4 = st.
Proof.
  intros Hst. unfold grid_byte. cbv zeta. rewrite (Z.mod_small (48 + st)) by lia. destruct b; [rewrite (Z.mod_small (48 + st + 4)) by lia|]; (split; [lia|]).
  - replace (48 + st + 4 - 48) with (st + 1 * 4) by lia. rewrite Z.mod_add, Z.mod_small by lia. done.
  - replace (48 + st - 48) with st by lia. by rewrite Z.mod_small by lia.
Qed.

Lemma count_grid k states bits : Forall (λ st, 0 <= st < 4) states → length bits = length states →
  countZ (λ c, (c - 48) mod 4 =? k) (zip_with grid_byte states bits) = countZ (λ st, st =? k) states.
Proof.
  intros Hs. revert bits. induction Hs as [|st l Hst _ IH]; intros [|b bits]; try done. intros [= Hl]. cbn [zip_with]. rewrite !countZ_cons, (IH _ Hl).
  by rewrite (proj2 (grid_decode st b Hst)).
Qed.

Lemma states_partition states : Forall (λ st, 0 <= st < 4) states → sumZ (by_state states) = Z.of_nat (length states).
Proof.
  intros Hs. rewrite by_state_spec by done. cbn [fmap list_fmap]. rewrite !sumZ_cons. change (sumZ (@nil Z)) with 0.
  induction Hs as [|st l Hst _ IH]; [done|]. rewrite !countZ_cons. cbn [length].
  destruct (Z.eqb_spec st 0), (Z.eqb_spec st 1), (Z.eqb_spec st 2), (Z.eqb_spec st 3); lia.
Qed.

(** The grid and the tiles of a tick. *)
Lemma grid_and_tiles cfg tc ops rs m now so s m' :
  mrun ops (NewMeter cfg tc) = Some (rs, m) → tick now so m = Some (s, m') → Forall (λ st, 0 <= st < 4) (mt_states m') →
  length (s_Grid s) = length (m_Tenants cfg) ∧
  (∀ i st, mt_states m' !! i = Some st → s_Grid s !! i = Some (48 + st + if bool_decide (Z.of_nat i ∈ targets (mt_reg m)) then 4 else 0)) ∧
  t_ByState (s_Tiles s) = (λ k, countZ (λ c, (c - 48) mod 4 =? k) (s_Grid s)) <$> [0; 1; 2; 3] ∧
  sumZ (t_ByState (s_Tiles s)) = Z.of_nat (length (m_Tenants cfg)).
Proof.
  intros E Et Hs. pose proof (minv_run _ _ _ _ _ _ _ _ (minv_new cfg tc) E) as Hi.
  pose proof (mi_affected _ _ _ _ _ Hi) as Ha. pose proof (marked_run _ _ _ _ _ E) as Hm.
  assert (mexec (MTick now so) m = Some ([mkReport now (counts m) so (mt_states m') (lastHealthy (mt_reg m')) s], m')) as Ex by (cbn [mexec]; by rewrite Et).
  pose proof (minv_step _ _ _ _ _ _ _ _ Hi Ex) as Hi'. pose proof (mi_states _ _ _ _ _ Hi') as Hst.
  destruct (tick_inv _ _ _ _ _ Et) as (sum & all & _ & E1 & Es & _ & _ & _ & _ & E2 & _).
  destruct (tick_registry_shape now (roll (mt_hists m)).1.1 all sum (mt_reg m)) as (q & sq & p & c & t & E3). rewrite E3 in E1.
  assert (s_Grid s = zip_with grid_byte (mt_states m') (affected (mt_reg m))) as Hg by (rewrite Es, E2, E1; done).
  assert (t_ByState (s_Tiles s) = by_state (mt_states m')) as Hb by (rewrite Es, E2; done).
  split_and!.
  - rewrite Hg, length_zip_with, Hst, Ha. lia.
  - intros i st Hlk. assert (in_bounds (Z.of_nat i) (length (affected (mt_reg m))) = true) as Hin.
    { apply lookup_lt_Some in Hlk. unfold in_bounds. lia. }
    destruct (lookup_bits _ _ Hin) as [b Hbit]. rewrite Nat2Z.id in Hbit. rewrite Hg, lookup_zip_with, Hlk. cbn [mbind option_bind]. rewrite Hbit. cbn [mbind option_bind]. f_equal.
    rewrite (proj1 (grid_decode st b (Forall_lookup_1 _ _ _ _ Hs Hlk))). f_equal. specialize (Hm _ Hin). unfold Affected in Hm. rewrite Hin, Nat2Z.id, Hbit in Hm. cbn in Hm.
    destruct b; [rewrite bool_decide_eq_true_2 by (by apply Hm); done|]. rewrite bool_decide_eq_false_2; [done|]. intros Hx. by apply Hm in Hx.
  - rewrite Hb, Hg, by_state_spec by done. apply list_fmap_ext. intros i k _. symmetry. apply count_grid; [done|lia].
  - rewrite Hb, states_partition by done. lia.
Qed.

(** The page can trust the grid: after any calls and ticks, as long as the core's
    states are its four codes, the snapshot has one character per tenant, the digit
    of its state, raised by four exactly when the tenant is one of the current
    targets; and the tiles' counts by state are the numbers of those characters,
    which add up to the number of tenants. *)
Theorem grid_and_tiles_agree cfg tc ops rs m now so s m' :
  mrun ops (NewMeter cfg tc) = Some (rs, m) → tick now so m = Some (s, m') → Forall (λ st, 0 <= st < 4) (mt_states m') →
  length (s_Grid s) = length (m_Tenants cfg) ∧
  (∀ i st, mt_states m' !! i = Some st → s_Grid s !! i = Some (48 + st + if bool_decide (Z.of_nat i ∈ targets (mt_reg m)) then 4 else 0)) ∧
  t_ByState (s_Tiles s) = (λ k, countZ (λ c, (c - 48) mod 4 =? k) (s_Grid s)) <$> [0; 1; 2; 3] ∧
  sumZ (t_ByState (s_Tiles s)) = Z.of_nat (length (m_Tenants cfg)).
Proof. apply grid_and_tiles. Qed.

(** ** Peaks *)

(** The readings of a report's snapshot. *)
Definition peak_of {A} (mx : A → A → A) (zero : A) (f : snapshot → A) (rs : list Report_) : A :=
  foldl mx zero ((f ∘ rp_snapshot) <$> rs).
Definition inflight_at (p : string) (s : snapshot) : Z := default 0 (s_Inflight s !! p).

(** One field of the peaks over a run. *)
Lemma peak_run {A} (I : A → Prop) (f : Reading → A) (mx : A → A → A) (g : snapshot → A) ops m rs m' :
  I (f (mt_peak m)) → (∀ a b, I a → I (mx a b)) → (∀ r l, I (f r) → f (raise r l) = mx (f r) (f l)) →
  (∀ now so m s m', tick now so m = Some (s, m') → f (mt_last m') = g s) →
  forallb (λ o, match o with MResetPeaks => false | _ => true end) ops = true → mt_open m = true → mrun ops m = Some (rs, m') →
  f (mt_peak m') = peak_of mx (f (mt_peak m)) g rs.
Proof.
  intros HI Hmx Hr Hg. revert m rs m' HI. induction ops as [|o ops IH]; intros m rs m' HI Ho Hopen E; [by apply (inj Some) in E as [= <- <-]|].
  cbn [forallb] in Ho. apply andb_true_iff in Ho as [Ho1 Ho]. cbn [mrun] in E.
  destruct (mexec o m) as [[r1 m1]|] eqn:E1; [|done]. cbn [mbind option_bind] in E.
  destruct (mrun ops m1) as [[r2 m2]|] eqn:E2; [|done]. cbn [mbind option_bind] in E. apply (inj Some) in E as [= <- <-].
  unfold peak_of. rewrite fmap_app, foldl_app. destruct (is_tick_dec o) as [(now & so & ->)|Hn].
  - destruct (tick_counts _ _ _ _ _ E1) as (s & Et & -> & _). destruct (tick_inv _ _ _ _ _ Et) as (sum & all & _ & _ & _ & _ & _ & _ & _ & _ & _ & _ & Eo & Ep & _).
    assert (f (mt_peak m1) = mx (f (mt_peak m)) (g s)) as Em by (rewrite Ep, Hopen, Hr, (Hg _ _ _ _ _ Et); done).
    rewrite (IH m1 r2 m2) by (rewrite ?Em, ?Eo; auto). unfold peak_of. by rewrite Em.
  - destruct (call_counts _ _ _ _ Hn E1) as (-> & _). cbn [fmap list_fmap foldl].
    assert (mt_open m1 = mt_open m ∧ mt_peak m1 = mt_peak m) as [Eo Ep].
    { destruct o as [idx reason within|e|idx d|now so|idx| |at_|now name phase endsAt|id ok cnt at_ d|now text| | |ch]; cbn [mexec] in E1; try done;
        try (by apply (inj Some) in E1 as [= <-]).
      + by destruct (Hn now so).
      + destruct (SetTargets _ _); [|done]. cbn [mbind option_bind] in E1. by apply (inj Some) in E1 as [= <-].
      + destruct (ClearTargets _); [|done]. cbn [mbind option_bind] in E1. by apply (inj Some) in E1 as [= <-].
      + destruct (subscribe _) as [[? h]|]; [|done]. cbn [mbind option_bind] in E1. by apply (inj Some) in E1 as [= <-].
      + destruct (cancel _ _); [|done]. cbn [mbind option_bind] in E1. by apply (inj Some) in E1 as [= <-]. }
    rewrite (IH m1 r2 m2) by (rewrite ?Ep, ?Eo; auto). unfold peak_of. by rewrite Ep.
Qed.

Lemma tick_last now so m s m' : tick now so m = Some (s, m') →
  rd_DeliveredPS (mt_last m') = t_DeliveredPS (s_Tiles s) ∧ rd_KMSCallsPS (mt_last m') = t_KMSCallsPS (s_Tiles s) ∧
  rd_AcceptedPS (mt_last m') = i_Accepted (s_IngestPS s) ∧ rd_HealthyP99Ms (mt_last m') = p_Healthy (s_P99Ms s) ∧
  rd_AffectedP99Ms (mt_last m') = p_Affected (s_P99Ms s) ∧ rd_Inflight (mt_last m') = s_Inflight s ∧
  rd_ByState (mt_last m') = t_ByState (s_Tiles s) ∧ rd_Backlog (mt_last m') = s_BacklogTotal s.
Proof.
  intros Et. destruct (tick_inv _ _ _ _ _ Et) as (sum & all & _ & _ & Es & _ & _ & _ & _ & _ & _ & _ & _ & _ & _ & El).
  rewrite El. split_and!; try done. by rewrite Es.
Qed.

(** A field of the peaks that is raised whatever it holds. *)
#[local] Ltac field_peak f mx :=
  match goal with E : mrun ?ops ?m = _ |- _ => apply (peak_run (λ _, True) f mx _ ops m); try done; intros; eapply tick_last; eassumption end.

(** A phase's peaks are maxima: from [ResetPeaks] on, until the next one and
    whatever else is called, each reading of [Peaks] is the largest value the
    snapshots since carried, and zero when there was none; per provider and per
    state where the reading is. *)
Theorem peaks_are_maxima ops m0 rs m :
  forallb (λ o, match o with MResetPeaks => false | _ => true end) ops = true → mrun ops (ResetPeaks m0) = Some (rs, m) →
  rd_Backlog (Peaks m) = peak_of Z.max 0 s_BacklogTotal rs ∧
  rd_ByState (Peaks m) = peak_of (zip_with Z.max) [0; 0; 0; 0] (t_ByState ∘ s_Tiles) rs ∧
  (∀ p, default 0 (rd_Inflight (Peaks m) !! p) = peak_of Z.max 0 (inflight_at p) rs) ∧
  rd_DeliveredPS (Peaks m) = peak_of F.max (F.of_Z 0) (t_DeliveredPS ∘ s_Tiles) rs ∧
  rd_KMSCallsPS (Peaks m) = peak_of F.max (F.of_Z 0) (t_KMSCallsPS ∘ s_Tiles) rs ∧
  rd_AcceptedPS (Peaks m) = peak_of F.max (F.of_Z 0) (i_Accepted ∘ s_IngestPS) rs ∧
  rd_HealthyP99Ms (Peaks m) = peak_of F.max (F.of_Z 0) (p_Healthy ∘ s_P99Ms) rs ∧
  rd_AffectedP99Ms (Peaks m) = peak_of F.max (F.of_Z 0) (p_Affected ∘ s_P99Ms) rs.
Proof.
  intros Ho E. unfold Peaks. split_and!.
  1: field_peak rd_Backlog Z.max. 1: field_peak rd_ByState (zip_with Z.max). 2: field_peak rd_DeliveredPS F.max. 2: field_peak rd_KMSCallsPS F.max.
  2: field_peak rd_AcceptedPS F.max. 2: field_peak rd_HealthyP99Ms F.max. 2: field_peak rd_AffectedP99Ms F.max.
  intros p. assert (default 0 (rd_Inflight (mt_peak (ResetPeaks m0)) !! p) = 0) as H0 by (cbn [ResetPeaks with_peak mt_peak zeroReading rd_Inflight]; by rewrite lookup_empty).
  transitivity (peak_of Z.max (default 0 (rd_Inflight (mt_peak (ResetPeaks m0)) !! p)) (inflight_at p) rs); [|by rewrite H0].
  apply (peak_run (λ z, 0 <= z) (λ r, default 0 (rd_Inflight r !! p)) Z.max (inflight_at p) ops (ResetPeaks m0)); [cbv beta; lia|intros; lia| | |done..].
  - intros r l Hr. unfold raise, max_into. cbn [rd_Inflight]. rewrite lookup_merge.
    destruct (rd_Inflight r !! p), (rd_Inflight l !! p); cbn in *; lia.
  - intros now so m1 s m2 Et. unfold inflight_at. by rewrite (proj1 (proj2 (proj2 (proj2 (proj2 (proj2 (tick_last _ _ _ _ _ Et))))))).
Qed.
End Tiles.
