(* ===== verification/TickDemo.v ===== *)
(** * Runs of the registry

    Concrete runs at which the theorems of [TickSpec], [Readings] and [Tiles]
    apply. *)

From S2P Require Import Prelude GoLib GoFloat Metrics Hist Hub Tick Pages HistSpec TickSpec Readings Tiles.
Local Open Scope string_scope.
Local Open Scope Z_scope.

Module TickDemo.
#[local] Existing Instance HistDemo.step_log.
(** A text that tells the snapshots apart. *)
#[local] Instance tick_json : JSON := λ s, Some (Itoa (s_Tick s)).

Definition cfg : Metrics.Config := Metrics.mkConfig ["acme"; "bolt"; "core"] ["aws"] 4 2 4 0 5.
Definition tc : TickConfig := mkTickConfig (500 * Millisecond) 3 4 (F.of_Z 100) "w1" 1 true.
Definition m0 : Meter := NewMeter cfg tc.
Definition calm : Sources := mkSources [0; 0; 0] 7 (λ i, i) (Some (λ _, 4)) (Some (F.of_Z 300)).
Definition outage : Sources := mkSources [0; 2; 1] 900 (λ i, 100 * i) (Some (λ _, 9)) None.
Definition unwrap (idx : Z) (class : Z) : Metrics.Audit := Metrics.mkAudit Second idx "unwrap" "OK" "" class 0 0 Millisecond 0.

Definition ops : list mop :=
  [MSubscribe; MIngest 0 "accepted" true; MDelivered 0 (2 * Millisecond); MAudit (unwrap 0 0); MTick Second calm;
   MTargets [1]; MIngest 1 "overloaded" false; MDelivered 1 (9 * Second); MAudit (unwrap 1 2); MTick (2 * Second) outage;
   MDelivered 2 (40 * Millisecond); MIngest 2 "accepted" true].
(** The recovery: cleared at three seconds, active at the second tick, drained at
    the third. *)
Definition heal : list mop :=
  [MTick (4 * Second) outage; MDelivered 1 Second; MTick (5 * Second) (mkSources [0; 0; 1] 300 (λ i, 50) None None);
   MIngest 1 "accepted" true; MTick (6 * Second) calm].

Definition after (os : list mop) (m : Meter) : list Report_ * Meter := default ([], m) (mrun os m).
Lemma after_run os m : bool_decide (is_Some (mrun os m)) = true → mrun os m = Some ((after os m).1, (after os m).2).
Proof. intros H. apply bool_decide_eq_true in H as [[rs m'] E]. unfold after. by rewrite E. Qed.

Definition m1 : Meter := (after ops m0).2.
Lemma ops_run : mrun ops m0 = Some ((after ops m0).1, m1).
Proof. apply after_run. vm_compute. reflexivity. Qed.

Definition next (so : Sources) : option (snapshot * Meter) := tick (3 * Second) so m1.
Definition s1 : snapshot := match next outage with Some (s, _) => s | None => build_snapshot 0 m0 calm [] 0 0 0 (mt_reg m0) end.
Definition m2 : Meter := match next outage with Some (_, m) => m | None => m0 end.
Lemma next_ok : tick (3 * Second) outage m1 = Some (s1, m2).
Proof. unfold s1, m2, next. assert (bool_decide (is_Some (tick (3 * Second) outage m1)) = true) as H by (vm_compute; reflexivity).
  apply bool_decide_eq_true in H as [[s m] E]. by rewrite E. Qed.

Definition cleared : Meter := with_reg (SetCleared (3 * Second) (mt_reg m1)) m1.
Lemma heal_run : mrun heal cleared = Some ((after heal cleared).1, (after heal cleared).2).
Proof. apply after_run. vm_compute. reflexivity. Qed.
Lemma demo_peak_run : mrun heal (ResetPeaks m1) = Some ((after heal (ResetPeaks m1)).1, (after heal (ResetPeaks m1)).2).
Proof. apply after_run. vm_compute. reflexivity. Qed.
End TickDemo.
#[local] Existing Instance HistDemo.step_log.
#[local] Existing Instance TickDemo.tick_json.

Lemma counts_reported_once_witness :
  mrun TickDemo.ops (NewMeter TickDemo.cfg TickDemo.tc) = Some ((TickDemo.after TickDemo.ops TickDemo.m0).1, TickDemo.m1) ∧
  sumZ ((λ r, n_delivered (rp_counts r)) <$> (TickDemo.after TickDemo.ops TickDemo.m0).1) + mt_delivered TickDemo.m1 = 3.
Proof.
  split; [exact TickDemo.ops_run|].
  exact (proj1 (proj2 (counts_reported_once TickDemo.cfg TickDemo.tc TickDemo.ops _ _ TickDemo.ops_run))).
Defined.

Lemma recovery_is_first_tick_witness :
  3 * Second ≠ 0 ∧ forallb undisturbed TickDemo.heal = true ∧
  mrun TickDemo.heal TickDemo.cleared = Some ((TickDemo.after TickDemo.heal TickDemo.cleared).1, (TickDemo.after TickDemo.heal TickDemo.cleared).2) ∧
  Recovered (mt_reg (TickDemo.after TickDemo.heal TickDemo.cleared).2) = (2 * Second, 3 * Second, true).
Proof.
  assert (3 * Second ≠ 0) as H0 by discriminate. assert (forallb undisturbed TickDemo.heal = true) as H1 by (vm_compute; reflexivity).
  split; [exact H0|]. split; [exact H1|]. split; [exact TickDemo.heal_run|].
  etrans; [exact (recovery_is_first_tick TickDemo.heal TickDemo.m1 (3 * Second) _ _ H0 H1 TickDemo.heal_run)|]. vm_compute. reflexivity.
Defined.

Lemma snapshot_p99_of_deliveries_witness :
  mrun TickDemo.ops TickDemo.m0 = Some ((TickDemo.after TickDemo.ops TickDemo.m0).1, TickDemo.m1) ∧
  tick (3 * Second) TickDemo.outage TickDemo.m1 = Some (TickDemo.s1, TickDemo.m2) ∧
  ∃ h a, percentile [40 * Millisecond; 2 * Millisecond] h ∧ percentile [9 * Second] a ∧
    p_Healthy (s_P99Ms TickDemo.s1) = ms h ∧ p_Affected (s_P99Ms TickDemo.s1) = ms a.
Proof.
  split; [exact TickDemo.ops_run|]. split; [exact TickDemo.next_ok|].
  destruct (snapshot_p99_of_deliveries TickDemo.cfg TickDemo.tc TickDemo.ops _ _ _ _ _ _ TickDemo.ops_run TickDemo.next_ok eq_refl) as (h & a & H1 & H2 & H3 & _ & H4).
  exists h, a. split; [exact H1|]. split; [exact H2|]. split; [exact H3|exact H4].
Defined.

Lemma rate_and_baseline_of_last_ticks_witness :
  mrun TickDemo.ops TickDemo.m0 = Some ((TickDemo.after TickDemo.ops TickDemo.m0).1, TickDemo.m1) ∧
  ∃ r, SetTargets [2] (mt_reg TickDemo.m1) = Some r ∧
    DeliveredPS TickDemo.m1 = F.div (F.of_Z 2) (F.mul (F.of_Z 3) (seconds (500 * Millisecond))) ∧
    baseline r = sumZ (last_ticks 4 rp_healthy (TickDemo.after TickDemo.ops TickDemo.m0).1) / 2.
Proof.
  split; [exact TickDemo.ops_run|].
  destruct (SetTargets [2] (mt_reg TickDemo.m1)) as [r|] eqn:E; [|vm_compute in E; discriminate E]. exists r. split; [reflexivity|].
  exact (rate_and_baseline_of_last_ticks TickDemo.cfg TickDemo.tc TickDemo.ops _ _ [2] r TickDemo.ops_run eq_refl eq_refl E).
Defined.

Lemma grid_and_tiles_agree_witness :
  mrun TickDemo.ops TickDemo.m0 = Some ((TickDemo.after TickDemo.ops TickDemo.m0).1, TickDemo.m1) ∧
  tick (3 * Second) TickDemo.outage TickDemo.m1 = Some (TickDemo.s1, TickDemo.m2) ∧ Forall (λ st, 0 <= st < 4) (mt_states TickDemo.m2) ∧
  sumZ (t_ByState (s_Tiles TickDemo.s1)) = 3 ∧ s_Grid TickDemo.s1 = [48; 54; 49].
Proof.
  assert (Forall (λ st, 0 <= st < 4) (mt_states TickDemo.m2)) as Hs.
  { assert (forallb (λ st, (0 <=? st) && (st <? 4)) (mt_states TickDemo.m2) = true) as H by (vm_compute; reflexivity).
    apply Forall_forall. intros st Hst. rewrite List.forallb_forall in H. specialize (H st (proj1 (list_elem_of_In _ _) Hst)). lia. }
  split; [exact TickDemo.ops_run|]. split; [exact TickDemo.next_ok|]. split; [exact Hs|].
  destruct (grid_and_tiles_agree TickDemo.cfg TickDemo.tc TickDemo.ops _ _ _ _ _ _ TickDemo.ops_run TickDemo.next_ok Hs) as (_ & _ & _ & H).
  split; [exact H|]. vm_compute. reflexivity.
Defined.

Lemma peaks_are_maxima_witness :
  mrun TickDemo.heal (ResetPeaks TickDemo.m1) = Some ((TickDemo.after TickDemo.heal (ResetPeaks TickDemo.m1)).1, (TickDemo.after TickDemo.heal (ResetPeaks TickDemo.m1)).2) ∧
  rd_Backlog (Peaks (TickDemo.after TickDemo.heal (ResetPeaks TickDemo.m1)).2) = 900.
Proof.
  split; [exact TickDemo.demo_peak_run|].
  etrans; [exact (proj1 (peaks_are_maxima TickDemo.heal TickDemo.m1 _ _ eq_refl TickDemo.demo_peak_run))|]. vm_compute. reflexivity.
Defined.
