(* ===== verification/TimelineSpec.v ===== *)
(** * The timeline, the verdicts and the audit of a run

    What a snapshot says besides numbers: its events are the newest lines of one
    append-only numbered log, and its lights are the checker's last verdicts. *)

From S2P Require Import Prelude GoLib GoFloat Metrics Hist Hub Tick Pages HistSpec TickSpec Readings TickDemo.
Local Open Scope string_scope.
Local Open Scope Z_scope.

(** ** One numbered log *)

(** The registry's timeline after the lines [h], oldest first. *)
Record logged (n : nat) (r : Registry) (h : list event) : Prop := mkLogged {
  lg_ring : ring_ok (timeline r) n h;
  lg_seq : tlSeq r = Z.of_nat (length h);
  lg_numbers : ∀ k e, h !! k = Some e → e_Seq e = Z.of_nat k + 1 }.

Lemma logged_post n now text r h : logged n r h → logged n (post now text r) (h ++ [mkEvent (tlSeq r + 1) (Time.UnixMilli now) text]).
Proof.
  intros [H1 H2 H3]. constructor; cbn [post with_timeline timeline tlSeq].
  - by apply push_ok.
  - rewrite length_app, H2. cbn. lia.
  - intros k e [Hk|[Hk He]]%lookup_app_Some; [by apply H3|]. destruct (k - length h)%nat as [|j] eqn:Ej; [|done]. cbn in He. injection He as <-. cbn. lia.
Qed.

Lemma logged_eq n r r' h : timeline r' = timeline r → tlSeq r' = tlSeq r → logged n r h → logged n r' h.
Proof. intros E1 E2 [H1 H2 H3]. constructor; by rewrite ?E1, ?E2. Qed.

(** More lines at the end. *)
Definition extends (n : nat) (r' : Registry) (h : list event) : Prop := ∃ k, logged n r' (h ++ k).

Lemma extends_eq n r r' h : timeline r' = timeline r → tlSeq r' = tlSeq r → logged n r h → extends n r' h.
Proof. intros E1 E2 H. exists []. rewrite app_nil_r. by eapply logged_eq. Qed.

Lemma extends_post_all n now ts r h : logged n r h → extends n (post_all now ts r) h.
Proof.
  revert r h. induction ts as [|t ts IH]; intros r h H; [exists []; by rewrite app_nil_r|].
  destruct (IH _ _ (logged_post n now t r h H)) as [k Hk]. eexists. rewrite <- app_assoc in Hk. exact Hk.
Qed.

Lemma extends_flush n now r h : logged n r h → extends n (flushTransitions now r) h.
Proof.
  intros H. destruct (Z.le_gt_cases Second (Time.Sub now (rtFlushed r))) as [Hd|Hd].
  - destruct (flush_reports_every_transition now r Hd) as (ts & -> & _). apply extends_post_all. by apply (logged_eq n r).
  - unfold flushTransitions. destruct (Z.ltb_spec (Time.Sub now (rtFlushed r)) Second); [|lia]. by apply (extends_eq n r).
Qed.

Lemma extends_audit n e r h : logged n r h → extends n (Audit_ e r) h.
Proof.
  intros H. unfold Audit_. destruct (in_bounds _ _); cbn [negb]; [|by apply (extends_eq n r)].
  destruct (_ || _), (bool_decide (Metrics.a_Op e = "state")); try (by apply (extends_eq n r));
    destruct (Metrics.a_To e =? 3), ((Metrics.a_From e =? 0) && (Metrics.a_To e =? 1)), ((Metrics.a_From e =? 1) && (Metrics.a_To e =? 0)); try (by apply (extends_eq n r)).
  all: eexists; eapply logged_eq; [| |eapply logged_post, logged_eq; [| |exact H]]; done.
Qed.

Section TimelineSpec.
Context `{LG : GoLog} `{JS : JSON}.

Lemma extends_step n o m rs m' h : logged n (mt_reg m) h → mexec o m = Some (rs, m') → extends n (mt_reg m') h.
Proof.
  intros H E. destruct (is_tick_dec o) as [(now & so & ->)|Hn].
  - destruct (tick_counts _ _ _ _ _ E) as (s & Et & _). destruct (tick_inv _ _ _ _ _ Et) as (sum & all & _ & -> & _). apply extends_flush.
    revert H. apply logged_eq; unfold tick_recovery; by destruct (Time.IsZero _).
  - destruct o as [idx reason within|e|idx d|now so|idx| |at_|now name phase endsAt|id ok cnt at_ d|now text| | |ch]; cbn [mexec] in E;
      try (apply (inj Some) in E as [= <- <-]; by apply (extends_eq n (mt_reg m))).
    + apply (inj Some) in E as [= <- <-]. apply (extends_eq n (mt_reg m)); [| |done]; cbn [with_reg mt_reg]; unfold Ingest; cbv zeta; (destruct (_ || _ || _); [destruct within|]); done.
    + apply (inj Some) in E as [= <- <-]. by apply extends_audit.
    + by destruct (Hn now so).
    + destruct (SetTargets _ _) as [r|] eqn:Er; [|done]. cbn [mbind option_bind] in E. apply (inj Some) in E as [= <- <-].
      destruct (SetTargets_shape _ _ _ Er) as (? & ? & ? & ? & ? & ->). by apply (extends_eq n (mt_reg m)).
    + destruct (ClearTargets _) as [r|] eqn:Er; [|done]. cbn [mbind option_bind] in E. apply (inj Some) in E as [= <- <-].
      destruct (ClearTargets_shape _ _ Er) as (? & ->). by apply (extends_eq n (mt_reg m)).
    + apply (inj Some) in E as [= <- <-]. apply (extends_eq n (mt_reg m)); [| |done]; cbn [with_reg mt_reg]; unfold SetScenario; by case_bool_decide.
    + apply (inj Some) in E as [= <- <-]. eexists. by apply logged_post.
    + destruct (subscribe _) as [[? hb]|]; [|done]. cbn [mbind option_bind] in E. apply (inj Some) in E as [= <- <-]. by apply (extends_eq n (mt_reg m)).
    + destruct (cancel _ _); [|done]. cbn [mbind option_bind] in E. apply (inj Some) in E as [= <- <-]. by apply (extends_eq n (mt_reg m)).
Qed.

Definition timeline_of (cfg : Metrics.Config) : nat := Z.to_nat (positive_or (m_TimelineRing cfg) 200).

(** The newest [n] lines of [h], newest first, as far as a ring of [t] keeps them. *)
Definition newest_lines (n t : nat) (h : list event) : list event := take n (take t (reverse h)).

(** The reports of a run show a log that grows. *)
Lemma events_run t n ops m rs m' h : logged t (mt_reg m) h → n = Z.to_nat (tc_SnapshotEvents (mt_cfg m)) → mrun ops m = Some (rs, m') →
  ∃ hs, logged t (mt_reg m') (h ++ concat hs) ∧ (length rs <= length hs)%nat ∧
    ∀ i r, rs !! i = Some r → s_Events (rp_snapshot r) = newest_lines n t (h ++ concat (take (S i) hs)).
Proof.
  intros H Hn. revert m rs m' h H Hn. induction ops as [|o ops IH]; intros m rs m' h H Hn E.
  { apply (inj Some) in E as [= <- <-]. exists []. cbn [concat]. by rewrite app_nil_r. }
  cbn [mrun] in E. destruct (mexec o m) as [[r1 m1]|] eqn:E1; [|done]. cbn [mbind option_bind] in E.
  destruct (mrun ops m1) as [[r2 m2]|] eqn:E2; [|done]. cbn [mbind option_bind] in E. apply (inj Some) in E as [= <- <-].
  destruct (extends_step _ _ _ _ _ _ H E1) as [k Hk]. destruct (mexec_cfg _ _ _ _ E1) as [Hc _].
  destruct (IH m1 r2 m2 (h ++ k)%list Hk ltac:(by rewrite Hc) E2) as (hs & H1 & H2 & H3). destruct (is_tick_dec o) as [(now & so & ->)|Hnt].
  - destruct (tick_counts _ _ _ _ _ E1) as (s & Et & -> & _). exists (k :: hs). cbn [concat app length]. rewrite app_assoc. split; [done|]. split; [lia|].
    intros [|i] r Hr; cbn in Hr.
    + injection Hr as <-. cbn [rp_snapshot take concat]. rewrite app_nil_r. destruct (tick_inv _ _ _ _ _ Et) as (sum & all & _ & _ & -> & _).
      cbn [build_snapshot s_Events]. unfold events. rewrite (newest_ok _ _ _ _ (lg_ring _ _ _ Hk)). by rewrite <- Hn.
    + rewrite (H3 i r Hr). cbn [take concat]. by rewrite app_assoc.
  - destruct (call_counts _ _ _ _ Hnt E1) as (-> & _). cbn [app].
    destruct hs as [|k2 hs].
    + exists [k]. cbn [concat]. rewrite !app_nil_r in *. split; [done|]. cbn in H2. split; [cbn; lia|]. intros i r Hr. destruct r2; [done|cbn in H2; lia].
    + exists ((k ++ k2) :: hs)%list. cbn [concat] in *. rewrite <- !app_assoc in *. split; [done|]. split; [done|]. intros i r Hr. rewrite (H3 i r Hr). cbn [take concat].
      by rewrite <- !app_assoc.
Qed.

(** The events of the snapshots are one story: there is a log of lines, numbered
    1, 2, 3 in the order they were posted, that only grows from tick to tick, and
    each snapshot shows its newest lines at that moment, newest first, as many as
    configured; so a viewer that keeps the highest number it has seen neither
    repeats nor reorders a line. *)
Theorem events_tell_one_story cfg tc ops rs m :
  mrun ops (NewMeter cfg tc) = Some (rs, m) →
  ∃ hs, (∀ k e, concat hs !! k = Some e → e_Seq e = Z.of_nat k + 1) ∧ (length rs <= length hs)%nat ∧
    ∀ i r, rs !! i = Some r →
      s_Events (rp_snapshot r) = newest_lines (Z.to_nat (positive_or (tc_SnapshotEvents tc) 20)) (timeline_of cfg) (concat (take (S i) hs)).
Proof.
  intros E. assert (logged (timeline_of cfg) (mt_reg (NewMeter cfg tc)) []) as H.
  { pose proof (positive_or_pos (m_TimelineRing cfg) 200 ltac:(lia)). constructor; [|done|done].
    split_and!; cbn [NewMeter mt_reg Metrics.New timeline r_buf r_head r_n length m_TimelineRing]; [unfold timeline_of; lia|by rewrite length_replicate|by rewrite Nat.Div0.mod_0_l|done|intros; lia]. }
  destruct (events_run _ _ _ _ _ _ _ H eq_refl E) as (hs & [_ _ H1] & H2 & H3). exists hs. split; [exact H1|]. split; [exact H2|exact H3].
Qed.

(** ** The lights *)

Definition is_report (id : string) (o : mop) : option verdict :=
  match o with MReport id' ok n at_ d => if bool_decide (id' = id) then Some (mkVerdict ok n (Time.UnixMilli at_) d) else None | _ => None end.

Lemma Audit_verdicts e r : verdicts (Audit_ e r) = verdicts r.
Proof. by destruct (Audit_shape e r) as (? & ? & ? & ? & ? & ? & ? & ? & ->). Qed.

Lemma verdict_step id o m rs m' : mexec o m = Some (rs, m') →
  verdicts (mt_reg m') !! id = match is_report id o with Some v => Some v | None => verdicts (mt_reg m) !! id end.
Proof.
  intros E. destruct (is_tick_dec o) as [(now & so & ->)|Hn].
  - destruct (tick_counts _ _ _ _ _ E) as (s & Et & _). destruct (tick_inv _ _ _ _ _ Et) as (sum & all & _ & -> & _).
    destruct (tick_registry_shape now (roll (mt_hists m)).1.1 all sum (mt_reg m)) as (q & sq & p & c & t & ->). done.
  - destruct o as [idx reason within|e|idx d|now so|idx| |at_|now name phase endsAt|id' ok cnt at_ d|now text| | |ch]; cbn [mexec is_report] in *;
      try (apply (inj Some) in E as [= <- <-]; done).
    + apply (inj Some) in E as [= <- <-]. cbn [with_reg mt_reg]. unfold Ingest. cbv zeta. destruct (_ || _ || _); [destruct within|]; done.
    + apply (inj Some) in E as [= <- <-]. cbn [with_reg mt_reg]. by rewrite Audit_verdicts.
    + by destruct (Hn now so).
    + destruct (SetTargets _ _) as [r|] eqn:Er; [|done]. cbn [mbind option_bind] in E. apply (inj Some) in E as [= <- <-].
      by destruct (SetTargets_shape _ _ _ Er) as (? & ? & ? & ? & ? & ->).
    + destruct (ClearTargets _) as [r|] eqn:Er; [|done]. cbn [mbind option_bind] in E. apply (inj Some) in E as [= <- <-]. by destruct (ClearTargets_shape _ _ Er) as (? & ->).
    + apply (inj Some) in E as [= <- <-]. cbn [with_reg mt_reg]. unfold SetScenario. by case_bool_decide.
    + apply (inj Some) in E as [= <- <-]. cbn [with_reg mt_reg Report with_verdicts verdicts]. case_bool_decide as Hid; [by rewrite Hid, lookup_insert_eq|by rewrite lookup_insert_ne].
    + destruct (subscribe _) as [[? hb]|]; [|done]. cbn [mbind option_bind] in E. by apply (inj Some) in E as [= <- <-].
    + destruct (cancel _ _); [|done]. cbn [mbind option_bind] in E. by apply (inj Some) in E as [= <- <-].
Qed.

(** A snapshot carries the verdicts as they are. *)
Lemma snapshot_verdicts now so m s m' : tick now so m = Some (s, m') → default ∅ (s_Invariants s) = verdicts (mt_reg m).
Proof.
  intros Et. destruct (tick_inv _ _ _ _ _ Et) as (sum & all & _ & E1 & -> & _). cbn [build_snapshot s_Invariants].
  destruct (tick_registry_shape now (roll (mt_hists m)).1.1 all sum (mt_reg m)) as (q & sq & p & c & t & E2). rewrite E1, E2. cbn [with_timeline with_trans with_scen swap_counters verdicts].
  case_bool_decide as Hv; [by rewrite Hv|done].
Qed.

Lemma verdicts_run id ops m rs m' : mrun ops m = Some (rs, m') →
  verdicts (mt_reg m') !! id = match last (omap (is_report id) ops) with Some v => Some v | None => verdicts (mt_reg m) !! id end.
Proof.
  revert m rs m'. induction ops as [|o ops IH]; intros m0 rs0 m1 E; [by apply (inj Some) in E as [= <- <-]|].
  cbn [mrun] in E. destruct (mexec o m0) as [[r1 m2]|] eqn:E1; [|done]. cbn [mbind option_bind] in E.
  destruct (mrun ops m2) as [[r2 m3]|] eqn:E2; [|done]. cbn [mbind option_bind] in E. apply (inj Some) in E as [= <- <-].
  rewrite (IH _ _ _ E2), (verdict_step id _ _ _ _ E1). cbn [omap list_omap]. destruct (is_report id o) as [v|]; [|done].
  rewrite last_cons. by destruct (last _).
Qed.

(** A light shows the checker's last word: the snapshot's entry for an invariant is
    the last verdict reported for it, and an invariant never reported has none. *)
Theorem lights_show_last_verdict cfg tc ops rs m now so s m' id :
  mrun ops (NewMeter cfg tc) = Some (rs, m) → tick now so m = Some (s, m') →
  (default ∅ (s_Invariants s)) !! id = last (omap (is_report id) ops).
Proof.
  intros E Et. rewrite (snapshot_verdicts _ _ _ _ _ Et), (verdicts_run id _ _ _ _ E). cbn [NewMeter mt_reg Metrics.New verdicts].
  rewrite lookup_empty. by destruct (last _).
Qed.
End TimelineSpec.

(** ** Witnesses *)
Module StoryDemo.
#[local] Existing Instance HistDemo.step_log.
#[local] Existing Instance TickDemo.tick_json.
Definition ops : list mop :=
  [MTimeline Second "up"; MReport "L1" true 0 Second "ok"; MTick (2 * Second) TickDemo.calm; MTimeline (3 * Second) "down"; MTimeline (3 * Second) "again";
   MReport "L1" false 1 (3 * Second) "slow"].
Definition m1 : Meter := (TickDemo.after ops TickDemo.m0).2.
Lemma run : mrun ops TickDemo.m0 = Some ((TickDemo.after ops TickDemo.m0).1, m1).
Proof. apply TickDemo.after_run. vm_compute. reflexivity. Qed.
Definition next : snapshot * Meter := default (TickDemo.s1, m1) (tick (4 * Second) TickDemo.calm m1).
Lemma story_next_ok : tick (4 * Second) TickDemo.calm m1 = Some (next.1, next.2).
Proof.
  assert (bool_decide (is_Some (tick (4 * Second) TickDemo.calm m1)) = true) as H by (vm_compute; reflexivity).
  apply bool_decide_eq_true in H as [[s m] E]. unfold next. by rewrite E.
Qed.
End StoryDemo.
#[local] Existing Instance HistDemo.step_log.
#[local] Existing Instance TickDemo.tick_json.

Lemma events_tell_one_story_witness :
  mrun StoryDemo.ops (NewMeter TickDemo.cfg TickDemo.tc) = Some ((TickDemo.after StoryDemo.ops TickDemo.m0).1, StoryDemo.m1) ∧
  ∃ hs, (∀ k e, concat hs !! k = Some e → e_Seq e = Z.of_nat k + 1) ∧
    ∀ i r, (TickDemo.after StoryDemo.ops TickDemo.m0).1 !! i = Some r → s_Events (rp_snapshot r) = newest_lines 4 4 (concat (take (S i) hs)).
Proof.
  split; [exact StoryDemo.run|]. destruct (events_tell_one_story TickDemo.cfg TickDemo.tc StoryDemo.ops _ _ StoryDemo.run) as (hs & H1 & _ & H3).
  exists hs. split; [exact H1|exact H3].
Defined.

Lemma lights_show_last_verdict_witness :
  mrun StoryDemo.ops (NewMeter TickDemo.cfg TickDemo.tc) = Some ((TickDemo.after StoryDemo.ops TickDemo.m0).1, StoryDemo.m1) ∧
  tick (4 * Second) TickDemo.calm StoryDemo.m1 = Some (StoryDemo.next.1, StoryDemo.next.2) ∧
  default ∅ (s_Invariants StoryDemo.next.1) !! "L1" = Some (mkVerdict false 1 (Time.UnixMilli (3 * Second)) "slow").
Proof.
  split; [exact StoryDemo.run|]. split; [exact StoryDemo.story_next_ok|].
  exact (lights_show_last_verdict TickDemo.cfg TickDemo.tc StoryDemo.ops _ _ _ _ _ _ "L1" StoryDemo.run StoryDemo.story_next_ok).
Defined.
