(* ===== verification/Server.v ===== *)
(** * cmd/killswitch: the handlers of server.go and sse.go

    Every handler of the API: what it refuses before it asks the holder for a
    World, what it answers once it has one, and the stream of snapshots.  A
    handler is two steps, from its arrival to the World it holds and from there to
    its answer, and a third that releases the World; other handlers, the holder
    and the World's goroutines come in between. *)

From S2P Require Import Prelude GoLib GoFloat Kms Tink KmsModel Fake Lease Cmek Tenant Prog Manager Api.
From S2P Require Import Store Queue Admit Ingest Hub Generator Params Metrics World Scenarios Footprint ScenarioSpec Holder Pages.
Local Open Scope string_scope.
Local Open Scope Z_scope.

(** ** Answers *)

Definition StatusOK : Z := 200.
Definition StatusNoContent : Z := 204.
Definition StatusBadRequest : Z := 400.
Definition StatusConflict : Z := 409.
Definition StatusRequestEntityTooLarge : Z := 413.

Record errorBody := mkErrorBody { eb_Error : string; eb_Tenant : string; eb_RetryAfter : Z }.

(** What a handler writes as JSON, or as text. *)
Inductive payload :=
  | Nothing
  | AnError (e : errorBody)
  | AWorld (id : string)
  | AScenario (name : string)
  | ARate (tenant : string) (multiplier : float64)
  | AnEvent (id : Z) (tenant : string)
  | AHealth (h : HealthInfo)
  | ATenant (d : TenantDetail)
  | AText (s : string).

Record response := mkResponse { rs_status : Z; rs_retry : option string; rs_payload : payload }.

Definition writeJSON (status : Z) (v : payload) : response := mkResponse status None v.
Definition an_error (status : Z) (reason tenant : string) : response := writeJSON status (AnError (mkErrorBody reason tenant 0)).
Definition no_world : response := an_error StatusServiceUnavailable "no_world" "".

Definition controlOutcome (e : option err) (tenant : string) : response :=
  match e with
  | None => mkResponse StatusNoContent None Nothing
  | Some e =>
      if errors.Is e ErrUnknownTenant then an_error StatusNotFound "unknown_tenant" tenant
      else an_error StatusBadRequest "bad_request" tenant
  end.

(** ** Requests *)

(** What [json.Decode] left in the request, and whether it returned nil. *)
Record decoded (A : Type) := mkDecoded { dc_req : A; dc_ok : bool }.
Arguments mkDecoded {A}.
Arguments dc_req {A}.
Arguments dc_ok {A}.

(** The routes; a body that could not be read is [inl], with whether it was too
    big. *)
Inductive request :=
  | ReqReset
  | ReqKeyfetch (mode : decoded string)
  | ReqTraffic (r : decoded (string * float64))
  | ReqStart (name : string)
  | ReqStop
  | ReqFaults (f : decoded FaultRequest)
  | ReqKey (id : string) (action : decoded string)
  | ReqHealth
  | ReqEvents (tenant : string) (body : bool + bytes)
  | ReqTenant (id : string).

(** The answers given before a World is asked for. *)
Definition refuse (q : request) : option response :=
  let bad tenant := Some (an_error StatusBadRequest "bad_request" tenant) in
  match q with
  | ReqKeyfetch d => if dc_ok d then None else bad ""
  | ReqTraffic d => if negb (dc_ok d) || F.le (dc_req d).2 (F.of_Z 0) then bad (dc_req d).1 else None
  | ReqFaults d => if dc_ok d then None else bad ""
  | ReqKey _ d => if dc_ok d then None else bad ""
  | ReqEvents tenant body =>
      if bool_decide (tenant = "") then bad ""
      else match body with
           | inl tooBig => Some (an_error (if tooBig : bool then StatusRequestEntityTooLarge else StatusBadRequest) "bad_request" tenant)
           | inr _ => None
           end
  | _ => None
  end.

(** The two handlers that never build a World. *)
Definition reads_only (q : request) : bool := match q with ReqHealth | ReqTenant _ => true | _ => false end.

Section Server.
Context `{TK : Tink} `{MR : MapRange} `{FM : Fmt} `{RL : RateLimit}.

(** What a call finds outside the handler: the clock's reading of when the World
    started, its ticks, and what [IngestID] finds at its door. *)
Record facts := mkFacts { fa_started : Time; fa_ticks : Z; fa_door : door }.

(** ** The handlers, once they hold a World *)

Definition keyfetch (now : Time) (mode : string) (c : cworld) : response * cworld :=
  let '(e, w) := SetFetch now mode (c_world c) in (controlOutcome e "", with_world w c).

Definition traffic (tenant : string) (x : float64) (c : cworld) : option (response * cworld) :=
  '(e, w) ← Surge tenant x (c_world c);
  Some (match e with Some _ => controlOutcome e tenant | None => writeJSON StatusOK (ARate tenant x) end, with_world w c).

Definition scenarioStart (now : Time) (name : string) (c : cworld) : option (response * cworld) :=
  '(e, c) ← StartScenario now name c;
  Some (match e with
        | None => writeJSON StatusOK (AScenario name)
        | Some e =>
            if errors.Is e ErrBusy then an_error StatusConflict "busy" ""
            else if errors.Is e ErrUnknownScenario then an_error StatusNotFound "unknown_scenario" ""
            else an_error StatusBadRequest "bad_request" ""
        end, c).

Definition scenarioStop (c : cworld) : response * cworld :=
  let '(name, c) := StopScenario c in (writeJSON StatusOK (AScenario name), c).

Definition faults (f : FaultRequest) (c : cworld) : response * cworld :=
  let '(e, w) := Fault_ f (c_world c) in (controlOutcome e (fr_Tenant f), with_world w c).

Definition key (now : Time) (id action : string) (c : cworld) : response * cworld :=
  let '(e, c) := SetKey now id action c in (controlOutcome e id, c).

Definition health (now : Time) (fa : facts) (fr : front) (s : site) : response :=
  writeJSON StatusOK (AHealth (Health now (fa_started fa) (fa_ticks fa) (f_store fr) s)).

Definition events (fa : facts) (tenant : string) (body : bytes) (w : World) (fr : front) : option (response * front) :=
  '(r, _, fr) ← IngestID (w_ids w) (fa_door fa) tenant body fr;
  let e := match r with inl e => Some e | inr _ => None end in
  let '(status, reason, ra) := Outcome e (P_RetryAfter (w_P w)) in
  Some (match r with
        | inr id => writeJSON status (AnEvent id tenant)
        | inl _ => mkResponse status (if 0 <? ra then Some (Itoa ra) else None) (AnError (mkErrorBody reason tenant ra))
        end, fr).

Definition tenant (now : Time) (id : string) (fr : front) (w : World) : option response :=
  r ← Pages.Tenant now id (f_store fr) w;
  Some (match r with inl _ => an_error StatusNotFound "unknown_tenant" "" | inr d => writeJSON StatusOK (ATenant d) end).

(** The handler a route names, on the World it holds; [None] is a panic. *)
Definition serve (now : Time) (fa : facts) (q : request) (s : site) (fr : front) : option (response * site * front) :=
  let c := si_ctl s in
  let ctl (x : response * cworld) := Some (x.1, with_ctl x.2 s, fr) in
  match q with
  | ReqReset => None
  | ReqKeyfetch d => ctl (keyfetch now (dc_req d) c)
  | ReqTraffic d => traffic (dc_req d).1 (dc_req d).2 c ≫= ctl
  | ReqStart name => scenarioStart now name c ≫= ctl
  | ReqStop => ctl (scenarioStop c)
  | ReqFaults d => ctl (faults (dc_req d) c)
  | ReqKey id d => ctl (key now id (dc_req d) c)
  | ReqHealth => Some (health now fa fr s, s, fr)
  | ReqEvents t body => '(r, fr) ← events fa t (match body with inr b => b | inl _ => [] end) (si_world s) fr; Some (r, s, fr)
  | ReqTenant id => r ← tenant now id fr (si_world s); Some (r, s, fr)
  end.

(** ** The stream *)

Definition nl : string := String (Ascii.ascii_of_nat 10) "".
Definition retry_frame : string := "retry: 1000" +:+ nl +:+ nl.
Definition reconnect_frame : string := "event: reconnect" +:+ nl +:+ "data: {}" +:+ nl +:+ nl.
Definition sse_frame (n : Z) (b : string) : string := "id: " +:+ Itoa n +:+ nl +:+ "data: " +:+ b +:+ nl +:+ nl.

(** The World, channel and hold it has, what it wrote, the frames counted, when it
    began and its write deadline. *)
Record stream := mkStream {
  sm_site : nat; sm_ch : nat; sm_hold : nat; sm_out : list string; sm_n : Z; sm_since : Time; sm_deadline : option Time }.

Definition open_stream (now : Time) (i ch hd : nat) : stream := mkStream i ch hd [retry_frame] 0 now None.
Definition writes (f : string) (st : stream) : stream :=
  mkStream (sm_site st) (sm_ch st) (sm_hold st) (sm_out st ++ [f])%list (sm_n st) (sm_since st) (sm_deadline st).
Definition counts (n : Z) (dl : option Time) (st : stream) : stream :=
  mkStream (sm_site st) (sm_ch st) (sm_hold st) (sm_out st) n (sm_since st) dl.

(** The case its select takes; a snapshot with how setting the deadline and
    writing end. *)
Inductive arm := ArmGone | ArmAged | ArmSnapshot (deadline_ok write_ok : bool).

(** One turn of the loop, and whether it goes on; [None] is a case that is not
    ready. *)
Definition stream_turn (now : Time) (a : arm) (st : stream) (s : site) : option (site * stream * bool) :=
  let p := w_P (si_world s) in
  match a with
  | ArmGone => Some (s, st, false)
  | ArmAged =>
      if (0 <? P_StreamMaxAge p) && negb (Time.Before now (Time.Add (sm_since st) (P_StreamMaxAge p)))
      then Some (s, writes reconnect_frame st, false) else None
  | ArmSnapshot deadline_ok write_ok =>
      c ← h_chans (hs_hub (si_hub s)) !! sm_ch st;
      match c_buf c with
      | [] => if c_closed c then Some (s, st, false) else None
      | b :: _ =>
          s ← hub_call now (HRecv (sm_ch st)) s;
          let n := wrap64 (sm_n st + 1) in
          let dl := if (0 <? P_StreamWriteTimeout p) && deadline_ok then Some (Time.Add now (P_StreamWriteTimeout p)) else sm_deadline st in
          let st := counts n dl st in
          if write_ok : bool then Some (s, writes (sse_frame n b) st, true) else Some (s, st, false)
      end
  end.

(** ** Connections *)

(** What a handler must release: the hold, and the subscription of a stream. *)
Inductive lease := HoldOf (i hd : nat) | SubOf (i ch hd : nat).
Inductive answer := Reply (r : response) | Streamed (st : stream).
Inductive conn :=
  | Serving (q : request) (i hd : nat)
  | Streaming (st : stream)
  | Leaving (a : answer) (x : lease)
  | Done (a : answer).

(** The holder, the queue and gate of each World (as they were opened, when absent),
    and the connections. *)
Record server := mkServer { sv_holder : Holder; sv_fronts : gmap nat front; sv_conns : gmap nat conn; sv_next : nat }.

Definition admit_config (p : Params) : Admit.Config :=
  Admit.mkConfig (Z.to_nat (P_Tenants p)) (P_TenantRate p) (P_TenantBurst p) (P_TenantBacklogCap p) (P_GlobalBacklogCap p) (P_FairShare p).
Definition new_front (w : World) : front := mkFront (Open_store (w_ids w)) (Admit.New (admit_config (w_P w))).
Definition front_of (i : nat) (s : site) (sv : server) : front := default (new_front (si_world s)) (sv_fronts sv !! i).

Definition newServer (p : Params) : server := mkServer (NewHolder p) ∅ ∅ 0.
Definition with_holder (h : Holder) (sv : server) : server := mkServer h (sv_fronts sv) (sv_conns sv) (sv_next sv).
Definition with_conn (id : nat) (c : conn) (sv : server) : server :=
  mkServer (sv_holder sv) (sv_fronts sv) (<[id := c]> (sv_conns sv)) (sv_next sv).
Definition accept (c : conn) (sv : server) : server :=
  mkServer (sv_holder sv) (sv_fronts sv) (<[sv_next sv := c]> (sv_conns sv)) (S (sv_next sv)).

(** [reset]. *)
Definition reset (now : Time) (fresh : option cworld) (sv : server) : option server :=
  h ← Reset_ now fresh (sv_holder sv);
  let r := match current h with Some s => writeJSON StatusOK (AWorld (si_ID s)) | None => no_world end in
  Some (accept (Done (Reply r)) (with_holder h sv)).

(** A handler up to the World it asks for. *)
Definition arrive (now : Time) (q : request) (fresh : option cworld) (sv : server) : option server :=
  match refuse q with
  | Some r => Some (accept (Done (Reply r)) sv)
  | None =>
      match q with
      | ReqReset => reset now fresh sv
      | _ =>
          let '(w, h) := if reads_only q then Current (sv_holder sv) else Ensure fresh (sv_holder sv) in
          let c := match w with None => Done (Reply no_world) | Some (i, hd) => Serving q i hd end in
          Some (accept c (with_holder h sv))
      end
  end.

(** [stream] up to its loop. *)
Definition stream_arrive (now : Time) (fresh : option cworld) (flusher : bool) (sv : server) : option server :=
  '(r, h) ← Acquire now fresh (sv_holder sv);
  let c := match r with
           | None => Done (Reply no_world)
           | Some (i, ch, hd) =>
               if flusher then Streaming (open_stream now i ch hd)
               else Leaving (Reply (mkResponse StatusInternalServerError None (AText "streaming unsupported"))) (SubOf i ch hd)
           end in
  Some (accept c (with_holder h sv)).

(** The handler's answer. *)
Definition respond (now : Time) (fa : facts) (id : nat) (sv : server) : option server :=
  c ← sv_conns sv !! id;
  match c with
  | Serving q i hd =>
      s ← ho_sites (sv_holder sv) !! i; '(r, s', fr) ← serve now fa q s (front_of i s sv);
      h ← on_site i (λ _, Some s') (sv_holder sv);
      Some (with_conn id (Leaving (Reply r) (HoldOf i hd)) (mkServer h (<[i := fr]> (sv_fronts sv)) (sv_conns sv) (sv_next sv)))
  | _ => None
  end.

(** A turn of a stream's loop. *)
Definition turn (now : Time) (a : arm) (id : nat) (sv : server) : option server :=
  c ← sv_conns sv !! id;
  match c with
  | Streaming st =>
      s ← ho_sites (sv_holder sv) !! sm_site st; '(s', st', go) ← stream_turn now a st s;
      h ← on_site (sm_site st) (λ _, Some s') (sv_holder sv);
      let c' := if go : bool then Streaming st' else Leaving (Streamed st') (SubOf (sm_site st') (sm_ch st') (sm_hold st')) in
      Some (with_conn id c' (with_holder h sv))
  | _ => None
  end.

(** The deferred release. *)
Definition leave_ (now : Time) (id : nat) (sv : server) : option server :=
  c ← sv_conns sv !! id;
  match c with
  | Leaving a (HoldOf i hd) => h ← hact now (AUnhold i hd) (sv_holder sv); Some (with_conn id (Done a) (with_holder h sv))
  | Leaving a (SubOf i ch hd) => h ← release now i ch hd (sv_holder sv); Some (with_conn id (Done a) (with_holder h sv))
  | _ => None
  end.

(** The handlers' steps, and those of a World's own goroutines: a tick, a step of
    its scenarios, and whatever its workers and sweeps do to its queue. *)
Inductive event_ :=
  | EvRequest (q : request) (fresh : option cworld)
  | EvStream (fresh : option cworld) (flusher : bool)
  | EvRespond (id : nat) (fa : facts)
  | EvTurn (id : nat) (a : arm)
  | EvLeave (id : nat)
  | EvTick (i : nat) (snapshot : string)
  | EvRun (i : nat) (o : cop)
  | EvQueue (i : nat) (fr : front).

Definition sexec (now : Time) (e : event_) (sv : server) : option server :=
  match e with
  | EvRequest q fresh => arrive now q fresh sv
  | EvStream fresh flusher => stream_arrive now fresh flusher sv
  | EvRespond id fa => respond now fa id sv
  | EvTurn id a => turn now a id sv
  | EvLeave id => leave_ now id sv
  | EvTick i b => h ← hact now (ATick i b) (sv_holder sv); Some (with_holder h sv)
  | EvRun i o => h ← hact now (AControl i o) (sv_holder sv); Some (with_holder h sv)
  | EvQueue i fr => Some (mkServer (sv_holder sv) (<[i := fr]> (sv_fronts sv)) (sv_conns sv) (sv_next sv))
  end.

Fixpoint sexecs (es : list (Time * event_)) (sv : server) : option server :=
  match es with [] => Some sv | (now, e) :: es' => sv ← sexec now e sv; sexecs es' sv end.
End Server.
