(* ===== verification/ServerInv.v ===== *)
(** * cmd/killswitch: who holds a World

    The invariant of the server's runs: the handlers counted on a World are the
    open connections on it, and its viewers are the streams among them. *)

From S2P Require Import Prelude GoLib GoFloat Kms Tink KmsModel Fake Lease Cmek Tenant Prog Manager Api.
From S2P Require Import Store Queue Admit Ingest Hub Generator Params Metrics World Scenarios Footprint ScenarioSpec Holder Pages Server.
Local Open Scope string_scope.
Local Open Scope Z_scope.

Section ServerInv.
Context `{TK : Tink} `{MR : MapRange} `{FM : Fmt} `{RL : RateLimit}.

(** ** Leases *)

Definition lease_site (x : lease) : nat := match x with HoldOf i _ | SubOf i _ _ => i end.
Definition lease_hold (x : lease) : nat := match x with HoldOf _ hd | SubOf _ _ hd => hd end.
Definition lease_sub (x : lease) : option nat := match x with HoldOf _ _ => None | SubOf _ ch _ => Some ch end.

Definition conn_lease (c : conn) : option lease :=
  match c with
  | Serving _ i hd => Some (HoldOf i hd)
  | Streaming st => Some (SubOf (sm_site st) (sm_ch st) (sm_hold st))
  | Leaving _ x => Some x
  | Done _ => None
  end.
Definition leases (cs : gmap nat conn) : gmap nat lease := omap conn_lease cs.

(** A World's counts are those of the leases on it, and no two connections share
    a hold or a channel. *)
Record site_leases (L : gmap nat lease) (i : nat) (s : site) : Prop := mkSiteLeases {
  sl_holds : ∀ hd, hd ∈ si_holds s ↔ ∃ id x, L !! id = Some x ∧ lease_site x = i ∧ lease_hold x = hd;
  sl_hold_inj : ∀ id id' x x', L !! id = Some x → L !! id' = Some x' → lease_site x = i → lease_site x' = i →
    lease_hold x = lease_hold x' → id = id';
  sl_sub_inj : ∀ id id' ch hd hd', L !! id = Some (SubOf i ch hd) → L !! id' = Some (SubOf i ch hd') → id = id';
  sl_next : ∀ hd, hd ∈ si_holds s → (hd < si_nexthold s)%nat;
  sl_subs : ∀ id ch hd, L !! id = Some (SubOf i ch hd) →
    ch ∈ hs_live (si_hub s) ∧ ch ∉ h_once (hs_hub (si_hub s)) ∧ (ch < h_next (hs_hub (si_hub s)))%nat;
  sl_once : ∀ ch, ch ∈ h_once (hs_hub (si_hub s)) → (ch < h_next (hs_hub (si_hub s)))%nat;
  sl_viewers : si_stopped s = false → ∀ ch, ch ∈ h_subs (hs_hub (si_hub s)) ↔ ∃ id hd, L !! id = Some (SubOf i ch hd) }.

Lemma sl_same L i s s' : si_holds s' = si_holds s → si_nexthold s' = si_nexthold s → hs_live (si_hub s') = hs_live (si_hub s) →
  h_once (hs_hub (si_hub s')) = h_once (hs_hub (si_hub s)) → h_next (hs_hub (si_hub s')) = h_next (hs_hub (si_hub s)) →
  (si_stopped s' = false → si_stopped s = false ∧ h_subs (hs_hub (si_hub s')) = h_subs (hs_hub (si_hub s))) →
  site_leases L i s → site_leases L i s'.
Proof.
  intros E1 E2 E3 E4 E5 E6 []. split; rewrite ?E1, ?E2, ?E3, ?E4, ?E5; try done. intros Hst. destruct (E6 Hst) as [? ->]. auto.
Qed.

Lemma sl_fresh L i id c d : (∀ k x, L !! k = Some x → lease_site x ≠ i) → site_leases L i (mkSite id c (hinit d true) ∅ 0 false).
Proof.
  intros Hno. assert (∀ k x, L !! k = Some x → lease_site x = i → False) as HF by (intros k x ? ?; by eapply Hno).
  split; cbn.
  - intros hd. split; [set_solver|]. intros (k & x & H & Hx & _). exfalso. by eapply HF.
  - intros k k' x x' H _ Hx. exfalso. by eapply HF.
  - intros k k' ch hd hd' H. exfalso. by eapply HF.
  - set_solver.
  - intros k ch hd H. exfalso. by eapply HF.
  - set_solver.
  - intros _ ch. split; [set_solver|]. intros (k & hd & H). exfalso. by eapply HF.
Qed.

Lemma sl_other L i s id x : lease_site x ≠ i → L !! id = None → site_leases L i s → site_leases (<[id := x]> L) i s.
Proof.
  intros Hx Hid [].
  assert (∀ k y, <[id := x]> L !! k = Some y → lease_site y = i → L !! k = Some y) as Hb.
  { intros k y [[<- <-]|[_ ?]]%lookup_insert_Some; [by intros|done]. }
  assert (∀ k y, L !! k = Some y → <[id := x]> L !! k = Some y) as Hf.
  { intros k y Hk. rewrite lookup_insert_ne; [done|]. congruence. }
  split; try done.
  - intros hd. rewrite sl_holds0. split; intros (k & y & ? & ? & ?); exists k, y; auto.
  - intros k k' y y' Hk Hk' Hy Hy'. eapply sl_hold_inj0; eauto.
  - intros k k' ch hd hd' Hk Hk'. eapply sl_sub_inj0; eapply Hb; done.
  - intros k ch hd Hk. eapply sl_subs0. by apply Hb in Hk.
  - intros Hst ch. rewrite (sl_viewers0 Hst). split; intros (k & hd & Hk); exists k, hd; [by apply Hf|by apply Hb in Hk].
Qed.

Lemma sl_drop_other L i s id x : lease_site x ≠ i → L !! id = Some x → site_leases L i s → site_leases (delete id L) i s.
Proof.
  intros Hx Hid [].
  assert (∀ k y, delete id L !! k = Some y → L !! k = Some y) as Hb by (by intros k y [_ ?]%lookup_delete_Some).
  assert (∀ k y, L !! k = Some y → lease_site y = i → delete id L !! k = Some y) as Hf.
  { intros k y Hk Hy. rewrite lookup_delete_ne; [done|]. congruence. }
  split; try done.
  - intros hd. rewrite sl_holds0. split; intros (k & y & ? & ? & ?); exists k, y; auto.
  - intros k k' y y' Hk Hk' Hy Hy'. eapply sl_hold_inj0; eauto.
  - intros k k' ch hd hd' Hk Hk'. eapply sl_sub_inj0; by apply Hb.
  - intros k ch hd Hk. eapply sl_subs0. by apply Hb.
  - intros Hst ch. rewrite (sl_viewers0 Hst). split; intros (k & hd & Hk); exists k, hd; [by apply Hf|by apply Hb].
Qed.

(** A new hold, with a channel or without. *)
Lemma sl_add L i s s' id x : L !! id = None → lease_site x = i → lease_hold x = si_nexthold s →
  si_holds s' = {[si_nexthold s]} ∪ si_holds s → si_nexthold s' = S (si_nexthold s) → (si_stopped s' = false → si_stopped s = false) →
  match lease_sub x with
  | None => subs_of (si_hub s') = subs_of (si_hub s)
  | Some ch => ch = h_next (hs_hub (si_hub s)) ∧
      subs_of (si_hub s') = ({[ch]} ∪ h_subs (hs_hub (si_hub s)), h_once (hs_hub (si_hub s)), S ch, {[ch]} ∪ hs_live (si_hub s))
  end → site_leases L i s → site_leases (<[id := x]> L) i s'.
Proof.
  intros Hid Hxi Hxh Eh En Est Hsub [].
  assert (∀ k y, L !! k = Some y → <[id := x]> L !! k = Some y) as Hf.
  { intros k y Hk. rewrite lookup_insert_ne; [done|]. congruence. }
  assert (∀ k y, L !! k = Some y → lease_site y = i → (lease_hold y < si_nexthold s)%nat) as Hlt.
  { intros k y Hk Hy. apply sl_next0, sl_holds0. by exists k, y. }
  split.
  - intros hd. rewrite Eh, elem_of_union, elem_of_singleton, sl_holds0. split.
    + intros [->|(k & y & ? & ? & ?)]; [exists id, x; by rewrite lookup_insert_eq|exists k, y; auto].
    + intros (k & y & Hk & Hy & <-). apply lookup_insert_Some in Hk as [[<- <-]|[_ Hk]]; [by left|right]. by exists k, y.
  - intros k k' y y' [[<- <-]|[Hn Hk]]%lookup_insert_Some [[<- <-]|[Hn' Hk']]%lookup_insert_Some Hy Hy' E; [done| | |by eapply sl_hold_inj0];
      exfalso; [apply Hlt in Hk'; [lia|done]|apply Hlt in Hk; [lia|done]].
  - assert (∀ k ch hd hd', L !! k = Some (SubOf i ch hd) → x = SubOf i ch hd' → False) as Hnew.
    { intros k ch hd hd' Hk ->. cbn in Hsub. destruct (sl_subs0 _ _ _ Hk) as (_ & _ & ?). lia. }
    intros k k' ch hd hd' [[<- Ex]|[Hn Hk]]%lookup_insert_Some [[<- Ex']|[Hn' Hk']]%lookup_insert_Some; [done| | |by eapply sl_sub_inj0];
      exfalso; by eapply Hnew.
  - intros hd. rewrite Eh, En, elem_of_union, elem_of_singleton. intros [->|H%sl_next0]; lia.
  - unfold subs_of in Hsub. intros k ch hd [[<- ->]|[_ Hk]]%lookup_insert_Some.
    + cbn in Hsub. destruct Hsub as (-> & [= Es Eo Ex El]). rewrite Eo, Ex, El. split; [set_solver|]. split; [intros H%sl_once0; lia|lia].
    + destruct (sl_subs0 _ _ _ Hk) as (? & ? & ?). destruct (lease_sub x).
      * destruct Hsub as (-> & [= Es Eo Ex El]). rewrite Eo, Ex, El. split; [set_solver|]. split; [done|lia].
      * injection Hsub as Es Eo Ex El. by rewrite Eo, Ex, El.
  - unfold subs_of in Hsub. intros ch. destruct (lease_sub x).
    + destruct Hsub as (-> & [= Es Eo Ex El]). rewrite Eo, Ex. intros H%sl_once0. lia.
    + injection Hsub as Es Eo Ex El. rewrite Eo, Ex. apply sl_once0.
  - unfold subs_of in Hsub. intros Hst ch. specialize (sl_viewers0 (Est Hst)). destruct (lease_sub x) as [c|] eqn:Ec.
    + destruct Hsub as (-> & [= Es Eo Ex El]). rewrite Es, elem_of_union, elem_of_singleton, sl_viewers0.
      destruct x as [|i' c' hd']; [done|]. cbn in Hxi, Ec. injection Ec as ->. subst i'. split.
      * intros [->|(k & hd & Hk)]; [exists id, hd'; by rewrite lookup_insert_eq|exists k, hd; auto].
      * intros (k & hd & [[<- E]|[_ Hk]]%lookup_insert_Some); [left; congruence|right; eauto].
    + injection Hsub as Es Eo Ex El. rewrite Es, sl_viewers0. split; intros (k & hd & Hk); exists k, hd; [auto|].
      apply lookup_insert_Some in Hk as [[<- ->]|[_ ?]]; [done|done].
Qed.

(** A hold given up, with its channel. *)
Lemma sl_drop L i s s' id x : L !! id = Some x → lease_site x = i → si_holds s' = si_holds s ∖ {[lease_hold x]} →
  si_nexthold s' = si_nexthold s → si_stopped s' = si_stopped s →
  match lease_sub x with
  | None => subs_of (si_hub s') = subs_of (si_hub s)
  | Some ch => subs_of (si_hub s') =
      (h_subs (hs_hub (si_hub s)) ∖ {[ch]}, {[ch]} ∪ h_once (hs_hub (si_hub s)), h_next (hs_hub (si_hub s)), hs_live (si_hub s))
  end → site_leases L i s → site_leases (delete id L) i s'.
Proof.
  intros Hid Hxi Eh En Est Hsub []. unfold subs_of in Hsub.
  assert (∀ k y, delete id L !! k = Some y → k ≠ id ∧ L !! k = Some y) as Hb by (intros k y [? ?]%lookup_delete_Some; auto).
  assert (∀ k y, L !! k = Some y → k ≠ id → delete id L !! k = Some y) as Hf by (intros; by rewrite lookup_delete_ne).
  split.
  - intros hd. rewrite Eh, elem_of_difference, elem_of_singleton, sl_holds0. split.
    + intros ((k & y & Hk & Hy & <-) & Hne). exists k, y. split; [apply Hf; [done|]|done]. intros ->. congruence.
    + intros (k & y & Hk & Hy & <-). apply Hb in Hk as [Hne Hk]. split; [by exists k, y|]. intros E. apply Hne. by eapply sl_hold_inj0.
  - intros k k' y y' [_ Hk]%Hb [_ Hk']%Hb. by eapply sl_hold_inj0.
  - intros k k' ch hd hd' [_ Hk]%Hb [_ Hk']%Hb. by eapply sl_sub_inj0.
  - intros hd. rewrite Eh, En, elem_of_difference. intros [? _]. by apply sl_next0.
  - intros k ch hd [Hne Hk]%Hb. destruct (sl_subs0 _ _ _ Hk) as (? & ? & ?). destruct x as [i' hd'|i' c hd']; cbn in Hsub, Hxi.
    + injection Hsub as Es Eo Ex El. by rewrite Eo, Ex, El.
    + subst i'. injection Hsub as Es Eo Ex El. rewrite Eo, Ex, El. split; [done|]. split; [|done].
      intros [->%elem_of_singleton|?]%elem_of_union; [|done]. apply Hne. by eapply sl_sub_inj0.
  - intros ch. destruct x as [i' hd'|i' c hd']; cbn in Hsub, Hxi.
    + injection Hsub as Es Eo Ex El. rewrite Eo, Ex. apply sl_once0.
    + subst i'. injection Hsub as Es Eo Ex El. rewrite Eo, Ex. intros [->%elem_of_singleton|?%sl_once0]%elem_of_union; [|done]. by eapply sl_subs0.
  - intros Hst ch. rewrite Est in Hst. specialize (sl_viewers0 Hst). destruct x as [i' hd'|i' c hd']; cbn in Hsub, Hxi.
    + injection Hsub as Es Eo Ex El. rewrite Es, sl_viewers0. split; intros (k & hd & Hk); exists k, hd; [|by apply Hb].
      apply Hf; [done|]. intros ->. congruence.
    + subst i'. injection Hsub as Es Eo Ex El. rewrite Es, elem_of_difference, elem_of_singleton, sl_viewers0. split.
      * intros ((k & hd & Hk) & Hne). exists k, hd. apply Hf; [done|]. intros ->. congruence.
      * intros (k & hd & [Hne Hk]%Hb). split; [eauto|]. intros ->. apply Hne. by eapply sl_sub_inj0.
Qed.

(** ** The holder *)

Record held (L : gmap nat lease) (h : Holder) : Prop := mkHeld {
  hd_ok : holder_ok h;
  hd_site : ∀ id x, L !! id = Some x → (lease_site x < length (ho_sites h))%nat;
  hd_leases : ∀ i s, ho_sites h !! i = Some s → site_leases L i s }.

Lemma hub_call_fields now o s s' : hub_call now o s = Some s' → hexec o (si_hub s) = Some (si_hub s') ∧
  si_holds s' = si_holds s ∧ si_nexthold s' = si_nexthold s ∧ si_stopped s' = si_stopped s ∧ si_ID s' = si_ID s.
Proof.
  unfold hub_call. destruct (hexec o (si_hub s)) as [h|]; [|done]. cbn [mbind option_bind]. destruct (hears _ _ _); [|done].
  cbn [mbind option_bind]. by intros [= <-].
Qed.

(** A change of one site, and of the leases on it. *)
Lemma held_site L L' i s s' h : held L h → ho_sites h !! i = Some s →
  holder_ok (mkHolder (ho_p h) (ho_cur h) (<[i := s']> (ho_sites h)) (ho_seq h)) →
  (∀ j s, j ≠ i → site_leases L j s → site_leases L' j s) → (site_leases L i s → site_leases L' i s') →
  (∀ id x, L' !! id = Some x → L !! id = Some x ∨ lease_site x = i) →
  held L' (mkHolder (ho_p h) (ho_cur h) (<[i := s']> (ho_sites h)) (ho_seq h)).
Proof.
  intros [Hok Hs Hl] Hi Hok' Ho Hm Hb. split; [done| |]; cbn [ho_sites].
  - intros id x Hx. rewrite length_insert. destruct (Hb id x Hx) as [?| ->]; [by eapply Hs|by eapply lookup_lt_Some].
  - intros j y [(<- & <- & _)|[Hne Hy]]%list_lookup_insert_Some; [by apply Hm, Hl|by apply Ho, Hl].
Qed.

Lemma hub_call_leases L i now o s s' : match o with HSubscribe | HCancel _ | HCloseAll => False | _ => True end →
  hub_call now o s = Some s' → site_leases L i s → site_leases L i s'.
Proof.
  intros Ho H. destruct (hub_call_fields _ _ _ _ H) as (Hh & E1 & E2 & E3 & _). pose proof (hexec_rest _ _ _ Hh) as Hr.
  destruct o; try done; destruct Hr as (? & ? & ? & ?); apply sl_same; try done; by rewrite E3.
Qed.

Lemma stop_leases L i now s s' : Stop_site now s = Some s' → site_leases L i s → site_leases L i s'.
Proof.
  unfold Stop_site. intros H. destruct (hub_call_fields _ _ _ _ H) as (Hh & E1 & E2 & E3 & _). destruct (hexec_rest _ _ _ Hh) as (? & ? & ? & _).
  apply sl_same; try done. rewrite E3. done.
Qed.

Lemma stop_cur_held L now h h' : held L h → stop_cur now h = Some h' → held L h' ∧ ho_cur h' = None ∧ ho_p h' = ho_p h.
Proof.
  intros Hh H. destruct (stop_cur_ok now h (hd_ok _ _ Hh)) as (x & Hx & Hok & Hn & HP). rewrite H in Hx. apply (inj Some) in Hx as <-.
  split; [|done]. unfold stop_cur in H. destruct (ho_cur h) as [i|]; [|by injection H as <-].
  unfold on_site in H. destruct (ho_sites h !! i) as [s|] eqn:Hi; [|done]. cbn [mbind option_bind] in H.
  destruct (Stop_site now s) as [s'|] eqn:Hs; [|done]. cbn [mbind option_bind] in H. apply (inj Some) in H as <-.
  destruct Hh as [_ H1 H2]. split; [done| |]; cbn [drop_cur ho_sites]; [intros; rewrite length_insert; by eapply H1|].
  intros j y [(<- & <- & _)|[_ Hy]]%list_lookup_insert_Some; [|by apply H2]. eapply stop_leases; [done|by apply H2].
Qed.

Lemma build_held L fresh h : held L h → ho_cur h = None → (∀ c, fresh = Some c → built_by (ho_p h) c) → held L (build fresh h).
Proof.
  intros Hh Hn Hf. pose proof (build_ok fresh h (hd_ok _ _ Hh) Hn Hf) as Hok. destruct Hh as [_ H1 H2]. split; [done| |].
  - intros id x Hx. apply H1 in Hx. destruct fresh; cbn; [rewrite length_app; cbn; lia|done].
  - destruct fresh as [c|]; cbn; [|done]. intros i s [Hi|[Hge Hi]]%lookup_app_Some; [by apply H2|].
    apply list_lookup_singleton_Some in Hi as [Hz <-]. apply sl_fresh. intros k x Hk Hx. apply H1 in Hk. lia.
Qed.

Lemma ensure_held L fresh h : held L h → (∀ c, fresh = Some c → built_by (ho_p h) c) → held L (ensure_cur fresh h).
Proof. intros Hh Hf. unfold ensure_cur. destruct (ho_cur h) eqn:E; [done|]. by apply build_held. Qed.

(** The leases of the others are not touched by a lease on [i]. *)
Lemma others_add L i id x : lease_site x = i → L !! id = None → ∀ j s, j ≠ i → site_leases L j s → site_leases (<[id := x]> L) j s.
Proof. intros Hx Hid j s Hj. apply sl_other; [congruence|done]. Qed.

Lemma hold_cur_held L h id : held L h → L !! id = None →
  match hold_cur h with
  | (Some (i, hd), h') => held (<[id := HoldOf i hd]> L) h'
  | (None, h') => held L h'
  end.
Proof.
  intros Hh Hid. pose proof (hold_cur_ok h (hd_ok _ _ Hh)) as Hok. unfold hold_cur in *. destruct (ho_cur h) as [i|] eqn:Hc; [|done].
  destruct (ho_sites h !! i) as [s|] eqn:Hs; [|done]. cbn [hold snd] in *. rewrite <- Hc in *.
  eapply held_site; [done|exact Hs|done|by apply others_add| |].
  - intros Hl. eapply (sl_add L i s); cbn; done.
  - intros k x [[<- <-]|[_ ?]]%lookup_insert_Some; [by right|by left].
Qed.

Lemma join_held L now h id r h' : held L h → L !! id = None → join now h = Some (r, h') →
  match r with Some (i, ch, hd) => held (<[id := SubOf i ch hd]> L) h' | None => held L h' end.
Proof.
  intros Hh Hid H. destruct (join_ok now h (hd_ok _ _ Hh)) as (r1 & h1 & Hj & Hok & _). rewrite H in Hj. apply (inj Some) in Hj.
  injection Hj as <- <-. unfold join in H. destruct (ho_cur h) as [i|] eqn:Hc; [|by injection H as <- <-].
  destruct (hk_cur _ (hd_ok _ _ Hh) _ Hc) as (s & Hs & Hst). rewrite Hs in H. cbn [mbind option_bind] in H.
  unfold Subscribe in H. destruct (hub_call now HSubscribe s) as [s1|] eqn:Hsub; [|done]. cbn [mbind option_bind hold fst snd] in H.
  apply (inj Some) in H. injection H as <- <-. rewrite <- Hc in *.
  destruct (hub_call_fields _ _ _ _ Hsub) as (Hx & E1 & E2 & E3 & _).
  destruct (hk_site _ (hd_ok _ _ Hh) _ _ Hs) as [[_ Hcl] _]. rewrite Hst in Hcl. destruct (HSubscribe_spec _ _ Hcl Hx) as [Hsp _].
  eapply held_site; [done|exact Hs|done|by apply others_add| |].
  - intros Hl. eapply (sl_add L i s); cbn; rewrite ?E1, ?E2, ?E3; done.
  - intros k x [[<- <-]|[_ ?]]%lookup_insert_Some; [by right|by left].
Qed.

Lemma Acquire_held L now fresh h id r h' : held L h → (∀ c, fresh = Some c → built_by (ho_p h) c) → L !! id = None →
  Acquire now fresh h = Some (r, h') →
  match r with Some (i, ch, hd) => held (<[id := SubOf i ch hd]> L) h' | None => held L h' end.
Proof.
  intros Hh Hf Hid. unfold Acquire. destruct (if idled_out now h then stop_cur now h else Some h) as [h1|] eqn:E; [|done].
  cbn [mbind option_bind]. apply join_held; [|done].
  assert (held L h1 ∧ ho_p h1 = ho_p h) as [Hh1 HP].
  { destruct (idled_out now h); [by destruct (stop_cur_held _ _ _ _ Hh E) as (? & _ & ?)|by injection E as <-]. }
  apply ensure_held; [done|by rewrite HP].
Qed.

Lemma Reset_held L now fresh h h' : held L h → (∀ c, fresh = Some c → built_by (ho_p h) c) → Reset_ now fresh h = Some h' → held L h'.
Proof.
  intros Hh Hf. unfold Reset_. destruct (stop_cur now h) as [h1|] eqn:E; [|done]. cbn [mbind option_bind]. intros [= <-].
  destruct (stop_cur_held _ _ _ _ Hh E) as (H1 & Hn & HP). apply build_held; [done..|by rewrite HP].
Qed.

Lemma others_drop L i id x : lease_site x = i → L !! id = Some x → ∀ j s, j ≠ i → site_leases L j s → site_leases (delete id L) j s.
Proof. intros Hx Hid j s Hj. eapply sl_drop_other; [|exact Hid]. congruence. Qed.

(** The deferred release gives back the lease. *)
Lemma give_back_held L now h h' id x : held L h → L !! id = Some x →
  match x with HoldOf i hd => hact now (AUnhold i hd) h | SubOf i ch hd => release now i ch hd h end = Some h' → held (delete id L) h'.
Proof.
  intros Hh Hid H.
  assert (holder_ok h') as Hok.
  { destruct x as [i hd|i ch hd]; [apply (hact_ok now (AUnhold i hd) h)|apply (hact_ok now (ARelease i ch hd) h)]; try done; apply Hh. }
  destruct x as [i hd|i ch hd]; cbn [hact] in H; unfold release, on_site in H; (destruct (ho_sites h !! i) as [s|] eqn:Hs; [|done]); cbn [mbind option_bind] in H.
  - apply (inj Some) in H as <-. eapply held_site; [done|exact Hs|done|by apply (others_drop L i id (HoldOf i hd))| |].
    + intros Hl. apply (sl_drop L i s (unhold hd s) id (HoldOf i hd)); done.
    + intros k y [_ ?]%lookup_delete_Some. by left.
  - destruct (hub_call now (HCancel ch) s) as [s1|] eqn:Hc; [|done]. cbn [mbind option_bind] in H. apply (inj Some) in H as <-.
    destruct (hub_call_fields _ _ _ _ Hc) as (Hx & E1 & E2 & E3 & _). destruct (sl_subs _ _ _ (hd_leases _ _ Hh _ _ Hs) _ _ _ Hid) as (Hlv & Hon & _).
    destruct (HCancel_spec ch _ _ Hlv Hon Hx) as [Hsp _]. eapply held_site; [done|exact Hs|done|by apply (others_drop L i id (SubOf i ch hd))| |].
    + intros Hl. eapply (sl_drop L i s _ id (SubOf i ch hd)); cbn; rewrite ?E1, ?E2, ?E3; done.
    + intros k y [_ ?]%lookup_delete_Some. by left.
Qed.
End ServerInv.
