(* ===== verification/ServerSpec.v ===== *)
(** * cmd/killswitch: what the server promises

    Under any interleaving of handlers, streams, resets and the Worlds' own steps:
    who is counted on a World, what a stream wrote, and what an answer says about
    the World. *)

From S2P Require Import Prelude GoLib GoFloat Kms Tink KmsModel Fake Lease Cmek Tenant Prog Manager Api.
From S2P Require Import Store Queue Admit Ingest Hub Generator Params Metrics World Scenarios Footprint ScenarioDemo ScenarioSpec.
From S2P Require Import Control Holder Pages Server ServerInv.
Local Open Scope string_scope.
Local Open Scope Z_scope.

Section ServerSpec.
Context `{TK : Tink} `{MR : MapRange} `{FM : Fmt} `{RL : RateLimit}.

(** ** One handler *)

Lemma with_ctl_same s : with_ctl (si_ctl s) s = s.
Proof. by destruct s. Qed.

Lemma with_world_same c : with_world (c_world c) c = c.
Proof. by destruct c. Qed.

(** A handler does one control call, or leaves the World as it is. *)
Definition call_of (q : request) : option cop :=
  match q with
  | ReqKeyfetch d => Some (CFetch (dc_req d))
  | ReqTraffic d => Some (CSurge (dc_req d).1 (dc_req d).2)
  | ReqStart name => Some (CStart name)
  | ReqStop => Some CStop
  | ReqFaults d => Some (CFault (dc_req d))
  | ReqKey id d => Some (CKey id (dc_req d))
  | _ => None
  end.

Lemma serve_call now fa q s fr r s' fr' : serve now fa q s fr = Some (r, s', fr') →
  match call_of q with
  | Some o => ∃ c, cexec now o (si_ctl s) = Some c ∧ s' = with_ctl c s ∧ fr' = fr
  | None => s' = s
  end.
Proof.
  destruct q; cbn [serve call_of cexec]; try done.
  - unfold keyfetch. destruct (SetFetch _ _ _) as [e w]. intros [= _ <- <-]. by eexists.
  - unfold traffic. destruct (Surge _ _ _) as [[e w]|]; [|done]. cbn. intros [= _ <- <-]. by eexists.
  - unfold scenarioStart. destruct (StartScenario _ _ _) as [[e c]|]; [|done]. cbn. intros [= _ <- <-]. by eexists.
  - unfold scenarioStop. destruct (StopScenario _) as [n c]. intros [= _ <- <-]. by eexists.
  - unfold faults, fault. destruct (Fault_ _ _) as [e w]. intros [= _ <- <-]. by eexists.
  - unfold key. destruct (SetKey _ _ _ _) as [e c]. intros [= _ <- <-]. by eexists.
  - intros [= _ <- _]. done.
  - destruct (events _ _ _ _ _) as [[x f]|]; [|done]. cbn. by intros [= _ <- _].
  - destruct (tenant _ _ _ _); [|done]. cbn. by intros [= _ <- _].
Qed.

Lemma serve_site now fa q s fr r s' fr' : serve now fa q s fr = Some (r, s', fr') →
  s' = s ∨ ∃ o c, cexec now o (si_ctl s) = Some c ∧ s' = with_ctl c s.
Proof. intros H%serve_call. destruct (call_of q) as [o|]; [right|by left]. destruct H as (c & ? & ? & _). by exists o, c. Qed.

Lemma with_ctl_ok now o c s : site_ok s → cexec now o (si_ctl s) = Some c → site_ok (with_ctl c s).
Proof. intros [Hs Hc] H. split; [|done]. by apply (control_core now o s c (si_stopped s)). Qed.

Lemma stream_turn_site now a st s s' st' go : stream_turn now a st s = Some (s', st', go) →
  (s' = s ∨ hub_call now (HRecv (sm_ch st)) s = Some s') ∧
  sm_site st' = sm_site st ∧ sm_ch st' = sm_ch st ∧ sm_hold st' = sm_hold st.
Proof.
  destruct a as [| |dl w]; cbn [stream_turn].
  - intros [= <- <- _]. split; [by left|done].
  - case_match; [|done]. intros [= <- <- _]. split; [by left|done].
  - destruct (h_chans _ !! _) as [c|]; [|done]. cbn [mbind option_bind]. destruct (c_buf c) as [|b bs].
    + destruct (c_closed c); [|done]. intros [= <- <- _]. split; [by left|done].
    + destruct (hub_call _ _ _) as [s1|]; [|done]. cbn [mbind option_bind]. destruct w; intros [= <- <- _]; (split; [by right|done]).
Qed.

(** ** The invariant of a run *)

Record sv_inv (p : Params) (sv : server) : Prop := mkSvInv {
  sv_held : held (leases (sv_conns sv)) (sv_holder sv);
  sv_fresh : ∀ id, (sv_next sv <= id)%nat → sv_conns sv !! id = None;
  sv_p : ho_p (sv_holder sv) = p }.

Lemma leases_insert id c cs : leases (<[id := c]> cs) =
  match conn_lease c with Some x => <[id := x]> (leases cs) | None => delete id (leases cs) end.
Proof.
  apply map_eq. intros k. unfold leases. rewrite lookup_omap. destruct (decide (k = id)) as [->|Hne].
  - rewrite lookup_insert_eq. cbn. destruct (conn_lease c); by rewrite ?lookup_insert_eq, ?lookup_delete_eq.
  - rewrite lookup_insert_ne by done. destruct (conn_lease c); by rewrite ?lookup_insert_ne, ?lookup_delete_ne, lookup_omap by done.
Qed.

Lemma leases_lookup cs id c : cs !! id = Some c → leases cs !! id = conn_lease c.
Proof. intros H. unfold leases. by rewrite lookup_omap, H. Qed.
Lemma leases_none cs id : cs !! id = None → leases cs !! id = None.
Proof. intros H. unfold leases. by rewrite lookup_omap, H. Qed.

(** The Worlds handed to the holder come from [New]. *)
Definition event_ok (p : Params) (e : event_) : Prop :=
  match e with EvRequest _ fresh | EvStream fresh _ => ∀ c, fresh = Some c → built_by p c | _ => True end.

(** A connection that comes in, with the lease it got. *)
Lemma accept_inv p sv h c : sv_inv p sv → ho_p h = p →
  held (match conn_lease c with Some x => <[sv_next sv := x]> (leases (sv_conns sv)) | None => leases (sv_conns sv) end) h →
  sv_inv p (accept c (with_holder h sv)).
Proof.
  intros [Hh Hf HP] HP' Hc. split; cbn [accept with_holder sv_conns sv_holder sv_next]; [| |done].
  - rewrite leases_insert. destruct (conn_lease c); [done|]. rewrite delete_id; [done|]. apply leases_none, Hf. lia.
  - intros id Hid. rewrite lookup_insert_ne by lia. apply Hf. lia.
Qed.

(** A connection that goes on with the lease it has. *)
Lemma keep_inv p sv h id c c' : sv_inv p sv → sv_conns sv !! id = Some c → conn_lease c' = conn_lease c → ho_p h = p →
  held (leases (sv_conns sv)) h → ∀ frs, sv_inv p (with_conn id c' (mkServer h frs (sv_conns sv) (sv_next sv))).
Proof.
  intros [Hh Hf HP] Hc E HP' Hh' frs. split; cbn [with_conn sv_conns sv_holder sv_next]; [| |done].
  - assert (leases (<[id:=c']> (sv_conns sv)) = leases (sv_conns sv)) as ->; [|done]. rewrite leases_insert, E.
    pose proof (leases_lookup _ _ _ Hc) as Hl. destruct (conn_lease c); [by apply insert_id|by apply delete_id].
  - intros k Hk. rewrite lookup_insert_ne; [by apply Hf|]. intros ->. rewrite Hf in Hc; done.
Qed.

(** The same leases after a change of one site. *)
Lemma same_site_held L h i s s' : held L h → ho_sites h !! i = Some s → site_ok s' → si_stopped s' = si_stopped s →
  (site_leases L i s → site_leases L i s') → held L (mkHolder (ho_p h) (ho_cur h) (<[i := s']> (ho_sites h)) (ho_seq h)).
Proof.
  intros Hh Hs Hok Hst Hl. eapply held_site; [done|exact Hs| |done|done|by left]. eapply set_site_ok; [apply Hh|exact Hs|done..].
Qed.

Lemma ctl_leases L i s c : site_leases L i s → site_leases L i (with_ctl c s).
Proof. by apply sl_same. Qed.

Lemma hact_held now a h h' L : match a with ATick _ _ | AControl _ _ => True | _ => False end →
  held L h → hact now a h = Some h' → held L h' ∧ ho_p h' = ho_p h.
Proof.
  intros Ha Hh H. destruct a as [| | | | | |i b|i o]; try done; cbn [hact] in H; pose proof (proj2 (on_site_length _ _ _ _ H)) as HP;
    (split; [|exact HP]); unfold on_site in H; (destruct (ho_sites h !! i) as [s|] eqn:Hs; [|done]); cbn [mbind option_bind] in H;
    pose proof (proj1 (hk_site _ (hd_ok _ _ Hh) _ _ Hs)) as Hok.
  - destruct (hub_call now (HBroadcast b) s) as [s'|] eqn:E; [|done]. cbn [mbind option_bind] in H. apply (inj Some) in H as <-.
    destruct (hub_call_site now (HBroadcast b) s s' Hok ltac:(done) E). eapply same_site_held; [done..|]. by apply (hub_call_leases _ i now (HBroadcast b)).
  - destruct (cexec now o (si_ctl s)) as [c|] eqn:E; [|done]. cbn [mbind option_bind] in H. apply (inj Some) in H as <-.
    eapply same_site_held; [done|done|by eapply with_ctl_ok|done|by apply ctl_leases].
Qed.

Lemma arrive_inv p now q fresh sv sv' : sv_inv p sv → (∀ c, fresh = Some c → built_by p c) → arrive now q fresh sv = Some sv' → sv_inv p sv'.
Proof.
  intros Hi Hf. pose proof Hi as [Hh Hn HP]. pose proof (leases_none _ _ (Hn _ (le_n _))) as Hid. unfold arrive. destruct (refuse q) as [r|].
  { intros [= <-]. by apply (accept_inv p sv (sv_holder sv) (Done (Reply r))). }
  assert (∀ h w, ho_p h = p → match (w, h) with (Some (i, hd), h') => held (<[sv_next sv := HoldOf i hd]> (leases (sv_conns sv))) h' | (None, h') => held (leases (sv_conns sv)) h' end →
    sv_inv p (accept (match w with None => Done (Reply no_world) | Some (i, hd) => Serving q i hd end) (with_holder h sv))) as Hw.
  { intros h w HP' H. apply accept_inv; [done|done|]. by destruct w as [[i hd]|]. }
  assert (∀ h, held (leases (sv_conns sv)) h → ho_p h = p → ∀ w h', hold_cur h = (w, h') → sv_inv p (accept (match w with None => Done (Reply no_world) | Some (i, hd) => Serving q i hd end) (with_holder h' sv))) as Hc.
  { intros h Hh' HP' w h' E. apply Hw; [rewrite <- HP', <- (hold_cur_p h), E; done|].
    pose proof (hold_cur_held _ h (sv_next sv) Hh' Hid) as H. by rewrite E in H. }
  assert (∀ w h', (if reads_only q then Current (sv_holder sv) else Ensure fresh (sv_holder sv)) = (w, h') →
    sv_inv p (accept (match w with None => Done (Reply no_world) | Some (i, hd) => Serving q i hd end) (with_holder h' sv))) as Hgo.
  { intros w h'. destruct (reads_only q); apply Hc; [done|done| |].
    - apply ensure_held; [done|by rewrite HP].
    - by rewrite (proj1 (ensure_cur_cur fresh (sv_holder sv))). }
  destruct q; try (destruct (if reads_only _ then _ else _) as [w h'] eqn:E; intros [= <-]; by apply Hgo).
  unfold reset. destruct (Reset_ now fresh (sv_holder sv)) as [h|] eqn:E; [|done]. cbn [mbind option_bind]. intros [= <-].
  destruct (hact_ok now (AReset fresh) (sv_holder sv) h) as [_ HP']; [apply Hh|cbn; by rewrite HP|done|].
  apply accept_inv; [done|congruence|]. cbn. eapply Reset_held; [done| |done]. by rewrite HP.
Qed.

Lemma stream_arrive_inv p now fresh fl sv sv' : sv_inv p sv → (∀ c, fresh = Some c → built_by p c) →
  stream_arrive now fresh fl sv = Some sv' → sv_inv p sv'.
Proof.
  intros Hi Hf. pose proof Hi as [Hh Hn HP]. pose proof (leases_none _ _ (Hn _ (le_n _))) as Hid. unfold stream_arrive.
  destruct (Acquire now fresh (sv_holder sv)) as [[r h]|] eqn:E; [|done]. cbn [mbind option_bind]. intros [= <-].
  assert (ho_p h = p) as HP'.
  { rewrite <- HP. apply (hact_ok now (AAcquire fresh) (sv_holder sv) h); [apply Hh|cbn; by rewrite HP|]. cbn. by rewrite E. }
  rewrite <- HP in Hf. pose proof (Acquire_held _ now fresh _ (sv_next sv) r h Hh Hf Hid E) as Ha.
  apply accept_inv; [done|done|]. destruct r as [[[i ch] hd]|]; [|done]. by destruct fl.
Qed.

Lemma respond_inv p now fa id sv sv' : sv_inv p sv → respond now fa id sv = Some sv' → sv_inv p sv'.
Proof.
  intros Hi. pose proof Hi as [Hh _ HP]. unfold respond. destruct (sv_conns sv !! id) as [c|] eqn:Hc; [|done]. cbn [mbind option_bind].
  destruct c as [q i hd| | |]; try done. destruct (ho_sites (sv_holder sv) !! i) as [s|] eqn:Hs; [|done]. cbn [mbind option_bind].
  destruct (serve now fa q s _) as [[[r s'] fr]|] eqn:E; [|done]. cbn [mbind option_bind]. unfold on_site. rewrite Hs. cbn [mbind option_bind].
  intros [= <-]. pose proof (proj1 (hk_site _ (hd_ok _ _ Hh) _ _ Hs)) as Hok.
  eapply (keep_inv p sv _ id (Serving q i hd)); [done|done|done|done|].
  destruct (serve_site _ _ _ _ _ _ _ _ E) as [->|(o & c & He & ->)]; eapply same_site_held; try done; [by eapply with_ctl_ok|by apply ctl_leases].
Qed.

Lemma turn_inv p now a id sv sv' : sv_inv p sv → turn now a id sv = Some sv' → sv_inv p sv'.
Proof.
  intros Hi. pose proof Hi as [Hh _ HP]. unfold turn. destruct (sv_conns sv !! id) as [c|] eqn:Hc; [|done]. cbn [mbind option_bind].
  destruct c as [|st| |]; try done. destruct (ho_sites (sv_holder sv) !! sm_site st) as [s|] eqn:Hs; [|done]. cbn [mbind option_bind].
  destruct (stream_turn now a st s) as [[[s' st'] go]|] eqn:E; [|done]. cbn [mbind option_bind]. unfold on_site. rewrite Hs. cbn [mbind option_bind].
  intros [= <-]. destruct (stream_turn_site _ _ _ _ _ _ _ E) as (Hs' & E1 & E2 & E3). pose proof (proj1 (hk_site _ (hd_ok _ _ Hh) _ _ Hs)) as Hok.
  eapply (keep_inv p sv _ id (Streaming st)); [done|done|by destruct go; cbn; rewrite E1, E2, E3|done|].
  destruct Hs' as [->|Hs']; [by eapply same_site_held|].
  destruct (hub_call_site now (HRecv (sm_ch st)) s s' Hok ltac:(done) Hs'). eapply same_site_held; try done.
  by apply (hub_call_leases _ _ now (HRecv (sm_ch st))).
Qed.

Lemma leave_inv p now id sv sv' : sv_inv p sv → leave_ now id sv = Some sv' → sv_inv p sv'.
Proof.
  intros [Hh Hn HP]. unfold leave_. destruct (sv_conns sv !! id) as [c|] eqn:Hc; [|done]. cbn [mbind option_bind].
  destruct c as [| |a x|]; try done. pose proof (leases_lookup _ _ _ Hc) as Hl. cbn [conn_lease] in Hl.
  assert (∀ h, match x with HoldOf i hd => hact now (AUnhold i hd) (sv_holder sv) | SubOf i ch hd => release now i ch hd (sv_holder sv) end = Some h →
    sv_inv p (with_conn id (Done a) (with_holder h sv))) as Hx.
  { intros h H. split; cbn [with_conn with_holder sv_conns sv_holder sv_next].
    - rewrite leases_insert. cbn [conn_lease]. by eapply give_back_held.
    - intros k Hk. rewrite lookup_insert_ne; [by apply Hn|]. intros ->. rewrite Hn in Hc; done.
    - rewrite <- HP. destruct x as [i hd|i ch hd]; by apply on_site_length in H as [_ ?]. }
  destruct x as [i hd|i ch hd]; [destruct (hact _ _ _) as [h|]; [|done]|destruct (release _ _ _ _ _) as [h|]; [|done]];
    cbn [mbind option_bind]; intros [= <-]; by apply Hx.
Qed.

Lemma sexec_inv p now e sv sv' : sv_inv p sv → event_ok p e → sexec now e sv = Some sv' → sv_inv p sv'.
Proof.
  intros Hi He. destruct e as [q fresh|fresh fl|id fa|id a|id|i b|i o|i fr]; cbn [sexec event_ok] in *.
  - by apply arrive_inv.
  - by apply stream_arrive_inv.
  - by apply respond_inv.
  - by apply turn_inv.
  - by apply leave_inv.
  - destruct (hact _ _ _) as [h|] eqn:E; [|done]. cbn [mbind option_bind]. intros [= <-]. destruct Hi as [Hh Hn HP].
    destruct (hact_held now (ATick i b) _ _ _ I Hh E). split; [done|done|cbn; congruence].
  - destruct (hact _ _ _) as [h|] eqn:E; [|done]. cbn [mbind option_bind]. intros [= <-]. destruct Hi as [Hh Hn HP].
    destruct (hact_held now (AControl i o) _ _ _ I Hh E). split; [done|done|cbn; congruence].
  - intros [= <-]. by destruct Hi.
Qed.

Lemma newServer_inv p : sv_inv p (newServer p).
Proof.
  split; [|done|done]. split; [apply NewHolder_ok| |]; cbn.
  - intros id x. unfold leases. by rewrite lookup_omap, lookup_empty.
  - intros i s. by rewrite lookup_nil.
Qed.

Lemma sexecs_inv p es sv sv' : sv_inv p sv → Forall (λ e, event_ok p e.2) es → sexecs es sv = Some sv' → sv_inv p sv'.
Proof.
  revert sv. induction es as [|[now e] es IH]; intros sv Hi He H; [by injection H as <-|]. cbn in H.
  apply Forall_cons in He as [He Hes]. destruct (sexec now e sv) as [sv1|] eqn:E; [|done]. cbn in H. eapply IH; [|done..]. by eapply sexec_inv.
Qed.

(** ** Who is counted on a World *)

(** The connections that have a lease on World [i], and the streams among them. *)
Definition handlers_on (i : nat) (cs : gmap nat conn) : Z := Z.of_nat (size (filter (λ kx, lease_site kx.2 = i) (leases cs))).
Definition streams_on (i : nat) (cs : gmap nat conn) : Z :=
  Z.of_nat (size (filter (λ kx, lease_site kx.2 = i ∧ lease_sub kx.2 ≠ None) (leases cs))).

(** A set that a map enumerates without repetition has the map's size. *)
Lemma size_enumerated (M : gmap nat lease) (f : lease → nat) (X : gset nat) :
  (∀ n, n ∈ X ↔ ∃ id x, M !! id = Some x ∧ f x = n) →
  (∀ id id' x x', M !! id = Some x → M !! id' = Some x' → f x = f x' → id = id') → size X = size M.
Proof.
  revert X. induction M as [|id x M Hid IH] using map_ind; intros X HX Hinj.
  - rewrite map_size_empty. apply size_empty_iff. intros n. rewrite HX. split; [|set_solver]. intros (k & y & H & _). by rewrite lookup_empty in H.
  - rewrite map_size_insert_None by done. rewrite <- (IH (X ∖ {[f x]})).
    + rewrite size_difference by (apply singleton_subseteq_l, HX; exists id, x; by rewrite lookup_insert_eq).
      assert (size X ≠ 0%nat); [|rewrite size_singleton; lia]. rewrite size_non_empty_iff.
      assert (f x ∈ X) by (apply HX; exists id, x; by rewrite lookup_insert_eq). set_solver.
    + intros n. rewrite elem_of_difference, elem_of_singleton, HX. split.
      * intros ((k & y & Hk & Hy) & Hne). apply lookup_insert_Some in Hk as [[-> ->]|[_ Hk]]; [done|eauto].
      * intros (k & y & Hk & <-). assert (k ≠ id) as Hne by congruence. split; [exists k, y; by rewrite lookup_insert_ne|].
        intros E. apply Hne. apply (Hinj _ _ y x); [by rewrite lookup_insert_ne|by rewrite lookup_insert_eq|done].
    + intros k k' y y' Hk Hk'. assert (k ≠ id ∧ k' ≠ id) as [? ?] by (split; congruence). apply Hinj; by rewrite lookup_insert_ne.
Qed.

(** C28. A World waits for its handlers and counts its viewers exactly: whatever
    order requests, streams, resets, ticks and scenario steps come in, the holds
    counted on a World, for which its [Stop] waits, are the connections that
    have it and have not returned, on every path of every handler; the viewers of
    a World that was not stopped are its open streams, and a stopped one has
    none.  So nothing is left behind when the last connection ends. *)
Theorem world_counts_its_connections p es sv i s :
  Forall (λ e, event_ok p e.2) es → sexecs es (newServer p) = Some sv → ho_sites (sv_holder sv) !! i = Some s →
  Z.of_nat (size (si_holds s)) = handlers_on i (sv_conns sv) ∧
  si_viewers s = (if si_stopped s then 0 else streams_on i (sv_conns sv)).
Proof.
  intros He H Hs. destruct (sexecs_inv p es _ _ (newServer_inv p) He H) as [[Hok _ Hl] _ _].
  destruct (Hl i s Hs) as [H1 H2 H3 _ _ _ H6]. split.
  - unfold handlers_on. f_equal. apply (size_enumerated _ lease_hold).
    + intros n. rewrite H1. split; intros (id & x & Hx).
      * exists id, x. rewrite map_lookup_filter_Some. tauto.
      * rewrite map_lookup_filter_Some in Hx. exists id, x. tauto.
    + intros id id' x x' [? ?]%map_lookup_filter_Some [? ?]%map_lookup_filter_Some. by eapply H2.
  - destruct (hk_site _ Hok _ _ Hs) as [[Hcore Hcl] _]. destruct (si_stopped s) eqn:Hst.
    + unfold si_viewers, viewers, count. by rewrite (hi_closed _ (so_hub _ Hcore) Hcl).
    + unfold si_viewers, viewers, count, streams_on. f_equal. apply (size_enumerated _ (λ x, default 0%nat (lease_sub x))).
      * intros ch. rewrite (H6 eq_refl). split.
        -- intros (id & hd & Hx). exists id, (SubOf i ch hd). by rewrite map_lookup_filter_Some.
        -- intros (id & x & [Hx [Hi Hsub]]%map_lookup_filter_Some & <-). destruct x as [|j ch hd]; [done|]. cbn in *. subst j. by exists id, hd.
      * intros id id' x x' [Hx [Hi Hsub]]%map_lookup_filter_Some [Hx' [Hi' Hsub']]%map_lookup_filter_Some E.
        destruct x as [|j ch hd], x' as [|j' ch' hd']; cbn in *; try done. subst. by eapply H3.
Qed.
End ServerSpec.
