(* ===== verification/Wiring.v ===== *)
(** * internal/world/world.go: the deployed configuration

    What [New] hands to the core meets the assumptions of the core's theorems:
    the tenants' names are distinct for any number of them, and the World's key
    service starts with every key enabled and an empty log.  The bound on a
    revocation, for the deployed values.  At the end, the pool of workers [New]
    wires, and how soon it stops in the shipped configurations. *)

From S2P Require Import Prelude GoLib GoFloat Kms Tink KmsModel Fake Lease Cmek Tenant Prog Manager Api Interleaving.
From S2P Require Import TenantInv Rows Safety Exec Demo Guarantees.
From S2P Require Import Store Ingest Generator Params Metrics World Scenarios Footprint ScenarioDemo ScenarioSpec.
Local Open Scope string_scope.
Local Open Scope Z_scope.

(** ** Names *)

(** The number a string of digits denotes, after the digits read so far. *)
Fixpoint digits_value (x : N) (s : string) : N :=
  match s with
  | String.EmptyString => x
  | String.String c s => digits_value (10 * x + (Ascii.N_of_ascii c - 48)) s
  end.

Lemma pretty_digit (x : N) : (x < 10)%N → (Ascii.N_of_ascii (pretty_N_char x) - 48 = x)%N.
Proof.
  intros Hx. assert (x ∈ [0;1;2;3;4;5;6;7;8;9])%N as H.
  { rewrite !elem_of_cons. lia. }
  repeat (apply elem_of_cons in H as [->|H]; [reflexivity|]). by apply elem_of_nil in H.
Qed.

Lemma digits_value_go x s : digits_value 0 (pretty_N_go x s) = digits_value x s.
Proof.
  revert s. induction (N.lt_wf_0 x) as [x _ IH]. intros s. destruct (decide (x = 0%N)) as [->|Hx]; [by rewrite pretty_N_go_0|].
  rewrite pretty_N_go_step by lia. rewrite IH by (apply N.div_lt; lia). cbn [digits_value].
  rewrite pretty_digit by (apply N.mod_lt; lia). f_equal. pose proof (N.div_mod x 10). lia.
Qed.

Lemma digits_value_Itoa (i : nat) : digits_value 0 (Itoa (Z.of_nat i)) = N.of_nat i.
Proof.
  assert (Itoa (Z.of_nat i) = pretty (N.of_nat i)) as -> by (destruct i; done).
  unfold pretty, pretty_N. case_decide as E; [by rewrite E|]. by rewrite digits_value_go.
Qed.

Lemma digits_value_pad4 s : digits_value 0 (pad4 s) = digits_value 0 s.
Proof. unfold pad4. destruct (String.length s) as [|[|[|[|n]]]] eqn:E; try done. by destruct s. Qed.

#[export] Instance tenant_id_inj : Inj (=) (=) tenant_id.
Proof.
  assert (∀ a b, "t-" +:+ a = "t-" +:+ b → a = b) as Hc by (by intros a b [=]).
  intros i j H. apply Hc in H. apply (f_equal (digits_value 0)) in H.
  rewrite !digits_value_pad4, !digits_value_Itoa in H. lia.
Qed.

(** ** The core's configuration *)

Section Wiring.
Context `{TK : Tink} `{MR : MapRange}.

(** The configuration the core of a World runs with. *)
Definition deployed (p : Params) : Cmek.Config := withDefaults (cmek_config p).

Lemma deployed_ids p : ids_distinct (deployed p).
Proof.
  unfold ids_distinct, deployed, withDefaults, cmek_config. cbn [c_Tenants]. rewrite <- list_fmap_compose.
  apply NoDup_fmap_2; [|apply NoDup_seq]. intros i j. cbn. apply tenant_id_inj.
Qed.

Lemma deployed_tenant p i : (i < Z.to_nat (P_Tenants p))%nat → c_Tenants (deployed p) !! i = Some (tenant_spec p i).
Proof.
  intros Hi. unfold deployed, withDefaults, cmek_config. cbn [c_Tenants]. rewrite list_lookup_fmap, lookup_seq_lt by done. done.
Qed.

(** The lease and the early margin of the demo and of the test values. *)
Definition demo_lease (p : Params) : Prop := P_Lease p = 30 * Second ∧ P_EarlyExpiry p = Second.

Lemma Demo_lease : demo_lease Params.Demo ∧ demo_lease Small.
Proof. done. Qed.

Lemma deployed_window p : demo_lease p → dur_sub (c_Lease (deployed p)) (c_EarlyExpiry (deployed p)) = 29 * Second.
Proof.
  intros [H1 H2]. unfold deployed, withDefaults, cmek_config. cbn [c_Lease c_EarlyExpiry]. rewrite H1, H2. reflexivity.
Qed.

Lemma New_kms_ok p byRank zipf material w now : World.New p byRank zipf material = Some w → kms_ok (w_kms w) now.
Proof.
  unfold World.New. destruct (mapM _ _); [|done]. cbn [mbind option_bind]. unfold NewFake.
  destruct (NewFake_keks _ _ _) as [m|] eqn:Hm; [|done]. cbn [mbind option_bind]. intros <-%(inj Some). cbn [w_kms].
  split; [|constructor]. intros id k Hk. cbn in *. refine (NewFake_keks_enabled _ _ _ _ Hm _ id k Hk).
  intros id' k'. by rewrite lookup_empty.
Qed.

(** C5. The deployed bound.  In a World built with the lease of the demo (and of
    the test) values, whatever the calls, the clock and the key service do: from
    29 seconds after the providers' log says a tenant's key was disabled, no
    handle ever issued for that tenant seals or opens anything. *)
Theorem revoked_within_29s p byRank zipf material (b : World.World) now (w : Interleaving.World) e i h :
  demo_lease p → World.New p byRank zipf material = Some b → reachable (deployed p) now (World.w_kms b) w →
  (i < Z.to_nat (P_Tenants p))%nat → (i, h) ∈ w_issued w →
  last_event (truth (Interleaving.w_kms w)) (kek_id i) = Some e → ev_Enabled e = false →
  ∀ t, ev_At e + 29 * Second <= t →
    (∀ tenant msg iv pt, Seal h t tenant msg iv pt = inl ErrLeaseExpired) ∧
    (∀ tenant msg env, Open h t tenant msg env = inl ErrLeaseExpired).
Proof.
  intros Hl Hb Hr Hi Hh He Hd t Ht. pose proof (New_kms_ok _ _ _ _ _ now Hb) as Hk.
  pose proof (inv_issued _ _ _ _ _ (reachable_LI (deployed p) (deployed_ids _) _ _ _ Hk Hr) _ _ Hh
                (tenant_spec p i) (deployed_tenant _ _ Hi)) as [Hv _].
  unfold window, hist in Hv. cbn [h_hor horizon fake_model] in Hv. unfold last_ok in Hv. cbn [ts_KEKID tenant_spec] in Hv.
  rewrite He, Hd, deployed_window in Hv by done. unfold Seal, Open, Time.Before.
  destruct (Z.ltb_spec t (h_ValidUntil h)); [lia|done].
Qed.
End Wiring.

(** ** A concrete revocation *)

Module WDemo.
#[export] Existing Instance Demo.list_range.
#[export] Existing Instance Toy.tink.

Definition t0 : Time := Time.ofUnixMilli 3600000.
Definition world : option World.World := World.New Small (seq 0 20) (replicate 20 F.one) (replicate 20 [Byte.x01]).

(** Tenant 3 seals; two seconds later its key is disabled. *)
Definition moves : list move :=
  [MCall (CEncrypt "t-0003"); MRun 0 calm; MTime (2 * Second); MFlip "kek-t-0003" false].
Definition trace (b : World.World) : option Interleaving.World :=
  run (deployed Small) (init (deployed Small) t0 (World.w_kms b)) moves.
Definition revoked_at : Time := t0 + 2 * Second.

Definition issued_revoked (w : Interleaving.World) : bool :=
  bool_decide (last_event (truth (Interleaving.w_kms w)) (kek_id 3) = Some (mkKeyEvent (kek_id 3) 3 revoked_at false))
  && match w_issued w with [(3%nat, h)] => revoked_at <? h_ValidUntil h | _ => false end.

(** Two computed steps, with their results named. *)
Lemma option_test2 {A B} (o : option A) (g : A → option B) (f : B → bool) :
  match o ≫= g with Some x => f x | None => false end = true → ∃ a b, o = Some a ∧ g a = Some b ∧ f b = true.
Proof. destruct o as [a|]; [|done]. cbn. destruct (g a) as [b|] eqn:E; [by exists a, b|done]. Qed.

Lemma trace_ok : match world ≫= trace with Some w => issued_revoked w | None => false end = true.
Proof. vm_compute. reflexivity. Qed.

(** The trace is an execution of the deployed core, and what it ends in. *)
Lemma trace_reached (b : World.World) (w : Interleaving.World) : trace b = Some w → reachable (deployed Small) t0 (World.w_kms b) w.
Proof. intros H. apply run_sound in H. exact H. Qed.

Lemma revoked_issued w : issued_revoked w = true → ∃ h, (3%nat, h) ∈ w_issued w ∧
  last_event (truth (Interleaving.w_kms w)) (kek_id 3) = Some (mkKeyEvent (kek_id 3) 3 revoked_at false) ∧ revoked_at < h_ValidUntil h.
Proof.
  intros H. unfold issued_revoked in H. apply andb_true_iff in H as [He Hi]. apply bool_decide_eq_true in He.
  destruct (w_issued w) as [|[[|[|[|[|n]]]] h] [|x l]] eqn:Hw; try discriminate Hi. apply Z.ltb_lt in Hi.
  exists h. split; [by apply list_elem_of_singleton|]. split; [exact He|exact Hi].
Qed.

Lemma revoked_within_29s_witness :
  ∃ h, revoked_at < h_ValidUntil h ∧ ∀ msg env, Open h (revoked_at + 29 * Second) "t-0003" msg env = inl ErrLeaseExpired.
Proof.
  destruct (option_test2 world trace issued_revoked trace_ok) as (b & w & Hb & Hr & H). apply trace_reached in Hr.
  destruct (revoked_issued w H) as (h & Hh & He & Hv). exists h. split; [exact Hv|]. intros msg env.
  assert (3 < Z.to_nat (P_Tenants Small))%nat as Hi by (change (3 < 20)%nat; lia).
  exact (proj2 (revoked_within_29s Small _ _ _ b t0 w _ 3 h (proj2 Demo_lease) Hb Hr Hi Hh He eq_refl _ (Z.le_refl _)) _ _ _).
Defined.
End WDemo.

(** ** The workers of a World *)

From S2P Require Import Queue Scheduler Workers Pool PoolSpec.

Definition tenant_ids (p : Params) : list string := tenant_id <$> seq 0 (Z.to_nat (P_Tenants p)).
(** The gate is the scheduler's share. *)
Definition scheduler_config (p : Params) : SchedulerConfig :=
  mkSchedulerConfig true (Z.to_nat (P_Tenants p)) (P_TwoClassSched p) (P_SchedLightTurns p).
Definition workers_config (p : Params) : WorkersConfig := mkWorkersConfig (P_ClaimBatch p) (P_ClaimTimeout p).
Definition world_pool (p : Params) : pool :=
  pool0 (tenant_ids p) (Z.to_nat (P_Workers p)) (NewScheduler (scheduler_config p)).

Section WorldPool.
Context `{MR : MapRange} `{RT : Returning} `{TK : Tink}.

Lemma tenant_ids_nodup p : NoDup (tenant_ids p).
Proof. apply NoDup_fmap_2; [apply tenant_id_inj|apply NoDup_seq]. Qed.

(** What a World runs is a pool the pool's theorems are about. *)
Lemma world_pool_starts p :
  0 < P_Tenants p → preach (tenant_ids p) (workers_config p) (Z.to_nat (P_Workers p)) (world_pool p).
Proof.
  intros Hn. constructor; [apply NewScheduler_ring; cbn; lia|].
  unfold tenant_ids. rewrite length_fmap, length_seq. unfold NewScheduler. by destruct (_ || _).
Qed.

(** In the shipped configurations the workers make at most 208 steps between them
    after the context has ended. *)
Theorem world_workers_return p es q q' :
  p = Params.Demo ∨ p = Small →
  preach (tenant_ids p) (workers_config p) (Z.to_nat (P_Workers p)) q → p_ended q = true →
  pruns (tenant_ids p) (workers_config p) es q = Some q' →
  (length (filter (λ e, of_worker e = true) es) <= 208)%nat.
Proof.
  intros Hp Hq Hend Hrun. assert (0 < wc_ClaimBatch (workers_config p)) as Hb by (by destruct Hp as [-> | ->]).
  pose proof (run_work _ (tenant_ids_nodup p) _ Hb _ es q q' Hq Hend Hrun) as Hw.
  pose proof (work_total _ (tenant_ids_nodup p) _ Hb _ q Hq) as Ht.
  assert (Z.to_nat (P_Workers p) * full (workers_config p) <= 208)%nat by (destruct Hp as [-> | ->]; vm_compute; lia). lia.
Qed.
End WorldPool.
