(* ===== verification/Streams.v ===== *)
(** * cmd/killswitch/sse.go: what a stream wrote

    Through resets, releases and other streams: the frames of a stream are the
    snapshots its channel delivered, numbered from one. *)

From S2P Require Import Prelude GoLib GoFloat Kms Tink KmsModel Fake Lease Cmek Tenant Prog Manager Api.
From S2P Require Import Store Queue Admit Ingest Hub Generator Params Metrics World Scenarios Footprint ScenarioDemo ScenarioSpec.
From S2P Require Import Control Holder Pages Server ServerInv ServerSpec.
Local Open Scope string_scope.
Local Open Scope Z_scope.

Section Streams.
Context `{TK : Tink} `{MR : MapRange} `{FM : Fmt} `{RL : RateLimit}.

(** ** What a step leaves of a channel *)

(** No channel disappears, and those there were received nothing. *)
Record quiet (s s' : site) : Prop := mkQuiet {
  qu_next : (h_next (hs_hub (si_hub s)) <= h_next (hs_hub (si_hub s')))%nat;
  qu_chans : dom (h_chans (hs_hub (si_hub s))) ⊆ dom (h_chans (hs_hub (si_hub s')));
  qu_got : ∀ ch, (ch < h_next (hs_hub (si_hub s)))%nat → got_by (si_hub s') ch = got_by (si_hub s) ch }.

#[local] Instance quiet_pre : PreOrder quiet.
Proof.
  split; [by split|]. intros a b c [] []. split; [lia|by etrans|]. intros ch H. rewrite qu_got1 by lia. by apply qu_got0.
Qed.

Lemma hub_call_quiet now o s s' : match o with HRecv _ => False | _ => True end → hub_call now o s = Some s' → quiet s s'.
Proof.
  intros Ho H. destruct (hub_call_fields _ _ _ _ H) as (Hh & _). split; [by eapply hexec_next|by eapply hexec_chans|].
  intros ch Hlt. rewrite (hexec_got _ _ _ _ Hh Hlt). by destruct o.
Qed.

Lemma same_hub_quiet s s' : si_hub s' = si_hub s → quiet s s'.
Proof. intros E. split; by rewrite E. Qed.

Definition hquiet (h h' : Holder) : Prop := ∀ i s, ho_sites h !! i = Some s → ∃ s', ho_sites h' !! i = Some s' ∧ quiet s s'.

#[local] Instance hquiet_pre : PreOrder hquiet.
Proof.
  split; [intros h i s H; by exists s|]. intros a b c H1 H2 i s H. destruct (H1 i s H) as (s1 & E1 & Q1).
  destruct (H2 i s1 E1) as (s2 & E2 & Q2). exists s2. split; [done|by etrans].
Qed.

Lemma set_site_quiet h i s s' : ho_sites h !! i = Some s → quiet s s' →
  hquiet h (mkHolder (ho_p h) (ho_cur h) (<[i := s']> (ho_sites h)) (ho_seq h)).
Proof.
  intros Hi Hq j y Hy. cbn. destruct (decide (j = i)) as [->|Hne].
  - exists s'. rewrite list_lookup_insert_eq by (by eapply lookup_lt_Some). split; [done|congruence].
  - exists y. by rewrite list_lookup_insert_ne.
Qed.

Lemma on_site_quiet i f h h' : (∀ s s', f s = Some s' → quiet s s') → on_site i f h = Some h' → hquiet h h'.
Proof.
  intros Hf. unfold on_site. destruct (ho_sites h !! i) as [s|] eqn:Hs; [|done]. cbn [mbind option_bind].
  destruct (f s) as [s'|] eqn:E; [|done]. cbn [mbind option_bind]. intros [= <-]. eapply set_site_quiet; eauto.
Qed.

Lemma stop_cur_quiet now h h' : stop_cur now h = Some h' → hquiet h h'.
Proof.
  unfold stop_cur. destruct (ho_cur h) as [i|]; [|by intros [= <-]]. destruct (on_site i _ h) as [h1|] eqn:E; [|done].
  cbn [mbind option_bind]. intros [= <-]. refine (on_site_quiet _ _ _ _ _ E). intros s s' H. unfold Stop_site in H.
  apply hub_call_quiet in H; [|done]. etrans; [|exact H]. by apply same_hub_quiet.
Qed.

Lemma build_quiet fresh h : hquiet h (build fresh h).
Proof.
  intros i s H. exists s. split; [|done]. destruct fresh as [c|]; cbn; [|done]. rewrite lookup_app_l; [done|]. by eapply lookup_lt_Some.
Qed.
Lemma ensure_quiet fresh h : hquiet h (ensure_cur fresh h).
Proof. unfold ensure_cur. destruct (ho_cur h); [done|apply build_quiet]. Qed.

Lemma hold_cur_quiet h : hquiet h (hold_cur h).2.
Proof.
  unfold hold_cur. destruct (ho_cur h) as [i|] eqn:Hc; [|done]. destruct (ho_sites h !! i) as [s|] eqn:Hs; [|done].
  cbn. rewrite <- Hc. eapply set_site_quiet; [done|by apply same_hub_quiet].
Qed.

Lemma Reset_quiet now fresh h h' : Reset_ now fresh h = Some h' → hquiet h h'.
Proof.
  unfold Reset_. destruct (stop_cur now h) as [h1|] eqn:E; [|done]. cbn [mbind option_bind]. intros [= <-].
  etrans; [by eapply stop_cur_quiet|apply build_quiet].
Qed.

(** A new stream's channel was not there before, and has delivered nothing. *)
Lemma Acquire_quiet now fresh h r h' : holder_ok h → (∀ c, fresh = Some c → built_by (ho_p h) c) → Acquire now fresh h = Some (r, h') →
  hquiet h h' ∧
  match r with
  | None => True
  | Some (i, ch, hd) =>
      (∀ s, ho_sites h !! i = Some s → (h_next (hs_hub (si_hub s)) <= ch)%nat) ∧
      ∃ s', ho_sites h' !! i = Some s' ∧ (ch < h_next (hs_hub (si_hub s')))%nat ∧ ch ∈ dom (h_chans (hs_hub (si_hub s'))) ∧
        got_by (si_hub s') ch = Some []
  end.
Proof.
  intros Hok Hf. unfold Acquire. destruct (if idled_out now h then stop_cur now h else Some h) as [h0|] eqn:E; [|done]. cbn [mbind option_bind].
  assert (holder_ok h0 ∧ ho_p h0 = ho_p h ∧ hquiet h h0) as (Hok0 & HP & Hq0).
  { destruct (idled_out now h); [|by injection E as <-]. destruct (stop_cur_ok now h Hok) as (x & Hx & ? & _ & ?). rewrite E in Hx.
    injection Hx as <-. split; [done|]. split; [done|]. by eapply stop_cur_quiet. }
  pose proof (ensure_quiet fresh h0) as Hq1. assert (holder_ok (ensure_cur fresh h0)) as Hok1 by (apply ensure_ok; [done|by rewrite HP]).
  set (h1 := ensure_cur fresh h0) in *. intros H. unfold join in H. destruct (ho_cur h1) as [i|] eqn:Hc; [|injection H as <- <-; split; [by etrans|done]].
  destruct (hk_cur _ Hok1 _ Hc) as (s & Hs & Hst). rewrite Hs in H. cbn [mbind option_bind] in H.
  unfold Subscribe in H. destruct (hub_call now HSubscribe s) as [s1|] eqn:Hsub; [|done]. cbn [mbind option_bind hold fst snd] in H.
  apply (inj Some) in H. injection H as <- <-.
  destruct (hub_call_fields _ _ _ _ Hsub) as (Hx & E1 & E2 & E3 & _). destruct (hk_site _ Hok1 _ _ Hs) as [[Hcore Hcl] _]. rewrite Hst in Hcl.
  destruct (HSubscribe_spec _ _ Hcl Hx) as [Hsp Hh]. injection Hsp as _ _ Hn _.
  assert (quiet s s1) as Hqs by (by eapply (hub_call_quiet now HSubscribe)). rewrite <- Hc. split.
  - etrans; [exact Hq0|]. etrans; [exact Hq1|]. eapply set_site_quiet; [exact Hs|]. etrans; [exact Hqs|by apply same_hub_quiet].
  - split.
    + intros y Hy. destruct (Hq0 i y Hy) as (y0 & Hy0 & []). destruct (Hq1 i y0 Hy0) as (y1 & Hy1 & []).
      rewrite Hs in Hy1. injection Hy1 as <-. lia.
    + eexists. split; [cbn; rewrite list_lookup_insert_eq; [done|by eapply lookup_lt_Some]|]. cbn [si_hub]. rewrite Hn. split; [lia|].
      split; [|unfold got_by; by rewrite Hh, lookup_insert_eq].
      clear -Hx Hcl. destruct (si_hub s) as [h0 hs0 l0]. cbn [hexec hs_hub] in *. unfold subscribe in Hx. rewrite Hcl in Hx.
      cbn [mbind option_bind fst snd] in Hx. apply (inj Some) in Hx. rewrite <- Hx. cbn [hs_hub]. unfold notify. cbn. destruct (h_watcher h0); cbn; rewrite dom_insert; set_solver.
Qed.

(** ** What a stream wrote *)

Definition conn_stream (c : conn) : option stream :=
  match c with Streaming st | Leaving (Streamed st) _ | Done (Streamed st) => Some st | _ => None end.
Definition goes_on (c : conn) : bool := match c with Streaming _ => true | _ => false end.

(** The frames of snapshots, numbered from one. *)
Definition numbered (l : list string) : list string := imap (λ k b, sse_frame (wrap64 (Z.of_nat k + 1)) b) l.

(** A stream that goes on wrote every snapshot it received; one that ended may have
    failed to write the last, or told its viewer to reconnect. *)
Definition wrote (st : stream) (l : list string) (open_ : bool) : Prop :=
  if open_ then sm_out st = (retry_frame :: numbered l)%list ∧ sm_n st = wrap64 (Z.of_nat (length l))
  else ∃ k tail, sm_out st = (retry_frame :: numbered k ++ tail)%list ∧
    ((l = k ∧ (tail = [] ∨ tail = [reconnect_frame])) ∨ (tail = [] ∧ ∃ b, l = (k ++ [b])%list)).

Lemma numbered_snoc l b : numbered (l ++ [b]) = (numbered l ++ [sse_frame (wrap64 (Z.of_nat (length l) + 1)) b])%list.
Proof. unfold numbered. rewrite imap_app. cbn. by rewrite Nat.add_0_r. Qed.

Record out_inv (sv : server) : Prop := mkOutInv {
  oi_wrote : ∀ id c st, sv_conns sv !! id = Some c → conn_stream c = Some st →
    ∃ s l, ho_sites (sv_holder sv) !! sm_site st = Some s ∧ (sm_ch st < h_next (hs_hub (si_hub s)))%nat ∧
      sm_ch st ∈ dom (h_chans (hs_hub (si_hub s))) ∧ got_by (si_hub s) (sm_ch st) = Some l ∧ wrote st l (goes_on c);
  oi_inj : ∀ id id' c c' st st', sv_conns sv !! id = Some c → sv_conns sv !! id' = Some c' → conn_stream c = Some st →
    conn_stream c' = Some st' → sm_site st = sm_site st' → sm_ch st = sm_ch st' → id = id' }.

(** A step that is no receive, and changes no stream. *)
Lemma out_quiet sv h frs cs nx : out_inv sv → hquiet (sv_holder sv) h →
  (∀ id c st, cs !! id = Some c → conn_stream c = Some st → ∃ c', sv_conns sv !! id = Some c' ∧ conn_stream c' = Some st ∧ goes_on c' = goes_on c) →
  out_inv (mkServer h frs cs nx).
Proof.
  intros [Hw Hi] Hq Hc. split; cbn [sv_conns sv_holder].
  - intros id c st H Hst. destruct (Hc _ _ _ H Hst) as (c' & H' & Hst' & Hg). destruct (Hw _ _ _ H' Hst') as (s & l & Hs & Hn & Hd & Hl & Hwr).
    destruct (Hq _ _ Hs) as (s' & Hs' & []). exists s', l. split; [done|]. split; [lia|]. split; [set_solver|]. rewrite qu_got0, <- Hg by lia. done.
  - intros id id' c c' st st' H H' Hst Hst' E1 E2. destruct (Hc _ _ _ H Hst) as (d & ? & ? & _). destruct (Hc _ _ _ H' Hst') as (d' & ? & ? & _). eauto.
Qed.

(** A connection that is no stream, or is the one there was. *)
Lemma insert_stream (cs : gmap nat conn) id c (Hs : conn_stream c = None ∨ ∃ c', cs !! id = Some c' ∧ conn_stream c' = conn_stream c ∧ goes_on c' = goes_on c) :
  ∀ k d st, <[id := c]> cs !! k = Some d → conn_stream d = Some st → ∃ c', cs !! k = Some c' ∧ conn_stream c' = Some st ∧ goes_on c' = goes_on d.
Proof.
  intros k d st [[<- <-]|[_ H]]%lookup_insert_Some Hst; [|by exists d]. destruct Hs as [Hs|(c' & ? & E & ?)]; [congruence|].
  exists c'. split; [done|]. by rewrite E.
Qed.

Lemma arrive_out now q fresh sv sv' : out_inv sv → arrive now q fresh sv = Some sv' → out_inv sv'.
Proof.
  intros Ho. unfold arrive. destruct (refuse q) as [r|].
  { intros [= <-]. apply (out_quiet sv); [done|done|]. apply insert_stream. by left. }
  assert (∀ h, hquiet (sv_holder sv) h → out_inv (accept (match (hold_cur h).1 with None => Done (Reply no_world) | Some (i, hd) => Serving q i hd end)
      (with_holder (hold_cur h).2 sv))) as Hc.
  { intros h Hq. apply (out_quiet sv); [done|etrans; [exact Hq|apply hold_cur_quiet]|]. apply insert_stream. left. by destruct (hold_cur h).1 as [[i hd]|]. }
  assert (∀ w h', (if reads_only q then Current (sv_holder sv) else Ensure fresh (sv_holder sv)) = (w, h') →
    out_inv (accept (match w with None => Done (Reply no_world) | Some (i, hd) => Serving q i hd end) (with_holder h' sv))) as Hgo.
  { intros w h'. unfold Ensure, Current. destruct (reads_only q); intros E; [specialize (Hc (sv_holder sv) ltac:(done))|specialize (Hc _ (ensure_quiet fresh (sv_holder sv)))];
      by rewrite E in Hc. }
  destruct q; try (destruct (if reads_only _ then _ else _) as [w h'] eqn:E; intros [= <-]; by apply Hgo).
  unfold reset. destruct (Reset_ now fresh (sv_holder sv)) as [h|] eqn:E; [|done]. cbn [mbind option_bind]. intros [= <-].
  apply (out_quiet sv); [done|by eapply Reset_quiet|]. apply insert_stream. by left.
Qed.

Lemma stream_arrive_out p now fresh fl sv sv' : sv_inv p sv → (∀ c, fresh = Some c → built_by p c) → out_inv sv →
  stream_arrive now fresh fl sv = Some sv' → out_inv sv'.
Proof.
  intros [Hh Hn HP] Hf Ho. unfold stream_arrive. destruct (Acquire now fresh (sv_holder sv)) as [[r h]|] eqn:E; [|done].
  cbn [mbind option_bind]. intros [= <-]. rewrite <- HP in Hf.
  destruct (Acquire_quiet now fresh _ r h (hd_ok _ _ Hh) Hf E) as [Hq Hr].
  destruct r as [[[i ch] hd]|]; [destruct fl|]; try (apply (out_quiet sv); [done|done|]; apply insert_stream; by left).
  destruct Hr as (Hnew & s' & Hs' & Hlt & Hd & Hg).
  assert (out_inv (with_holder h sv)) as Ho'.
  { apply (out_quiet sv); [done|done|]. intros id c st H Hst. by exists c. }
  assert (∀ id c st, sv_conns sv !! id = Some c → conn_stream c = Some st → sm_site st = i → sm_ch st = ch → False) as Hne.
  { intros id c st H Hst E1 E2. destruct (oi_wrote _ Ho id c st H Hst) as (s & l & Hs & Hl & _). rewrite E1 in Hs. apply Hnew in Hs. lia. }
  destruct Ho' as [Hw Hi]. split; cbn [accept with_holder sv_conns sv_holder] in *.
  - intros id c st [[<- <-]|[_ H]]%lookup_insert_Some Hst; [|by eapply Hw]. injection Hst as <-. by exists s', [].
  - intros id id' c c' st st' [[<- <-]|[_ H]]%lookup_insert_Some [[<- <-]|[_ H']]%lookup_insert_Some Hst Hst' E1 E2; [done| | |by eapply Hi];
      exfalso; [injection Hst as <-; by eapply (Hne id')|injection Hst' as <-; by eapply (Hne id)].
Qed.

Lemma respond_out now fa id sv sv' : out_inv sv → respond now fa id sv = Some sv' → out_inv sv'.
Proof.
  intros Ho. unfold respond. destruct (sv_conns sv !! id) as [c|] eqn:Hc; [|done]. cbn [mbind option_bind].
  destruct c as [q i hd| | |]; try done. destruct (ho_sites (sv_holder sv) !! i) as [s|] eqn:Hs; [|done]. cbn [mbind option_bind].
  destruct (serve now fa q s _) as [[[r s'] fr]|] eqn:E; [|done]. cbn [mbind option_bind]. unfold on_site. rewrite Hs. cbn [mbind option_bind].
  intros [= <-]. apply (out_quiet sv); [done| |apply insert_stream; by left]. eapply set_site_quiet; [done|].
  destruct (serve_site _ _ _ _ _ _ _ _ E) as [->|(o & c & He & ->)]; [done|by apply same_hub_quiet].
Qed.

Lemma leave_out now id sv sv' : out_inv sv → leave_ now id sv = Some sv' → out_inv sv'.
Proof.
  intros Ho. unfold leave_. destruct (sv_conns sv !! id) as [c|] eqn:Hc; [|done]. cbn [mbind option_bind].
  destruct c as [| |a x|]; try done.
  assert (∀ h, match x with HoldOf i hd => hact now (AUnhold i hd) (sv_holder sv) | SubOf i ch hd => release now i ch hd (sv_holder sv) end = Some h →
    out_inv (with_conn id (Done a) (with_holder h sv))) as Hx.
  { intros h H. apply (out_quiet sv); [done| |apply insert_stream; right; exists (Leaving a x); by destruct a].
    destruct x as [i hd|i ch hd]; refine (on_site_quiet _ _ _ _ _ H); intros s s'; [intros [= <-]; by apply same_hub_quiet|].
    destruct (hub_call now (HCancel ch) s) as [s1|] eqn:Hs; [|done]. cbn. intros [= <-]. etrans; [by eapply (hub_call_quiet now (HCancel ch))|by apply same_hub_quiet]. }
  destruct x as [i hd|i ch hd]; [destruct (hact _ _ _) as [h|]; [|done]|destruct (release _ _ _ _ _) as [h|]; [|done]];
    cbn [mbind option_bind]; intros [= <-]; by apply Hx.
Qed.

(** One turn, seen from the stream. *)
Lemma stream_turn_wrote now a st s s' st' go l :
  stream_turn now a st s = Some (s', st', go) → site_ok s → (sm_ch st < h_next (hs_hub (si_hub s)))%nat →
  sm_ch st ∈ dom (h_chans (hs_hub (si_hub s))) → got_by (si_hub s) (sm_ch st) = Some l → wrote st l true →
  ∃ l', got_by (si_hub s') (sm_ch st) = Some l' ∧ wrote st' l' go ∧
    (h_next (hs_hub (si_hub s)) <= h_next (hs_hub (si_hub s')))%nat ∧ dom (h_chans (hs_hub (si_hub s))) ⊆ dom (h_chans (hs_hub (si_hub s'))) ∧
    ∀ ch, ch ≠ sm_ch st → (ch < h_next (hs_hub (si_hub s)))%nat → got_by (si_hub s') ch = got_by (si_hub s) ch.
Proof.
  intros H Hok Hlt Hd Hl [Hout Hn].
  assert (∀ tail, (tail = [] ∨ tail = [reconnect_frame]) → ∀ x, sm_out x = (sm_out st ++ tail)%list → wrote x l false) as Hend.
  { intros tail Ht x Hx. exists l, tail. rewrite Hx, Hout. split; [done|by left]. }
  destruct a as [| |dl w]; cbn [stream_turn] in H.
  - injection H as <- <- <-. exists l. split; [done|]. split; [|done]. apply (Hend []); [by left|by rewrite app_nil_r].
  - case_match; [|done]. injection H as <- <- <-. exists l. split; [done|]. split; [|done]. apply (Hend [reconnect_frame]); [by right|done].
  - destruct (h_chans _ !! _) as [c|] eqn:Ec; [|done]. cbn [mbind option_bind] in H. destruct c as [buf cl]. cbn [c_buf c_closed] in H. destruct buf as [|b bs].
    + destruct cl; [|done]. injection H as <- <- <-. exists l. split; [done|]. split; [|done]. apply (Hend []); [by left|by rewrite app_nil_r].
    + destruct (hub_call now (HRecv (sm_ch st)) s) as [s1|] eqn:Hr; [|done]. cbn [mbind option_bind] in H.
      destruct (hub_call_fields _ _ _ _ Hr) as (Hx & _). assert (got_by (si_hub s1) (sm_ch st) = Some (l ++ [b])%list) as Hl1.
      { rewrite (hexec_got _ _ _ _ Hx Hlt), bool_decide_eq_true_2, Ec, Hl by done. done. }
      assert (s' = s1) as -> by (by destruct w; injection H as <- _ _). exists (l ++ [b])%list. split; [done|]. split.
      * destruct w; injection H as <- <-; cbn [wrote].
        -- cbn [writes counts sm_out sm_n]. rewrite Hout, Hn, numbered_snoc, length_app, wrap64_add_l. split; [done|]. cbn. f_equal. lia.
        -- exists l, []. rewrite app_nil_r. cbn [counts sm_out]. split; [done|]. right. split; [done|by exists b].
      * split; [by eapply hexec_next|]. split; [by eapply hexec_chans|]. intros ch Hne Hch. rewrite (hexec_got _ _ _ _ Hx Hch). by rewrite bool_decide_eq_false_2 by done.
Qed.

Lemma turn_out now a id sv sv' : holder_ok (sv_holder sv) → out_inv sv → turn now a id sv = Some sv' → out_inv sv'.
Proof.
  intros Hok [Hw Hi]. unfold turn. destruct (sv_conns sv !! id) as [c|] eqn:Hc; [|done]. cbn [mbind option_bind].
  destruct c as [|st| |]; try done. destruct (Hw id _ st Hc eq_refl) as (s & l & Hs & Hlt & Hd & Hl & Hwr). rewrite Hs. cbn [mbind option_bind].
  destruct (stream_turn now a st s) as [[[s' st'] go]|] eqn:E; [|done]. cbn [mbind option_bind]. unfold on_site. rewrite Hs. cbn [mbind option_bind].
  intros [= <-]. destruct (stream_turn_site _ _ _ _ _ _ _ E) as (_ & E1 & E2 & E3).
  destruct (stream_turn_wrote _ _ _ _ _ _ _ l E (proj1 (hk_site _ Hok _ _ Hs)) Hlt Hd Hl Hwr) as (l' & Hl' & Hwr' & Hn' & Hd' & Hoth).
  set (c' := if go then Streaming st' else _). assert (conn_stream c' = Some st' ∧ goes_on c' = go) as [Hc1 Hc2] by (by subst c'; destruct go).
  split; cbn [with_conn with_holder sv_conns sv_holder ho_sites].
  - intros k d x [[<- <-]|[Hne H]]%lookup_insert_Some Hx.
    + rewrite Hc1 in Hx. injection Hx as <-. rewrite E1, E2, Hc2. exists s', l'. rewrite list_lookup_insert_eq by (by eapply lookup_lt_Some).
      split; [done|]. split; [lia|]. split; [set_solver|done].
    + destruct (Hw k d x H Hx) as (y & m & Hy & Hym & Hyd & Hyl & Hyw). destruct (decide (sm_site x = sm_site st)) as [Es|Es].
      * rewrite Es in *. rewrite Hs in Hy. injection Hy as <-. exists s', m. rewrite list_lookup_insert_eq by (by eapply lookup_lt_Some).
        split; [done|]. split; [lia|]. split; [set_solver|]. rewrite Hoth; [done| |done]. intros Ech. apply Hne. symmetry. by eapply Hi.
      * exists y, m. by rewrite list_lookup_insert_ne.
  - assert (∀ k d x, <[id:=c']> (sv_conns sv) !! k = Some d → conn_stream d = Some x →
      ∃ d0 x0, sv_conns sv !! k = Some d0 ∧ conn_stream d0 = Some x0 ∧ sm_site x0 = sm_site x ∧ sm_ch x0 = sm_ch x) as Hback.
    { intros k d x [[<- <-]|[Hne H]]%lookup_insert_Some Hx; [|by exists d, x]. rewrite Hc1 in Hx. injection Hx as <-. by exists (Streaming st), st. }
    intros k k' d d' x x' H H' Hx Hx' Ex Ech. destruct (Hback _ _ _ H Hx) as (d0 & x0 & ? & ? & ? & ?).
    destruct (Hback _ _ _ H' Hx') as (d1 & x1 & ? & ? & ? & ?). eapply Hi; [done..|congruence|congruence].
Qed.

Lemma sexec_out p now e sv sv' : sv_inv p sv → event_ok p e → out_inv sv → sexec now e sv = Some sv' → out_inv sv'.
Proof.
  intros Hi He Ho. destruct e as [q fresh|fresh fl|id fa|id a|id|i b|i o|i fr]; cbn [sexec event_ok] in *.
  - by apply arrive_out.
  - by eapply stream_arrive_out.
  - by apply respond_out.
  - apply turn_out; [apply Hi|done].
  - by apply leave_out.
  - destruct (hact _ _ _) as [h|] eqn:E; [|done]. cbn [mbind option_bind]. intros [= <-]. apply (out_quiet sv); [done| |by intros k d x ? ?; exists d].
    refine (on_site_quiet _ _ _ _ _ E). intros s s'. by apply hub_call_quiet.
  - destruct (hact _ _ _) as [h|] eqn:E; [|done]. cbn [mbind option_bind]. intros [= <-]. apply (out_quiet sv); [done| |by intros k d x ? ?; exists d].
    refine (on_site_quiet _ _ _ _ _ E). intros s s'. cbv beta. destruct (cexec _ _ _); [|done]. cbn. intros [= <-]. by apply same_hub_quiet.
  - intros [= <-]. apply (out_quiet sv); [done|done|by intros k d x ? ?; exists d].
Qed.

Lemma sexecs_out p es sv sv' : sv_inv p sv → out_inv sv → Forall (λ e, event_ok p e.2) es → sexecs es sv = Some sv' → out_inv sv'.
Proof.
  revert sv. induction es as [|[now e] es IH]; intros sv Hi Ho He H; [by injection H as <-|]. cbn in H.
  apply Forall_cons in He as [He Hes]. destruct (sexec now e sv) as [sv1|] eqn:E; [|done]. cbn in H.
  eapply IH; [by eapply sexec_inv|by eapply sexec_out|done..].
Qed.

(** C29. A stream is what its World broadcast, in order: whatever else connects,
    resets or leaves, the frames of a stream are the retry line and then the
    snapshots its channel delivered, numbered one, two, three without a gap, each
    broadcast while it was subscribed and in that order; only a stream that ended
    says "reconnect", as its last frame, and one that goes on wrote all it received. *)
Theorem stream_is_numbered_snapshots p es sv id c st :
  Forall (λ e, event_ok p e.2) es → sexecs es (newServer p) = Some sv → sv_conns sv !! id = Some c → conn_stream c = Some st →
  ∃ s x k tail, ho_sites (sv_holder sv) !! sm_site st = Some s ∧ hs_hist (si_hub s) !! sm_ch st = Some x ∧
    sm_out st = (retry_frame :: numbered k ++ tail)%list ∧ sublist k (sent x) ∧
    (tail = [] ∨ (tail = [reconnect_frame] ∧ goes_on c = false)) ∧ (goes_on c = true → k = got x).
Proof.
  intros He H Hc Hst. assert (out_inv (newServer p)) as H0.
  { assert (∀ k d, sv_conns (newServer p) !! k = Some d → False) as Hn by (intros k d; cbn; by rewrite lookup_empty).
    split; [intros k d y ?|intros k k' d d' y y' ?]; exfalso; by eapply Hn. }
 
  pose proof (sexecs_inv p es _ _ (newServer_inv p) He H) as [Hh _ _]. pose proof (sexecs_out p es _ _ (newServer_inv p) H0 He H) as [Hw _].
  destruct (Hw id c st Hc Hst) as (s & l & Hs & Hlt & [ch Hd]%elem_of_dom & Hl & Hwr). destruct (hk_site _ (hd_ok _ _ Hh) _ _ Hs) as [[Hcore _] _].
  destruct (hi_chan _ (so_hub _ Hcore) _ _ Hd) as (_ & x & Hx & Hsub & _). unfold got_by in Hl. rewrite Hx in Hl. cbn in Hl. injection Hl as <-.
  assert (sublist (got x) (sent x)) as Hgs by (etrans; [apply sublist_inserts_r, (reflexivity (got x))|exact Hsub]).
  exists s, x. destruct (goes_on c) eqn:Hg.
  - destruct Hwr as [Hout _]. exists (got x), []. rewrite app_nil_r. split_and!; try done. by left.
  - destruct Hwr as (k & tail & Hout & Hcase). exists k, tail. split_and!; try done.
    + destruct Hcase as [[<- _]|[_ [b Hb]]]; [done|]. etrans; [|exact Hgs]. rewrite Hb. by apply sublist_inserts_r.
    + destruct Hcase as [[_ [?|?]]|[? _]]; auto.
Qed.
End Streams.
