(* ===== verification/Answers.v ===== *)
(** * cmd/killswitch/server.go: what an answer says

    The status of every handler against the World it was given, the World a
    handler is given, and the names of the Worlds. *)

From S2P Require Import Prelude GoLib GoFloat Kms Tink KmsModel Fake Lease Cmek Tenant Prog Manager Api.
From S2P Require Import Store StoreInv Queue Admit Ingest Hub Generator Params Metrics World Scenarios Footprint ScenarioDemo ScenarioSpec.
From S2P Require Import Control Holder Pages Server ServerInv ServerSpec Wiring.
From Stdlib Require Import Sorting.Sorted.
Local Open Scope string_scope.
Local Open Scope Z_scope.

Section Answers.
Context `{TK : Tink} `{MR : MapRange} `{FM : Fmt} `{RL : RateLimit}.

(** ** Statuses *)

Definition busy (c : cworld) : bool := bool_decide (is_Some (c_cur c)) || c_stopping c.

(** What the status of [r] says of the World's control state [c] (and of the
    answer). *)
Definition status_fits (q : request) (c : cworld) (r : response) : Prop :=
  let w := c_world c in
  match q with
  | ReqReset => False
  | ReqKeyfetch d => rs_status r = (if bool_decide (dc_req d ∈ ["async"; "sync"; "naive"]) then 204 else 400)
  | ReqTraffic d => rs_status r = (if bool_decide ((dc_req d).1 = "" ∨ is_Some (index (w_ids w) (dc_req d).1)) then 200 else 404)
  | ReqStart name => rs_status r = (if busy c then 409 else match defs w name with None => 404 | Some _ => 200 end)
  | ReqStop => rs_status r = 200
  | ReqFaults d =>
      let f := dc_req d in
      if bool_decide (fr_Provider f = "" ∧ fr_Tenant f ≠ "" ∧ index (w_ids w) (fr_Tenant f) = None) then rs_status r = 404
      else (rs_status r = 204 ∧ well_formed f w) ∨ (rs_status r = 400 ∧ ¬ well_formed f w)
  | ReqKey id d =>
      rs_status r = match index (w_ids w) id with
                    | None => 404
                    | Some _ => if bool_decide (dc_req d ∈ ["revoke"; "restore"]) then 204 else 400
                    end
  | ReqHealth => rs_status r = 200
  | ReqEvents t _ =>
      (rs_status r = 202 ∧ ∃ id, rs_payload r = AnEvent id t) ∨
      (rs_status r ∈ [403; 404; 429; 500; 503] ∧ (rs_retry r ≠ None → rs_status r = 429 ∨ rs_status r = 503) ∧
       (index (w_ids w) t = None → rs_status r = 404))
  | ReqTenant id => rs_status r = match index (w_ids w) id with None => 404 | Some _ => 200 end
  end.

Lemma controlOutcome_status e t : rs_status (controlOutcome e t) =
  match e with None => 204 | Some e => if errors.Is e ErrUnknownTenant then 404 else 400 end.
Proof. destruct e as [e|]; [|done]. cbn. by destruct (errors.Is e ErrUnknownTenant). Qed.

(** The errors of the control calls: an unknown tenant, or a bad request. *)
Lemma SetFetch_fits now m w : (SetFetch now m w).1 = None ∧ m ∈ ["async"; "sync"; "naive"] ∨
  (∃ t, (SetFetch now m w).1 = Some (bad_fault t)) ∧ (SetFetch now m w).2 = w ∧ m ∉ ["async"; "sync"; "naive"].
Proof.
  unfold SetFetch, fetch_mode. repeat case_bool_decide; [left; split; [done|set_solver]..|].
  right. split; [by eexists|]. split; [done|set_solver].
Qed.

Lemma Surge_fits t x w e w' : Surge t x w = Some (e, w') →
  e = None ∧ (t = "" ∨ is_Some (index (w_ids w) t)) ∨ e = Some ErrUnknownTenant ∧ w' = w ∧ ¬ (t = "" ∨ is_Some (index (w_ids w) t)).
Proof.
  unfold Surge. case_bool_decide as Ht; [intros [= <- _]; by eauto|]. destruct (index (w_ids w) t) as [i|] eqn:Hi.
  - destruct (set_mult i x w); [|done]. cbn. intros [= <- _]. left. split; [done|]. right. by eexists.
  - intros [= <- <-]. right. split_and!; try done. intros [?|[? ?]]; congruence.
Qed.

Lemma SetKey_fits now id a c : match index (w_ids (c_world c)) id with
  | None => SetKey now id a c = (Some ErrUnknownTenant, c)
  | Some _ => (SetKey now id a c).1 = None ∧ a ∈ ["revoke"; "restore"] ∨
      (∃ t, SetKey now id a c = (Some (bad_fault t), c)) ∧ a ∉ ["revoke"; "restore"]
  end.
Proof.
  unfold SetKey. destruct (index _ _); [|done]. repeat case_bool_decide; [left; split; [done|set_solver]..|].
  right. split; [by eexists|set_solver].
Qed.

Lemma Fault_fits f w :
  ((Fault_ f w).1 = None ↔ well_formed f w) ∧
  match (Fault_ f w).1 with
  | None => ¬ (fr_Provider f = "" ∧ fr_Tenant f ≠ "" ∧ index (w_ids w) (fr_Tenant f) = None)
  | Some e => (Fault_ f w).2 = w ∧
      errors.Is e ErrUnknownTenant = bool_decide (fr_Provider f = "" ∧ fr_Tenant f ≠ "" ∧ index (w_ids w) (fr_Tenant f) = None)
  end.
Proof.
  split; [apply Fault_accepts|]. assert (∀ t, errors.Is (bad_fault t) ErrUnknownTenant = false) as Hb by done.
  assert (∀ e, fault_mode (fr_Mode f) = inl e → ∃ t, e = bad_fault t) as Hm.
  { unfold fault_mode. repeat case_match; try done. intros e [= <-]. by eexists. }
  assert (∀ e, fault_latency f = inl e → ∃ t, e = bad_fault t) as Hl.
  { unfold fault_latency. repeat case_match; try done; intros e [= <-]; by eexists. }
  assert (match fault_scope f w with
          | inl e => errors.Is e ErrUnknownTenant = bool_decide (fr_Provider f = "" ∧ fr_Tenant f ≠ "" ∧ index (w_ids w) (fr_Tenant f) = None)
          | inr _ => ¬ (fr_Provider f = "" ∧ fr_Tenant f ≠ "" ∧ index (w_ids w) (fr_Tenant f) = None) end) as Hs.
  { unfold fault_scope. destruct (decide (fr_Provider f = "")) as [Ep|Ep], (decide (fr_Tenant f = "")) as [Et|Et];
      rewrite ?(bool_decide_eq_true_2 _ Ep), ?(bool_decide_eq_true_2 _ Et), ?(bool_decide_eq_false_2 _ Ep), ?(bool_decide_eq_false_2 _ Et); cbn [negb andb].
    - rewrite Hb, bool_decide_eq_false_2; [done|tauto].
    - destruct (index _ _) as [i|]; [naive_solver|]. by rewrite bool_decide_eq_true_2.
    - destruct (known_provider _ _); [tauto|]. rewrite Hb, bool_decide_eq_false_2; [done|tauto].
    - rewrite Hb, bool_decide_eq_false_2; [done|tauto]. }
  unfold Fault_. destruct (fault_scope f w) as [e|sc]; [done|]. destruct (fault_mode (fr_Mode f)) as [e|m].
  { cbn. split; [done|]. destruct (Hm e eq_refl) as [t ->]. by rewrite Hb, bool_decide_eq_false_2. }
  destruct (fault_latency f) as [e|[a b]]; [|done]. cbn. split; [done|]. destruct (Hl e eq_refl) as [t ->]. by rewrite Hb, bool_decide_eq_false_2.
Qed.

Lemma StartScenario_fits now name c e c' : StartScenario now name c = Some (e, c') →
  if busy c then e = Some ErrBusy ∧ c' = c
  else match defs (c_world c) name with None => e = Some ErrUnknownScenario ∧ c' = c | Some _ => e = None ∧ busy c' = true end.
Proof.
  unfold StartScenario. fold (busy c). destruct (busy c); [by intros [= <- <-]|]. destruct (defs (c_world c) name) as [sc|]; [|by intros [= <- <-]].
  intros H. repeat (match type of H with (?o ≫= _) = _ => destruct o; cbn [mbind option_bind] in H; [|done] end). by injection H as <- <-.
Qed.

Lemma events_fits fa t body w fr r fr' : events fa t body w fr = Some (r, fr') →
  (rs_status r = 202 ∧ ∃ id, rs_payload r = AnEvent id t) ∨
  (rs_status r ∈ [403; 404; 429; 500; 503] ∧ (rs_retry r ≠ None → rs_status r = 429 ∨ rs_status r = 503) ∧
   (index (w_ids w) t = None → rs_status r = 404) ∧ rows (f_store fr') = rows (f_store fr) ∧ led (f_store fr') = led (f_store fr)).
Proof.
  unfold events. destruct (IngestID _ _ _ _ _) as [[[x tr] fr1]|] eqn:Ei; [|done]. cbn [mbind option_bind].
  destruct x as [e|id]; [|intros [= <- <-]; left; split; [done|by eexists]]. intros H. right.
  destruct (IngestID_refused _ _ _ _ _ _ _ _ Ei) as [Hr Hl].
  assert (index (w_ids w) t = None → e = ErrUnknownTenant) as Hu.
  { intros Hi. unfold IngestID in Ei. rewrite Hi in Ei. by injection Ei as <- _ _. }
  unfold Outcome in H. destruct (errors.Is e ErrUnknownTenant) eqn:Eu.
  { injection H as <- <-. cbn. split_and!; try done. set_solver. }
  assert (index (w_ids w) t ≠ None) as Hk by (intros Hi; by rewrite (Hu Hi) in Eu).
  repeat case_match; simplify_eq; cbn; split_and!; try done; try set_solver; auto.
Qed.

(** A status below 400. *)
Ltac not_refused := let H := fresh in intros H; exfalso; first [lia|cbn in H; unfold StatusOK in H; lia].

(** C33. An answer says what happened: each handler's status is the one its call
    deserves in the World it was given - the key fetch design, the tenant, the
    scenario and the fault request it names exist and are well formed, and no
    scenario runs - and an answer of 400 or more means the World's scenarios,
    faults, keys, rates and stored events are what they were. *)
Theorem answers_tell_outcome now fa q s fr r s' fr' : serve now fa q s fr = Some (r, s', fr') →
  status_fits q (si_ctl s) r ∧
  (400 <= rs_status r → s' = s ∧ rows (f_store fr') = rows (f_store fr) ∧ led (f_store fr') = led (f_store fr)).
Proof.
  destruct q as [|d|d|name| |d|id d| |t body|id]; cbn [serve status_fits]; intros H.
  - done.
  - unfold keyfetch in H. pose proof (SetFetch_fits now (dc_req d) (c_world (si_ctl s))) as Hf. destruct (SetFetch _ _ _) as [e w].
    injection H as <- <- <-. rewrite controlOutcome_status. cbn in Hf. destruct Hf as [[-> Hm]|[[t ->] [-> Hm]]].
    + rewrite bool_decide_eq_true_2 by done. split; [done|not_refused].
    + rewrite bool_decide_eq_false_2 by done. split; [done|]. by rewrite with_world_same, with_ctl_same.
  - unfold traffic in H. destruct (Surge _ _ _) as [[e w]|] eqn:Hs; [|done]. cbn in H. injection H as <- <- <-.
    destruct (Surge_fits _ _ _ _ _ Hs) as [[-> Ht]|(-> & -> & Ht)].
    + rewrite bool_decide_eq_true_2 by done. split; [done|not_refused].
    + rewrite bool_decide_eq_false_2 by done. split; [done|]. by rewrite with_world_same, with_ctl_same.
  - unfold scenarioStart in H. destruct (StartScenario _ _ _) as [[e c]|] eqn:Hs; [|done]. cbn in H. injection H as <- <- <-.
    pose proof (StartScenario_fits _ _ _ _ _ Hs) as Hf. destruct (busy (si_ctl s)); [destruct Hf as [-> ->]; split; [done|by rewrite with_ctl_same]|].
    destruct (defs _ _); destruct Hf as [-> Hf]; [split; [done|not_refused]|]. rewrite Hf. split; [done|by rewrite with_ctl_same].
  - unfold scenarioStop in H. destruct (StopScenario _) as [n c]. injection H as <- <- <-. split; [done|not_refused].
  - unfold faults in H. destruct (Fault_fits (dc_req d) (c_world (si_ctl s))) as [Hwf Hf]. destruct (Fault_ _ _) as [e w].
    injection H as <- <- <-. rewrite controlOutcome_status. cbn in Hwf, Hf. destruct e as [e|].
    + destruct Hf as [-> Hu]. rewrite Hu, with_world_same, with_ctl_same. split; [|done]. case_bool_decide; [done|]. right. split; [done|].
      intros Hx. by apply Hwf in Hx.
    + rewrite bool_decide_eq_false_2 by done. split; [left; split; [done|by apply Hwf]|not_refused].
  - unfold key in H. pose proof (SetKey_fits now id (dc_req d) (si_ctl s)) as Hf. destruct (SetKey _ _ _ _) as [e c].
    injection H as <- <- <-. rewrite controlOutcome_status. destruct (index _ _) as [i|].
    + cbn [fst] in Hf. destruct Hf as [[-> Ha]|[[t [= -> ->]] Ha]].
      * rewrite bool_decide_eq_true_2 by done. split; [done|not_refused].
      * rewrite bool_decide_eq_false_2 by done. split; [done|by rewrite with_ctl_same].
    + injection Hf as -> ->. split; [done|by rewrite with_ctl_same].
  - injection H as <- <- <-. split; [done|not_refused].
  - destruct (events _ _ _ _ _) as [[x f]|] eqn:He; [|done]. cbn in H. injection H as <- <- <-.
    destruct (events_fits _ _ _ _ _ _ _ He) as [[H1 H2]|(H1 & H2 & H3 & H4 & H5)].
    + split; [by left|not_refused].
    + split; [by right|done].
  - unfold tenant, Pages.Tenant, si_world in H. destruct (index _ _) as [i|].
    + destruct (w_tenants _ !! i), (provider_at _ i), (Offered i _); try done. cbn in H. injection H as <- <- <-. split; [done|not_refused].
    + cbn in H. injection H as <- <- <-. done.
Qed.

(** ** The names of the Worlds *)

Lemma world_id_inj n m : 0 < n → 0 < m → world_id n = world_id m → n = m.
Proof.
  assert (∀ a b, "w-" +:+ a = "w-" +:+ b → a = b) as Hc by (by intros a b [=]).
  intros Hn Hm H%Hc%(f_equal (digits_value 0)). rewrite <- (Z2Nat.id n), <- (Z2Nat.id m) in H by lia. rewrite !digits_value_Itoa in H. lia.
Qed.

(** The Worlds are named by increasing counts. *)
Record ids_ok (h : Holder) : Prop := mkIdsOk {
  id_seq : 0 <= ho_seq h;
  id_names : ∃ ns, (si_ID <$> ho_sites h) = (world_id <$> ns) ∧ Forall (λ n, 0 < n <= ho_seq h) ns }.

(** A name not given yet. *)
Lemma next_id_new h : ids_ok h → world_id (ho_seq h + 1) ∉ si_ID <$> ho_sites h.
Proof.
  intros [Hs (ns & E & Hns)] Hin. rewrite E in Hin. apply list_elem_of_fmap in Hin as (n & Hn & Hi).
  rewrite Forall_forall in Hns. apply Hns in Hi. apply world_id_inj in Hn; lia.
Qed.

Definition ids_same (h h' : Holder) : Prop := (si_ID <$> ho_sites h') = (si_ID <$> ho_sites h) ∧ ho_seq h' = ho_seq h.
Lemma ids_same_ok h h' : ids_same h h' → ids_ok h → ids_ok h'.
Proof. intros [E1 E2] []. split; by rewrite ?E1, ?E2. Qed.
#[local] Instance ids_same_pre : PreOrder ids_same.
Proof. split; [by intros h|]. intros a b c [] []. split; congruence. Qed.

Lemma set_site_ids h i s s' : ho_sites h !! i = Some s → si_ID s' = si_ID s →
  ids_same h (mkHolder (ho_p h) (ho_cur h) (<[i := s']> (ho_sites h)) (ho_seq h)).
Proof.
  intros Hi E. split; [|done]. cbn. rewrite list_fmap_insert, E. apply list_insert_id. by rewrite list_lookup_fmap, Hi.
Qed.

Lemma on_site_ids i f h h' : (∀ s s', f s = Some s' → si_ID s' = si_ID s) → on_site i f h = Some h' → ids_same h h'.
Proof.
  intros Hf. unfold on_site. destruct (ho_sites h !! i) as [s|] eqn:Hs; [|done]. cbn [mbind option_bind].
  destruct (f s) as [s'|] eqn:E; [|done]. cbn [mbind option_bind]. intros [= <-]. eapply set_site_ids; eauto.
Qed.

Lemma stop_cur_ids now h h' : stop_cur now h = Some h' → ids_same h h'.
Proof.
  unfold stop_cur. destruct (ho_cur h) as [i|]; [|by intros [= <-]]. destruct (on_site i _ h) as [h1|] eqn:E; [|done].
  cbn [mbind option_bind]. intros [= <-]. refine (on_site_ids _ _ _ _ _ E). intros s s' H. unfold Stop_site in H.
  by destruct (hub_call_fields _ _ _ _ H) as (_ & _ & _ & _ & ?).
Qed.

Lemma build_ids fresh h : ids_ok h → ids_ok (build fresh h).
Proof.
  intros [Hs (ns & E & Hns)]. assert (Forall (λ n, 0 < n <= ho_seq h + 1) ns) as Hns' by (eapply Forall_impl; [exact Hns|]; cbn; lia).
  destruct fresh as [c|]; split; cbn [build ho_seq ho_sites]; [lia| |lia|by exists ns].
  exists (ns ++ [ho_seq h + 1])%list. rewrite !fmap_app, E. split; [done|]. apply Forall_app. split; [done|]. constructor; [lia|constructor].
Qed.
Lemma ensure_ids fresh h : ids_ok h → ids_ok (ensure_cur fresh h).
Proof. unfold ensure_cur. destruct (ho_cur h); [done|apply build_ids]. Qed.

Lemma hold_cur_ids h : ids_same h (hold_cur h).2.
Proof.
  unfold hold_cur. destruct (ho_cur h) as [i|] eqn:Hc; [|done]. destruct (ho_sites h !! i) as [s|] eqn:Hs; [|done].
  cbn. rewrite <- Hc. by eapply set_site_ids.
Qed.

Lemma Acquire_ids now fresh h r h' : ids_ok h → Acquire now fresh h = Some (r, h') → ids_ok h'.
Proof.
  intros Hi. unfold Acquire. destruct (if idled_out now h then stop_cur now h else Some h) as [h0|] eqn:E; [|done]. cbn [mbind option_bind].
  assert (ids_ok h0) as Hi0 by (destruct (idled_out now h); [eapply ids_same_ok; [by eapply stop_cur_ids|done]|by injection E as <-]).
  apply (ensure_ids fresh) in Hi0. unfold join. destruct (ho_cur (ensure_cur fresh h0)) as [i|] eqn:Hc; [|by intros [= _ <-]].
  destruct (ho_sites (ensure_cur fresh h0) !! i) as [s|] eqn:Hs; [|done]. cbn [mbind option_bind]. unfold Subscribe.
  destruct (hub_call now HSubscribe s) as [s1|] eqn:Hsub; [|done]. cbn [mbind option_bind hold fst snd]. intros [= _ <-].
  eapply ids_same_ok; [|exact Hi0]. eapply set_site_ids; [exact Hs|]. by destruct (hub_call_fields _ _ _ _ Hsub) as (_ & _ & _ & _ & ?).
Qed.

Lemma Reset_ids now fresh h h' : ids_ok h → Reset_ now fresh h = Some h' → ids_ok h'.
Proof.
  intros Hi. unfold Reset_. destruct (stop_cur now h) as [h1|] eqn:E; [|done]. cbn [mbind option_bind]. intros [= <-].
  apply build_ids. eapply ids_same_ok; [by eapply stop_cur_ids|done].
Qed.

Lemma hact_ids now a h h' : ids_ok h → hact now a h = Some h' → ids_ok h'.
Proof.
  intros Hi. destruct a as [fresh|fresh| |fresh|i ch hd|i hd|i b|i o]; cbn [hact].
  - destruct (Acquire now fresh h) as [[r x]|] eqn:E; [|done]. intros [= <-]. by eapply Acquire_ids.
  - intros [= <-]. eapply ids_same_ok; [apply hold_cur_ids|by apply ensure_ids].
  - intros [= <-]. eapply ids_same_ok; [apply hold_cur_ids|done].
  - by apply Reset_ids.
  - intros H. eapply ids_same_ok; [|done]. refine (on_site_ids _ _ _ _ _ H). intros s s'. cbv beta.
    destruct (hub_call now (HCancel ch) s) as [s1|] eqn:E; [|done]. cbn. intros [= <-]. by destruct (hub_call_fields _ _ _ _ E) as (_ & _ & _ & _ & ?).
  - intros H. eapply ids_same_ok; [|done]. refine (on_site_ids _ _ _ _ _ H). by intros s s' [= <-].
  - intros H. eapply ids_same_ok; [|done]. refine (on_site_ids _ _ _ _ _ H). intros s s' Hs. by destruct (hub_call_fields _ _ _ _ Hs) as (_ & _ & _ & _ & ?).
  - intros H. eapply ids_same_ok; [|done]. refine (on_site_ids _ _ _ _ _ H). intros s s'. cbv beta. destruct (cexec _ _ _); [|done]. cbn. by intros [= <-].
Qed.

Lemma sexec_ids now e sv sv' : ids_ok (sv_holder sv) → sexec now e sv = Some sv' → ids_ok (sv_holder sv').
Proof.
  intros Hi. destruct e as [q fresh|fresh fl|id fa|id a|id|i b|i o|i fr]; cbn [sexec].
  - unfold arrive. destruct (refuse q); [by intros [= <-]|].
    assert (∀ w h', (if reads_only q then Current (sv_holder sv) else Ensure fresh (sv_holder sv)) = (w, h') → ids_ok h') as Hgo.
    { intros w h' E. assert (h' = (if reads_only q then Current (sv_holder sv) else Ensure fresh (sv_holder sv)).2) as -> by by rewrite E.
      destruct (reads_only q); (eapply ids_same_ok; [apply hold_cur_ids|]); [done|by apply ensure_ids]. }
    destruct q; try (destruct (if reads_only _ then _ else _) as [w h'] eqn:E; intros [= <-]; by eapply Hgo).
    unfold reset. destruct (Reset_ now fresh (sv_holder sv)) as [h|] eqn:E; [|done]. cbn [mbind option_bind]. intros [= <-]. by eapply Reset_ids.
  - unfold stream_arrive. destruct (Acquire now fresh (sv_holder sv)) as [[r h]|] eqn:E; [|done]. cbn [mbind option_bind]. intros [= <-].
    by eapply Acquire_ids.
  - unfold respond. destruct (sv_conns sv !! id) as [c|]; [|done]. cbn [mbind option_bind]. destruct c as [q i hd| | |]; try done.
    destruct (ho_sites (sv_holder sv) !! i) as [s|] eqn:Hs; [|done]. cbn [mbind option_bind].
    destruct (serve now fa q s _) as [[[r s'] fr]|] eqn:E; [|done]. cbn [mbind option_bind]. unfold on_site. rewrite Hs. cbn [mbind option_bind].
    intros [= <-]. eapply ids_same_ok; [|exact Hi]. eapply set_site_ids; [done|]. by destruct (serve_site _ _ _ _ _ _ _ _ E) as [->|(o & c & _ & ->)].
  - unfold turn. destruct (sv_conns sv !! id) as [c|]; [|done]. cbn [mbind option_bind]. destruct c as [|st| |]; try done.
    destruct (ho_sites (sv_holder sv) !! sm_site st) as [s|] eqn:Hs; [|done]. cbn [mbind option_bind].
    destruct (stream_turn now a st s) as [[[s' st'] go]|] eqn:E; [|done]. cbn [mbind option_bind]. unfold on_site. rewrite Hs. cbn [mbind option_bind].
    intros [= <-]. eapply ids_same_ok; [|exact Hi]. eapply set_site_ids; [done|]. destruct (stream_turn_site _ _ _ _ _ _ _ E) as ([->|Hr] & _); [done|].
    by destruct (hub_call_fields _ _ _ _ Hr) as (_ & _ & _ & _ & ?).
  - unfold leave_. destruct (sv_conns sv !! id) as [c|]; [|done]. cbn [mbind option_bind]. destruct c as [| |a x|]; try done.
    destruct x as [i hd|i ch hd]; [destruct (hact now (AUnhold i hd) _) as [h|] eqn:E; [|done]|destruct (release now i ch hd _) as [h|] eqn:E; [|done]];
      cbn [mbind option_bind]; intros [= <-]; [by eapply hact_ids|by eapply (hact_ids now (ARelease i ch hd))].
  - destruct (hact now (ATick i b) _) as [h|] eqn:E; [|done]. cbn [mbind option_bind]. intros [= <-]. by eapply hact_ids.
  - destruct (hact now (AControl i o) _) as [h|] eqn:E; [|done]. cbn [mbind option_bind]. intros [= <-]. by eapply hact_ids.
  - by intros [= <-].
Qed.

Lemma sexecs_ids es sv sv' : ids_ok (sv_holder sv) → sexecs es sv = Some sv' → ids_ok (sv_holder sv').
Proof.
  revert sv. induction es as [|[now e] es IH]; intros sv Hi H; [by injection H as <-|]. cbn in H.
  destruct (sexec now e sv) as [sv1|] eqn:E; [|done]. cbn in H. eapply IH; [|done]. by eapply sexec_ids.
Qed.

Lemma newServer_ids p : ids_ok (sv_holder (newServer p)).
Proof. split; [done|]. by exists []. Qed.

(** ** The World a handler gets *)

(** What came of a request by the time it is accepted. *)
Definition accepted_as (sv sv' : server) (c : conn) : Prop := sv_conns sv' !! sv_next sv = Some c.

Lemma accepted_accept c h sv : accepted_as sv (accept c (with_holder h sv)) c.
Proof. unfold accepted_as. cbn. by rewrite lookup_insert_eq. Qed.

Lemma hold_cur_gives h : holder_ok h →
  match ho_cur h with
  | None => hold_cur h = (None, h)
  | Some i => ∃ hd s, (hold_cur h).1 = Some (i, hd) ∧ ho_cur (hold_cur h).2 = Some i ∧
      ho_sites (hold_cur h).2 !! i = Some s ∧ si_stopped s = false
  end.
Proof.
  intros Hok. unfold hold_cur. destruct (ho_cur h) as [i|] eqn:Hc; [|done]. destruct (hk_cur _ Hok _ Hc) as (s & Hs & Hst). rewrite Hs. cbn.
  exists (si_nexthold s), (hold s).2. rewrite list_lookup_insert_eq by (by eapply lookup_lt_Some). done.
Qed.

(** C34. Which World a request gets: a request that is refused touches no World and
    builds none; a reset answers with the name of a World that is running, is
    current and was never named before, or with 503 when it could not be built;
    every other request gets the current World, running, and one is built for it
    only when there is none and it is no read, so 503 no_world means that no World
    was there and none could be built. *)
Theorem request_gets_current_world p es sv now q fresh sv' :
  Forall (λ e, event_ok p e.2) es → sexecs es (newServer p) = Some sv → event_ok p (EvRequest q fresh) → arrive now q fresh sv = Some sv' →
  match refuse q, q with
  | Some r, _ => accepted_as sv sv' (Done (Reply r)) ∧ sv_holder sv' = sv_holder sv
  | None, ReqReset =>
      match fresh with
      | None => accepted_as sv sv' (Done (Reply no_world))
      | Some _ => ∃ s, current (sv_holder sv') = Some s ∧ si_stopped s = false ∧ si_ID s ∉ si_ID <$> ho_sites (sv_holder sv) ∧
          accepted_as sv sv' (Done (Reply (writeJSON 200 (AWorld (si_ID s)))))
      end
  | None, _ =>
      match ho_cur (sv_holder sv), (if reads_only q then None else fresh) with
      | None, None => accepted_as sv sv' (Done (Reply no_world))
      | cur, _ => ∃ i hd s, accepted_as sv sv' (Serving q i hd) ∧ ho_cur (sv_holder sv') = Some i ∧
          ho_sites (sv_holder sv') !! i = Some s ∧ si_stopped s = false ∧ (cur ≠ None → cur = Some i)
      end
  end.
Proof.
  intros He Hrun Hf H. destruct (sexecs_inv p es _ _ (newServer_inv p) He Hrun) as [[Hok _ _] _ HP].
  pose proof (sexecs_ids _ _ _ (newServer_ids p) Hrun) as Hids. cbn [event_ok] in Hf. unfold arrive in H.
  destruct (refuse q) as [r|] eqn:Hr; [injection H as <-; split; [apply accepted_accept|done]|].
  assert (∀ w h', (if reads_only q then Current (sv_holder sv) else Ensure fresh (sv_holder sv)) = (w, h') →
    Some (accept (match w with None => Done (Reply no_world) | Some (i, hd) => Serving q i hd end) (with_holder h' sv)) = Some sv' →
    match ho_cur (sv_holder sv), (if reads_only q then None else fresh) with
    | None, None => accepted_as sv sv' (Done (Reply no_world))
    | cur, _ => ∃ i hd s, accepted_as sv sv' (Serving q i hd) ∧ ho_cur (sv_holder sv') = Some i ∧
        ho_sites (sv_holder sv') !! i = Some s ∧ si_stopped s = false ∧ (cur ≠ None → cur = Some i)
    end) as Hgo.
  { intros w h' E <-%(inj Some).
    assert (∃ h, hold_cur h = (w, h') ∧ holder_ok h ∧ ho_cur h = match ho_cur (sv_holder sv), (if reads_only q then None else fresh) with
      | None, None => None | Some i, _ => Some i | None, Some _ => Some (length (ho_sites (sv_holder sv))) end) as (h & Eh & Hokh & Hch).
    { destruct (reads_only q); [exists (sv_holder sv); split_and!; [done..|by destruct (ho_cur (sv_holder sv))]|].
      exists (ensure_cur fresh (sv_holder sv)). split; [done|]. split; [by apply ensure_ok; [|rewrite HP]|].
      rewrite (proj2 (ensure_cur_cur fresh (sv_holder sv))). by destruct (ho_cur (sv_holder sv)), fresh. }
    pose proof (hold_cur_gives h Hokh) as Hg. rewrite Hch, Eh in Hg.
    cbn [fst snd] in Hg. destruct (ho_cur (sv_holder sv)) as [i|] eqn:Hc; [|destruct (if reads_only q then None else fresh) as [c|]].
    - destruct Hg as (hd & s & -> & ? & ? & ?). exists i, hd, s. split_and!; [apply accepted_accept|done..].
    - destruct Hg as (hd & s & -> & ? & ? & ?). eexists _, hd, s. split_and!; [apply accepted_accept|done..].
    - injection Hg as -> _. apply accepted_accept. }
  destruct q; try (destruct (if reads_only _ then _ else _) as [w h'] eqn:E; by eapply Hgo).
  unfold reset in H. destruct (Reset_ now fresh (sv_holder sv)) as [h|] eqn:E; [|done]. cbn [mbind option_bind] in H. injection H as <-.
  unfold Reset_ in E. destruct (stop_cur now (sv_holder sv)) as [h1|] eqn:Es; [|done]. cbn [mbind option_bind] in E. injection E as <-.
  destruct (stop_cur_ids _ _ _ Es) as [Ei Eq]. pose proof (accepted_accept) as Ha. destruct fresh as [c|]; [|apply Ha].
  exists (mkSite (world_id (ho_seq h1 + 1)) c (hinit (P_ViewerQueue (ho_p h1)) true) ∅ 0 false).
  assert (current (build (Some c) h1) = Some (mkSite (world_id (ho_seq h1 + 1)) c (hinit (P_ViewerQueue (ho_p h1)) true) ∅ 0 false)) as Hcur.
  { unfold current. cbn. by rewrite lookup_app_r, Nat.sub_diag by lia. }
  cbn [sv_holder accept with_holder]. rewrite Hcur. split_and!; [done|done| |apply Ha]. cbn [si_ID]. rewrite Eq. by apply next_id_new.
Qed.
End Answers.
