(* ===== verification/ServerDemo.v ===== *)
(** * cmd/killswitch: concrete runs

    A session of a viewer, two control calls and a reset on the small World, and
    the server's theorems applied to it. *)

From S2P Require Import Prelude GoLib GoFloat Kms Tink KmsModel Fake Lease Cmek Tenant Prog Manager Api.
From S2P Require Import Store Queue Admit Ingest Hub Generator Params Metrics World Scenarios Footprint ScenarioDemo ScenarioSpec.
From S2P Require Import Holder Pages Server ServerInv ServerSpec Streams Answers.
Local Open Scope string_scope.
Local Open Scope Z_scope.

Module SrvDemo.
Import SDemo.
#[local] Existing Instance once_bucket.

Definition ok {A} (x : A) : decoded A := mkDecoded x true.
Definition no_door : door := at_door (Open_store []).
Definition some_facts : facts := mkFacts t0 0 no_door.

(** A viewer comes and receives two snapshots; a revocation starts, a second one
    is refused; a reset ends the stream; all leave. *)
Definition session : list (Time * event_) :=
  [(t0, EvStream start true); (t0, EvTick 0 "s1"); (t0, EvTurn 0 (ArmSnapshot true true)); (t0, EvTick 0 "s2");
   (t0, EvTurn 0 (ArmSnapshot true true)); (t0, EvRequest (ReqStart "key_revocation") None); (t0, EvRespond 1 some_facts);
   (t0, EvRequest (ReqStart "no_cache") None); (t0, EvRespond 2 some_facts); (t0, EvLeave 1);
   (t0, EvRequest ReqReset start); (t0, EvTurn 0 (ArmSnapshot true true))].

Definition reached (es : list (Time * event_)) (f : server → bool) : bool :=
  match sexecs es (newServer Small) with Some sv => f sv | None => false end.
Lemma session_cases es f : reached es f = true → ∃ sv, sexecs es (newServer Small) = Some sv ∧ f sv = true.
Proof. unfold reached. destruct (sexecs es (newServer Small)) as [sv|]; [|done]. by exists sv. Qed.

Lemma session_ok : Forall (λ e, event_ok Small e.2) session.
Proof. repeat constructor; cbn; intros c; first [apply HDemo.start_built|done]. Qed.

(** The stream wrote two frames and ended with the reset; the second scenario got a
    409; the reset was answered with the second World's name. *)
Definition session_end (sv : server) : bool :=
  match sv_conns sv !! 0%nat, sv_conns sv !! 2%nat, sv_conns sv !! 3%nat with
  | Some (Leaving (Streamed st) _), Some (Leaving (Reply r) _), Some (Done (Reply x)) =>
      bool_decide (sm_out st = [retry_frame; sse_frame 1 "s1"; sse_frame 2 "s2"]) && (rs_status r =? 409) && (rs_status x =? 200)
      && match rs_payload x with AWorld id => bool_decide (id = "w-2") | _ => false end
  | _, _, _ => false
  end.
Example session_runs : reached session session_end = true.
Proof. vm_compute. reflexivity. Qed.

Lemma world_counts_its_connections_witness :
  ∃ sv s, sexecs session (newServer Small) = Some sv ∧ ho_sites (sv_holder sv) !! 0%nat = Some s ∧
    Z.of_nat (size (si_holds s)) = 2 ∧ si_viewers s = 0.
Proof.
  assert (reached session (λ sv, match ho_sites (sv_holder sv) !! 0%nat with
    | Some s => si_stopped s && (handlers_on 0 (sv_conns sv) =? 2) | None => false end) = true) as H by (vm_compute; reflexivity).
  destruct (session_cases _ _ H) as (sv & Hsv & Hf). destruct (ho_sites (sv_holder sv) !! 0%nat) as [s|] eqn:Hs; [|discriminate Hf].
  apply andb_true_iff in Hf as [Hst Hn]. apply Z.eqb_eq in Hn. exists sv, s.
  destruct (world_counts_its_connections Small session sv 0 s session_ok Hsv Hs) as [E1 E2]. rewrite Hst in E2.
  split; [exact Hsv|]. split; [exact Hs|]. split; [rewrite E1; exact Hn|exact E2].
Defined.

Definition first_stream (sv : server) : bool :=
  match sv_conns sv !! 0%nat with Some (Leaving (Streamed st) _) => (length (sm_out st) =? 3)%nat | _ => false end.

Lemma stream_is_numbered_snapshots_witness :
  ∃ sv st k tail, sexecs session (newServer Small) = Some sv ∧ sm_out st = (retry_frame :: numbered k ++ tail)%list ∧ length (sm_out st) = 3%nat.
Proof.
  assert (reached session first_stream = true) as H by (vm_compute; reflexivity).
  destruct (session_cases _ _ H) as (sv & Hsv & Hf). unfold first_stream in Hf.
  destruct (sv_conns sv !! 0%nat) as [[q i hd|st|[r|st] x|a]|] eqn:Hc; try discriminate Hf. apply Nat.eqb_eq in Hf.
  destruct (stream_is_numbered_snapshots Small session sv 0 (Leaving (Streamed st) x) st session_ok Hsv Hc eq_refl) as (s & y & k & tail & _ & _ & Ho & _).
  exists sv, st, k, tail. split; [exact Hsv|]. split; [exact Ho|exact Hf].
Defined.

(** The World of the session, and a start of an unknown scenario on it. *)
Definition world_then : option (response * site * front) :=
  sv ← sexecs session (newServer Small); s ← ho_sites (sv_holder sv) !! 1%nat;
  serve t0 some_facts (ReqStart "rain") s (new_front (si_world s)).
Definition unknown_started : bool := match world_then with Some (r, _, _) => rs_status r =? 404 | None => false end.

Lemma answers_tell_outcome_witness :
  ∃ r s s' fr fr', serve t0 some_facts (ReqStart "rain") s fr = Some (r, s', fr') ∧ rs_status r = 404 ∧ s' = s.
Proof.
  assert (unknown_started = true) as H by (vm_compute; reflexivity). unfold unknown_started, world_then in H.
  destruct (sexecs session (newServer Small)) as [sv|]; [|discriminate H]. cbn [mbind option_bind] in H.
  destruct (ho_sites (sv_holder sv) !! 1%nat) as [s|]; [|discriminate H]. cbn [mbind option_bind] in H.
  destruct (serve t0 some_facts (ReqStart "rain") s (new_front (si_world s))) as [[[r s'] fr']|] eqn:E; [|discriminate H]. apply Z.eqb_eq in H.
  exists r, s, s', (new_front (si_world s)), fr'. split; [exact E|]. split; [exact H|].
  destruct (answers_tell_outcome t0 some_facts (ReqStart "rain") s (new_front (si_world s)) r s' fr' E) as [_ Hr].
  refine (proj1 (Hr _)). rewrite H. discriminate.
Defined.

Definition resets (sv : server) : bool := match arrive t0 ReqReset start sv with Some _ => true | None => false end.

Lemma request_gets_current_world_witness :
  ∃ sv sv' s, sexecs session (newServer Small) = Some sv ∧ arrive t0 ReqReset start sv = Some sv' ∧ current (sv_holder sv') = Some s ∧
    si_ID s ∉ si_ID <$> ho_sites (sv_holder sv).
Proof.
  assert (reached session (λ sv, resets sv && match start with Some _ => true | None => false end) = true) as H by (vm_compute; reflexivity).
  destruct (session_cases _ _ H) as (sv & Hsv & Hf). apply andb_true_iff in Hf as [Hr Hst]. unfold resets in Hr.
  destruct (arrive t0 ReqReset start sv) as [sv'|] eqn:E; [|discriminate Hr].
  pose proof (request_gets_current_world Small session sv t0 ReqReset start sv' session_ok Hsv (λ c, HDemo.start_built c) E) as Hg. cbn [refuse] in Hg.
  destruct start as [c|]; [|discriminate Hst]. destruct Hg as (s & Hc & _ & Hn & _). exists sv, sv', s.
  split; [exact Hsv|]. split; [exact E|]. split; [exact Hc|exact Hn].
Defined.
End SrvDemo.
