(* ===== verification/WorldTick.v ===== *)
(** * A World's tick

    The registry's sources wired to the parts of a World as world.go's [New] wires
    them, the tick of a World, and what its snapshot shows of those parts.  The tick
    is the step [CTick] of the control plane's runs. *)

From S2P Require Import Prelude GoLib GoFloat Kms Tink KmsModel Fake Lease Cmek Tenant Prog Manager Api.
From S2P Require Import Store Ingest Generator Params Metrics Hist Hub Tick World Scenarios Footprint ScenarioDemo ScenarioSpec.
From S2P Require Import Demo Pages HistSpec TickSpec Readings Tiles TickDemo.
Local Open Scope string_scope.
Local Open Scope Z_scope.

(** ** Wiring *)

(** The capacity the tile shows: as configured, or workers over the mean latency of
    the sink. *)
Definition capacity_of (p : Params) : float64 :=
  if F.le (P_Capacity p) (F.of_Z 0)
  then F.div (F.of_Z (P_Workers p)) (seconds (Z.quot (dur_add (P_SinkLatencyMin p) (P_SinkLatencyMax p)) 2))
  else P_Capacity p.

Definition tick_config (p : Params) (id : string) : TickConfig :=
  mkTickConfig (P_SnapshotInterval p) (P_P99Window p) (P_SnapshotEvents p) (capacity_of p) id (P_ViewerQueue p) true.

(** The registry's state besides what [World] holds of it. *)
Record rest := mkRest {
  x_hists : Hists; x_delivered : Z; x_ticks : Z; x_states : list Z; x_delRing : list Z; x_delHead : nat; x_open : bool; x_hub : hub }.

Section WorldTick.
Context `{TK : Tink} `{MR : MapRange} `{FM : Fmt} `{LG : GoLog} `{JS : JSON}.

Definition world_meter (p : Params) (id : string) : Meter := NewMeter (metrics_config p) (tick_config p id).

(** The sources of a tick; the targets of a World are grid indexes. *)
Definition sources (st : Store) (inside : gmap string Z) (w : World) : option Sources :=
  offered ← OfferedPS (w_gen w);
  Some (mkSources (grid_states w) (Total st) (λ i, Backlog st (Z.to_nat i)) (Some (Inflight inside)) (Some offered)).

Definition meter_of (id : string) (w : World) (x : rest) : Meter :=
  mkMeter (mt_cfg (world_meter (w_P w) id)) (w_metrics w) (x_hists x) (x_delivered x) (x_ticks x) (x_states x) (x_delRing x) (x_delHead x)
    (w_keyFetch w) (w_last w) (w_peak w) (x_open x) (x_hub x).
Definition world_of (m : Meter) (w : World) : World := with_readings (mt_last m) (mt_peak m) (w_notes w) (with_metrics (mt_reg m) w).
Definition rest_of (m : Meter) : rest :=
  mkRest (mt_hists m) (mt_delivered m) (mt_ticks m) (mt_states m) (mt_delRing m) (mt_delHead m) (mt_open m) (mt_hub m).

Definition world_tick (now : Time) (id : string) (st : Store) (inside : gmap string Z) (w : World) (x : rest) : option (snapshot * World * rest) :=
  so ← sources st inside w;
  '(s, m) ← tick now so (meter_of id w x);
  Some (s, world_of m w, rest_of m).

(** ** The tick in the control plane's runs *)

Lemma world_tick_inv now id st inside w x s w' x' : world_tick now id st inside w x = Some (s, w', x') →
  ∃ so m, sources st inside w = Some so ∧ tick now so (meter_of id w x) = Some (s, m) ∧ w' = world_of m w ∧ x' = rest_of m.
Proof.
  unfold world_tick. destruct (sources st inside w) as [so|]; [|done]. cbn [mbind option_bind].
  destruct (tick now so _) as [[s0 m]|] eqn:E; [|done]. cbn [mbind option_bind]. intros [= <- <- <-]. by exists so, m.
Qed.

(** A World's tick is the control plane's [CTick], so what is proved of its runs
    holds with real ticks in them. *)
Lemma world_tick_is_ctick now id st inside w x s w' x' c : c_world c = w → world_tick now id st inside w x = Some (s, w', x') →
  ∃ healthy all sum, cexec now (CTick healthy all sum (w_last w') (w_peak w')) c = Some (with_world w' c).
Proof.
  intros Hc H. destruct (world_tick_inv _ _ _ _ _ _ _ _ _ H) as (so & m & _ & Et & -> & _).
  destruct (tick_inv _ _ _ _ _ Et) as (sum & all & _ & Er & _). exists (roll (x_hists x)).1.1, all, sum. cbn [cexec]. rewrite Hc.
  unfold world_of. cbn [meter_of mt_reg mt_hists] in Er. by rewrite Er.
Qed.

(** ** What a viewer sees *)

Lemma inflight_of_lookup ps f p : p ∈ ps → inflight_of ps (Some f) !! p = Some (f p).
Proof.
  intros Hp. unfold inflight_of. assert (∀ m : gmap string Z, p ∈ ps ∨ m !! p = Some (f p) → (foldl (λ m p, <[p := f p]> m) m ps) !! p = Some (f p)) as H; [|by apply H; left].
  clear Hp. induction ps as [|q ps IH]; intros m Hm; [destruct Hm as [Hin|]; [set_solver|done]|]. cbn [foldl]. apply IH.
  destruct (decide (p ∈ ps)) as [|Hn]; [by left|right]. destruct (decide (p = q)) as [->|Hne]; [by rewrite lookup_insert_eq|].
  rewrite lookup_insert_ne by done. destruct Hm as [[->|Hin]%elem_of_cons|]; [done|done|done].
Qed.

Lemma card_name r : c_Name (Tick.card r) = sc_name (scen r).
Proof. unfold Tick.card. cbv zeta. by case_bool_decide. Qed.

Lemma state_code_range s : 0 <= state_code s < 4.
Proof. destruct s; cbn; lia. Qed.

(** C32. The page shows the service as it is.  In the snapshot of a World's tick, after
    any calls of its registry and with cells that hold their tenants' states, each
    character of the grid is its tenant's state and target mark; the backlogs are
    the ledger's, in total and over the targets; the offered rate is the
    generator's; the in-flight numbers are the bulkheads'; the card names the
    running scenario; and the key-fetch mode and the World's id are its own. *)
Theorem snapshot_shows_world now id st inside w x ops rs s w' x' :
  mrun ops (world_meter (w_P w) id) = Some (rs, meter_of id w x) →
  length (w_tenants w) = Z.to_nat (P_Tenants (w_P w)) → Forall (λ l, l_cell l = t_state (l_t l)) (w_tenants w) →
  world_tick now id st inside w x = Some (s, w', x') →
  (∀ i l, w_tenants w !! i = Some l →
     s_Grid s !! i = Some (48 + state_code (t_state (l_t l)) + if bool_decide (Z.of_nat i ∈ targets (w_metrics w)) then 4 else 0)) ∧
  s_BacklogTotal s = Total st ∧ s_BacklogAffected s = sumZ ((λ i, Backlog st (Z.to_nat i)) <$> targets (w_metrics w)) ∧
  OfferedPS (w_gen w) = Some (t_OfferedPS (s_Tiles s)) ∧ t_CapacityPS (s_Tiles s) = capacity_of (w_P w) ∧
  (∀ p, p ∈ m_Providers (m_cfg (w_metrics w)) → s_Inflight s !! p = Some (Inflight inside p)) ∧
  c_Name (s_Scenario s) = (Scenario (w_metrics w)).1.1 ∧ s_KeyFetch s = w_keyFetch w ∧ s_World s = id.
Proof.
  intros Hrun Hn Hcells H. destruct (world_tick_inv _ _ _ _ _ _ _ _ _ H) as (so & m & Eso & Et & -> & _).
  unfold sources in Eso. destruct (OfferedPS (w_gen w)) as [offered|]; [|done]. cbn [mbind option_bind] in Eso. apply (inj Some) in Eso as <-.
  pose proof (minv_run _ _ _ _ _ _ _ _ (minv_new (metrics_config (w_P w)) (tick_config (w_P w) id)) Hrun) as Hi.
  pose proof (mi_states _ _ _ _ _ Hi) as Hxs. cbn [meter_of mt_states metrics_config m_Tenants] in Hxs. rewrite length_fmap, length_seq in Hxs.
  destruct (tick_inv _ _ _ _ _ Et) as (sum & all & Hr & E1 & Es & _ & _ & _ & _ & E2 & _).
  destruct (read_targets_spec _ _ _ _ _ _ _ Hr) as [Hsum _]. rewrite Z.add_0_l in Hsum.
  assert (mt_states m = grid_states w) as Hstates.
  { rewrite E2. cbn [so_States meter_of mt_states]. unfold overlay. assert (length (grid_states w) = length (x_states x)) as Hl by (unfold grid_states; rewrite !length_fmap; lia).
    rewrite Hl, drop_all, app_nil_r, <- Hl. by rewrite take_ge. }
  assert (Forall (λ z, 0 <= z < 4) (mt_states m)) as Hrange.
  { rewrite Hstates. unfold grid_states. apply Forall_fmap, Forall_forall. intros c _. apply state_code_range. }
  destruct (grid_and_tiles (metrics_config (w_P w)) (tick_config (w_P w) id) ops rs _ _ _ _ _ Hrun Et Hrange) as (_ & Hgrid & _).
  destruct (tick_registry_shape now (roll (mt_hists (meter_of id w x))).1.1 all sum (mt_reg (meter_of id w x))) as (q & sq & p & c & t & E3). rewrite E3 in E1.
  split_and!.
  - intros i l Hl. apply Hgrid. rewrite Hstates. unfold grid_states. rewrite !list_lookup_fmap, Hl. cbn.
    by rewrite (Forall_lookup_1 _ _ _ _ Hcells Hl).
  - by rewrite Es.
  - rewrite Es. cbn [build_snapshot s_BacklogAffected]. exact Hsum.
  - by rewrite Es.
  - by rewrite Es.
  - intros pr Hp. rewrite Es. cbn [build_snapshot s_Inflight so_Inflight]. rewrite inflight_of_lookup; [done|]. by rewrite E1.
  - rewrite Es. cbn [build_snapshot s_Scenario]. rewrite card_name, E1. cbn [with_timeline with_trans with_scen scen meter_of mt_reg]. unfold stamped.
    by destruct (Time.IsZero _).
  - by rewrite Es.
  - by rewrite Es.
Qed.
End WorldTick.

(** ** Witness *)
Module WTDemo.
#[export] Existing Instances SDemo.fmt HistDemo.step_log TickDemo.tick_json.
#[export] Existing Instances Demo.Demo.list_range Toy.tink.
Definition st0 : Store := Open_store (tenant_id <$> seq 0 20).
Definition x0 : rest := rest_of (world_meter Small "w1").
Definition fits (w : World) : bool :=
  forallb (λ l, bool_decide (l_cell l = t_state (l_t l))) (w_tenants w) && (length (w_tenants w) =? 20)%nat
  && bool_decide (is_Some (world_tick SDemo.t0 "w1" st0 ∅ w x0)).
Lemma built_fits : match SDemo.built with Some w => fits w | None => false end = true.
Proof. vm_compute. reflexivity. Qed.
End WTDemo.
Import WTDemo.

(** A fresh World's registry is the fresh meter. *)
Lemma new_world_meter p byRank zipf material w id : World.New p byRank zipf material = Some w →
  meter_of id w (rest_of (world_meter p id)) = world_meter p id ∧ w_P w = p.
Proof.
  unfold World.New. destruct (mapM _ _); [|done]. cbn [mbind option_bind]. destruct (NewFake _ _); [|done]. cbn [mbind option_bind]. intros [= <-]. done.
Qed.

Lemma snapshot_shows_world_witness : ∃ w s w' x',
  mrun [] (world_meter (w_P w) "w1") = Some ([], meter_of "w1" w x0) ∧ length (w_tenants w) = Z.to_nat (P_Tenants (w_P w)) ∧
  Forall (λ l, l_cell l = t_state (l_t l)) (w_tenants w) ∧ world_tick SDemo.t0 "w1" st0 ∅ w x0 = Some (s, w', x') ∧
  s_BacklogTotal s = 0 ∧ s_KeyFetch s = "async".
Proof.
  pose proof built_fits as H. destruct SDemo.built as [w|] eqn:Ew; [|discriminate H]. unfold fits in H.
  apply andb_true_iff in H as [[Hc Hn]%andb_true_iff Ht]. apply bool_decide_eq_true in Ht as [[[s w'] x'] Ht].
  destruct (new_world_meter _ _ _ _ _ "w1" Ew) as [Em EP]. fold x0 in Em.
  assert (mrun [] (world_meter (w_P w) "w1") = Some ([], meter_of "w1" w x0)) as Hrun by (rewrite EP, Em; reflexivity).
  assert (length (w_tenants w) = Z.to_nat (P_Tenants (w_P w))) as Hlen by (rewrite EP; apply Nat.eqb_eq in Hn; exact Hn).
  assert (Forall (λ l, l_cell l = t_state (l_t l)) (w_tenants w)) as Hcells.
  { apply Forall_forall. intros l Hl. rewrite List.forallb_forall in Hc. exact (bool_decide_eq_true_1 _ (Hc l (proj1 (list_elem_of_In _ _) Hl))). }
  destruct (snapshot_shows_world _ _ _ _ _ _ _ _ _ _ _ Hrun Hlen Hcells Ht) as (_ & HB & _ & _ & _ & _ & _ & HK & _).
  exists w, s, w', x'. split; [exact Hrun|]. split; [exact Hlen|]. split; [exact Hcells|]. split; [exact Ht|].
  split; [rewrite HB; reflexivity|]. rewrite HK. exact (f_equal mt_keyFetch Em).
Defined.
