(* ===== verification/Throttle.v ===== *)
(** * internal/logx/logx.go: the throttled error logger

    Every component that logs from a hot path holds a [Throttle].  A call of
    [Error] is five atomic actions on what the goroutines share (the sync.Map, a
    clock, and the stamp of its message): the goroutines' calls interleave in any
    order, and their clocks may read anything.  The theorems give both halves of
    the package's promise: the log is not flooded, and no error is silent. *)

From S2P Require Import Prelude GoLib.
Local Open Scope Z_scope.

(** ** State *)

(** [last] maps a message to its stamp; the stamps are cells of [cells]. *)
Record Throttle := mkThrottle { th_Log : bool; th_Interval : Duration; last : gmap string nat; cells : list Z }.

Definition NewThrottle (log : bool) (interval : Duration) : Throttle := mkThrottle log interval ∅ [].

(** Where a call stands.  [HasLast] is the local state at the if; the four last
    are returns, of which only [Logged] wrote its line. *)
Inductive pc :=
  | Called | HasStamp (p : nat) | HasNow (p : nat) (now : Z) | HasLast (p : nat) (now seen : Z) | Swapped (now : Z)
  | Disabled | Recent (now seen : Z) | Beaten (now seen : Z) | Logged (now : Z).

(** ** One action of [Error] *)

Definition Milliseconds (d : Duration) : Z := Z.quot d Millisecond.
Definition interval (t : Throttle) : Duration := if th_Interval t <=? 0 then Second else th_Interval t.

(** [LoadOrStore(msg, new(atomic.Int64))]. *)
Definition LoadOrStore (msg : string) (t : Throttle) : nat * Throttle :=
  match last t !! msg with
  | Some p => (p, t)
  | None => let p := length (cells t) in (p, mkThrottle (th_Log t) (th_Interval t) (<[msg := p]> (last t)) (cells t ++ [0])%list)
  end.

Definition Load (p : nat) (t : Throttle) : Z := default 0 (cells t !! p).
Definition CompareAndSwap (p : nat) (old new : Z) (t : Throttle) : bool * Throttle :=
  if Load p t =? old then (true, mkThrottle (th_Log t) (th_Interval t) (last t) (<[p := new]> (cells t))) else (false, t).

(** The next action of a call for [msg] while the clock reads [now]. *)
Definition Error_step (msg : string) (now : Time) (c : pc) (t : Throttle) : pc * Throttle :=
  match c with
  | Called => if negb (th_Log t) then (Disabled, t) else let '(p, t) := LoadOrStore msg t in (HasStamp p, t)
  | HasStamp p => (HasNow p (Time.UnixMilli now), t)
  | HasNow p n => (HasLast p n (Load p t), t)
  | HasLast p n l =>
      if Milliseconds (interval t) <=? wrap64 (n - l)
      then let '(ok, t) := CompareAndSwap p l n t in (if ok : bool then Swapped n else Beaten n l, t)
      else (Recent n l, t)
  | Swapped n => (Logged n, t)
  | Disabled | Recent _ _ | Beaten _ _ | Logged _ => (c, t)
  end.

(** ** Goroutines *)

(** A call, with the number of lines that had been won when it began. *)
Record log_call := mkCall { c_msg : string; c_pc : pc; c_since : nat }.

(** [won] are the lines whose swap succeeded and [written] the ones in the log,
    the newest first; a line is its message and the reading it stamped. *)
Record Logging := mkLogging { thr : Throttle; calls : list log_call; won : list (string * Z); written : list (string * Z) }.

Inductive act := ACall (msg : string) | AStep (i : nat) (now : Time).

Definition lexec (s : Logging) (a : act) : Logging :=
  match a with
  | ACall msg => mkLogging (thr s) (calls s ++ [mkCall msg Called (length (won s))])%list (won s) (written s)
  | AStep i now =>
      match calls s !! i with
      | None => s
      | Some c =>
          let '(pc', t) := Error_step (c_msg c) now (c_pc c) (thr s) in
          mkLogging t (<[i := mkCall (c_msg c) pc' (c_since c)]> (calls s))
            (match c_pc c, pc' with HasLast _ _ _, Swapped n => (c_msg c, n) :: won s | _, _ => won s end)
            (match c_pc c with Swapped n => (c_msg c, n) :: written s | _ => written s end)
      end
  end.
Definition lrun (acts : list act) (s : Logging) : Logging := foldl lexec s acts.
Definition start (log : bool) (iv : Duration) : Logging := mkLogging (NewThrottle log iv) [] [] [].

(** A clock after 1970 and before the end of int64 milliseconds. *)
Definition clocked (a : act) : Prop :=
  match a with ACall _ => True | AStep _ now => 0 <= Time.UnixMilli now <= maxInt64 end.

(** ** Spaced lists *)

Fixpoint spaced (d : Z) (l : list Z) : Prop :=
  match l with [] => True | x :: l' => Forall (λ y, y + d <= x) l' ∧ spaced d l' end.

Lemma spaced_cons d x l : 0 <= d → (∀ y, head l = Some y → y + d <= x) → spaced d l → spaced d (x :: l).
Proof.
  intros Hd Hx Hs. split; [|done]. destruct l as [|y l]; [done|]. destruct Hs as [Hy _]. specialize (Hx y eq_refl).
  constructor; [done|]. eapply Forall_impl; [exact Hy|]. cbn. lia.
Qed.

Lemma spaced_filter d P `{∀ x, Decision (P x)} l : spaced d l → spaced d (filter P l).
Proof.
  induction l as [|x l IH]; [done|]. intros [H1 H2]. rewrite filter_cons. case_decide; [|by apply IH].
  split; [|by apply IH]. apply Forall_forall. intros y [_ Hy]%list_elem_of_filter. by eapply Forall_forall in H1.
Qed.

(** Values at least [d] apart in a span of [k] times [d]. *)
Lemma spaced_count d l a k :
  0 < d → spaced d l → Forall (λ x, a <= x < a + k * d) l → Z.of_nat (length l) <= Z.max 0 k.
Proof.
  intros Hd. revert k. induction l as [|x l IH]; intros k Hs Hf; [cbn; lia|].
  destruct Hs as [H1 Hs]. apply Forall_cons in Hf as [Hx Hf].
  assert (Z.of_nat (length l) <= Z.max 0 (k - 1)) as Hl.
  { apply IH; [done|]. apply Forall_forall. intros y Hy. pose proof (proj1 (Forall_forall _ _) H1 y Hy).
    pose proof (proj1 (Forall_forall _ _) Hf y Hy). cbn in *. nia. }
  cbn [length]. assert (0 < k) by nia. lia.
Qed.

(** ** The invariant *)

Definition stamps (msg : string) (w : list (string * Z)) : list Z := (filter (λ x, x.1 = msg) w).*2.
Arguments stamps : simpl never.
Definition pending (c : log_call) : option (string * Z) := match c_pc c with Swapped n => Some (c_msg c, n) | _ => None end.
(** A line of the call's message won since the call began. *)
Definition meanwhile (c : log_call) (w : list (string * Z)) : Prop :=
  ∃ s, (c_msg c, s) ∈ take (length w - c_since c) w.

Definition stamp_ok (s : Logging) (msg : string) (p : nat) : Prop := last (thr s) !! msg = Some p.
Definition call_ok (s : Logging) (c : log_call) : Prop :=
  (c_since c <= length (won s))%nat ∧
  match c_pc c with
  | Called => True
  | Disabled => th_Log (thr s) = false
  | HasStamp p => stamp_ok s (c_msg c) p
  | HasNow p n => stamp_ok s (c_msg c) p ∧ 0 <= n <= maxInt64
  | HasLast p n l => stamp_ok s (c_msg c) p ∧ 0 <= n <= maxInt64 ∧ 0 <= l <= maxInt64 ∧
      (l = 0 ∨ (c_msg c, l) ∈ won s) ∧ (Load p (thr s) = l ∨ meanwhile c (won s))
  | Swapped n => (c_msg c, n) ∈ won s
  | Logged n => (c_msg c, n) ∈ written s
  | Recent n l => n - l < Milliseconds (interval (thr s)) ∧ (l = 0 ∨ (c_msg c, l) ∈ won s)
  | Beaten n l => meanwhile c (won s)
  end.

Record good (s : Logging) : Prop := mkGood {
  g_bound : ∀ m p, last (thr s) !! m = Some p → (p < length (cells (thr s)))%nat;
  g_inj : ∀ m1 m2 p, last (thr s) !! m1 = Some p → last (thr s) !! m2 = Some p → m1 = m2;
  g_cell : ∀ m p, last (thr s) !! m = Some p → Load p (thr s) = default 0 (head (stamps m (won s)));
  g_new : ∀ m, last (thr s) !! m = None → stamps m (won s) = [];
  g_spaced : ∀ m, spaced (Milliseconds (interval (thr s))) (stamps m (won s));
  g_range : Forall (λ x, 0 <= x.2 <= maxInt64) (won s);
  g_calls : Forall (call_ok s) (calls s);
  g_won : won s ≡ₚ (written s ++ omap pending (calls s))%list }.

(** ** Preservation *)

Lemma meanwhile_app c pre w :
  (c_since c <= length w)%nat → meanwhile c w ∨ (∃ s, (c_msg c, s) ∈ pre) → meanwhile c (pre ++ w).
Proof.
  intros Hl H. unfold meanwhile. rewrite length_app, take_app_ge; [|lia].
  replace (length pre + length w - c_since c - length pre)%nat with (length w - c_since c)%nat by lia.
  destruct H as [[s Hs]|[s Hs]]; exists s; rewrite elem_of_app; [by right|by left].
Qed.

Lemma Milliseconds_nonneg t : 0 <= Milliseconds (interval t).
Proof. unfold Milliseconds, interval. destruct (Z.leb_spec (th_Interval t) 0); [done|]. apply Z.quot_pos; [lia|done]. Qed.

(** What a call knows stays true when stamps are added, lines are won, and a
    stamp only changes with a line of its message. *)
Lemma call_ok_grow s s' pre c :
  last (thr s) ⊆ last (thr s') → th_Log (thr s') = th_Log (thr s) → interval (thr s') = interval (thr s) → won s' = (pre ++ won s)%list →
  (∀ x, x ∈ written s → x ∈ written s') →
  (∀ m p, stamp_ok s m p → Load p (thr s') = Load p (thr s) ∨ ∃ v, (m, v) ∈ pre) →
  call_ok s c → call_ok s' c.
Proof.
  intros Hl Hlg Hi Hw Hwr Hp [Hk Hc]. unfold call_ok, stamp_ok in *. rewrite Hw, Hi, Hlg. split; [rewrite length_app; lia|].
  assert (∀ p, last (thr s) !! c_msg c = Some p → last (thr s') !! c_msg c = Some p) as Hst by (intros; by eapply lookup_weaken).
  destruct (c_pc c); rewrite ?elem_of_app; [done|auto|destruct Hc; split; auto| |auto|done|destruct Hc as [? []]; auto| |auto].
  - destruct Hc as (H1 & H2 & H3 & H4 & H5). split_and!; [auto|lia..|by destruct H4 as [H4|H4]; auto|].
    destruct (Hp _ _ H1) as [->|Hv].
    + destruct H5 as [H5|H5]; [by left|right; apply meanwhile_app; auto].
    + right. apply meanwhile_app; auto.
  - apply meanwhile_app; auto.
Qed.

Lemma omap_insert {A B} (f : A → option B) l i x y :
  l !! i = Some x → ∃ k, omap f l ≡ₚ (option_list (f x) ++ k)%list ∧ omap f (<[i := y]> l) ≡ₚ (option_list (f y) ++ k)%list.
Proof.
  intros H. pose proof (lookup_lt_Some _ _ _ H) as Hlt. apply list_elem_of_split_length in H as (l1 & l2 & -> & ->).
  exists (omap f l1 ++ omap f l2)%list. rewrite insert_app_r_alt, Nat.sub_diag by lia. cbn [insert list_insert].
  assert (∀ z, omap f (l1 ++ z :: l2) ≡ₚ (option_list (f z) ++ omap f l1 ++ omap f l2)%list) as Hz.
  { intros z. rewrite omap_app. cbn. destruct (f z); cbn; [by rewrite Permutation_middle|done]. }
  by rewrite !Hz.
Qed.

Lemma Forall_insert_weaken {A} (P Q : A → Prop) l i x :
  (∀ y, P y → Q y) → Forall P l → Q x → Forall Q (<[i := x]> l).
Proof. intros H Hl Hx. apply Forall_insert; [|done]. by eapply Forall_impl. Qed.

(** A call moves and nothing else changes. *)
Lemma good_move s i c pc' :
  good s → calls s !! i = Some c → pending (mkCall (c_msg c) pc' (c_since c)) = pending c →
  call_ok s (mkCall (c_msg c) pc' (c_since c)) →
  good (mkLogging (thr s) (<[i := mkCall (c_msg c) pc' (c_since c)]> (calls s)) (won s) (written s)).
Proof.
  intros [] Hi Hp Hc. constructor; cbn; try done.
  - by apply Forall_insert_weaken with (P := call_ok s).
  - destruct (omap_insert pending _ _ _ (mkCall (c_msg c) pc' (c_since c)) Hi) as (k & H1 & H2).
    by rewrite g_won0, H1, H2, Hp.
Qed.

Lemma stamps_cons m m' s w : stamps m ((m', s) :: w) = if decide (m' = m) then s :: stamps m w else stamps m w.
Proof. unfold stamps. rewrite filter_cons. cbn. by case_decide. Qed.

Lemma Load_insert p q v t : (q < length (cells t))%nat → Load p (mkThrottle (th_Log t) (th_Interval t) (last t) (<[q := v]> (cells t))) = if decide (p = q) then v else Load p t.
Proof. intros H. unfold Load. cbn. case_decide; [subst; by rewrite list_lookup_insert_eq|by rewrite list_lookup_insert_ne]. Qed.

(** A stamp is made. *)
Lemma good_store s i c :
  good s → calls s !! i = Some c → c_pc c = Called →
  let r := LoadOrStore (c_msg c) (thr s) in
  good (mkLogging r.2 (<[i := mkCall (c_msg c) (HasStamp r.1) (c_since c)]> (calls s)) (won s) (written s)).
Proof.
  intros G Hi Hc. cbv zeta. unfold LoadOrStore. destruct (last (thr s) !! c_msg c) as [p|] eqn:E.
  { apply good_move; [done|done|unfold pending; by rewrite Hc|].
    split; [|done]. by apply (Forall_lookup_1 _ _ _ _ (g_calls _ G) Hi). }
  destruct s as [t cs w wr], t as [lg iv lst cl]. destruct G. cbn in *.
  assert (∀ p, (p < length cl)%nat → Load p (mkThrottle lg iv (<[c_msg c := length cl]> lst) (cl ++ [0])) = Load p (mkThrottle lg iv lst cl)) as Hold.
  { intros p Hp. unfold Load. cbn. by rewrite lookup_app_l. }
  assert (Load (length cl) (mkThrottle lg iv (<[c_msg c := length cl]> lst) (cl ++ [0])) = 0) as Hnew.
  { unfold Load. cbn. by rewrite list_lookup_middle. }
  set (s' := mkLogging (mkThrottle lg iv (<[c_msg c := length cl]> lst) (cl ++ [0])) (<[i := mkCall (c_msg c) (HasStamp (length cl)) (c_since c)]> cs) w wr).
  constructor; cbn.
  - intros m p. rewrite length_app. cbn. rewrite lookup_insert_Some. intros [[_ <-]|[_ H]]; [lia|]. specialize (g_bound0 _ _ H). lia.
  - intros m1 m2 p. rewrite !lookup_insert_Some. intros [[<- <-]|[? H1]] [[<- ?]|[? H2]]; try done.
    + specialize (g_bound0 _ _ H2). lia.
    + specialize (g_bound0 _ _ H1). lia.
    + by eapply g_inj0.
  - intros m p. rewrite lookup_insert_Some. intros [[<- <-]|[? H]]; [by rewrite Hnew, (g_new0 _ E)|].
    rewrite Hold by (by eapply g_bound0). by apply g_cell0.
  - intros m. rewrite lookup_insert_None. intros [H _]. by apply g_new0.
  - done.
  - done.
  - apply Forall_insert_weaken with (P := call_ok (mkLogging (mkThrottle lg iv lst cl) cs w wr)); [|done|].
    + intros y Hy. apply (call_ok_grow _ s' [] _) with (7 := Hy); cbn; [by apply insert_subseteq|done..|].
      intros m p H. left. apply Hold. by eapply g_bound0.
    + pose proof (Forall_lookup_1 _ _ _ _ g_calls0 Hi) as [? _]. split; [done|]. unfold stamp_ok. cbn. by rewrite lookup_insert_eq.
  - destruct (omap_insert pending _ _ _ (mkCall (c_msg c) (HasStamp (length cl)) (c_since c)) Hi) as (k & H1 & H2).
    rewrite H2, g_won0, H1. unfold pending. rewrite Hc. done.
Qed.

(** A swap succeeds. *)
Lemma good_swap s i c p n l :
  good s → calls s !! i = Some c → c_pc c = HasLast p n l →
  Milliseconds (interval (thr s)) <= n - l → Load p (thr s) = l →
  good (mkLogging (mkThrottle (th_Log (thr s)) (th_Interval (thr s)) (last (thr s)) (<[p := n]> (cells (thr s))))
          (<[i := mkCall (c_msg c) (Swapped n) (c_since c)]> (calls s)) ((c_msg c, n) :: won s) (written s)).
Proof.
  intros G Hi Hc Hn Hl. destruct s as [t cs w wr]. pose proof (Forall_lookup_1 _ _ _ _ (g_calls _ G) Hi) as [Hk Hok].
  rewrite Hc in Hok. destruct Hok as (Hst & Hr & _). destruct G. unfold stamp_ok in *. cbn in *.
  pose proof (g_bound0 _ _ Hst) as Hp.
  set (t' := mkThrottle (th_Log t) (th_Interval t) (last t) (<[p := n]> (cells t))).
  constructor; cbn.
  - intros m q H. rewrite length_insert. by eapply g_bound0.
  - done.
  - intros m q H. unfold t'. rewrite Load_insert by done. rewrite stamps_cons. destruct (decide (q = p)) as [->|Hne].
    + rewrite (g_inj0 _ _ _ Hst H). by rewrite decide_True.
    + rewrite decide_False; [by apply g_cell0|]. intros <-. congruence.
  - intros m H. rewrite stamps_cons. case_decide as E; [|by apply g_new0]. subst m. congruence.
  - intros m. rewrite stamps_cons. change (interval t') with (interval t). case_decide as Hm; [|by apply g_spaced0].
    apply spaced_cons; [apply Milliseconds_nonneg| |by apply g_spaced0]. subst m. intros y Hy.
    rewrite (g_cell0 _ _ Hst), Hy in Hl. cbn in Hl. lia.
  - by constructor.
  - apply Forall_insert_weaken with (P := call_ok (mkLogging t cs w wr)); [|done|split; cbn; [lia|by left]].
    intros y Hy. apply (call_ok_grow _ (mkLogging t' _ _ wr) [(c_msg c, n)] _) with (7 := Hy); cbn; [done..|].
    unfold stamp_ok. cbn. intros m q H. unfold t'. rewrite Load_insert by done. case_decide as Hq; [|by left].
    subst q. right. exists n. rewrite (g_inj0 _ _ _ H Hst). by left.
  - destruct (omap_insert pending _ _ _ (mkCall (c_msg c) (Swapped n) (c_since c)) Hi) as (k & H1 & H2).
    rewrite H2, g_won0, H1. unfold pending. rewrite Hc. cbn. by rewrite Permutation_middle.
Qed.

Lemma wrap64_gap n l : 0 <= n <= maxInt64 → 0 <= l <= maxInt64 → wrap64 (n - l) = n - l.
Proof. intros. apply wrap64_id. unfold minInt64, maxInt64 in *. lia. Qed.

Lemma lexec_good s a : clocked a → good s → good (lexec s a).
Proof.
  intros Ha G. destruct a as [msg|i now]; cbn in *.
  { destruct G. constructor; cbn; try done.
    - apply Forall_app. split; [|by repeat constructor]. done.
    - rewrite omap_app. cbn. by rewrite app_nil_r. }
  destruct (calls s !! i) as [c|] eqn:Hi; [|done].
  pose proof (Forall_lookup_1 _ _ _ _ (g_calls _ G) Hi) as [Hk Hok].
  destruct (c_pc c) as [|p|p n|p n l|n| |n l|n l|n] eqn:Hc; cbn [Error_step].
  - destruct (th_Log (thr s)) eqn:Elog; cbn [negb]; [|apply good_move; [done..|unfold pending; by rewrite Hc|by split]].
    pose proof (good_store _ _ _ G Hi Hc) as H. destruct (LoadOrStore _ _). exact H.
  - apply good_move; [done..|unfold pending; by rewrite Hc|by split].
  - destruct Hok as [Hst Hr]. apply good_move; [done..|unfold pending; by rewrite Hc|]. split; [done|]. cbn.
    assert (Load p (thr s) = 0 ∨ (c_msg c, Load p (thr s)) ∈ won s) as Hl.
    { rewrite (g_cell _ G _ _ Hst). unfold stamps. destruct (filter _ (won s)) as [|[m v] f] eqn:Ef; [by left|right]. cbn.
      assert ((m, v) ∈ filter (λ x, x.1 = c_msg c) (won s)) as [<- ?]%list_elem_of_filter by (rewrite Ef; by left). done. }
    split_and!; try done; try lia; try (by left).
    + destruct Hl as [->|Hl]; [lia|]. apply (proj1 (Forall_forall _ _) (g_range _ G)) in Hl; cbn in Hl; lia.
    + destruct Hl as [->|Hl]; [done|]. apply (proj1 (Forall_forall _ _) (g_range _ G)) in Hl; cbn in Hl; lia.
  - destruct Hok as (Hst & Hn & Hl & Hin & Hm). rewrite wrap64_gap by done. destruct (Z.leb_spec (Milliseconds (interval (thr s))) (n - l)) as [Hiv|Hiv].
    + unfold CompareAndSwap. destruct (Z.eqb_spec (Load p (thr s)) l) as [Heq|Hne].
      * by apply (good_swap _ _ _ p n l).
      * apply good_move; [done..|unfold pending; by rewrite Hc|]. split; [done|]. cbn. by destruct Hm.
    + apply good_move; [done..|unfold pending; by rewrite Hc|]. by split.
  - destruct (omap_insert pending _ _ _ (mkCall (c_msg c) (Logged n) (c_since c)) Hi) as (k & H1 & H2). destruct G. constructor; cbn; try done.
    + apply Forall_insert_weaken with (P := call_ok s); [|done|split; [done|by left]].
      intros y Hy. apply (call_ok_grow s _ [] _) with (7 := Hy); cbn; [done..|by right|by left].
    + rewrite H2, g_won0, H1. unfold pending. rewrite Hc. cbn. by rewrite Permutation_middle.
  - apply good_move; [done..|unfold pending; by rewrite Hc|by split].
  - apply good_move; [done..|unfold pending; by rewrite Hc|by split].
  - apply good_move; [done..|unfold pending; by rewrite Hc|by split].
  - apply good_move; [done..|unfold pending; by rewrite Hc|by split].
Qed.

Lemma start_good log iv : good (start log iv).
Proof. by constructor. Qed.

Lemma lrun_good acts s : Forall clocked acts → good s → good (lrun acts s).
Proof. revert s. induction acts as [|a acts IH]; intros s; [done|]. intros [Ha H]%Forall_cons G. apply IH; [done|by apply lexec_good]. Qed.

(** ** What the log shows *)

Lemma stamps_filter m (P : Z → Prop) `{∀ z, Decision (P z)} w : filter P (stamps m w) = (filter (λ x, x.1 = m ∧ P x.2) w).*2.
Proof.
  induction w as [|[m' z] w IH]; [done|]. rewrite stamps_cons, filter_cons. cbn. destruct (decide (m' = m)) as [->|Hm].
  - rewrite filter_cons. destruct (decide (P z)); [rewrite decide_True by done; cbn; by rewrite IH|rewrite decide_False by tauto; done].
  - rewrite decide_False by tauto. done.
Qed.

Lemma lrun_cfg acts s : th_Log (thr (lrun acts s)) = th_Log (thr s) ∧ th_Interval (thr (lrun acts s)) = th_Interval (thr s).
Proof.
  revert s. induction acts as [|a acts IH]; intros s; [done|]. change (lrun (a :: acts) s) with (lrun acts (lexec s a)). destruct (IH (lexec s a)) as [-> ->]. clear IH.
  destruct a as [msg|i now]; [done|]. cbn. destruct (calls s !! i) as [c|]; [|done].
  destruct (c_pc c); cbn; try done.
  - destruct (negb _); [done|]. unfold LoadOrStore. by destruct (last _ !! _).
  - destruct (_ <=? _); [|done]. unfold CompareAndSwap. by destruct (_ =? _).
Qed.

(** The milliseconds a throttle keeps between two lines. *)
Definition gap (iv : Duration) : Z := Milliseconds (interval (NewThrottle true iv)).

Lemma gap_run acts log iv : Milliseconds (interval (thr (lrun acts (start log iv)))) = gap iv.
Proof. unfold gap, interval. by destruct (lrun_cfg acts (start log iv)) as [_ ->]. Qed.


(** Lines issued: in the log, or held by a call whose next action writes it. *)
Definition issued (s : Logging) (x : string * Z) : Prop :=
  x ∈ written s ∨ ∃ i c, calls s !! i = Some c ∧ c_msg c = x.1 ∧ c_pc c = Swapped x.2.

Lemma won_issued s x : good s → x ∈ won s → issued s x.
Proof.
  intros G. rewrite (g_won _ G), elem_of_app, list_elem_of_omap. intros [H|(c & Hc & Hp)]; [by left|right].
  apply list_elem_of_lookup in Hc as [i Hi]. exists i, c. unfold pending in Hp. destruct (c_pc c); try done. by simplify_eq.
Qed.

(** How a call of [Error] that read [n] on its clock may end. *)
Definition accounted (s : Logging) (iv : Duration) (c : log_call) : Prop :=
  match c_pc c with
  | Logged n => (c_msg c, n) ∈ written s
  | Recent n _ => n < gap iv ∨ ∃ m, issued s (c_msg c, m) ∧ n < m + gap iv
  | Beaten n _ => ∃ m, issued s (c_msg c, m) ∧ (c_msg c, m) ∈ take (length (won s) - c_since c) (won s)
  | Disabled => False
  | _ => True
  end.

(** No error is silent: with a logger, every call of [Error] that has returned
    wrote its line, or read its clock less than an interval after a line of the
    same message that is in the log or about to be (or less than an interval after
    1970), or lost the swap to such a line issued since the call began. *)
Theorem no_error_is_silent iv acts i c :
  Forall clocked acts → let s := lrun acts (start true iv) in calls s !! i = Some c → accounted s iv c.
Proof.
  intros Ha s Hi. pose proof (lrun_good acts _ Ha (start_good true iv)) as G. fold s in G.
  assert (th_Log (thr s) = true) as Hlog by apply lrun_cfg.
  pose proof (Forall_lookup_1 _ _ _ _ (g_calls _ G) Hi) as [_ H]. unfold accounted. pose proof (gap_run acts true iv) as Hg. fold s in Hg.
  destruct (c_pc c); try done.
  - by rewrite Hlog in H.
  - rewrite Hg in H. destruct H as [H [->|Hw]]; [left; lia|right]. exists seen. split; [by apply won_issued|lia].
  - destruct H as [m Hm]. exists m. split; [|done]. apply won_issued; [done|]. by eapply elem_of_take in Hm as (? & ? & _); apply list_elem_of_lookup_2 in H.
Qed.

(** A call returns within five of its own actions, whatever the others do. *)
Definition left_ (c : pc) : nat :=
  match c with Called => 5 | HasStamp _ => 4 | HasNow _ _ => 3 | HasLast _ _ _ => 2 | Swapped _ => 1 | _ => 0 end.
Definition step_of (i : nat) (a : act) : nat := match a with AStep j _ => if (j =? i)%nat then 1%nat else 0%nat | ACall _ => 0%nat end.
Definition steps_of (i : nat) (acts : list act) : nat := sum_list_with (step_of i) acts.

Lemma lexec_left s a i c :
  calls s !! i = Some c → ∃ c', calls (lexec s a) !! i = Some c' ∧ c_msg c' = c_msg c ∧ (left_ (c_pc c') + steps_of i [a] <= left_ (c_pc c) ∨ left_ (c_pc c') = 0)%nat.
Proof.
  intros Hi. destruct a as [msg|j now]; cbn.
  { exists c. rewrite lookup_app_l by (by eapply lookup_lt_Some). split_and!; [done|done|]. cbn. lia. }
  destruct (calls s !! j) as [cj|] eqn:Hj.
  - destruct (decide (j = i)) as [->|Hne].
    + rewrite Hi in Hj. injection Hj as <-. destruct (Error_step _ _ _ _) as [pc' t] eqn:E. cbn.
      exists (mkCall (c_msg c) pc' (c_since c)). rewrite list_lookup_insert_eq by (by eapply lookup_lt_Some). split_and!; [done|done|].
      cbn. rewrite Nat.eqb_refl. revert E.
      destruct (c_pc c); cbn; unfold CompareAndSwap, LoadOrStore; repeat case_match; intros [= <- <-]; cbn; lia.
    + destruct (Error_step _ _ _ _) as [pc' t]. cbn. exists c. rewrite list_lookup_insert_ne by done. split_and!; [done|done|].
      cbn. rewrite (proj2 (Nat.eqb_neq j i)) by done. lia.
  - exists c. split_and!; [done|done|]. cbn. rewrite (proj2 (Nat.eqb_neq j i)) by congruence. lia.
Qed.

Theorem error_returns_in_five acts s i c :
  calls s !! i = Some c → (5 <= steps_of i acts)%nat → ∃ c', calls (lrun acts s) !! i = Some c' ∧ c_msg c' = c_msg c ∧ left_ (c_pc c') = 0%nat.
Proof.
  intros Hi Hn. assert (left_ (c_pc c) <= steps_of i acts)%nat as H by (destruct (c_pc c); cbn; lia). clear Hn.
  revert s c Hi H. induction acts as [|a acts IH]; intros s c Hi H; [exists c; split_and!; [done|done|]; cbn in H; lia|].
  change (lrun (a :: acts) s) with (lrun acts (lexec s a)). destruct (lexec_left s a i c Hi) as (c' & Hi' & <- & Hl).
  apply IH; [done|]. unfold steps_of in *. cbn [sum_list_with] in *. lia.
Qed.

(** ** Witnesses: two goroutines race on one message, a third comes late *)
Local Open Scope string_scope.
Local Open Scope Z_scope.
Module ThDemo.
Definition at_ (ms : Z) : Time := Time.ofUnixMilli ms.
Definition acts : list act :=
  [ACall "insert"; ACall "insert"; AStep 0 (at_ 0); AStep 1 (at_ 0); AStep 0 (at_ 5000); AStep 1 (at_ 5001); AStep 0 (at_ 0); AStep 1 (at_ 0);
   AStep 1 (at_ 0); AStep 0 (at_ 0); AStep 1 (at_ 0); ACall "insert"; AStep 2 (at_ 0); AStep 2 (at_ 5900); AStep 2 (at_ 0); AStep 2 (at_ 0);
   ACall "insert"; AStep 3 (at_ 0); AStep 3 (at_ 6001); AStep 3 (at_ 0); AStep 3 (at_ 0); AStep 3 (at_ 0)].
Abbreviation final := (lrun acts (start true 0)).
(** The second call wins the race, the first is beaten, the third comes within
    the second, the fourth after it. *)
Example outcomes : c_pc <$> calls final = [Beaten 5000 0; Logged 5001; Recent 5900 5001; Logged 6001].
Proof. vm_compute. reflexivity. Qed.
Lemma acts_clocked : Forall clocked acts.
Proof.
  assert (forallb (λ a, match a with ACall _ => true | AStep _ now => (0 <=? Time.UnixMilli now) && (Time.UnixMilli now <=? maxInt64) end) acts = true) as H
    by (vm_compute; reflexivity).
  apply Forall_forall. intros a Ha. rewrite forallb_forall in H. specialize (H a (proj1 (list_elem_of_In _ _) Ha)).
  destruct a; cbn in *; [done|]. lia.
Qed.
End ThDemo.


Lemma no_error_is_silent_witness : ∃ c, calls ThDemo.final !! 0%nat = Some c ∧ c_pc c = Beaten 5000 0 ∧ accounted ThDemo.final 0 c.
Proof.
  exists (mkCall "insert" (Beaten 5000 0) 0).
  assert (calls ThDemo.final !! 0%nat = Some (mkCall "insert" (Beaten 5000 0) 0)) as H by (vm_compute; reflexivity).
  split; [exact H|]. split; [reflexivity|]. exact (no_error_is_silent 0 ThDemo.acts 0 _ ThDemo.acts_clocked H).
Defined.

Lemma error_returns_in_five_witness :
  ∃ c', calls (lrun (replicate 5 (AStep 0 (ThDemo.at_ 5000))) (lrun [ACall "x"] (start true 0))) !! 0%nat = Some c' ∧ c_pc c' = Logged 5000.
Proof.
  destruct (error_returns_in_five (replicate 5 (AStep 0 (ThDemo.at_ 5000))) (lrun [ACall "x"] (start true 0)) 0 (mkCall "x" Called 0)) as (c' & H & _).
  - reflexivity.
  - apply le_n.
  - exists c'. split; [exact H|]. vm_compute in H. injection H as <-. reflexivity.
Defined.
