(* ===== verification/Database.v ===== *)
(** * internal/queue/store.go: opening and closing the database

    [Open] and [Close] as programs over what they do outside: remove a file, open
    a handle of database/sql, run a statement, close a handle.  Each of these may
    fail, at any point and in any combination, and the driver may make and delete
    files whenever it is called.  The theorems say that nothing opened is left
    open, on any path. *)

From S2P Require Import Prelude GoLib Kms Tink Lease Cmek Store.
Local Open Scope string_scope.
Local Open Scope Z_scope.

(** ** What Open and Close touch *)

(** The ten prepared statements, in the order [Open] prepares them. *)
Inductive stmt := Insert_ | PutDEK_ | Claim_ | Ack_ | Release_ | Dead_ | Reclaim_ | ReclaimCount_ | Expire_ | ExpireCount_.
Definition statements : list stmt :=
  [Insert_; PutDEK_; Claim_; Ack_; Release_; Dead_; Reclaim_; ReclaimCount_; Expire_; ExpireCount_].

Definition sql_text (q : stmt) : string :=
  match q with
  | Insert_ => "INSERT INTO messages (id, tenant_id, dek_id, ciphertext, state, attempts, enqueued_at) VALUES (?1,?2,?3,?4,'ready',0,?5)"
  | PutDEK_ => "INSERT INTO deks (id, tenant_id, kek_id, kek_version, wrapped_dek, created_at) VALUES (?1,?2,?3,?4,?5,?6)"
  | Claim_ => "UPDATE messages SET state='claimed', claimed_until=?1 WHERE id IN (SELECT id FROM messages WHERE tenant_id=?2 AND state='ready' ORDER BY id LIMIT ?3) RETURNING id, dek_id, ciphertext, attempts, enqueued_at"
  | Ack_ => "DELETE FROM messages WHERE state='claimed' AND id IN (SELECT value FROM json_each(?1))"
  | Release_ => "UPDATE messages SET state='ready', claimed_until=NULL WHERE state='claimed' AND id IN (SELECT value FROM json_each(?1))"
  | Dead_ => "UPDATE messages SET state='dead', claimed_until=NULL, attempts=attempts+1 WHERE id=?1 AND state='claimed'"
  | Reclaim_ => "UPDATE messages SET state='ready', claimed_until=NULL WHERE state='claimed' AND claimed_until < ?1"
  | ReclaimCount_ => "SELECT tenant_id, COUNT(*) FROM messages WHERE state='claimed' AND claimed_until < ?1 GROUP BY tenant_id"
  | Expire_ => "DELETE FROM messages WHERE id IN (SELECT id FROM messages WHERE state='ready' AND enqueued_at < ?1 ORDER BY id LIMIT ?2)"
  | ExpireCount_ => "SELECT tenant_id, COUNT(*) FROM (SELECT tenant_id FROM messages WHERE state='ready' AND enqueued_at < ?1 ORDER BY id LIMIT ?2) GROUP BY tenant_id"
  end.

#[export] Instance stmt_eq_dec : EqDecision stmt.
Proof. solve_decision. Defined.
#[export] Instance stmt_countable : Countable stmt.
Proof.
  refine (inj_countable' (λ q, match q with Insert_ => 0 | PutDEK_ => 1 | Claim_ => 2 | Ack_ => 3 | Release_ => 4 | Dead_ => 5
     | Reclaim_ => 6 | ReclaimCount_ => 7 | Expire_ => 8 | ExpireCount_ => 9 end%nat)
    (λ n, match n with 0 => Insert_ | 1 => PutDEK_ | 2 => Claim_ | 3 => Ack_ | 4 => Release_ | 5 => Dead_
     | 6 => Reclaim_ | 7 => ReclaimCount_ | 8 => Expire_ | _ => ExpireCount_ end%nat) _).
  by intros [].
Defined.

(** What has to be closed: the writer pool, its pinned connection, the prepared
    statements and the reader pool. *)
Inductive db_handle := HWriter | HConn | HReader | HStmt (q : stmt).
#[export] Instance handle_eq_dec : EqDecision db_handle.
Proof. solve_decision. Defined.
#[export] Instance handle_countable : Countable db_handle.
Proof.
  refine (inj_countable' (λ h, match h with HWriter => inl (inl ()) | HConn => inl (inr ()) | HReader => inr (inl ()) | HStmt q => inr (inr q) end)
    (λ x, match x with inl (inl _) => HWriter | inl (inr _) => HConn | inr (inl _) => HReader | inr (inr q) => HStmt q end) _).
  by intros [].
Defined.

(** A call out. *)
Inductive op :=
  | ORemove (path : string) | OSqlOpen (h : db_handle) (dsn : string) | OConn
  | OExec (sql : string) | OQueryRow (sql : string) | OPrepare (q : stmt) | OClose (h : db_handle) | OSetMaxOpenConns (h : db_handle) (n : Z).

(** The process: the files of the directory, the open handles of this store, the
    calls out so far (the newest first) and the error lines logged. *)
Record proc := mkProc { files : gset string; handles : gset db_handle; trace : list op; logged : list (string * string * err) }.

(** ** Configuration *)

Definition schema : string :=
"
CREATE TABLE IF NOT EXISTS deks (
  id          TEXT    PRIMARY KEY,
  tenant_id   TEXT    NOT NULL,
  kek_id      TEXT    NOT NULL,
  kek_version INTEGER NOT NULL,
  wrapped_dek BLOB    NOT NULL,
  created_at  INTEGER NOT NULL
);
CREATE TABLE IF NOT EXISTS messages (
  id            INTEGER PRIMARY KEY,
  tenant_id     TEXT    NOT NULL,
  dek_id        TEXT    NOT NULL,
  ciphertext    BLOB    NOT NULL,
  state         TEXT    NOT NULL CHECK (state IN ('ready','claimed','dead')),
  attempts      INTEGER NOT NULL DEFAULT 0,
  enqueued_at   INTEGER NOT NULL,
  claimed_until INTEGER
);
CREATE INDEX IF NOT EXISTS messages_tenant_state_id ON messages (tenant_id, state, id);
CREATE INDEX IF NOT EXISTS messages_claimed_until   ON messages (claimed_until) WHERE state = 'claimed';
".

Record StoreConfig := mkStoreConfig { sc_Path : string; sc_Tenants : list string; sc_SyncMode : string; sc_WALAutocheckpoint : Z }.

Definition store_defaults (c : StoreConfig) : StoreConfig :=
  mkStoreConfig (sc_Path c) (sc_Tenants c) (if bool_decide (sc_SyncMode c = "") then "normal" else sc_SyncMode c)
    (if sc_WALAutocheckpoint c <=? 0 then 4000 else sc_WALAutocheckpoint c).
Definition suffixes : list string := [""; "-wal"; "-shm"].
Definition db_files (path : string) : list string := (λ s, path +:+ s) <$> suffixes.
Definition dsn (c : StoreConfig) : string :=
  "file:" +:+ sc_Path c +:+ "?_pragma=journal_mode(wal)&_pragma=synchronous(" +:+ sc_SyncMode c +:+ ")&_pragma=busy_timeout(5000)".
Definition pragmas (c : StoreConfig) : list string :=
  ["PRAGMA wal_autocheckpoint = " +:+ Itoa (sc_WALAutocheckpoint c); "PRAGMA temp_store = MEMORY"; "PRAGMA cache_size = -65536"].
Definition read_back : list string := ["journal_mode"; "synchronous"; "wal_autocheckpoint"].

(** The handles a [Store] holds: [None] is nil. *)
Record Conns := mkConns { cn_wdb : bool; cn_w : bool; cn_rdb : bool; cn_stmts : list stmt }.

(** What an error of [Open] says of its cause. *)
Inductive open_err :=
  | EPlain (e : err) | EPragma (p : string) (e : err) | ESchema (e : err) | ERead (name : string) (e : err) | EPrepare (q : string) (e : err).

Definition ErrNotExist : err := Sentinel "os.ErrNotExist" "file does not exist".
Definition stale_msg : string := "stale database file not removed".
Definition left_msg : string := "database file not removed".

Section Database.
(** What a call out answers, and what the driver makes of the files at it, given
    all the calls before. *)
Context (answer : list op → op → option err) (touch : list op → op → gset string → gset string).

(** ** Calls out *)

Definition sql (o : op) (p : proc) : option err * proc :=
  (answer (trace p) o, mkProc (touch (trace p) o (files p)) (handles p) (o :: trace p) (logged p)).

(** A handle is open when its call succeeds, and closed whatever [Close] answers. *)
Definition open_handle (o : op) (h : db_handle) (p : proc) : option err * proc :=
  let '(e, p) := sql o p in
  match e with Some _ => (e, p) | None => (None, mkProc (files p) ({[h]} ∪ handles p) (trace p) (logged p)) end.
Definition close (h : db_handle) (p : proc) : option err * proc :=
  let '(e, p) := sql (OClose h) p in (e, mkProc (files p) (handles p ∖ {[h]}) (trace p) (logged p)).

(** [os.Remove]. *)
Definition Remove (path : string) (p : proc) : option err * proc :=
  let p' fs := mkProc fs (handles p) (ORemove path :: trace p) (logged p) in
  if bool_decide (path ∈ files p) then
    match answer (trace p) (ORemove path) with Some e => (Some e, p' (files p)) | None => (None, p' (files p ∖ {[path]})) end
  else (Some ErrNotExist, p' (files p)).

(** The loop over the three files: the errors but for a missing file, logged. *)
Fixpoint remove_files (msg : string) (paths : list string) (p : proc) : list err * proc :=
  match paths with
  | [] => ([], p)
  | path :: paths =>
      let '(e, p) := Remove path p in
      match e with
      | Some e =>
          if errors.Is e ErrNotExist then remove_files msg paths p
          else
            let '(es, p) := remove_files msg paths (mkProc (files p) (handles p) (trace p) ((msg, path, e) :: logged p)) in
            (e :: es, p)
      | None => remove_files msg paths p
      end
  end.

(** ** Close *)

(** Statements are closed and their errors dropped. *)
Fixpoint close_stmts (qs : list stmt) (p : proc) : proc :=
  match qs with [] => p | q :: qs => close_stmts qs (close (HStmt q) p).2 end.
Definition close_if (present : bool) (h : db_handle) (p : proc) : list err * proc :=
  if present then let '(e, p) := close h p in (option_list e, p) else ([], p).

(** [Close]; the errors joined, none for nil. *)
Definition Close (c : StoreConfig) (s : Conns) (p : proc) : list err * proc :=
  let p := close_stmts (filter (λ q, q ∈ cn_stmts s) statements) p in
  let '(e1, p) := close_if (cn_w s) HConn p in
  let '(e2, p) := close_if (cn_wdb s) HWriter p in
  let '(e3, p) := close_if (cn_rdb s) HReader p in
  let '(e4, p) := remove_files left_msg (db_files (sc_Path c)) p in
  ((e1 ++ e2 ++ e3 ++ e4)%list, p).

(** ** Open *)

(** Statements run for their effect or their answer, up to the first that fails. *)
Fixpoint run_all (mk : string → op) (wrap : string → err → open_err) (qs : list string) (p : proc) : option open_err * proc :=
  match qs with
  | [] => (None, p)
  | q :: qs => let '(e, p) := sql (mk q) p in match e with Some e => (Some (wrap q e), p) | None => run_all mk wrap qs p end
  end.

(** [prep] over the statements left; [s] has the ones prepared. *)
Fixpoint prepare_all (qs : list stmt) (s : Conns) (p : proc) : option open_err * Conns * proc :=
  match qs with
  | [] => (None, s, p)
  | q :: qs =>
      let '(e, p) := open_handle (OPrepare q) (HStmt q) p in
      match e with
      | Some e => (Some (EPrepare (sql_text q) e), s, p)
      | None => prepare_all qs (mkConns (cn_wdb s) (cn_w s) (cn_rdb s) (cn_stmts s ++ [q])%list) p
      end
  end.

Definition fail (c : StoreConfig) (s : Conns) (e : open_err) (p : proc) : (open_err + Conns) * proc := (inl e, (Close c s p).2).

Definition Open (c : StoreConfig) (p : proc) : (open_err + Conns) * proc :=
  let c := store_defaults c in
  let '(_, p) := remove_files stale_msg (db_files (sc_Path c)) p in
  let '(e, p) := open_handle (OSqlOpen HWriter (dsn c)) HWriter p in
  match e with Some e => (inl (EPlain e), p) | None =>
  let '(_, p) := sql (OSetMaxOpenConns HWriter 1) p in
  let '(e, p) := open_handle OConn HConn p in
  match e with Some e => (inl (EPlain e), (close HWriter p).2) | None =>
  let s := mkConns true true false [] in
  let '(e, p) := run_all OExec EPragma (pragmas c) p in
  match e with Some e => fail c s e p | None =>
  let '(e, p) := run_all OExec (λ _, ESchema) [schema] p in
  match e with Some e => fail c s e p | None =>
  let '(e, p) := run_all (λ name, OQueryRow ("PRAGMA " +:+ name)) ERead read_back p in
  match e with Some e => fail c s e p | None =>
  let '(e, s, p) := prepare_all statements s p in
  match e with Some e => fail c s e p | None =>
  let '(e, p) := open_handle (OSqlOpen HReader (dsn c)) HReader p in
  match e with Some e => fail c s (EPlain e) p | None =>
  let '(_, p) := sql (OSetMaxOpenConns HReader 2) p in
  (inr (mkConns (cn_wdb s) (cn_w s) true (cn_stmts s)), p)
  end end end end end end end.

(** ** What each part does to the handles and the files *)

Lemma Remove_handles path p : handles (Remove path p).2 = handles p.
Proof. unfold Remove. case_bool_decide; [|done]. by destruct (answer _ _). Qed.

Lemma remove_files_handles msg paths p : handles (remove_files msg paths p).2 = handles p.
Proof.
  revert p. induction paths as [|f fs IH]; intros p; [done|]. cbn. pose proof (Remove_handles f p) as H.
  destruct (Remove f p) as [[e|] p1]; cbn in H; [|by rewrite IH]. destruct (errors.Is _ _); [by rewrite IH|].
  match goal with |- context [remove_files msg fs ?q] => specialize (IH q); destruct (remove_files msg fs q) end. cbn in *. congruence.
Qed.

(** A file that survives its removal has an error, which is returned and logged. *)
Definition survivors (msg : string) (paths : list string) (es : list err) (p : proc) : Prop :=
  ∀ f, f ∈ paths → f ∈ files p → ∃ e, e ∈ es ∧ (msg, f, e) ∈ logged p.

(** What os promises: a file that exists is not reported missing. *)
Definition os_tells_truth : Prop := ∀ t path e, answer t (ORemove path) = Some e → errors.Is e ErrNotExist = false.

Lemma Remove_spec path p :
  os_tells_truth →
  let '(e, p') := Remove path p in
  files p' ⊆ files p ∧ logged p' = logged p ∧ (path ∈ files p' → ∃ e', e = Some e' ∧ errors.Is e' ErrNotExist = false).
Proof.
  intros Hos. unfold Remove. case_bool_decide as Hin; [|by split_and!].
  destruct (answer _ _) as [e|] eqn:E; cbn; split_and!; try done; [|set_solver|set_solver]. intros _. exists e. split; [done|]. by eapply Hos.
Qed.

Lemma remove_files_spec msg paths p :
  os_tells_truth →
  let '(es, p') := remove_files msg paths p in
  files p' ⊆ files p ∧ logged p ⊆ logged p' ∧ survivors msg paths es p'.
Proof.
  intros Hos. revert p. induction paths as [|f fs IH]; intros p; cbn.
  { split_and!; [done|done|by intros ? ?%elem_of_nil]. }
  pose proof (Remove_spec f p Hos) as Hr. destruct (Remove f p) as [[e|] p1]; destruct Hr as (Hf & Hl & Hk).
  - destruct (errors.Is e ErrNotExist) eqn:Ee.
    + specialize (IH p1). destruct (remove_files msg fs p1) as [es p2]. destruct IH as (H1 & H2 & H3). rewrite Hl in H2. split_and!; [set_solver|done|].
      intros g [->|Hg]%elem_of_cons Hg2; [|by apply H3]. destruct (Hk (H1 _ Hg2)) as (e' & [= <-] & ?). congruence.
    + specialize (IH (mkProc (files p1) (handles p1) (trace p1) ((msg, f, e) :: logged p1))). destruct (remove_files msg fs _) as [es p2].
      cbn in IH. destruct IH as (H1 & H2 & H3). rewrite Hl in H2. split_and!; [set_solver|set_solver|].
      intros g [->|Hg]%elem_of_cons Hg2; [exists e; split; [by left|set_solver]|].
      destruct (H3 g Hg Hg2) as (e' & ? & ?). exists e'. split; [by right|done].
  - specialize (IH p1). destruct (remove_files msg fs p1) as [es p2]. destruct IH as (H1 & H2 & H3). rewrite Hl in H2. split_and!; [set_solver|done|].
    intros g [->|Hg]%elem_of_cons Hg2; [|by apply H3]. destruct (Hk (H1 _ Hg2)) as (e' & ? & _). done.
Qed.

Lemma close_stmts_spec qs p : handles (close_stmts qs p) = handles p ∖ list_to_set (HStmt <$> qs) ∧ logged (close_stmts qs p) = logged p.
Proof.
  revert p. induction qs as [|q qs IH]; intros p; cbn [close_stmts]; [split; [set_solver|done]|].
  destruct (IH (close (HStmt q) p).2) as [-> ->]. cbn. split; [set_solver|done].
Qed.

Lemma close_if_handles b h p : handles (close_if b h p).2 = handles p ∖ (if b then {[h]} else ∅).
Proof. destruct b; cbn; set_solver. Qed.

(** The handles of a store. *)
Definition held (s : Conns) : gset db_handle :=
  (if cn_wdb s then {[HWriter]} else ∅) ∪ (if cn_w s then {[HConn]} else ∅) ∪ (if cn_rdb s then {[HReader]} else ∅)
  ∪ list_to_set (HStmt <$> cn_stmts s).

Lemma in_statements q : q ∈ statements.
Proof. apply (bool_decide_unpack _). by destruct q. Qed.

Lemma stmts_of (qs : list stmt) :
  list_to_set (HStmt <$> filter (λ q, q ∈ qs) statements) =@{gset db_handle} list_to_set (HStmt <$> qs).
Proof.
  apply set_eq. intros h. rewrite !elem_of_list_to_set, !list_elem_of_fmap. split; intros (q & -> & Hq); exists q; (split; [done|]).
  - by apply list_elem_of_filter in Hq as [? _].
  - apply list_elem_of_filter. split; [done|apply in_statements].
Qed.

(** [Close] closes what the store holds, whatever fails, and no file of the
    database is left unless its removal failed, which it returns and logs. *)
Lemma Close_spec c s p :
  let '(es, p') := Close c s p in
  handles p' = handles p ∖ held s ∧ (os_tells_truth → survivors left_msg (db_files (sc_Path c)) es p').
Proof.
  unfold Close.
  pose proof (close_stmts_spec (filter (λ q, q ∈ cn_stmts s) statements) p) as [H0 _]. set (p0 := close_stmts _ p) in *.
  pose proof (close_if_handles (cn_w s) HConn p0) as H1. destruct (close_if (cn_w s) HConn p0) as [e1 p1].
  pose proof (close_if_handles (cn_wdb s) HWriter p1) as H2. destruct (close_if (cn_wdb s) HWriter p1) as [e2 p2].
  pose proof (close_if_handles (cn_rdb s) HReader p2) as H3. destruct (close_if (cn_rdb s) HReader p2) as [e3 p3].
  pose proof (remove_files_handles left_msg (db_files (sc_Path c)) p3) as H4.
  pose proof (remove_files_spec left_msg (db_files (sc_Path c)) p3) as H5.
  destruct (remove_files left_msg _ p3) as [e4 p4]. cbn [snd] in *. split.
  - rewrite H4, H3, H2, H1, H0. rewrite (stmts_of (cn_stmts s)). unfold held. rewrite !difference_difference_l_L. f_equal.
    by rewrite (comm_L (∪)), !(assoc_L (∪)), (comm_L (∪) (if cn_w s then _ else _)), <- !(assoc_L (∪)).
  - intros Hos f Hf Hin. destruct (H5 Hos) as (_ & _ & H6). destruct (H6 f Hf Hin) as (e & He & Hl). exists e. split; [|done].
    by rewrite !elem_of_app; auto.
Qed.
Lemma run_all_handles mk wrap qs p : handles (run_all mk wrap qs p).2 = handles p.
Proof. revert p. induction qs as [|q qs IH]; intros p; [done|]. cbn. destruct (answer _ _); [done|]. by rewrite IH. Qed.

Lemma open_handle_handles o h p :
  let '(e, p') := open_handle o h p in handles p' = match e with Some _ => handles p | None => {[h]} ∪ handles p end.
Proof. unfold open_handle. cbn. by destruct (answer _ _). Qed.

Lemma prepare_all_spec qs s p :
  handles p = held s →
  let '(e, s', p') := prepare_all qs s p in
  handles p' = held s' ∧ (e = None → s' = mkConns (cn_wdb s) (cn_w s) (cn_rdb s) (cn_stmts s ++ qs)%list).
Proof.
  revert s p. induction qs as [|q qs IH]; intros s p H; cbn [prepare_all].
  { rewrite app_nil_r. split; [done|]. by destruct s. }
  pose proof (open_handle_handles (OPrepare q) (HStmt q) p) as Ho. destruct (open_handle _ _ p) as [[e|] p1]; [by rewrite Ho|].
  specialize (IH (mkConns (cn_wdb s) (cn_w s) (cn_rdb s) (cn_stmts s ++ [q])%list) p1).
  destruct (prepare_all qs _ p1) as [[e s'] p']. cbn in IH. rewrite <- app_assoc in IH. apply IH.
  rewrite Ho, H. unfold held. cbn. rewrite fmap_app, list_to_set_app_L. cbn. set_solver.
Qed.

(** How [Open] may end: nothing is open and, past the first connection, no file
    of the database is left but those whose removal failed, which is logged; or
    the store holds every handle, and those are the open ones. *)
Definition cleaned (c : StoreConfig) (p : proc) : Prop :=
  ∀ f, f ∈ db_files (sc_Path c) → f ∈ files p → ∃ e, (left_msg, f, e) ∈ logged p.
Definition opened (c : StoreConfig) (r : (open_err + Conns) * proc) : Prop :=
  match r with
  | (inl e, p) => handles p = ∅ ∧ (os_tells_truth → (∃ e', e = EPlain e') ∨ cleaned c p)
  | (inr s, p) => s = mkConns true true true statements ∧ handles p = held s
  end.

Lemma fail_opened c s e p : handles p = held s → opened c (fail (store_defaults c) s e p).
Proof.
  intros H. unfold fail, opened. pose proof (Close_spec (store_defaults c) s p) as Hc.
  destruct (Close _ s p) as [es p']. destruct Hc as [H1 H2]. cbn [snd]. split; [rewrite H1, H; set_solver|].
  intros Hos. right. intros f Hf Hin. destruct (H2 Hos f Hf Hin) as (e' & _ & He). by exists e'.
Qed.

Lemma Open_spec c p : handles p = ∅ → opened c (Open c p).
Proof.
  intros Hp. unfold Open. cbv zeta.
  pose proof (remove_files_handles stale_msg (db_files (sc_Path (store_defaults c))) p) as H0. destruct (remove_files _ _ p) as [es p0]. cbn [snd] in H0.
  pose proof (open_handle_handles (OSqlOpen HWriter (dsn (store_defaults c))) HWriter p0) as H1.
  destruct (open_handle _ _ p0) as [[e|] p1]; [split; [congruence|eauto]|].
  cbn [sql]. set (p2 := mkProc _ _ _ _). assert (handles p2 = {[HWriter]}) as H2 by (cbn; rewrite H1, H0, Hp; set_solver).
  pose proof (open_handle_handles OConn HConn p2) as H3. destruct (open_handle _ _ p2) as [[e|] p3].
  { split; [cbn; rewrite H3, H2; set_solver|eauto]. }
  assert (handles p3 = held (mkConns true true false [])) as H4 by (rewrite H3, H2; unfold held; cbn; set_solver).
  pose proof (run_all_handles OExec EPragma (pragmas (store_defaults c)) p3) as H5. destruct (run_all _ _ _ p3) as [[e|] p4]; [apply fail_opened; cbn in H5; congruence|].
  pose proof (run_all_handles OExec (λ _, ESchema) [schema] p4) as H6. destruct (run_all _ _ _ p4) as [[e|] p5]; [apply fail_opened; cbn [snd] in *; congruence|].
  pose proof (run_all_handles (λ name, OQueryRow ("PRAGMA " +:+ name)) ERead read_back p5) as H7. destruct (run_all _ _ _ p5) as [[e|] p6]; [apply fail_opened; cbn [snd] in *; congruence|].
  pose proof (prepare_all_spec statements (mkConns true true false []) p6) as H8. destruct (prepare_all _ _ p6) as [[e s] p7].
  destruct H8 as [H8 H9]; [cbn [snd] in *; congruence|]. destruct e as [e|]; [by apply fail_opened|]. specialize (H9 eq_refl). subst s.
  pose proof (open_handle_handles (OSqlOpen HReader (dsn (store_defaults c))) HReader p7) as H10.
  destruct (open_handle _ _ p7) as [[e|] p8]; [apply fail_opened; congruence|]. split; [done|]. cbn [handles].
  rewrite H10, H8. unfold held. cbn [cn_wdb cn_w cn_rdb cn_stmts]. set_solver.
Qed.


(** [Close] undoes [Open]: of a store that [Open] returned, and whatever the
    driver did to the files since, [Close] leaves no handle open, even when
    closing reports errors; and when it returns nil no file of the database is
    left. *)
Theorem close_undoes_open c p0 s p1 p es p' :
  handles p0 = ∅ → Open c p0 = (inr s, p1) → handles p = handles p1 → Close (store_defaults c) s p = (es, p') →
  handles p' = ∅ ∧ (os_tells_truth → survivors left_msg (db_files (sc_Path c)) es p' ∧ (es = [] → ∀ f, f ∈ db_files (sc_Path c) → f ∉ files p')).
Proof.
  intros H0 Ho Hp Hc. pose proof (Open_spec c p0 H0) as H. rewrite Ho in H. destruct H as [-> H1].
  pose proof (Close_spec (store_defaults c) (mkConns true true true statements) p) as H. rewrite Hc in H. destruct H as [H2 H3].
  split; [rewrite H2, Hp, H1; set_solver|]. intros Hos. specialize (H3 Hos). split; [done|]. intros -> f Hf Hin.
  destruct (H3 f Hf Hin) as (e & ?%elem_of_nil & _). done.
Qed.
End Database.

(** ** Witnesses *)
Module DbDemo.
Definition cfg : StoreConfig := mkStoreConfig "/tmp/k.db" ["t-0"] "" 0.
Definition boom : err := ErrText "disk I/O error".
(** The driver makes the database and its log with the first connection, and the
    shared memory with the first statement. *)
Definition driver (_ : list op) (o : op) (fs : gset string) : gset string :=
  match o with
  | OConn => {["/tmp/k.db"; "/tmp/k.db-wal"]} ∪ fs
  | OExec _ => {["/tmp/k.db-shm"]} ∪ fs
  | _ => fs
  end.
(** A disk where preparing one statement fails, and one where nothing does but
    closing the writer. *)
Definition prepare_fails (_ : list op) (o : op) : option err := match o with OPrepare Claim_ => Some boom | _ => None end.
Definition closing_fails (_ : list op) (o : op) : option err := match o with OClose HWriter => Some boom | _ => None end.
Definition connect_fails (_ : list op) (o : op) : option err := match o with OConn => Some boom | _ => None end.
(** A process that finds a stale file. *)
Definition fresh : proc := mkProc {["/tmp/k.db-wal"; "/tmp/other"]} ∅ [] [].

Lemma prepare_truth : os_tells_truth prepare_fails.
Proof. by intros t path e. Qed.
Lemma closing_truth : os_tells_truth closing_fails.
Proof. by intros t path e. Qed.

(** A store opened, and closed. *)
Definition all : Conns := mkConns true true true statements.
Definition p1 : proc := (Open closing_fails driver cfg fresh).2.
Definition closed : list err * proc := Close closing_fails driver (store_defaults cfg) all p1.
Lemma opens_all : (Open closing_fails driver cfg fresh).1 = inr all.
Proof. vm_compute. reflexivity. Qed.
Lemma opens : Open closing_fails driver cfg fresh = (inr all, p1).
Proof. rewrite <- opens_all. apply surjective_pairing. Qed.
Lemma reports : closed.1 = [boom].
Proof. vm_compute. reflexivity. Qed.

(** A first connection that fails leaves what the driver made of the files: this
    exit of [Open] closes the pool and removes nothing. *)
Example failed_connection_leaves_files :
  let r := Open connect_fails driver cfg fresh in
  r.1 = inl (EPlain boom) ∧ elements (handles r.2) = [] ∧ bool_decide ("/tmp/k.db" ∈ files r.2) = true.
Proof. vm_compute. split_and!; reflexivity. Qed.
End DbDemo.


Lemma close_undoes_open_witness :
  ∃ s p1 es p', Open DbDemo.closing_fails DbDemo.driver DbDemo.cfg DbDemo.fresh = (inr s, p1) ∧
    Close DbDemo.closing_fails DbDemo.driver (store_defaults DbDemo.cfg) s p1 = (es, p') ∧ es = [DbDemo.boom] ∧ handles p' = ∅.
Proof.
  exists DbDemo.all, DbDemo.p1, DbDemo.closed.1, DbDemo.closed.2. split; [exact DbDemo.opens|]. split; [exact (surjective_pairing _)|].
  split; [exact DbDemo.reports|].
  exact (proj1 (close_undoes_open DbDemo.closing_fails DbDemo.driver DbDemo.cfg DbDemo.fresh DbDemo.all DbDemo.p1 DbDemo.p1 _ _ eq_refl DbDemo.opens eq_refl (surjective_pairing _))).
Defined.
