(* ===== verification/Lifecycle.v ===== *)
(** * internal/world/world.go: the life of one World

    [New], [Start] and [Stop] with the goroutines they start and wait for: the
    World's two wait groups, the flag that keeps scenarios from starting late,
    the handlers' holds, the bounded wait, and the store that is opened first and
    closed last.  The store's calls out are [Database.v]'s. *)

From S2P Require Import Prelude GoLib Kms Tink Lease Cmek Store Database.
Local Open Scope string_scope.
Local Open Scope Z_scope.

(** ** State *)

(** What a goroutine of a World runs: the five loops [Start] spawns, a scenario's
    run, and what the key manager's default [Spawn] starts. *)
Inductive gkind := GWorkers | GGenerator | GMetrics | GSweep | GChecker | GScenario | GFetch.
#[export] Instance gkind_eq : EqDecision gkind.
Proof. solve_decision. Defined.

(** Those [w.wg] counts: [spawn] and [StartScenario] add to it, the key manager does
    not know it. *)
Definition counted (k : gkind) : bool := match k with GFetch => false | _ => true end.
Definition inventory : list gkind := [GWorkers; GGenerator; GMetrics; GSweep; GChecker].

(** Where the routine that owns the World is: in [Start], serving, or at a
    statement of [Stop]. *)
Inductive owner :=
  | InStart (todo : list gkind)
  | Serving
  | StopMarked
  | StopCancelled
  | StopChannelsClosed
  | StopWaiting (since : Time)
  | StopWaited (late : bool)
  | Stopped (late : bool) (errs : list err).

(** The goroutine of [Stop] that waits for the two groups in turn. *)
Inductive waiter := NoWaiter | WaitsGroup | WaitsHandlers | WaitsNothing.

(** Who runs a statement of the store: a goroutine, or a handler through its hold. *)
Inductive user := UGoroutine (k : gkind) | UHandler.

Record life := mkLife {
  l_proc : proc; l_conns : Conns;
  l_ended : bool; l_stopping : bool;
  l_wg : Z; l_handlers : Z;
  l_run : gmap nat gkind; l_next : nat; l_holds : gset nat;
  l_owner : owner; l_waiter : waiter;
  l_late_uses : list user }.

Definition running (f : gkind → bool) (l : life) : gmap nat gkind := filter (λ e, f e.2 = true) (l_run l).

(** ** New *)

Inductive new_err := EEmptyID | EOpen (e : open_err).

(** The path [New] gives its store; [join] is [filepath.Join] and [pid] the process. *)
Definition db_path (join : string → string → string) (tmp : string) (pid : Z) (dir id : string) : string :=
  join (if bool_decide (dir = "") then tmp else dir) ("killswitch-" +:+ Itoa pid +:+ "-" +:+ id +:+ ".db").

Lemma string_app_cancel_r (t a b : string) : a +:+ t = b +:+ t → a = b.
Proof.
  intros H. apply bytes_of_inj, (app_inv_tail (bytes_of t)). by rewrite <- !bytes_of_app, H.
Qed.

(** Two Worlds of a process never share a database file. *)
Lemma db_path_inj join tmp pid dir id id' :
  (∀ d f f', join d f = join d f' → f = f') → db_path join tmp pid dir id = db_path join tmp pid dir id' → id = id'.
Proof.
  intros Hj H. apply Hj in H. apply (inj (String.append _)) in H. apply (inj (String.append _)) in H.
  apply (inj (String.append _)) in H. by apply string_app_cancel_r in H.
Qed.

Section Lifecycle.
Context (answer : list op → op → option err) (touch : list op → op → gset string → gset string).

(** [New] as far as it can fail: no id, or a store that does not open. *)
Definition NewWorld (cfg : StoreConfig) (id : string) (p : proc) : (new_err + life) * proc :=
  if bool_decide (id = "") then (inl EEmptyID, p)
  else
    let '(r, p) := Open answer touch cfg p in
    match r with
    | inl e => (inl (EOpen e), p)
    | inr s => (inr (mkLife p s false false 0 0 ∅ 0 ∅ (InStart inventory) NoWaiter []), p)
    end.

(** ** Steps *)

Inductive levent :=
  | LSpawn
  | LScenario (n : nat)
  | LFetch
  | LEnd (g : nat)
  | LHold (n : nat)
  | LRelease (n : nat)
  | LUse (u : nat + nat) (q : stmt)
  | LStop
  | LCancel
  | LCloseAll
  | LWait (now : Time)
  | LWaiter
  | LDone
  | LTimeout (now : Time)
  | LClose.

Definition with_owner (o : owner) (l : life) : life :=
  mkLife (l_proc l) (l_conns l) (l_ended l) (l_stopping l) (l_wg l) (l_handlers l) (l_run l) (l_next l) (l_holds l)
    o (l_waiter l) (l_late_uses l).
Definition with_waiter (w : waiter) (l : life) : life :=
  mkLife (l_proc l) (l_conns l) (l_ended l) (l_stopping l) (l_wg l) (l_handlers l) (l_run l) (l_next l) (l_holds l)
    (l_owner l) w (l_late_uses l).
(** [go f()]; [w.wg.Add(1)] before it where the kind is counted. *)
Definition go (k : gkind) (l : life) : life :=
  mkLife (l_proc l) (l_conns l) (l_ended l) (l_stopping l) (l_wg l + (if counted k then 1 else 0)) (l_handlers l)
    (<[l_next l := k]> (l_run l)) (S (l_next l)) (l_holds l) (l_owner l) (l_waiter l) (l_late_uses l).
(** Its end, with [w.wg.Done()]. *)
Definition ends (g : nat) (k : gkind) (l : life) : life :=
  mkLife (l_proc l) (l_conns l) (l_ended l) (l_stopping l) (l_wg l - (if counted k then 1 else 0)) (l_handlers l)
    (delete g (l_run l)) (l_next l) (l_holds l) (l_owner l) (l_waiter l) (l_late_uses l).

(** The loops return when the context ends; a scenario and a fetch end by
    themselves too. *)
Definition may_end (k : gkind) (l : life) : bool := match k with GScenario | GFetch => true | _ => l_ended l end.

(** The one who uses the store, while it may. *)
Definition user_of (u : nat + nat) (l : life) : option user :=
  match u with
  | inl g => UGoroutine <$> l_run l !! g
  | inr n => if bool_decide (n ∈ l_holds l) then Some UHandler else None
  end.
Definition closed_store (l : life) : bool := match l_owner l with Stopped _ _ => true | _ => false end.

Definition lstep (timeout : Duration) (c : StoreConfig) (e : levent) (l : life) : option life :=
  match e with
  | LSpawn =>
      match l_owner l with
      | InStart (k :: todo) => Some (with_owner (match todo with [] => Serving | _ => InStart todo end) (go k l))
      | _ => None
      end
  | LScenario n =>
      (* StartScenario, by a handler: the check and the Add are under s.mu *)
      if bool_decide (n ∈ l_holds l) && negb (l_stopping l) then Some (go GScenario l) else None
  | LFetch =>
      (* by a goroutine or a handler *)
      if bool_decide (l_run l = ∅) && bool_decide (l_holds l = ∅) then None else Some (go GFetch l)
  | LEnd g =>
      match l_run l !! g with
      | Some k => if may_end k l then Some (ends g k l) else None
      | None => None
      end
  | LHold n =>
      (* under Holder.mu, which Stop's caller has *)
      match l_owner l with
      | Serving =>
          if bool_decide (n ∈ l_holds l) then None
          else Some (mkLife (l_proc l) (l_conns l) (l_ended l) (l_stopping l) (l_wg l) (l_handlers l + 1) (l_run l) (l_next l)
                       ({[n]} ∪ l_holds l) (l_owner l) (l_waiter l) (l_late_uses l))
      | _ => None
      end
  | LRelease n =>
      (* once.Do: the first release counts, the others do nothing *)
      if bool_decide (n ∈ l_holds l)
      then Some (mkLife (l_proc l) (l_conns l) (l_ended l) (l_stopping l) (l_wg l) (l_handlers l - 1) (l_run l) (l_next l)
                   (l_holds l ∖ {[n]}) (l_owner l) (l_waiter l) (l_late_uses l))
      else Some l
  | LUse u q =>
      who ← user_of u l;
      Some (mkLife (sql answer touch (OExec (sql_text q)) (l_proc l)).2 (l_conns l) (l_ended l) (l_stopping l) (l_wg l)
              (l_handlers l) (l_run l) (l_next l) (l_holds l) (l_owner l) (l_waiter l)
              (if closed_store l then who :: l_late_uses l else l_late_uses l))
  | LStop =>
      match l_owner l with
      | Serving => Some (mkLife (l_proc l) (l_conns l) (l_ended l) true (l_wg l) (l_handlers l) (l_run l) (l_next l)
                           (l_holds l) StopMarked (l_waiter l) (l_late_uses l))
      | _ => None
      end
  | LCancel =>
      match l_owner l with
      | StopMarked => Some (mkLife (l_proc l) (l_conns l) true (l_stopping l) (l_wg l) (l_handlers l) (l_run l) (l_next l)
                              (l_holds l) StopCancelled (l_waiter l) (l_late_uses l))
      | _ => None
      end
  | LCloseAll => match l_owner l with StopCancelled => Some (with_owner StopChannelsClosed l) | _ => None end
  | LWait now =>
      match l_owner l with
      | StopChannelsClosed => Some (with_waiter WaitsGroup (with_owner (StopWaiting now) l))
      | _ => None
      end
  | LWaiter =>
      match l_waiter l with
      | WaitsGroup => if l_wg l =? 0 then Some (with_waiter WaitsHandlers l) else None
      | WaitsHandlers => if l_handlers l =? 0 then Some (with_waiter WaitsNothing l) else None
      | _ => None
      end
  | LDone =>
      match l_owner l, l_waiter l with
      | StopWaiting _, WaitsNothing => Some (with_owner (StopWaited false) l)
      | _, _ => None
      end
  | LTimeout now =>
      match l_owner l with
      | StopWaiting since => if Time.Add since timeout <=? now then Some (with_owner (StopWaited true) l) else None
      | _ => None
      end
  | LClose =>
      match l_owner l with
      | StopWaited late =>
          let '(es, p) := Close answer touch c (l_conns l) (l_proc l) in
          Some (mkLife p (l_conns l) (l_ended l) (l_stopping l) (l_wg l) (l_handlers l) (l_run l) (l_next l) (l_holds l)
                  (Stopped late es) (l_waiter l) (l_late_uses l))
      | _ => None
      end
  end.

Fixpoint lruns (timeout : Duration) (c : StoreConfig) (es : list levent) (l : life) : option life :=
  match es with [] => Some l | e :: es => l' ← lstep timeout c e l; lruns timeout c es l' end.

(** A World from its [New] on. *)
Inductive lives (timeout : Duration) (cfg : StoreConfig) : life → Prop :=
  | lives_new id p0 l p : handles p0 = ∅ → NewWorld cfg id p0 = (inr l, p) → lives timeout cfg l
  | lives_step e l l' : lives timeout cfg l → lstep timeout (store_defaults cfg) e l = Some l' → lives timeout cfg l'.
End Lifecycle.

(** ** The wait groups count *)

Section Invariant.
Context (answer : list op → op → option err) (touch : list op → op → gset string → gset string).
Context (timeout : Duration) (cfg : StoreConfig).

Definition stopping_ok (l : life) : Prop :=
  match l_owner l with
  | InStart _ | Serving => l_waiter l = NoWaiter
  | StopMarked | StopCancelled | StopChannelsClosed => l_stopping l = true ∧ l_waiter l = NoWaiter
  | StopWaiting _ | StopWaited true | Stopped true _ => l_stopping l = true
  | StopWaited false | Stopped false _ => l_stopping l = true ∧ l_waiter l = WaitsNothing
  end.

(** What the waiter has seen stays so. *)
Definition waiter_ok (l : life) : Prop :=
  match l_waiter l with
  | WaitsHandlers => running counted l = ∅
  | WaitsNothing => running counted l = ∅ ∧ l_holds l = ∅
  | _ => True
  end.

Definition store_ok_ (l : life) : Prop :=
  l_conns l = mkConns true true true statements ∧
  handles (l_proc l) = if closed_store l then ∅ else held (l_conns l).

Record lok (l : life) : Prop := {
  lk_wg : l_wg l = Z.of_nat (size (running counted l));
  lk_handlers : l_handlers l = Z.of_nat (size (l_holds l));
  lk_next : ∀ g, (l_next l <= g)%nat → l_run l !! g = None;
  lk_stopping : stopping_ok l;
  lk_waiter : waiter_ok l;
  lk_store : store_ok_ l;
  lk_late : match l_owner l with
            | Stopped false _ => ∀ u, u ∈ l_late_uses l → u = UGoroutine GFetch
            | Stopped true _ => True
            | _ => l_late_uses l = []
            end }.

Lemma running_go f k l :
  l_run l !! l_next l = None → running f (go k l) = if f k : bool then <[l_next l := k]> (running f l) else running f l.
Proof.
  intros Hn. unfold running. cbn. destruct (f k) eqn:Ek; [by apply map_filter_insert_True|].
  rewrite map_filter_insert_False by (cbn; congruence). by rewrite delete_id.
Qed.

Lemma go_wg k l : lok l → l_wg (go k l) = Z.of_nat (size (running counted (go k l))).
Proof.
  intros Hl. pose proof (lk_next _ Hl _ (le_n _)) as Hn. rewrite running_go by done. cbn. rewrite (lk_wg _ Hl).
  destruct (counted k); [|lia]. rewrite map_size_insert_None; [lia|].
  apply map_lookup_filter_None. by left.
Qed.

Lemma running_ends g k l : l_run l !! g = Some k →
  running counted (ends g k l) = delete g (running counted l) ∧
  Z.of_nat (size (delete g (running counted l))) = Z.of_nat (size (running counted l)) - (if counted k then 1 else 0).
Proof.
  intros Hg. unfold running. cbn. rewrite map_filter_delete. split; [done|]. destruct (counted k) eqn:Ek.
  - assert (filter (λ e, counted e.2 = true) (l_run l) !! g = Some k) as H by (by apply map_lookup_filter_Some).
    rewrite map_size_delete_Some by (by exists k).
    assert (size (filter (λ e, counted e.2 = true) (l_run l)) ≠ 0%nat) as Hne.
    { intros He. apply map_size_empty_inv in He. by rewrite He in H. }
    lia.
  - rewrite delete_id; [lia|]. apply map_lookup_filter_None. right. intros k' Hk'. cbn. congruence.
Qed.

(** Nothing new is counted once [Stop] has begun. *)
Lemma go_ok k l :
  lok l → (counted k = true → l_waiter l = NoWaiter) → lok (go k l).
Proof.
  intros Hl Hk. pose proof (lk_next _ Hl _ (le_n _)) as Hn. split; [by apply go_wg|apply Hl| |apply Hl| |apply Hl|apply Hl].
  - intros g Hg. cbn in *. rewrite lookup_insert_ne by lia. apply (lk_next _ Hl). lia.
  - pose proof (lk_waiter _ Hl) as Hw. unfold waiter_ok in *. change (l_waiter (go k l)) with (l_waiter l).
    rewrite running_go by done. destruct (counted k); [by rewrite Hk|done].
Qed.

Lemma ends_ok g k l : lok l → l_run l !! g = Some k → lok (ends g k l).
Proof.
  intros Hl Hg. destruct (running_ends g k l Hg) as [Hr Hs]. split; [|apply Hl| |apply Hl| |apply Hl|apply Hl].
  - rewrite Hr, Hs. cbn. by rewrite (lk_wg _ Hl).
  - intros g' Hg'. cbn in *. apply lookup_delete_None. right. by apply (lk_next _ Hl).
  - pose proof (lk_waiter _ Hl) as Hw. unfold waiter_ok in *. change (l_waiter (ends g k l)) with (l_waiter l).
    rewrite Hr. destruct (l_waiter l); try done; [by rewrite Hw, delete_empty|].
    destruct Hw as [-> Hw]. by rewrite delete_empty.
Qed.

(** A use of the store: after a clean [Stop] it can only be a fetch's. *)
Lemma late_user u l who errs :
  lok l → l_owner l = Stopped false errs → user_of u l = Some who → who = UGoroutine GFetch.
Proof.
  intros Hl Ho Hu. pose proof (lk_stopping _ Hl) as Hs. unfold stopping_ok in Hs. rewrite Ho in Hs. destruct Hs as [_ Hw].
  pose proof (lk_waiter _ Hl) as H. unfold waiter_ok in H. rewrite Hw in H. destruct H as [Hr Hh].
  destruct u as [g|n]; cbn in Hu.
  - destruct (l_run l !! g) as [k|] eqn:Eg; [|done]. injection Hu as <-. destruct (counted k) eqn:Ek; [|by destruct k].
    assert (running counted l !! g = Some k) as H by (by apply map_lookup_filter_Some). by rewrite Hr in H.
  - rewrite Hh in Hu. by rewrite bool_decide_eq_false_2 in Hu.
Qed.

(** The owner's and the waiter's own steps touch nothing else. *)
Lemma control_ok o w st l :
  lok l → stopping_ok (mkLife (l_proc l) (l_conns l) (l_ended l) st (l_wg l) (l_handlers l) (l_run l) (l_next l) (l_holds l) o w (l_late_uses l)) →
  match w with
  | WaitsHandlers => running counted l = ∅
  | WaitsNothing => running counted l = ∅ ∧ l_holds l = ∅
  | _ => True
  end →
  (∀ b es, o = Stopped b es → l_owner l = o) → (∀ b es, l_owner l = Stopped b es → o = l_owner l) →
  ∀ e, lok (mkLife (l_proc l) (l_conns l) e st (l_wg l) (l_handlers l) (l_run l) (l_next l) (l_holds l) o w (l_late_uses l)).
Proof.
  intros Hl Hs Hw H1 H2 e. split; try apply Hl; [exact Hs|exact Hw| |].
  - destruct (lk_store _ Hl) as [Hc Hh]. split; [done|]. cbn. rewrite Hh. unfold closed_store. cbn.
    destruct o; destruct (l_owner l) eqn:Eo; try done;
      (by specialize (H1 _ _ eq_refl)) || (by specialize (H2 _ _ eq_refl)).
  - pose proof (lk_late _ Hl) as Hu. cbn. destruct o as [| | | | | | |late errs];
      try (destruct (l_owner l) eqn:Eo; try exact Hu; by specialize (H2 _ _ eq_refl)).
    rewrite (H1 late errs eq_refl) in Hu. exact Hu.
Qed.

(** A handler's hold and release. *)
Lemma holds_ok n hs l :
  lok l → l_holds l = hs →
  lok (mkLife (l_proc l) (l_conns l) (l_ended l) (l_stopping l) (l_wg l) (l_handlers l - (if bool_decide (n ∈ hs) then 1 else 0))
        (l_run l) (l_next l) (hs ∖ {[n]}) (l_owner l) (l_waiter l) (l_late_uses l)).
Proof.
  intros Hl <-. split; try apply Hl.
  - cbn. rewrite (lk_handlers _ Hl). case_bool_decide as Hn.
    + rewrite size_difference by set_solver. rewrite size_singleton.
      assert (size (l_holds l) ≠ 0%nat); [|lia]. intros H%size_empty_inv. set_solver.
    + assert (l_holds l ∖ {[n]} = l_holds l) as -> by set_solver. lia.
  - pose proof (lk_waiter _ Hl) as Hw. unfold waiter_ok in *. cbn in *. destruct (l_waiter l); try done.
    destruct Hw as [Hr ->]. split; [done|set_solver].
Qed.

Lemma hold_ok n l :
  lok l → l_owner l = Serving → n ∉ l_holds l →
  lok (mkLife (l_proc l) (l_conns l) (l_ended l) (l_stopping l) (l_wg l) (l_handlers l + 1) (l_run l) (l_next l)
         ({[n]} ∪ l_holds l) (l_owner l) (l_waiter l) (l_late_uses l)).
Proof.
  intros Hl Ho Hn. pose proof (lk_stopping _ Hl) as Hs. unfold stopping_ok in Hs. rewrite Ho in Hs.
  split; try apply Hl.
  - cbn. rewrite (lk_handlers _ Hl), size_union by set_solver. rewrite size_singleton. lia.
  - unfold waiter_ok. cbn. by rewrite Hs.
Qed.

Lemma use_ok u q who l :
  lok l → user_of u l = Some who →
  lok (mkLife (sql answer touch (OExec (sql_text q)) (l_proc l)).2 (l_conns l) (l_ended l) (l_stopping l) (l_wg l)
         (l_handlers l) (l_run l) (l_next l) (l_holds l) (l_owner l) (l_waiter l)
         (if closed_store l then who :: l_late_uses l else l_late_uses l)).
Proof.
  intros Hl Hu. split; try apply Hl. cbn. pose proof (lk_late _ Hl) as Hlate. unfold closed_store.
  destruct (l_owner l) as [| | | | | | |[] errs] eqn:Eo; try done.
  intros u' [->|Hu']%elem_of_cons; [by eapply late_user|by apply Hlate].
Qed.

Lemma close_keeps late l :
  lok l → l_owner l = StopWaited late →
  let '(es, p) := Close answer touch (store_defaults cfg) (l_conns l) (l_proc l) in
  lok (mkLife p (l_conns l) (l_ended l) (l_stopping l) (l_wg l) (l_handlers l) (l_run l) (l_next l) (l_holds l)
         (Stopped late es) (l_waiter l) (l_late_uses l)).
Proof.
  intros Hl Ho. pose proof (Close_spec answer touch (store_defaults cfg) (l_conns l) (l_proc l)) as Hc.
  destruct (Close _ _ _ _ _) as [es p]. destruct Hc as [Hh _]. destruct (lk_store _ Hl) as [Hc Hp].
  pose proof (lk_stopping _ Hl) as Hs. pose proof (lk_late _ Hl) as Hlate. unfold stopping_ok, closed_store in *. rewrite Ho in *.
  split; try apply Hl.
  - unfold stopping_ok. cbn. destruct late; exact Hs.
  - split; [done|]. cbn. rewrite Hh, Hp. set_solver.
  - cbn. destruct late; [done|]. rewrite Hlate. by intros u ?%not_elem_of_nil.
Qed.

Lemma lstep_ok e l l' : lok l → lstep answer touch timeout (store_defaults cfg) e l = Some l' → lok l'.
Proof.
  intros Hl E. pose proof (lk_stopping _ Hl) as Hs. pose proof (lk_waiter _ Hl) as Hw. unfold stopping_ok in Hs.
  destruct e; cbn [lstep] in E.
  - destruct (l_owner l) as [[|k todo]| | | | | | |] eqn:Ho; try done. injection E as <-.
    assert (lok (go k l)) as Hg by (by apply go_ok).
    apply (control_ok (match todo with [] => Serving | _ => InStart todo end) (l_waiter l) (l_stopping l) (go k l) Hg).
    + by destruct todo.
    + by rewrite Hs.
    + by destruct todo.
    + cbn. by rewrite Ho.
  - case_bool_decide; [|done]. destruct (l_stopping l) eqn:Est; [done|]. injection E as <-. apply go_ok; [done|].
    intros _. destruct (l_owner l) as [| | | | | |[]|[]]; try done; try (by destruct Hs).
  - destruct (_ && _); [done|]. injection E as <-. by apply go_ok.
  - destruct (l_run l !! g) as [k|] eqn:Eg; [|done]. destruct (may_end k l); [|done]. injection E as <-. by apply ends_ok.
  - destruct (l_owner l) eqn:Ho; try done. case_bool_decide; [done|]. injection E as <-.
    rewrite <- Ho. by apply hold_ok.
  - case_bool_decide as Hn; [|by injection E as <-]. injection E as <-. pose proof (holds_ok n _ l Hl eq_refl) as H.
    by rewrite bool_decide_eq_true_2 in H.
  - destruct (user_of u l) as [who|] eqn:Eu; [|done]. injection E as <-. by eapply use_ok.
  - destruct (l_owner l) eqn:Ho; try done. injection E as <-. apply control_ok; try done; by rewrite ?Ho, ?Hs.
  - destruct (l_owner l) eqn:Ho; try done. injection E as <-. apply control_ok; try done; by rewrite ?Ho.
  - destruct (l_owner l) eqn:Ho; try done. injection E as <-. apply control_ok; try done; by rewrite ?Ho.
  - destruct (l_owner l) eqn:Ho; try done. injection E as <-. destruct Hs.
    apply (control_ok (StopWaiting now) WaitsGroup (l_stopping l) l Hl); try done; by rewrite ?Ho.
  - destruct (l_waiter l) eqn:Ew; try done.
    + destruct (Z.eqb_spec (l_wg l) 0) as [E0|]; [|done]. injection E as <-. rewrite (lk_wg _ Hl) in E0.
      apply control_ok; try done.
      * unfold stopping_ok. cbn. destruct (l_owner l) as [| | | | | |[]|[]]; try done; by destruct Hs.
      * apply map_size_empty_inv. lia.
    + destruct (Z.eqb_spec (l_handlers l) 0) as [E0|]; [|done]. injection E as <-. rewrite (lk_handlers _ Hl) in E0.
      apply control_ok; try done.
      * unfold stopping_ok. cbn. destruct (l_owner l) as [| | | | | |[]|[]]; try done; by destruct Hs.
      * unfold waiter_ok in Hw. rewrite Ew in Hw. split; [done|]. apply leibniz_equiv, size_empty_inv. lia.
  - destruct (l_owner l) eqn:Ho; try done. destruct (l_waiter l) eqn:Ew; try done. injection E as <-.
    unfold waiter_ok in Hw. rewrite Ew in Hw. unfold with_owner. rewrite Ew.
    apply control_ok; try done; by rewrite ?Ho.
  - destruct (l_owner l) eqn:Ho; try done. destruct (_ <=? _); [|done]. injection E as <-.
    apply control_ok; try done; by rewrite ?Ho.
  - destruct (l_owner l) eqn:Ho; try done. pose proof (close_keeps late l Hl Ho) as H.
    destruct (Close _ _ _ _ _) as [es p]. by injection E as <-.
Qed.

Lemma lives_ok l : lives answer touch timeout cfg l → lok l.
Proof.
  induction 1 as [id p0 l p Hp E|e l l' _ IH E]; [|by eapply lstep_ok].
  revert E. unfold NewWorld. case_bool_decide; [done|]. pose proof (Open_spec answer touch cfg p0 Hp) as Ho.
  destruct (Open answer touch cfg p0) as [[e|s] p1]; [done|]. destruct Ho as [-> Hh]. intros [= <- <-]. split; try done.
Qed.
End Invariant.

(** ** What the life of a World promises *)

(** The owner's steps in [Stop], and how many it has left. *)
Definition stop_left (o : owner) : nat :=
  match o with
  | InStart _ | Serving => 6
  | StopMarked => 5
  | StopCancelled => 4
  | StopChannelsClosed => 3
  | StopWaiting _ => 2
  | StopWaited _ => 1
  | Stopped _ _ => 0
  end.

Section Promises.
Context (answer : list op → op → option err) (touch : list op → op → gset string → gset string).
Context (timeout : Duration) (cfg : StoreConfig).

(** Who moves the owner on. *)
Lemma owner_step c e l l' :
  lstep answer touch timeout c e l = Some l' →
  l_owner l' = l_owner l ∨ (stop_left (l_owner l') < stop_left (l_owner l))%nat ∨ ∃ todo, l_owner l = InStart todo.
Proof.
  intros E. destruct e; cbn [lstep] in E;
    try (destruct (user_of u l); [|done]; injection E as <-; by left);
    try (left; repeat (case_match; try done); by simplify_eq/=);
    destruct (l_owner l) as [[|k todo]| | | | | | |] eqn:Ho; try done; right; try (right; by eexists); left;
    repeat (case_match; try done); simplify_eq/=; lia.
Qed.

(** [New] is all or nothing: refused or failed, it leaves no handle of its store
    open; otherwise it is a World with no goroutine yet, about to start its five
    loops. *)
Theorem new_opens_or_fails id p :
  handles p = ∅ →
  match NewWorld answer touch cfg id p with
  | (inl EEmptyID, p') => id = "" ∧ p' = p
  | (inl (EOpen e), p') => id ≠ "" ∧ handles p' = ∅
  | (inr l, p') => id ≠ "" ∧ handles p' = held (l_conns l) ∧ l_run l = ∅ ∧ l_owner l = InStart inventory
  end.
Proof.
  intros Hp. unfold NewWorld. case_bool_decide as Hid; [done|]. pose proof (Open_spec answer touch cfg p Hp) as Ho.
  destruct (Open answer touch cfg p) as [[e|s] p1]; [by destruct Ho as [? _]|]. by destruct Ho as [-> Hh].
Qed.

(** The wait groups: [w.wg] is the number of counted goroutines running and
    [w.handlers] the number of holds not released, so neither counter goes below
    zero; and from the moment [Stop]'s wait begins, no step adds to either. *)
Theorem stop_counts_everyone e l l' :
  lives answer touch timeout cfg l → lstep answer touch timeout (store_defaults cfg) e l = Some l' →
  l_wg l = Z.of_nat (size (running counted l)) ∧ l_handlers l = Z.of_nat (size (l_holds l)) ∧
  (l_waiter l ≠ NoWaiter → l_wg l' <= l_wg l ∧ l_handlers l' <= l_handlers l).
Proof.
  intros Hl%lives_ok E. split_and!; [apply Hl..|]. intros Hw. pose proof (lk_stopping _ Hl) as Hs.
  unfold stopping_ok in Hs. destruct e; cbn [lstep] in E.
  - by destruct (l_owner l) as [[|k todo]| | | | | | |].
  - case_bool_decide; [|done]. destruct (l_stopping l) eqn:Est; [done|].
    destruct (l_owner l) as [| | | | | |[]|[]]; try done; by destruct Hs.
  - destruct (_ && _); [done|]. injection E as <-. cbn. lia.
  - destruct (l_run l !! g) as [k|]; [|done]. destruct (may_end k l); [|done]. injection E as <-. cbn.
    destruct (counted k); lia.
  - by destruct (l_owner l).
  - case_bool_decide; injection E as <-; cbn; lia.
  - destruct (user_of u l); [|done]. injection E as <-. cbn. lia.
  - destruct (l_owner l); try done; injection E as <-; cbn; lia.
  - destruct (l_owner l); try done; injection E as <-; cbn; lia.
  - destruct (l_owner l); try done; injection E as <-; cbn; lia.
  - destruct (l_owner l); try done; injection E as <-; cbn; lia.
  - destruct (l_waiter l); try done; [destruct (l_wg l =? 0)|destruct (l_handlers l =? 0)]; try done;
      injection E as <-; cbn; lia.
  - destruct (l_owner l); try done. destruct (l_waiter l); try done; injection E as <-; cbn; lia.
  - destruct (l_owner l); try done. destruct (_ <=? _); [|done]; injection E as <-; cbn; lia.
  - destruct (l_owner l); try done. destruct (Close _ _ _ _ _); injection E as <-; cbn; lia.
Qed.


(** C20. [Stop] always gets to the end, late or not: each of its statements can be
    made as soon as the one before is, the wait at the latest when [StopTimeout]
    has passed, and nobody else moves it; and at its end no handle of the store
    is open, and no file of the database is left but those whose removal failed,
    which is returned and logged. *)
Theorem stop_closes_store l :
  lives answer touch timeout cfg l →
  (∀ e l', lstep answer touch timeout (store_defaults cfg) e l = Some l' →
     l_owner l' = l_owner l ∨ (stop_left (l_owner l') < stop_left (l_owner l))%nat ∨ ∃ todo, l_owner l = InStart todo) ∧
  ((∀ todo, l_owner l ≠ InStart todo) → (∀ late es, l_owner l ≠ Stopped late es) →
     ∃ e l', lstep answer touch timeout (store_defaults cfg) e l = Some l' ∧
       (stop_left (l_owner l') < stop_left (l_owner l))%nat) ∧
  (∀ l', lstep answer touch timeout (store_defaults cfg) LClose l = Some l' →
     handles (l_proc l') = ∅ ∧
     ∃ late es, l_owner l' = Stopped late es ∧
       (os_tells_truth answer → survivors left_msg (db_files (sc_Path cfg)) es (l_proc l'))).
Proof.
  intros Hl%lives_ok. split_and!.
  - intros e l'. apply owner_step.
  - intros Hst Hns. destruct (l_owner l) as [todo| | | | |since|late|late es] eqn:Ho.
    + by destruct (Hst todo).
    + exists LStop. eexists. cbn. rewrite Ho. split; [done|]. cbn. lia.
    + exists LCancel. eexists. cbn. rewrite Ho. split; [done|]. cbn. lia.
    + exists LCloseAll. eexists. cbn. rewrite Ho. split; [done|]. cbn. lia.
    + exists (LWait 0). eexists. cbn. rewrite Ho. split; [done|]. cbn. lia.
    + exists (LTimeout (Time.Add since timeout)). eexists. cbn. rewrite Ho, Z.leb_refl. split; [done|]. cbn. lia.
    + exists LClose. cbn. rewrite Ho. destruct (Close _ _ _ _ _) as [es p]. eexists. split; [done|]. cbn. lia.
    + by destruct (Hns late es).
  - intros l' E. cbn in E. destruct (l_owner l) eqn:Ho; try done.
    pose proof (Close_spec answer touch (store_defaults cfg) (l_conns l) (l_proc l)) as Hc.
    destruct (lk_store _ Hl) as [Hc1 Hp]. unfold closed_store in Hp. rewrite Ho in Hp.
    destruct (Close _ _ _ _ _) as [es p]. destruct Hc as [Hh Hf]. injection E as <-. cbn.
    split; [rewrite Hh, Hp; set_solver|]. by exists late, es.
Qed.
End Promises.

(** ** Witnesses *)

Module LifeDemo.
Definition two_s : Duration := 2 * Second.
Definition made : (new_err + life) * proc := NewWorld DbDemo.closing_fails DbDemo.driver DbDemo.cfg "w-1" DbDemo.fresh.
Definition new : life := match made.1 with inr l => l | inl _ => mkLife DbDemo.fresh DbDemo.all false false 0 0 ∅ 0 ∅ Serving NoWaiter [] end.
Definition ran (es : list levent) : life :=
  default new (lruns DbDemo.closing_fails DbDemo.driver two_s (store_defaults DbDemo.cfg) es new).

Lemma made_eq : NewWorld DbDemo.closing_fails DbDemo.driver DbDemo.cfg "w-1" DbDemo.fresh = (inr new, made.2).
Proof. vm_compute. reflexivity. Qed.

Lemma runs_live es : ∀ l l', lives DbDemo.closing_fails DbDemo.driver two_s DbDemo.cfg l →
  lruns DbDemo.closing_fails DbDemo.driver two_s (store_defaults DbDemo.cfg) es l = Some l' →
  lives DbDemo.closing_fails DbDemo.driver two_s DbDemo.cfg l'.
Proof.
  induction es as [|e es IH]; intros l l' Hl; cbn; [by intros [= <-]|].
  destruct (lstep _ _ _ _ e l) as [l1|] eqn:E; [|done]. cbn. apply IH. by eapply lives_step.
Qed.

Lemma ran_lives es : lives DbDemo.closing_fails DbDemo.driver two_s DbDemo.cfg (ran es).
Proof.
  assert (lives DbDemo.closing_fails DbDemo.driver two_s DbDemo.cfg new) as Hn by (eapply lives_new; [|exact made_eq]; reflexivity).
  unfold ran. destruct (lruns _ _ _ _ es new) as [l|] eqn:E; [|exact Hn]. by eapply runs_live.
Qed.

(** Started, a handler in, a scenario and a fetch running; then [Stop] up to its wait. *)
Definition up : list levent := [LSpawn; LSpawn; LSpawn; LSpawn; LSpawn; LHold 7; LScenario 7; LFetch; LUse (inr 7%nat) Insert_].
Definition down : list levent := (up ++ [LStop; LCancel; LCloseAll; LWait 0])%list.
(** The five loops, the run and the handler end in time; the fetch does not. *)
Definition clean : list levent :=
  (down ++ [LEnd 0; LEnd 1; LEnd 2; LEnd 3; LEnd 4; LEnd 5; LWaiter; LRelease 7; LRelease 7; LWaiter; LDone; LClose])%list.
Definition after : list levent := (clean ++ [LUse (inl 6%nat) PutDEK_; LEnd 6])%list.
(** The handler stays too long. *)
Definition late : list levent := (down ++ [LEnd 0; LTimeout two_s; LClose; LUse (inr 7%nat) Insert_])%list.
End LifeDemo.

(** The wait does not cover everybody.  The comment on [Stop] says it waits for
    goroutines, and the design's inventory of a World's goroutines lists the key
    fetches; but [New] leaves the manager's [Spawn] unset, so a fetch is in no wait
    group: here [Stop]'s wait ends on time, the database is closed and its files
    removed, and a renewal still running stores its new key in the closed store. *)
Theorem fetch_outlives_stop :
  let l := LifeDemo.ran LifeDemo.clean in let l' := LifeDemo.ran LifeDemo.after in
  l_owner l = Stopped false [DbDemo.boom] ∧ map_to_list (l_run l) = [(6%nat, GFetch)] ∧ l_wg l = 0 ∧
  l_late_uses l' = [UGoroutine GFetch] ∧ l_owner l' = l_owner l.
Proof. vm_compute. split_and!; reflexivity. Qed.

(** Up, three counted loops could still run; down, with the wait begun. *)
Lemma stop_counts_everyone_witness :
  l_wg (LifeDemo.ran LifeDemo.down) = 6 ∧ l_handlers (LifeDemo.ran LifeDemo.down) = 1 ∧
  l_wg (LifeDemo.ran LifeDemo.down) = Z.of_nat (size (running counted (LifeDemo.ran LifeDemo.down))).
Proof.
  split; [vm_compute; reflexivity|]. split; [vm_compute; reflexivity|].
  refine (proj1 (stop_counts_everyone DbDemo.closing_fails DbDemo.driver LifeDemo.two_s DbDemo.cfg (LRelease 9)
    (LifeDemo.ran LifeDemo.down) (LifeDemo.ran LifeDemo.down) (LifeDemo.ran_lives _) _)).
  vm_compute. reflexivity.
Defined.


Lemma stop_closes_store_witness :
  l_late_uses (LifeDemo.ran LifeDemo.late) = [UHandler] ∧
  ∃ e l', lstep DbDemo.closing_fails DbDemo.driver LifeDemo.two_s (store_defaults DbDemo.cfg) e (LifeDemo.ran LifeDemo.down) = Some l' ∧
    (stop_left (l_owner l') < stop_left (l_owner (LifeDemo.ran LifeDemo.down)))%nat.
Proof.
  split; [vm_compute; reflexivity|].
  refine (proj1 (proj2 (stop_closes_store DbDemo.closing_fails DbDemo.driver LifeDemo.two_s DbDemo.cfg
    (LifeDemo.ran LifeDemo.down) (LifeDemo.ran_lives _))) _ _); vm_compute; discriminate.
Defined.
