(* ===== verification/WorldCheck.v ===== *)
(** * A World's checker and the lights on the page

    The checker wired to the parts of a World as world.go's [New] wires it: its
    configuration, the health it reads from the registry, and what its reports do
    there.  A pass is a step among the calls of the registry and its ticks; the
    theorem says what the page's lights are then. *)

From S2P Require Import Prelude GoLib GoFloat Kms Tink Lease Cmek Store Sink Checker CheckerSpec.
From S2P Require Import Params Metrics Hist Hub Tick World HistSpec TickSpec TimelineSpec TickDemo ScenarioDemo WorldTick.
Local Open Scope string_scope.
Local Open Scope Z_scope.

(** ** Wiring *)

Definition checker_config (p : Params) : Checker.Config :=
  Checker.mkConfig (tenant_id <$> seq 0 (Z.to_nat (P_Tenants p))) true (P_Lease p) (P_CanaryFullScan p) (P_L1Grace p) (P_L1For p) (P_L1Floor p) (P_L4Settle p)
    (P_CanaryPrefix p) (capacity_of p) (P_L1Ratio p) (P_L4CapacityFactor p) (P_GlobalBacklogCap p) (P_Workers p) (P_ClaimBatch p)
    (Judges "L1" p) (Judges "L4" p && P_FairShare p).

(** The registry as the checker's [Health]. *)
Definition health_of (m : Meter) : health :=
  let r := mt_reg m in
  let '(cur, base, ok) := HealthyP99 r in
  mkHealth (if ok : bool then Some (cur, base) else None) (HealthyRejections r) (OverloadedWithinShare r) (DeliveredPS m) (Metrics.Scenario r)
    (λ idx, let '(at_, purged, ok) := DetectedRevokedAt idx r in if ok : bool then Some (at_, purged) else None).

(** [t.Format("15:04:05")]: the text of a wall clock is package time's. *)
Class Clockface := format_clock : Time → string.

Section WorldCheck.
Context `{LG : GoLog} `{JS : JSON} `{FM : Fmt} `{CF : Clockface}.

(** The format strings of checker.go. *)
Definition detail_text (d : detail) : string :=
  match d with
  | DNone => ""
  | DText s => s
  | DScanFailed e => "scan failed: " +:+ err_text e
  | DRows n => Itoa n +:+ " rows"
  | DLate n => Itoa n +:+ " decrypts after the bound"
  | DCensusFailed e => "census failed: " +:+ err_text e
  | DOff name off => name +:+ " off by " +:+ Itoa off
  | DOutside name sink lo hi => name +:+ " sink " +:+ Itoa sink +:+ " outside [" +:+ Itoa lo +:+ ", " +:+ Itoa hi +:+ "]"
  | DViolations n => Itoa n +:+ " violations so far"
  | DRejections n => Itoa n +:+ " healthy rejections"
  | DHover cur limit over for_ =>
      "p99 " +:+ fmt_f0 (Tick.ms cur) +:+ "ms > " +:+ fmt_f0 (Tick.ms limit) +:+ "ms for " +:+ fmt_f0 (seconds over) +:+ " of " +:+ fmt_f0 (seconds for_) +:+ " s"
  | DOver cur limit over =>
      "p99 " +:+ fmt_f0 (Tick.ms cur) +:+ "ms > " +:+ fmt_f0 (Tick.ms limit) +:+ "ms for " +:+ fmt_f0 (seconds over) +:+ " s"
  | DDelivered del want => "delivered " +:+ fmt_f0 del +:+ "/s < " +:+ fmt_f0 want
  | DBacklog total bound => "backlog " +:+ Itoa total +:+ " > " +:+ Itoa bound
  | DShed n => Itoa n +:+ " within-share tenants shed"
  end.

(** The call a line makes on the registry; [posted] is its clock then. *)
Definition line_op (posted : Time) (l : line) : mop :=
  match l with
  | Checker.Report id ok n at_ d => MReport id ok n at_ (detail_text d)
  | Checker.Timeline tenant revoke detected =>
      MTimeline posted (tenant +:+ " revoked at " +:+ format_clock revoke +:+ " (ground truth), detected in " +:+ fmt_f1 (seconds detected) +:+ " s")
  end.

(** One pass of the World's checker and its reports; the reports touch nothing the
    pass reads. *)
Definition world_pass (now posted : Time) (scan : err + Z) (k : Sink) (events : list KeyEvent) (census : err + Census_)
    (c : Checker) (m : Meter) : option (Checker * Meter) :=
  '(c, ls) ← Once (mkEvidence now scan k events census (health_of m)) c;
  '(_, m) ← mrun (line_op posted <$> ls) m;
  Some (c, m).

(** A World's run, for its lights: passes among the other calls of the registry. *)
Inductive cstep :=
  | CPass (now posted : Time) (scan : err + Z) (k : Sink) (events : list KeyEvent) (census : err + Census_)
  | CCall (o : mop).

Definition cstep_exec (st : cstep) (x : Checker * Meter) : option (Checker * Meter) :=
  match st with
  | CPass now posted scan k events census => world_pass now posted scan k events census x.1 x.2
  | CCall o => '(_, m) ← mexec o x.2; Some (x.1, m)
  end.
Fixpoint crun (steps : list cstep) (x : Checker * Meter) : option (Checker * Meter) :=
  match steps with [] => Some x | st :: steps => x ← cstep_exec st x; crun steps x end.

(** Only the checker reports. *)
Definition others (st : cstep) : Prop := match st with CCall (MReport _ _ _ _ _) => False | _ => True end.

(** ** What a pass reports *)

Definition told (id : string) (ls : list line) : option (bool * Z) :=
  last (omap (λ l, match l with Checker.Report id' ok n _ _ => if bool_decide (id' = id) then Some (ok, n) else None | Checker.Timeline _ _ _ => None end) ls).

Lemma told_app id l l' : told id (l ++ l') = match told id l' with Some v => Some v | None => told id l end.
Proof. unfold told. rewrite omap_app, last_app. done. Qed.

Lemma told_report id id' ok n t d : told id [Checker.Report id' ok n t d] = if bool_decide (id' = id) then Some (ok, n) else None.
Proof. unfold told. cbn. by case_bool_decide. Qed.

(** The fields a light shows, and the ones a step of another light leaves alone. *)
Definition fields (c : Checker) : Checker.Config * Z * Z * Z * Z := (c_cfg c, s1Hits c, s4Bad c, l1Red c, l4Red c).

Lemma detectionLine_told h idx t c : fields (detectionLine h idx t c).1 = fields c ∧ ∀ id, told id (detectionLine h idx t c).2 = None.
Proof. unfold detectionLine. repeat case_match; done. Qed.

Lemma s3_loop_told k h gs c c' l : s3_loop k h gs c = Some (c', l) → fields c' = fields c ∧ ∀ id, told id l = None.
Proof.
  revert c c' l. induction gs as [|[idx g] gs IH]; intros c c' l; cbn [s3_loop]; [by intros [= <- <-]|].
  destruct (s3_tenant k h idx g c) as [[c1 l1]|] eqn:E1; [|done]. cbn [mbind option_bind].
  destruct (s3_loop k h gs c1) as [[c2 l2]|] eqn:E2; [|done]. cbn [mbind option_bind]. intros [= <- <-].
  destruct (IH _ _ _ E2) as [-> Hl2]. unfold s3_tenant in E1. destruct (last g) as [latest|]; [|done]. cbn [mbind option_bind] in E1.
  destruct (_ || _); [done|]. destruct (if negb _ then _ else _) as [[seqs sn]|]; [|done]. cbn [mbind option_bind] in E1.
  destruct (count_windows _ _ _ _ _) as [[late gap] newSeq]. apply (inj Some) in E1.
  match type of E1 with detectionLine ?h ?i ?t ?c0 = _ => destruct (detectionLine_told h i t c0) as [H1 H2] end. rewrite E1 in H1, H2.
  split; [exact H1|]. intros id. by rewrite told_app, Hl2, H2.
Qed.

Lemma l1_told h now c c' l : l1 h now c = (c', l) →
  (c_cfg c', s1Hits c', s4Bad c', l4Red c', s3Late c', s3Gap c') = (c_cfg c, s1Hits c, s4Bad c, l4Red c, s3Late c, s3Gap c) ∧
  ∃ ok t d, l = [Checker.Report "L1" ok (l1Red c') t d].
Proof. unfold l1. destruct (h_Scenario h) as [[nm running] since]. repeat case_match; intros [= <- <-]; (split; [done|by eexists _, _, _]). Qed.

Lemma l4_told h now c c' l : l4 h now c = (c', l) →
  (c_cfg c', s1Hits c', s4Bad c', l1Red c', s3Late c', s3Gap c') = (c_cfg c, s1Hits c, s4Bad c, l1Red c, s3Late c, s3Gap c) ∧
  ∃ ok t d, l = [Checker.Report "L4" ok (l4Red c') t d].
Proof. unfold l4. destruct (h_Scenario h) as [[nm running] since]. repeat case_match; intros [= <- <-]; (split; [done|by eexists _, _, _]). Qed.

(** The verdict of a light, its time and text left out. *)
Definition light (id : string) (m : Meter) : option (bool * Z) := (λ v, (vd_OK v, vd_N v)) <$> verdicts (mt_reg m) !! id.

(** What a pass says of every light, by the counters it leaves. *)
Record spoken (cfg : Checker.Config) (mism : Z) (c : Checker) (f : string → option (bool * Z)) : Prop := {
  sp_s2 : f "S2" = Some (mism =? 0, mism);
  sp_s3 : f "S3" = Some ((s3Late c =? 0) && negb (s3Gap c), s3Late c);
  sp_s4 : f "S4" = Some (s4Bad c =? 0, s4Bad c);
  sp_l1 : if q_L1 cfg then ∃ ok, f "L1" = Some (ok, l1Red c) else f "L1" = None;
  sp_l4 : if q_L4 cfg then ∃ ok, f "L4" = Some (ok, l4Red c) else f "L4" = None;
  sp_none : ∀ id, id ∉ ["S1"; "S2"; "S3"; "S4"; "L1"; "L4"] → f id = None }.

Lemma s1_told scan now c c' l : s1 scan now c = (c', l) →
  fields c' = (c_cfg c, s1Hits c', s4Bad c, l1Red c, l4Red c) ∧ (s3Late c' = s3Late c ∧ s3Gap c' = s3Gap c) ∧ (∀ id, id ≠ "S1" → told id l = None) ∧
  (told "S1" l = Some (s1Hits c' =? 0, s1Hits c') ∨ told "S1" l = None ∧ s1Hits c' = s1Hits c ∧ lastScan c ≠ 0).
Proof.
  unfold s1. destruct (Time.IsZero (lastScan c)) eqn:Ez; cbn [negb andb]; [|destruct (_ <? _)].
  2: { intros [= <- <-]. split_and!; try done. right. split_and!; [done|done|]. unfold Time.IsZero in Ez. lia. }
  all: destruct scan as [e|hits]; intros [= <- <-]; (split_and!; [done|done|done|intros id Hid; rewrite told_report; by rewrite bool_decide_eq_false_2|left; by rewrite told_report]).
Qed.

Lemma s4_told census k now c c' l : s4 census k now c = (c', l) →
  fields c' = (c_cfg c, s1Hits c, s4Bad c', l1Red c, l4Red c) ∧ (s3Late c' = s3Late c ∧ s3Gap c' = s3Gap c) ∧
  ∃ t d, l = [Checker.Report "S4" (s4Bad c' =? 0) (s4Bad c') t d].
Proof.
  unfold s4. destruct census as [e|cs]; [intros [= <- <-]; split_and!; try done; by eexists _, _|].
  destruct (s4_loop _ _ _ _ _ _) as [bad d]. intros [= <- <-]. split_and!; try done. by eexists _, _.
Qed.

#[local] Ltac tell :=
  rewrite ?told_app, ?told_report; repeat first [rewrite bool_decide_eq_true_2 by done | rewrite bool_decide_eq_false_2 by congruence].

Lemma Once_told v c c' ls : Once v c = Some (c', ls) →
  c_cfg c' = c_cfg c ∧ spoken (c_cfg c) (Mismatches (v_sink v)) c' (λ id, told id ls) ∧
  (told "S1" ls = Some (s1Hits c' =? 0, s1Hits c') ∨ told "S1" ls = None ∧ s1Hits c' = s1Hits c ∧ lastScan c ≠ 0).
Proof.
  intros E. unfold Once in E. destruct (s1 _ _ _) as [c1 r1] eqn:E1. apply s1_told in E1 as ([= F1 F2 F3 F4] & _ & N1 & S1).
  unfold s3 in E. destruct (s3_loop _ _ _ _) as [[c2 l2]|] eqn:E2; [|done]. apply s3_loop_told in E2 as [[= G1 G2 G3 G4 G5] N2].
  cbn [mbind option_bind] in E. destruct (s4 _ _ _ _) as [c4 r4] eqn:E4. apply s4_told in E4 as ([= H1 H2 H3 H4] & [H5 H6] & t4 & d4 & ->).
  cbn [with_s3 c_cfg s1Hits s4Bad l1Red l4Red s3Late s3Gap] in *. assert (c_cfg c4 = c_cfg c) as Hcfg by congruence.
  assert (∃ c5 r5, (if q_L1 (c_cfg c4) then l1 (v_health v) (v_now v) c4 else (c4, [])) = (c5, r5) ∧
    (c_cfg c5, s1Hits c5, s4Bad c5, l4Red c5, s3Late c5, s3Gap c5) = (c_cfg c4, s1Hits c4, s4Bad c4, l4Red c4, s3Late c4, s3Gap c4) ∧
    if q_L1 (c_cfg c) then ∃ ok t d, r5 = [Checker.Report "L1" ok (l1Red c5) t d] else r5 = []) as (c5 & r5 & E5 & [= I1 I2 I3 I4 I5 I6] & S5).
  { assert (q_L1 (c_cfg c4) = q_L1 (c_cfg c)) as -> by congruence. destruct (q_L1 (c_cfg c)); [|by exists c4, []]. destruct (l1 _ _ _) as [c5 r5] eqn:El. apply l1_told in El as [? ?]. by exists c5, r5. }
  rewrite E5 in E. assert (c_cfg c5 = c_cfg c) as Hcfg5 by congruence.
  assert (∃ c6 r6, (if q_L4 (c_cfg c5) then l4 (v_health v) (v_now v) c5 else (c5, [])) = (c6, r6) ∧
    (c_cfg c6, s1Hits c6, s4Bad c6, l1Red c6, s3Late c6, s3Gap c6) = (c_cfg c5, s1Hits c5, s4Bad c5, l1Red c5, s3Late c5, s3Gap c5) ∧
    if q_L4 (c_cfg c) then ∃ ok t d, r6 = [Checker.Report "L4" ok (l4Red c6) t d] else r6 = []) as (c6 & r6 & E6 & [= J1 J2 J3 J4 J5 J6] & S6).
  { assert (q_L4 (c_cfg c5) = q_L4 (c_cfg c)) as -> by congruence. destruct (q_L4 (c_cfg c)); [|by exists c5, []]. destruct (l4 _ _ _) as [c6 r6] eqn:El. apply l4_told in El as [? ?]. by exists c6, r6. }
  rewrite E6 in E. apply (inj Some) in E. apply pair_eq in E as [<- <-]. unfold s2.
  assert (s1Hits c6 = s1Hits c1 ∧ s4Bad c6 = s4Bad c4 ∧ s3Late c6 = s3Late c2 ∧ s3Gap c6 = s3Gap c2 ∧ l1Red c6 = l1Red c5) as (-> & K2 & K3 & K4 & K5)
    by (split_and!; congruence).
  split; [congruence|].
  assert (∀ id, id ≠ "L1" → told id r5 = None) as T5.
  { intros id Hid. destruct (q_L1 (c_cfg c)); [destruct S5 as (? & ? & ? & ->)|by subst r5]. by tell. }
  assert (∀ id, id ≠ "L4" → told id r6 = None) as T6.
  { intros id Hid. destruct (q_L4 (c_cfg c)); [destruct S6 as (? & ? & ? & ->)|by subst r6]. by tell. }
  split; [split|].
  - rewrite !told_app, T5, T6, N2 by done. by tell.
  - rewrite !told_app, T5, T6 by done. tell. by rewrite K3, K4.
  - rewrite !told_app, T5, T6 by done. tell. by rewrite K2.
  - rewrite !told_app, T6, N2, N1 by done. destruct (q_L1 (c_cfg c)).
    + destruct S5 as (ok & t & d & ->). tell. exists ok. by rewrite K5.
    + subst r5. by tell.
  - rewrite !told_app, N2, N1 by done. destruct (q_L4 (c_cfg c)).
    + destruct S6 as (ok & t & d & ->). tell. by exists ok.
    + subst r6. rewrite T5 by done. by tell.
  - intros id Hid. assert (id ≠ "S1" ∧ id ≠ "S2" ∧ id ≠ "S3" ∧ id ≠ "S4" ∧ id ≠ "L1" ∧ id ≠ "L4") as (D1 & D2 & D3 & D4 & D5 & D6) by set_solver.
    rewrite !told_app, T5, T6, N2, N1 by done. by tell.
  - rewrite !told_app, T5, T6, N2 by done. tell. done.
Qed.
(** ** The lights of a run *)

(** What the sink of the last pass had counted; [None] before the first. *)
Definition last_sink (steps : list cstep) : option Z :=
  last (omap (λ st, match st with CPass _ _ _ k _ _ => Some (Mismatches k) | CCall _ => None end) steps).

(** The registry shows what the checker's counters say. *)
Definition shown (cfg : Checker.Config) (mism : option Z) (c : Checker) (m : Meter) : Prop :=
  c_cfg c = cfg ∧
  match mism with
  | None => lastScan c = 0 ∧ ∀ id, light id m = None
  | Some n => spoken cfg n c (λ id, light id m) ∧ light "S1" m = Some (s1Hits c =? 0, s1Hits c)
  end.

Lemma light_report posted ls m rs m' id : mrun (line_op posted <$> ls) m = Some (rs, m') →
  light id m' = match told id ls with Some v => Some v | None => light id m end.
Proof.
  intros E. unfold light. rewrite (verdicts_run id _ _ _ _ E).
  assert (told id ls = (λ v, (vd_OK v, vd_N v)) <$> last (omap (is_report id) (line_op posted <$> ls))) as ->.
  { unfold told. clear. induction ls as [|l ls IH]; [done|]. cbn. destruct l as [id' ok n t d|]; cbn; [|done].
    case_bool_decide; [|exact IH]. rewrite !last_cons, IH. destruct (last (omap (is_report id) (line_op posted <$> ls))); reflexivity. }
  by destruct (last _).
Qed.

Lemma pass_shown cfg mism c m now posted scan k events census c' m' :
  shown cfg mism c m → world_pass now posted scan k events census c m = Some (c', m') → shown cfg (Some (Mismatches k)) c' m'.
Proof.
  intros [Hc Hm] E. unfold world_pass in E. destruct (Once _ c) as [[c1 ls]|] eqn:E1; [|done]. cbn [mbind option_bind] in E.
  destruct (mrun _ m) as [[rs m1]|] eqn:E2; [|done]. cbn [mbind option_bind] in E. apply (inj Some), pair_eq in E as [<- <-].
  destruct (Once_told _ _ _ _ E1) as (H0 & [H1 H2 H3 H4 H5 H6] & H7). cbn [v_sink] in *. rewrite Hc in *.
  pose proof (λ id, light_report _ _ _ _ _ id E2) as HL. split; [done|].
  assert (∀ id, id ∉ ["S1"; "S2"; "S3"; "S4"] → (told id ls = None → light id m = None) → light id m1 = told id ls) as Hr.
  { intros id _ Hn. rewrite HL. destruct (told id ls); [done|by apply Hn]. }
  split; [split|].
  - by rewrite HL, H1.
  - by rewrite HL, H2.
  - by rewrite HL, H3.
  - rewrite HL. destruct (q_L1 cfg) eqn:Eq; [destruct H4 as [ok ->]; by exists ok|]. rewrite H4.
    destruct mism as [n|]; [|by apply Hm]. destruct Hm as [[_ _ _ S _ _] _]. by rewrite Eq in S.
  - rewrite HL. destruct (q_L4 cfg) eqn:Eq; [destruct H5 as [ok ->]; by exists ok|]. rewrite H5.
    destruct mism as [n|]; [|by apply Hm]. destruct Hm as [[_ _ _ _ S _] _]. by rewrite Eq in S.
  - intros id Hid. rewrite HL, (H6 id Hid). destruct mism as [n|]; [|by apply Hm]. by destruct Hm as [[_ _ _ _ _ S] _]; apply S.
  - rewrite HL. destruct H7 as [->|(-> & -> & Hs)]; [done|]. destruct mism as [n|]; [by destruct Hm|]. by destruct Hm as [? _].
Qed.

Lemma call_shown cfg mism c m o rs m' : shown cfg mism c m → others (CCall o) → mexec o m = Some (rs, m') → shown cfg mism c m'.
Proof.
  intros [Hc Hm] Ho E. assert (∀ id, light id m' = light id m) as Hl.
  { intros id. unfold light. rewrite (verdict_step id _ _ _ _ E). by destruct o. }
  split; [done|]. destruct mism as [n|].
  - destruct Hm as [[H1 H2 H3 H4 H5 H6] H7]. split; [split|]; rewrite ?Hl; try done. intros id Hid. rewrite Hl. by apply H6.
  - destruct Hm as [? H]. split; [done|]. intros id. by rewrite Hl.
Qed.

Lemma crun_shown cfg mism steps c m c' m' : shown cfg mism c m → Forall others steps → crun steps (c, m) = Some (c', m') →
  shown cfg (match last_sink steps with Some n => Some n | None => mism end) c' m'.
Proof.
  revert mism c m. induction steps as [|st steps IH]; intros mism c m Hs Ho E; [by apply (inj Some), pair_eq in E as [<- <-]|].
  apply Forall_cons in Ho as [Ho Hos]. cbn [crun] in E. destruct (cstep_exec st (c, m)) as [[c1 m1]|] eqn:E1; [|done]. cbn [mbind option_bind] in E.
  unfold last_sink. destruct st as [now posted scan k events census|o]; cbn [omap list_omap].
  - pose proof (IH _ _ _ (pass_shown _ _ _ _ _ _ _ _ _ _ _ _ Hs E1) Hos E) as H. unfold last_sink in H. rewrite last_cons. by destruct (last (omap _ steps)).
  - cbn [cstep_exec fst snd] in E1. destruct (mexec o m) as [[rs m2]|] eqn:E2; [|done]. cbn [mbind option_bind] in E1. apply (inj Some), pair_eq in E1 as [<- <-].
    exact (IH _ _ _ (call_shown _ _ _ _ _ _ _ Hs Ho E2) Hos E).
Qed.

(** C37. The lights of the page are the checker's counters.  Whatever passes, calls and
    ticks a World's run made, once a pass was made each snapshot shows: S1, S3 and
    S4 with the checker's own totals, green exactly when they are zero (and, for
    S3, when no coverage was lost); S2 with the sink's count of foreign payloads
    at the last pass, green when there is none; L1 and L4 with their red passes if
    the parameters judge them (L4 only with fair share on) and nothing otherwise;
    and no other light.  Before the first pass no light shows. *)
Theorem lights_are_checkers_counters p id steps c m now so s m' :
  crun steps (Checker.New (checker_config p), world_meter p id) = Some (c, m) → Forall others steps → tick now so m = Some (s, m') →
  let at_ id := (λ v, (vd_OK v, vd_N v)) <$> default ∅ (s_Invariants s) !! id in
  match last_sink steps with
  | None => ∀ id, at_ id = None
  | Some mism =>
      at_ "S1" = Some (s1Hits c =? 0, s1Hits c) ∧ at_ "S2" = Some (mism =? 0, mism) ∧
      at_ "S3" = Some ((s3Late c =? 0) && negb (s3Gap c), s3Late c) ∧ at_ "S4" = Some (s4Bad c =? 0, s4Bad c) ∧
      (if Judges "L1" p then ∃ ok, at_ "L1" = Some (ok, l1Red c) else at_ "L1" = None) ∧
      (if Judges "L4" p && P_FairShare p then ∃ ok, at_ "L4" = Some (ok, l4Red c) else at_ "L4" = None) ∧
      ∀ id, id ∉ ["S1"; "S2"; "S3"; "S4"; "L1"; "L4"] → at_ id = None
  end.
Proof.
  intros E Ho Et. cbv zeta. rewrite (snapshot_verdicts _ _ _ _ _ Et).
  assert (shown (checker_config p) None (Checker.New (checker_config p)) (world_meter p id)) as H0.
  { split; [done|]. split; [done|]. intros i. unfold light. cbn. by rewrite lookup_empty. }
  pose proof (crun_shown _ _ _ _ _ _ _ H0 Ho E) as [_ H]. destruct (last_sink steps) as [n|].
  - destruct H as [[H1 H2 H3 H4 H5 H6] H7]. by split_and!.
  - by destruct H.
Qed.
End WorldCheck.

(** ** Witness: a World that finds plaintext at rest and one foreign payload *)
Module WCDemo.
#[export] Existing Instances SDemo.fmt HistDemo.step_log TickDemo.tick_json.
#[export] Instance face : Clockface := λ _, "00:00:00".
Definition k : Sink := NewSink (mkSinkConfig 20 4 "CANARY-").
Definition steps : list cstep :=
  [CPass Second Second (inr 2) k [] (inr no_census); CCall (MIngest 0 "accepted" true); CPass (2 * Second) (2 * Second) (inl (ErrText "busy")) k [] (inl (ErrText "busy"));
   CCall (MTimeline (2 * Second) "up")].
Definition so : Sources := mkSources (replicate 20 0) 0 (λ _, 0) None None.
Definition fine (x : Checker * Meter) : bool := bool_decide (is_Some (tick (3 * Second) so x.2)) && (s1Hits x.1 =? 2).
Lemma is_fine : match crun steps (Checker.New (checker_config Small), world_meter Small "w1") with Some x => fine x | None => false end = true.
Proof. vm_compute. reflexivity. Qed.
Lemma quiet : Forall others steps.
Proof. by repeat constructor. Qed.
Lemma sunk : last_sink steps = Some 0.
Proof. vm_compute. reflexivity. Qed.
End WCDemo.
Import WCDemo.

Lemma lights_are_checkers_counters_witness : ∃ c m s m',
  crun steps (Checker.New (checker_config Small), world_meter Small "w1") = Some (c, m) ∧ tick (3 * Second) so m = Some (s, m') ∧
  (λ v, (vd_OK v, vd_N v)) <$> default ∅ (s_Invariants s) !! "S1" = Some (false, 2).
Proof.
  pose proof is_fine as H. destruct (crun steps _) as [[c m]|] eqn:E; [|discriminate H]. unfold fine in H. cbn [fst snd] in H.
  apply andb_true_iff in H as [Ht Hs]. apply bool_decide_eq_true in Ht as [[s m'] Ht]. apply Z.eqb_eq in Hs.
  exists c, m, s, m'. split; [reflexivity|]. split; [exact Ht|].
  pose proof (lights_are_checkers_counters Small "w1" steps c m (3 * Second) so s m' E quiet Ht) as HL. cbv zeta in HL.
  rewrite sunk in HL. destruct HL as [H1 _]. rewrite H1, Hs. reflexivity.
Defined.
