(* ===== verification/Loops.v ===== *)
(** * The loops that wait

    [check.Checker.Run], [metrics.Registry.Run] and [World.sweep]: a select
    between the end of the context and a timer, around a body; and the
    generator's loops (internal/traffic/generator.go [Run] and [loop]): the pause
    gate, the two timers and the send, all tenants over one generator.

    In a ticking loop a select whose timer was made by the same statement is taken
    not to find it ready: a loop that comes to one after the context has ended
    returns there.  The generator's loops need no such assumption: either case of a
    select that is ready may be taken. *)

From S2P Require Import Prelude GoLib GoFloat Kms Tink Lease Cmek Params Generator Metrics World.
Local Open Scope string_scope.
Local Open Scope Z_scope.

(** ** A select and a body *)

Inductive tpc := TSelect (due : Time) | TBody (at_ : Time) | TReturned.

Section Ticker.
Context {St Ev : Type} (interval : Duration) (body : Time → Ev → St → option St).

(** The loop's place, what its body works on, the last clock reading, whether the
    context has ended, and when the timer fired, newest first. *)
Record ticker := mkTicker { t_pc : tpc; t_state : St; t_clock : Time; t_ended : bool; t_fired : list Time }.

(** [TFire]: the timer's case, and the clock then; [TRun]: the body, and the clock
    at the next select; [TQuit]: the context's case. *)
Inductive tevent := TFire (now : Time) | TRun (e : Ev) (now : Time) | TQuit | TEnd.

Definition at_select (ended : bool) (now : Time) : tpc := if ended then TReturned else TSelect (Time.Add now interval).
Definition ticker0 (s : St) (now : Time) : ticker := mkTicker (at_select false now) s now false [].

Definition tick_step (e : tevent) (t : ticker) : option ticker :=
  match e, t_pc t with
  | TFire now, TSelect due =>
      if (due <=? now) && (t_clock t <=? now)
      then Some (mkTicker (TBody now) (t_state t) now (t_ended t) (now :: t_fired t)) else None
  | TRun ev now, TBody at_ =>
      if t_clock t <=? now
      then s ← body at_ ev (t_state t); Some (mkTicker (at_select (t_ended t) now) s now (t_ended t) (t_fired t))
      else None
  | TQuit, TSelect _ =>
      if t_ended t then Some (mkTicker TReturned (t_state t) (t_clock t) true (t_fired t)) else None
  | TEnd, _ => Some (mkTicker (t_pc t) (t_state t) (t_clock t) true (t_fired t))
  | _, _ => None
  end.

Fixpoint ticks (es : list tevent) (t : ticker) : option ticker :=
  match es with [] => Some t | e :: es => t' ← tick_step e t; ticks es t' end.

(** Times, newest first, at least [d] apart. *)
Fixpoint spaced (d : Duration) (l : list Time) : Prop :=
  match l with
  | a :: ((b :: _) as l') => d <= a - b ∧ spaced d l'
  | _ => True
  end.

Definition own (e : tevent) : bool := match e with TEnd => false | _ => true end.

Record ticker_ok (t0 : Time) (t : ticker) : Prop := {
  tk_spaced : spaced interval (t_fired t);
  tk_last : ∀ f, head (t_fired t) = Some f → f <= t_clock t;
  tk_pc : match t_pc t with
          | TSelect due => t_clock t + interval <= due
          | TBody at_ => head (t_fired t) = Some at_
          | TReturned => t_ended t = true
          end;
  tk_start : ∀ f, f ∈ t_fired t → t0 + interval <= f;
  tk_clock : t0 <= t_clock t }.

Lemma tick_step_ok t0 e t t' : ticker_ok t0 t → tick_step e t = Some t' → ticker_ok t0 t'.
Proof.
  intros [Hs Hl Hp H0 Hc] E. destruct e as [now|ev now| |]; cbn [tick_step] in E.
  - destruct (t_pc t) as [due|at_|]; try done.
    destruct (Z.leb_spec due now); [|done]. destruct (Z.leb_spec (t_clock t) now); [|done]. injection E as <-.
    split; cbn; [|by intros f [= <-]|done| |lia].
    + destruct (t_fired t) as [|f l]; [done|]. split; [|done]. specialize (Hl f eq_refl). lia.
    + intros f [->|Hf]%elem_of_cons; [lia|by apply H0].
  - destruct (t_pc t) as [due|at_|]; try done. destruct (Z.leb_spec (t_clock t) now); [|done].
    destruct (body at_ ev (t_state t)); [|done]. injection E as <-.
    split; cbn; [done| | |done|lia].
    + intros f Hf. specialize (Hl f Hf). lia.
    + unfold at_select. destruct (t_ended t); [done|]. unfold Time.Add. lia.
  - destruct (t_pc t); try done. destruct (t_ended t); [|done]. by injection E as <-.
  - injection E as <-. split; cbn; try done. by destruct (t_pc t).
Qed.

(** The steps a loop has left after the end of its context. *)
Definition left_ (p : tpc) : nat := match p with TSelect _ => 2 | TBody _ => 1 | TReturned => 0 end.

Lemma tick_step_left e t t' :
  t_ended t = true → tick_step e t = Some t' →
  t_ended t' = true ∧ (left_ (t_pc t') + (if own e then 1 else 0) <= left_ (t_pc t))%nat.
Proof.
  intros He E. destruct e; cbn [tick_step] in E.
  - destruct (t_pc t); try done. destruct (_ && _); [|done]. injection E as <-. cbn. split; [done|lia].
  - destruct (t_pc t); try done. destruct (_ <=? _); [|done]. destruct (body _ _ _); [|done]. injection E as <-.
    rewrite He. cbn. split; [done|lia].
  - destruct (t_pc t); try done. rewrite He in E. injection E as <-. cbn. split; [done|lia].
  - injection E as <-. cbn. split; [done|lia].
Qed.

Lemma ticks_left es t t' :
  t_ended t = true → ticks es t = Some t' →
  (length (filter (λ e, own e = true) es) + left_ (t_pc t') <= left_ (t_pc t))%nat.
Proof.
  revert t. induction es as [|e es IH]; intros t He; cbn [ticks]; [intros [= <-]; cbn; lia|].
  destruct (tick_step e t) as [t1|] eqn:E; [|done]. cbn [mbind option_bind]. intros Hr.
  destruct (tick_step_left e t t1 He E) as [He1 Hl]. specialize (IH t1 He1 Hr). rewrite filter_cons.
  destruct (own e); [rewrite decide_True by done|rewrite decide_False by done]; cbn [length]; lia.
Qed.

Lemma ticks_ok t0 es t t' : ticker_ok t0 t → ticks es t = Some t' → ticker_ok t0 t'.
Proof.
  revert t. induction es as [|e es IH]; intros t Ht; cbn [ticks]; [by intros [= <-]|].
  destruct (tick_step e t) as [t1|] eqn:E; [|done]. cbn. apply IH. by eapply tick_step_ok.
Qed.

(** Pace and end of a ticking loop, whatever its body does and however long it
    takes: the first body starts [interval] after the loop or later and each one
    [interval] or more after the one before it; and once the context has ended the
    loop makes at most two more steps, so at most one more body, and it can make
    one until it has returned, unless its body panics. *)
Theorem ticker_paces s now es t :
  0 < interval → ticks es (ticker0 s now) = Some t →
  spaced interval (t_fired t) ∧ (∀ f, f ∈ t_fired t → now + interval <= f) ∧
  (t_ended t = true →
     (∀ es' t', ticks es' t = Some t' → (length (filter (λ e, own e = true) es') <= 2)%nat) ∧
     (∀ due, t_pc t = TSelect due → is_Some (tick_step TQuit t)) ∧
     (∀ at_ ev s', t_pc t = TBody at_ → body at_ ev (t_state t) = Some s' → is_Some (tick_step (TRun ev (t_clock t)) t))).
Proof.
  intros Hi Hr.
  assert (ticker_ok now t) as [Hs _ _ H0 _].
  { eapply ticks_ok; [|exact Hr]. split; cbn; try done; try (unfold Time.Add; lia). by intros f ?%not_elem_of_nil. }
  split; [done|]. split; [done|]. intros He. split_and!.
  - intros es' t' Hr'. pose proof (ticks_left es' t t' He Hr') as H. destruct (t_pc t); cbn in H; lia.
  - intros due Hp. cbn. rewrite Hp, He. by eexists.
  - intros at_ ev s' Hp Hb. cbn. rewrite Hp, Z.leb_refl, Hb. by eexists.
Qed.
End Ticker.
Arguments ticker : clear implicits.
Arguments tevent : clear implicits.

(** ** The sweep *)

(** [World.sweep]'s body: what [World.sweep_turn] says, with the two stamps and the
    calls made so far, newest first. *)
Definition sweep_body (p : Params) (now : Time) (_ : unit) (s : (Time * Time) * list sweep_call) : option ((Time * Time) * list sweep_call) :=
  let '(calls, stamps) := sweep_turn p now s.1 in Some (stamps, (rev calls ++ s.2)%list).

Definition reclaims (l : list sweep_call) : list Time := l ≫= λ c, match c with SweepReclaim t => [t] | _ => [] end.
Definition expires (l : list sweep_call) : list Time :=
  l ≫= λ c, match c with SweepExpire t _ => [t] | _ => [] end.

(** A turn makes each call at most once, and stamps it. *)
Lemma sweep_turn_calls p now st calls st' :
  sweep_turn p now st = (calls, st') →
  (reclaims (rev calls) = [] ∧ st'.1 = st.1 ∨
   reclaims (rev calls) = [now] ∧ st'.1 = now ∧ P_ReclaimInterval p <= Time.Sub now st.1) ∧
  (expires (rev calls) = [] ∧ st'.2 = st.2 ∨
   expires (rev calls) = [Time.Add now (- P_Retention p)] ∧ st'.2 = now ∧ P_ExpireInterval p <= Time.Sub now st.2).
Proof.
  unfold sweep_turn. destruct st as [lr le].
  destruct (Z.leb_spec (P_ReclaimInterval p) (Time.Sub now lr)), (0 <? P_Retention p),
    (Z.leb_spec (P_ExpireInterval p) (Time.Sub now le)); cbn [andb]; intros [= <- <-]; cbn; auto 10.
Qed.

Lemma sub_bound d a b : 0 < d → d <= Time.Sub a b → d <= a - b.
Proof. unfold Time.Sub, minInt64, maxInt64. lia. Qed.

(** A property of the state that every body keeps holds in every run. *)
Lemma ticks_state {St Ev} interval (body : Time → Ev → St → option St) (P : St → Prop) es t t' :
  (∀ at_ ev s s', P s → body at_ ev s = Some s' → P s') →
  P (t_state t) → ticks interval body es t = Some t' → P (t_state t').
Proof.
  intros Hb. revert t. induction es as [|e es IH]; intros t Ht; cbn [ticks]; [by intros [= <-]|].
  destruct (tick_step interval body e t) as [t1|] eqn:E; [|done]. cbn [mbind option_bind]. apply IH.
  destruct e; cbn [tick_step] in E.
  - destruct (t_pc t); try done. destruct (_ && _); [|done]. by injection E as <-.
  - destruct (t_pc t); try done. destruct (_ <=? _); [|done]. destruct (body _ _ _) as [s|] eqn:Es; [|done].
    injection E as <-. by eapply Hb.
  - destruct (t_pc t); try done. destruct (t_ended t); [|done]. by injection E as <-.
  - by injection E as <-.
Qed.

Lemma spaced_app d a l : (∀ b, head l = Some b → d <= a - b) → spaced d l → spaced d ([a] ++ l)%list.
Proof. destruct l as [|b l]; [done|]. intros H Hs. split; [by apply H|done]. Qed.

Definition swept (p : Params) (s : (Time * Time) * list sweep_call) : Prop :=
  spaced (P_ReclaimInterval p) (reclaims s.2) ∧ (∀ f, head (reclaims s.2) = Some f → f = s.1.1) ∧
  spaced (P_ExpireInterval p) (expires s.2) ∧ (∀ f, head (expires s.2) = Some f → f = Time.Add s.1.2 (- P_Retention p)).

Lemma sweep_body_swept p now u s s' :
  0 < P_ReclaimInterval p → 0 < P_ExpireInterval p → swept p s → sweep_body p now u s = Some s' → swept p s'.
Proof.
  intros H1 H2 (Hr & Hrl & He & Hel). unfold sweep_body. destruct (sweep_turn p now s.1) as [calls st] eqn:E.
  intros [= <-]. unfold swept. cbn [fst snd]. unfold reclaims, expires in *. rewrite !bind_app.
  destruct (sweep_turn_calls p now s.1 calls st E) as [Ha Hb]. unfold reclaims, expires in *.
  split; [|split; [|split]].
  - destruct Ha as [[-> _]|(-> & _ & Hle)]; [done|]. apply spaced_app; [|done].
    intros b ->%Hrl. by apply sub_bound.
  - destruct Ha as [[-> ->]|(-> & -> & _)]; [done|]. by intros f [= <-].
  - destruct Hb as [[-> _]|(-> & _ & Hle)]; [done|]. apply spaced_app; [|done].
    intros b ->%Hel. apply sub_bound in Hle; [|done]. unfold Time.Add. lia.
  - destruct Hb as [[-> ->]|(-> & -> & _)]; [done|]. by intros f [= <-].
Qed.

(** The sweep's cadence: whatever the timer and the clock do, reclaims are at least
    [ReclaimInterval] apart and expiries [ExpireInterval], and a turn that finds one
    due makes it. *)
Theorem sweep_keeps_intervals p es now t :
  0 < P_ReclaimInterval p → 0 < P_ExpireInterval p →
  ticks (P_SweepInterval p) (sweep_body p) es (ticker0 (P_SweepInterval p) ((now, now), []) now) = Some t →
  spaced (P_ReclaimInterval p) (reclaims (t_state t).2) ∧ spaced (P_ExpireInterval p) (expires (t_state t).2) ∧
  (∀ at_ s', sweep_body p at_ tt (t_state t) = Some s' →
     (P_ReclaimInterval p <= Time.Sub at_ (t_state t).1.1 → head (reclaims s'.2) = Some at_) ∧
     (0 < P_Retention p → P_ExpireInterval p <= Time.Sub at_ (t_state t).1.2 →
      head (expires s'.2) = Some (Time.Add at_ (- P_Retention p)))).
Proof.
  intros H1 H2 Hr.
  assert (swept p (t_state t)) as (Hs1 & _ & Hs2 & _).
  { refine (ticks_state _ (sweep_body p) (swept p) es _ t (λ at_ ev s s', sweep_body_swept p at_ ev s s' H1 H2) _ Hr).
    by split_and!. }
  split; [done|]. split; [done|]. intros at_ s'. unfold sweep_body, sweep_turn.
  destruct (t_state t) as [[lr le] l]. cbn [fst snd].
  destruct (Z.leb_spec (P_ReclaimInterval p) (Time.Sub at_ lr)), (Z.ltb_spec 0 (P_Retention p)),
    (Z.leb_spec (P_ExpireInterval p) (Time.Sub at_ le)); cbn [andb]; intros [= <-]; cbn; (split; [intros|intros Hret Hex]); try done; lia.
Qed.

(** ** The generator's loops *)

(** Where a tenant's goroutine is in [loop]: about to read the gate's channel; at
    the gate, on the channel it read; past it; in the second a rate of zero waits;
    in the wait before an arrival; past that; about to send; returned.  [nxt] is
    its schedule. *)
Inductive gpc :=
  | GTop (nxt : Time)
  | GGate (ch : nat) (nxt : Time)
  | GRate (nxt : Time)
  | GIdle (due : Time)
  | GWait (due : Time) (nxt : Time)
  | GCheck (nxt : Time)
  | GSend (nxt : Time)
  | GReturned.

(** The generator, its loops, whether the context has ended, and what was sent:
    tenant and sequence number, newest first. *)
Record gsys := mkGsys { gs_gen : Generator; gs_pcs : list gpc; gs_ended : bool; gs_sent : list (nat * Z) }.

Inductive gevent :=
  | GReadGate (i : nat)
  | GPass (i : nat)
  | GQuit (i : nat)
  | GReadRate (i : nat) (now : Time) (draw : float64)
  | GTimer (i : nat) (now : Time)
  | GLook (i : nat)
  | GDeliver (i : nat)
  | GCall (o : gop)
  | GEnd.

Definition gevent_loop (e : gevent) : option nat :=
  match e with
  | GReadGate i | GPass i | GQuit i | GReadRate i _ _ | GTimer i _ | GLook i | GDeliver i => Some i
  | GCall _ | GEnd => None
  end.

Definition goto (i : nat) (p : gpc) (s : gsys) : gsys := mkGsys (gs_gen s) (<[i := p]> (gs_pcs s)) (gs_ended s) (gs_sent s).
Definition with_gen_ (g : Generator) (s : gsys) : gsys := mkGsys g (gs_pcs s) (gs_ended s) (gs_sent s).

(** The calls of others: the gate and the multipliers ([OSend] is a loop's own). *)
Definition control (o : gop) : bool := match o with OSend _ => false | _ => true end.

(** One step; [None] when it cannot be taken now, or is an index out of range. *)
Definition gstep (e : gevent) (s : gsys) : option gsys :=
  match e with
  | GReadGate i => match gs_pcs s !! i with Some (GTop nxt) => Some (goto i (GGate (runningCh (gs_gen s)) nxt) s) | _ => None end
  | GPass i =>
      match gs_pcs s !! i with
      | Some (GGate ch nxt) => if bool_decide (ch ∈ closed_chans (gs_gen s)) then Some (goto i (GRate nxt) s) else None
      | _ => None
      end
  | GQuit i =>
      match gs_pcs s !! i with
      | Some (GGate _ _) | Some (GIdle _) | Some (GWait _ _) => if gs_ended s then Some (goto i GReturned s) else None
      | _ => None
      end
  | GReadRate i now draw =>
      match gs_pcs s !! i with
      | Some (GRate nxt) =>
          r ← rate i (gs_gen s);
          if SFleb r (F.of_Z 0) then Some (goto i (GIdle (Time.Add now Second)) s)
          else
            let '(nxt, wait) := schedule nxt now (gap_of draw r) in
            Some (goto i (if 0 <? wait then GWait (Time.Add now wait) nxt else GCheck nxt) s)
      | _ => None
      end
  | GTimer i now =>
      match gs_pcs s !! i with
      | Some (GIdle due) => if due <=? now then Some (goto i (GTop 0) s) else None
      | Some (GWait due nxt) => if due <=? now then Some (goto i (GCheck nxt) s) else None
      | _ => None
      end
  | GLook i =>
      match gs_pcs s !! i with
      | Some (GCheck nxt) => Some (goto i (if on (gs_gen s) then GSend nxt else GTop 0) s)
      | _ => None
      end
  | GDeliver i =>
      match gs_pcs s !! i with
      | Some (GSend nxt) =>
          '(q, g) ← next i (gs_gen s);
          Some (mkGsys g (<[i := GTop nxt]> (gs_pcs s)) (gs_ended s) ((i, q) :: gs_sent s))
      | _ => None
      end
  | GCall o => if control o then g ← gexec o (gs_gen s); Some (with_gen_ g s) else None
  | GEnd => Some (mkGsys (gs_gen s) (gs_pcs s) true (gs_sent s))
  end.

(** [Run]: a loop per tenant. *)
Definition gsys0 (cfg : GeneratorConfig) : gsys :=
  mkGsys (NewGenerator cfg) (replicate (length (n_Tenants cfg)) (GTop 0)) false [].

Fixpoint gruns (es : list gevent) (s : gsys) : option gsys :=
  match es with [] => Some s | e :: es => s' ← gstep e s; gruns es s' end.

(** ** What the loops promise *)

Lemma gexec_off o g g' :
  gate_ok g → on g = false → gexec o g = Some g' → o ≠ ORun true →
  (gate_ok g' ∧ on g' = false) ∧ closed_chans g' = closed_chans g.
Proof.
  intros Hg Ho E Hn. destruct o as [b|i x|x|i]; cbn in E.
  - destruct b; [done|]. unfold SetRunning in E. rewrite Ho in E. by injection E as <-.
  - unfold SetMultiplier in E. case_bool_decide; [|done]. by injection E as <-.
  - by injection E as <-.
  - unfold next in E. destruct (sqn g !! i); [|done]. by injection E as <-.
Qed.

Definition sends (i : nat) (s : gsys) : nat := length (filter (λ e, e.1 = i) (gs_sent s)).
Definition about_to (i : nat) (s : gsys) : nat := match gs_pcs s !! i with Some (GSend _) => 1 | _ => 0 end.

(** What [pause] and [stop] assume, and every step but a resume keeps. *)
Definition paused (s : gsys) : Prop := gate_ok (gs_gen s) ∧ on (gs_gen s) = false.
Definition no_resume (e : gevent) : Prop := e ≠ GCall (ORun true).

Lemma goto_off i p s : paused s → paused (goto i p s).
Proof. done. Qed.

(** What a step does to the generator is one of its calls, or nothing; and a context
    that has ended stays so. *)
Lemma gstep_effect e s s' :
  gstep e s = Some s' →
  (gs_gen s' = gs_gen s ∨ ∃ o, gexec o (gs_gen s) = Some (gs_gen s') ∧ (e = GCall o ∨ ∃ i, o = OSend i)) ∧
  (gs_ended s = true → gs_ended s' = true).
Proof.
  intros E. destruct e as [i|i|i|i now draw|i now|i|i|o|]; cbn [gstep] in E;
    try (destruct (gs_pcs s !! i) as [[]|]; try done).
  - injection E as <-. auto.
  - case_bool_decide; [|done]. injection E as <-. auto.
  - destruct (gs_ended s) eqn:He; [|done]. injection E as <-. auto.
  - destruct (gs_ended s) eqn:He; [|done]. injection E as <-. auto.
  - destruct (gs_ended s) eqn:He; [|done]. injection E as <-. auto.
  - destruct (rate i (gs_gen s)); [|done]. cbn [mbind option_bind] in E. destruct (SFleb _ _); [injection E as <-; auto|].
    destruct (schedule _ _ _). injection E as <-. auto.
  - destruct (_ <=? _); [|done]. injection E as <-. auto.
  - destruct (_ <=? _); [|done]. injection E as <-. auto.
  - injection E as <-. auto.
  - destruct (next i (gs_gen s)) as [[q g]|] eqn:En; [|done]. injection E as <-. split; [|done]. right. exists (OSend i).
    cbn. rewrite En. eauto.
  - destruct (control o); [|done]. destruct (gexec o (gs_gen s)) as [g|] eqn:Eo; [|done]. injection E as <-. split; [|done].
    right. exists o. cbn. auto.
  - injection E as <-. auto.
Qed.

Lemma gstep_off e s s' : paused s → no_resume e → gstep e s = Some s' → paused s'.
Proof.
  intros [Hg Ho] Hn E. destruct (proj1 (gstep_effect e s s' E)) as [Heq|(o & Eo & Hcall)]; [unfold paused; by rewrite Heq|].
  apply (gexec_off o _ _ Hg Ho Eo). intros ->. destruct Hcall as [->|[i ?]]; [by apply Hn|done].
Qed.

Lemma about_goto i j p s : (∀ nxt, p ≠ GSend nxt) → (about_to i (goto j p s) <= about_to i s)%nat.
Proof.
  intros Hp. unfold about_to, goto. cbn. destruct (decide (i = j)) as [->|Hne].
  - destruct (decide (j < length (gs_pcs s))%nat) as [Hlt|Hge].
    + rewrite list_lookup_insert_eq by done. destruct p; try lia. by destruct (Hp nxt).
    + rewrite lookup_ge_None_2; [lia|]. rewrite length_insert. lia.
  - by rewrite list_lookup_insert_ne.
Qed.

(** While paused a loop's sends and its standing decision to send do not grow. *)
Lemma gstep_sends i e s s' :
  paused s → gstep e s = Some s' → (sends i s' + about_to i s' <= sends i s + about_to i s)%nat.
Proof.
  intros [_ Ho] E.
  assert (∀ j p, (∀ nxt, p ≠ GSend nxt) → (sends i (goto j p s) + about_to i (goto j p s) <= sends i s + about_to i s)%nat) as Hgo.
  { intros j p Hp. pose proof (about_goto i j p s Hp). unfold sends, goto in *. cbn in *. lia. }
  destruct e as [j|j|j|j now draw|j now|j|j|o|]; cbn [gstep] in E;
    try (destruct (gs_pcs s !! j) as [[]|] eqn:Ej; try done).
  - injection E as <-. by apply Hgo.
  - case_bool_decide; [|done]. injection E as <-. by apply Hgo.
  - destruct (gs_ended s); [|done]. injection E as <-. by apply Hgo.
  - destruct (gs_ended s); [|done]. injection E as <-. by apply Hgo.
  - destruct (gs_ended s); [|done]. injection E as <-. by apply Hgo.
  - destruct (rate j (gs_gen s)); [|done]. cbn [mbind option_bind] in E. destruct (SFleb _ _); [injection E as <-; by apply Hgo|].
    destruct (schedule _ _ _) as [n0 w0]. injection E as <-. apply Hgo. destruct (0 <? w0), (gs_ended s); done.
  - destruct (_ <=? _); [|done]. injection E as <-. by apply Hgo.
  - destruct (_ <=? _); [|done]. injection E as <-. by apply Hgo.
  - injection E as <-. apply Hgo. by rewrite Ho.
  - destruct (next j (gs_gen s)) as [[q g]|] eqn:En; [|done]. injection E as <-. unfold sends, about_to. cbn [gs_sent gs_pcs].
    rewrite filter_cons. cbn [fst]. pose proof (lookup_lt_Some _ _ _ Ej). case_decide as Hij; cbn [length].
    + subst j. rewrite list_lookup_insert_eq, Ej by done. lia.
    + rewrite list_lookup_insert_ne by done. lia.
  - destruct (control o); [|done]. destruct (gexec o (gs_gen s)); [|done]. by injection E as <-.
  - by injection E as <-.
Qed.

(** The pause holds: once the generator is paused, and until it is resumed, a
    tenant's loop sends at most the one event it had already decided to send when
    the pause came, and none if it had not, however its timers fire. *)
Theorem pause_stops_sends i es s s' :
  paused s → Forall no_resume es → gruns es s = Some s' →
  (sends i s' <= sends i s + about_to i s)%nat.
Proof.
  intros Hp Hn Hr. assert (sends i s' + about_to i s' <= sends i s + about_to i s)%nat; [|lia].
  revert s Hp Hr. induction Hn as [|e es He _ IH]; intros s Hp; cbn [gruns]; [by intros [= <-]|].
  destruct (gstep e s) as [s1|] eqn:E; [|done]. cbn [mbind option_bind]. intros Hr.
  specialize (IH s1 (gstep_off e s s1 Hp He E) Hr). pose proof (gstep_sends i e s s1 Hp E). lia.
Qed.

(** *** Their end *)

(** The steps a loop of a paused generator can still take once the context has
    ended; a gate's channel read before the pause may be closed. *)
Definition grank (g : Generator) (p : gpc) : nat :=
  match p with
  | GReturned => 0
  | GGate ch _ => if bool_decide (ch ∈ closed_chans g) then 6 else 1
  | GTop _ => 2
  | GIdle _ | GCheck _ | GSend _ => 3
  | GWait _ _ => 4
  | GRate _ => 5
  end.

Definition loop_event (e : gevent) : bool := match gevent_loop e with Some _ => true | None => false end.

(** The channels stay as they are while nobody resumes. *)
Lemma gstep_closed e s s' :
  paused s → no_resume e → gstep e s = Some s' → closed_chans (gs_gen s') = closed_chans (gs_gen s).
Proof.
  intros [Hg Ho] Hn E. destruct (proj1 (gstep_effect e s s' E)) as [Heq|(o & Eo & Hcall)]; [by rewrite Heq|].
  apply (gexec_off o _ _ Hg Ho Eo). intros ->. destruct Hcall as [->|[i ?]]; [by apply Hn|done].
Qed.

(** A loop's own step brings it closer to its end. *)
Lemma gstep_rank e i p s s' :
  paused s → gs_ended s = true → gstep e s = Some s' → gevent_loop e = Some i → gs_pcs s !! i = Some p →
  ∃ p', gs_pcs s' = <[i := p']> (gs_pcs s) ∧ (grank (gs_gen s) p' < grank (gs_gen s) p)%nat.
Proof.
  intros [(Hg & _ & _) Ho] He E Hev Ep. destruct e; try done; injection Hev as ->; cbn [gstep] in E; rewrite Ep, ?He in E.
  - destruct p as [nxt| | | | | | |]; try done. injection E as <-. eexists. split; [done|]. cbn.
    rewrite bool_decide_eq_false_2; [lia|]. unfold runningCh. rewrite Hg, Ho. done.
  - destruct p as [|ch nxt| | | | | |]; try done. case_bool_decide as Hc; [|done]. injection E as <-. eexists. split; [done|].
    cbn. rewrite bool_decide_eq_true_2 by done. lia.
  - destruct p; try done; injection E as <-; (eexists; split; [done|]); cbn; try lia. case_bool_decide; lia.
  - destruct p as [| |nxt| | | | |]; try done. destruct (rate i (gs_gen s)); [|done]. cbn [mbind option_bind] in E.
    destruct (SFleb _ _); [injection E as <-; eexists; split; [done|]; cbn; lia|].
    destruct (schedule _ _ _) as [n0 w0]. injection E as <-. eexists. split; [done|]. destruct (0 <? w0); cbn; lia.
  - destruct p; try done; (destruct (_ <=? _); [|done]); injection E as <-; (eexists; split; [done|]); cbn; lia.
  - destruct p; try done. injection E as <-. eexists. split; [done|]. rewrite Ho. cbn. lia.
  - destruct p; try done. destruct (next i (gs_gen s)) as [[q g]|]; [|done]. injection E as <-. eexists. split; [done|]. cbn. lia.
Qed.

Lemma gstep_others e s s' : gevent_loop e = None → gstep e s = Some s' → gs_pcs s' = gs_pcs s.
Proof.
  intros Hev E. destruct e; try done; cbn [gstep] in E; [|by injection E as <-].
  destruct (control o); [|done]. destruct (gexec o (gs_gen s)); [|done]. by injection E as <-.
Qed.

Lemma gstep_lookup e s s' i : gstep e s = Some s' → gevent_loop e = Some i → is_Some (gs_pcs s !! i).
Proof. destruct e; try done; intros E [= ->]; cbn [gstep] in E; destruct (gs_pcs s !! i); by eauto. Qed.

Lemma grank_closed g g' p : closed_chans g = closed_chans g' → grank g p = grank g' p.
Proof. intros H. unfold grank. by rewrite H. Qed.

Lemma gruns_rank es s s' :
  paused s → gs_ended s = true → Forall no_resume es → gruns es s = Some s' →
  (length (filter (λ e, loop_event e = true) es) + sum_list_with (grank (gs_gen s')) (gs_pcs s')
     <= sum_list_with (grank (gs_gen s)) (gs_pcs s))%nat.
Proof.
  intros Hp He Hn. revert s Hp He. induction Hn as [|e es Hne _ IH]; intros s Hp He; cbn [gruns]; [intros [= <-]; cbn; lia|].
  destruct (gstep e s) as [s1|] eqn:E; [|done]. cbn [mbind option_bind]. intros Hr.
  specialize (IH s1 (gstep_off e s s1 Hp Hne E) (proj2 (gstep_effect e s s1 E) He) Hr). rewrite filter_cons.
  assert (sum_list_with (grank (gs_gen s1)) (gs_pcs s1) = sum_list_with (grank (gs_gen s)) (gs_pcs s1)) as Hsame.
  { assert (∀ l, sum_list_with (grank (gs_gen s1)) l = sum_list_with (grank (gs_gen s)) l) as H; [|apply H].
    induction l as [|p l IHl]; [done|]. cbn [sum_list_with].
    by rewrite IHl, (grank_closed (gs_gen s1) (gs_gen s) p) by (by apply gstep_closed with e). }
  destruct (gevent_loop e) as [i|] eqn:Hev.
  - rewrite decide_True by (unfold loop_event; by rewrite Hev). cbn [length].
    destruct (gstep_lookup e s s1 i E Hev) as [p Ep].
    destruct (gstep_rank e i p s s1 Hp He E Hev Ep) as (p' & Hpcs & Hlt).
    pose proof (sum_list_with_insert (grank (gs_gen s)) i p p' (gs_pcs s) Ep) as Hs. rewrite <- Hpcs in Hs. lia.
  - rewrite decide_False by (unfold loop_event; by rewrite Hev). rewrite <- (gstep_others e s s1 Hev E). lia.
Qed.

(** The arrays have an entry per loop. *)
Definition sized (s : gsys) : Prop :=
  length (n_Rates (n_cfg (gs_gen s))) = length (gs_pcs s) ∧ length (mult (gs_gen s)) = length (gs_pcs s) ∧
  length (sqn (gs_gen s)) = length (gs_pcs s).

Lemma gloop_enabled i p s :
  sized s → gs_ended s = true → gs_pcs s !! i = Some p → p ≠ GReturned →
  ∃ e, gevent_loop e = Some i ∧ is_Some (gstep e s).
Proof.
  intros (H1 & H2 & H3) He Ep Hp. pose proof (lookup_lt_Some _ _ _ Ep) as Hlt.
  destruct p as [nxt|ch nxt|nxt|due|due nxt|nxt|nxt|]; [| | | | | | |done].
  - exists (GReadGate i). cbn. rewrite Ep. eauto.
  - exists (GQuit i). cbn. rewrite Ep, He. eauto.
  - exists (GReadRate i 0 (F.of_Z 0)). split; [done|]. cbn [gstep]. rewrite Ep. unfold rate.
    destruct (lookup_lt_is_Some_2 (n_Rates (n_cfg (gs_gen s))) i) as [r ->]; [lia|].
    destruct (lookup_lt_is_Some_2 (mult (gs_gen s)) i) as [x ->]; [lia|]. cbn [mbind option_bind].
    destruct (SFleb _ _); [eauto|]. destruct (schedule _ _ _). eauto.
  - exists (GQuit i). cbn. rewrite Ep, He. eauto.
  - exists (GQuit i). cbn. rewrite Ep, He. eauto.
  - exists (GLook i). cbn. rewrite Ep. eauto.
  - exists (GDeliver i). split; [done|]. cbn [gstep]. rewrite Ep. unfold next.
    destruct (lookup_lt_is_Some_2 (sqn (gs_gen s)) i) as [q ->]; [lia|]. eauto.
Qed.

(** C36. The parked loops do not hold up [Stop]: once the context of a paused generator
    has ended, and it stays paused, its loops make at most [grank]'s sum of steps
    between them, parked at the gate or asleep as they may be, and each can make
    one until it has returned; so [Run] returns. *)
Theorem paused_loops_return es s s' :
  paused s → sized s → gs_ended s = true → Forall no_resume es → gruns es s = Some s' →
  (length (filter (λ e, loop_event e = true) es) <= sum_list_with (grank (gs_gen s)) (gs_pcs s))%nat ∧
  (∀ i p, gs_pcs s !! i = Some p → p ≠ GReturned → ∃ e, gevent_loop e = Some i ∧ is_Some (gstep e s)).
Proof.
  intros Hp Hs He Hn Hr. split; [pose proof (gruns_rank es s s' Hp He Hn Hr); lia|].
  intros i p Ep Hne. by eapply gloop_enabled.
Qed.

(** ** Witnesses *)

Module LoopsDemo.
Definition cfg : GeneratorConfig := mkGeneratorConfig ["t-0000"; "t-0001"] [F.one; F.one] 64 "CANARY-".
Definition ran (es : list gevent) : gsys := default (gsys0 cfg) (gruns es (gsys0 cfg)).
(** Resumed; the first tenant's wait is over and its send decided; paused then, with
    the second still in its wait; and the context ends. *)
Definition to_send : list gevent :=
  [GCall (ORun true); GReadGate 0; GPass 0; GReadRate 0 (100 * Second) F.one; GTimer 0 (101 * Second); GLook 0;
   GReadGate 1; GPass 1; GReadRate 1 (100 * Second) F.one].
Definition held_up : list gevent := (to_send ++ [GCall (ORun false); GEnd])%list.
Definition rest : list gevent := [GDeliver 0; GReadGate 0; GQuit 0; GQuit 1].
Definition p : Params := Demo.

Lemma paused_there : paused (ran held_up).
Proof. split; [|vm_compute; reflexivity]. split_and!; [vm_compute; set_solver|vm_compute; lia|]. intros c Hc.
  assert (elements (closed_chans (gs_gen (ran held_up))) = [0%nat]) as E by (vm_compute; reflexivity).
  apply elem_of_elements in Hc. rewrite E in Hc. apply list_elem_of_singleton in Hc as ->. vm_compute. lia.
Qed.
End LoopsDemo.

Lemma pause_stops_sends_witness :
  gs_sent (LoopsDemo.ran (LoopsDemo.held_up ++ LoopsDemo.rest)) = [(0%nat, 1)] ∧
  (sends 0 (LoopsDemo.ran (LoopsDemo.held_up ++ LoopsDemo.rest)) <= 1)%nat.
Proof.
  split; [vm_compute; reflexivity|].
  refine (pause_stops_sends 0 LoopsDemo.rest (LoopsDemo.ran LoopsDemo.held_up) _ LoopsDemo.paused_there _ _).
  - repeat constructor; discriminate.
  - vm_compute. reflexivity.
Defined.

Lemma paused_loops_return_witness :
  gs_pcs (LoopsDemo.ran (LoopsDemo.held_up ++ LoopsDemo.rest)) = [GReturned; GReturned] ∧
  (4 <= sum_list_with (grank (gs_gen (LoopsDemo.ran LoopsDemo.held_up))) (gs_pcs (LoopsDemo.ran LoopsDemo.held_up)))%nat.
Proof.
  split; [vm_compute; reflexivity|].
  refine (proj1 (paused_loops_return LoopsDemo.rest (LoopsDemo.ran LoopsDemo.held_up)
    (LoopsDemo.ran (LoopsDemo.held_up ++ LoopsDemo.rest)) LoopsDemo.paused_there _ _ _ _)).
  - vm_compute. split_and!; reflexivity.
  - vm_compute. reflexivity.
  - repeat constructor; discriminate.
  - vm_compute. reflexivity.
Defined.

(** A metrics loop of half a second with a slow body. *)
Lemma ticker_paces_witness :
  ∃ t, ticks (500 * Millisecond) (λ _ (_ : unit) (n : Z), Some (n + 1))
    [TFire (500 * Millisecond); TRun tt (1200 * Millisecond); TFire (1700 * Millisecond)]
    (ticker0 (500 * Millisecond) 0 0) = Some t ∧
  t_fired t = [1700 * Millisecond; 500 * Millisecond] ∧ spaced (500 * Millisecond) (t_fired t).
Proof.
  eexists. split; [vm_compute; reflexivity|]. split; [vm_compute; reflexivity|].
  refine (proj1 (ticker_paces (500 * Millisecond) (λ _ (_ : unit) (n : Z), Some (n + 1)) 0 0
    [TFire (500 * Millisecond); TRun tt (1200 * Millisecond); TFire (1700 * Millisecond)] _ _ _)).
  - reflexivity.
  - vm_compute. reflexivity.
Defined.

Lemma sweep_keeps_intervals_witness :
  ∃ t, ticks (P_SweepInterval Demo) (sweep_body Demo)
    [TFire (Second); TRun tt Second; TFire (3 * Second); TRun tt (3 * Second)]
    (ticker0 (P_SweepInterval Demo) ((0, 0), []) 0) = Some t ∧
  reclaims (t_state t).2 = [3 * Second; Second] ∧ spaced (P_ReclaimInterval Demo) (reclaims (t_state t).2).
Proof.
  eexists. split; [vm_compute; reflexivity|]. split; [vm_compute; reflexivity|].
  refine (proj1 (sweep_keeps_intervals Demo [TFire (Second); TRun tt Second; TFire (3 * Second); TRun tt (3 * Second)] 0 _ _ _ _)).
  - reflexivity.
  - reflexivity.
  - vm_compute. reflexivity.
Defined.
