(* ===== verification/Main.v ===== *)
(** * cmd/killswitch/main.go: configuration, boot and shutdown

    What the environment changes of the demo parameters, the World built at boot,
    and the two steps of the shutdown goroutine among the handlers still running.
    The listener and the signal are the events that start these steps.  Parsing a
    decimal as a float64 is package strconv's and a parameter. *)

From S2P Require Import Prelude GoLib GoFloat Kms Tink KmsModel Fake Lease Cmek Tenant Prog Manager Api.
From S2P Require Import Store Ingest Hub Generator Params Metrics World Scenarios Footprint ScenarioDemo ScenarioSpec Holder.
Local Open Scope string_scope.
Local Open Scope Z_scope.

(** ** strconv *)

Definition digit (c : Ascii.ascii) : option Z :=
  let n := Z.of_N (Ascii.N_of_ascii c) in if (48 <=? n) && (n <=? 57) then Some (n - 48) else None.

(** The digits of a base-10 text; [None] is a syntax error. *)
Fixpoint digits_of (acc : Z) (s : string) : option Z :=
  match s with
  | String.EmptyString => Some acc
  | String.String c s => d ← digit c; digits_of (10 * acc + d) s
  end.
Definition natural (s : string) : option Z := if bool_decide (s = "") then None else digits_of 0 s.

(** [strconv.ParseInt(s, 10, 64)]; [None] is an error, of syntax or of range. *)
Definition ParseInt (s : string) : option Z :=
  v ← match s with
      | String.String c s' =>
          if Ascii.eqb c (Ascii.ascii_of_nat 43) then natural s' else if Ascii.eqb c (Ascii.ascii_of_nat 45) then Z.opp <$> natural s' else natural s
      | String.EmptyString => None
      end;
  if (minInt64 <=? v) && (v <=? maxInt64) then Some v else None.
(** [strconv.Atoi]: an int has 64 bits. *)
Definition Atoi (s : string) : option Z := ParseInt s.

Class GoParseFloat := ParseFloat : string → option float64.

(** ** The environment *)

Section Configure.
Context `{PF : GoParseFloat}.

(** [env] is [os.Getenv]: the empty text for a variable that is not set. *)
Definition port (env : string → string) : string := if bool_decide (env "PORT" = "") then "8080" else env "PORT".

(** The parameters with the five settings that can be overridden. *)
Definition overridden (seed : Z) (rate : float64) (dir sync : string) (wal : Z) (p : Params) : Params := {|
    P_Tenants := P_Tenants p; P_Providers := P_Providers p; P_Seed := seed; P_Lease := P_Lease p;
    P_SoftTTL := P_SoftTTL p; P_EarlyExpiry := P_EarlyExpiry p; P_KMSTimeout := P_KMSTimeout p;
    P_BackoffMin := P_BackoffMin p; P_BackoffMax := P_BackoffMax p; P_BackoffJitter := P_BackoffJitter p;
    P_RevokedReprobe := P_RevokedReprobe p; P_DEKMaxMessages := P_DEKMaxMessages p; P_DEKMaxAge := P_DEKMaxAge p;
    P_ProviderInflight := P_ProviderInflight p; P_TenantInflight := P_TenantInflight p;
    P_IngestWaiters := P_IngestWaiters p; P_SweepInterval := P_SweepInterval p; P_Workers := P_Workers p;
    P_ClaimBatch := P_ClaimBatch p; P_ClaimTimeout := P_ClaimTimeout p; P_ReclaimInterval := P_ReclaimInterval p;
    P_IdlePoll := P_IdlePoll p; P_TwoClassSched := P_TwoClassSched p; P_SchedLightTurns := P_SchedLightTurns p;
    P_DBDir := dir; P_SyncMode := sync; P_WALAutocheckpoint := wal; P_SinkLatencyMin := P_SinkLatencyMin p;
    P_SinkLatencyMax := P_SinkLatencyMax p; P_SinkRing := P_SinkRing p; P_BaseRate := rate;
    P_ZipfExponent := P_ZipfExponent p; P_PayloadBytes := P_PayloadBytes p; P_CanaryPrefix := P_CanaryPrefix p;
    P_SnapshotInterval := P_SnapshotInterval p; P_AuditRing := P_AuditRing p; P_TimelineRing := P_TimelineRing p;
    P_SnapshotEvents := P_SnapshotEvents p; P_ViewerQueue := P_ViewerQueue p; P_TenantRate := P_TenantRate p;
    P_TenantBurst := P_TenantBurst p; P_TenantBacklogCap := P_TenantBacklogCap p;
    P_GlobalBacklogCap := P_GlobalBacklogCap p; P_FairShare := P_FairShare p; P_RetryAfter := P_RetryAfter p;
    P_SurgeTenantRank := P_SurgeTenantRank p; P_TenantSurgeMult := P_TenantSurgeMult p;
    P_TenantSurgeFor := P_TenantSurgeFor p; P_GlobalSurgeMult := P_GlobalSurgeMult p;
    P_GlobalSurgeFor := P_GlobalSurgeFor p; P_GlobalSurgeAffectedTop := P_GlobalSurgeAffectedTop p;
    P_ScenarioTailMin := P_ScenarioTailMin p; P_ScenarioTailMax := P_ScenarioTailMax p;
    P_OutageBlip := P_OutageBlip p; P_OutageLong := P_OutageLong p; P_OutageProvider := P_OutageProvider p;
    P_SlowProvider := P_SlowProvider p; P_SlowP50 := P_SlowP50 p; P_SlowP99 := P_SlowP99 p;
    P_SlowFor := P_SlowFor p; P_RevokeTenantRank := P_RevokeTenantRank p; P_NoCacheProvider := P_NoCacheProvider p;
    P_NoCacheFor := P_NoCacheFor p; P_NoCacheBlip := P_NoCacheBlip p; P_NoCacheAfter := P_NoCacheAfter p;
    P_NoCacheKMSP50 := P_NoCacheKMSP50 p; P_NoCacheKMSP99 := P_NoCacheKMSP99 p;
    P_NoCacheSurgeLead := P_NoCacheSurgeLead p; P_NoCacheSurgeFor := P_NoCacheSurgeFor p;
    P_NoCacheSurgeAfter := P_NoCacheSurgeAfter p; P_ChartWindow := P_ChartWindow p; P_P99Window := P_P99Window p;
    P_BaselineTicks := P_BaselineTicks p; P_L1Ratio := P_L1Ratio p; P_L1Floor := P_L1Floor p;
    P_L1Grace := P_L1Grace p; P_L1For := P_L1For p; P_L4CapacityFactor := P_L4CapacityFactor p;
    P_L4Settle := P_L4Settle p; P_TimelineAggregateMin := P_TimelineAggregateMin p;
    P_CheckInterval := P_CheckInterval p; P_CanaryFullScan := P_CanaryFullScan p; P_Lights := P_Lights p;
    P_Capacity := P_Capacity p; P_Retention := P_Retention p; P_ExpireInterval := P_ExpireInterval p;
    P_ExpireLimit := P_ExpireLimit p; P_StreamMaxAge := P_StreamMaxAge p;
    P_StreamWriteTimeout := P_StreamWriteTimeout p; P_IdleRebuild := P_IdleRebuild p;
    P_StopTimeout := P_StopTimeout p |}.

(** The overrides of [main]; a value that does not parse, or is not positive where
    it has to be, leaves the parameter as it was. *)
Definition configure (env : string → string) (p : Params) : Params :=
  let seed := match ParseInt (env "SEED") with Some v => v | None => P_Seed p end in
  let rate := match ParseFloat (env "KS_BASE_RATE") with Some v => if F.lt (F.of_Z 0) v then v else P_BaseRate p | None => P_BaseRate p end in
  let dir := if bool_decide (env "KS_DB_DIR" = "") then P_DBDir p else env "KS_DB_DIR" in
  let sync := if bool_decide (env "KS_SYNC" = "") then P_SyncMode p else env "KS_SYNC" in
  let wal := match Atoi (env "KS_WAL_AUTOCHECKPOINT") with Some v => if 0 <? v then v else P_WALAutocheckpoint p | None => P_WALAutocheckpoint p end in
  overridden seed rate dir sync wal p.

(** A variable set to one value, the others not set. *)
Definition setenv (name value : string) : string → string := λ n, if bool_decide (n = name) then value else "".
End Configure.

(** ** Boot and shutdown *)

Section Main.
Context `{TK : Tink} `{MR : MapRange} `{FM : Fmt}.

(** The World [main] builds before it listens, released at once; [None] ends the
    process with status 1. *)
Definition boot (fresh : option cworld) (h : Holder) : option nat * Holder :=
  let '(r, h) := Ensure fresh h in
  match r with
  | None => (None, h)
  | Some (i, hd) => (Some i, default h (on_site i (λ s, Some (unhold hd s)) h))
  end.

(** The first step of the shutdown goroutine: which World is current, its hold
    released. *)
Definition read_current (h : Holder) : option nat * Holder :=
  let '(r, h) := Current h in
  match r with
  | None => (None, h)
  | Some (i, hd) => (Some i, default h (on_site i (λ s, Some (unhold hd s)) h))
  end.

(** The second: [cur.Stop()] on the World read, while handlers finish. *)
Definition stop_read (now : Time) (cur : option nat) (h : Holder) : option Holder :=
  match cur with None => Some h | Some i => on_site i (Stop_site now) h end.

(** The whole: [mid] is what the handlers still running do between the two. *)
Definition shutdown (now : Time) (mid : list (Time * act)) (h : Holder) : option Holder :=
  let '(cur, h) := read_current h in h ← hacts mid h; stop_read now cur h.
End Main.

(** ** Parsing is the inverse of printing *)

Lemma digit_of (x : N) : digit (pretty_N_char (x mod 10)) = Some (Z.of_N (x mod 10)).
Proof.
  assert (x mod 10 < 10)%N as H by (apply N.mod_lt; lia). revert H. generalize (x mod 10)%N. intros y Hy.
  assert (y = 0 ∨ y = 1 ∨ y = 2 ∨ y = 3 ∨ y = 4 ∨ y = 5 ∨ y = 6 ∨ y = 7 ∨ y = 8 ∨ y = 9)%N as Hc by lia.
  by repeat destruct Hc as [->|Hc]; [..|subst y].
Qed.

Lemma digits_of_pretty (x : N) (s : string) : digits_of 0 (pretty_N_go x s) = digits_of (Z.of_N x) s.
Proof.
  revert s. induction (N.lt_wf_0 x) as [x _ IH]. intros s.
  destruct (decide (x = 0%N)) as [->|Hx]; [by rewrite pretty_N_go_0|]. rewrite pretty_N_go_step by lia.
  rewrite IH by (apply N.div_lt; lia). cbn [digits_of]. rewrite digit_of. cbn [mbind option_bind]. f_equal.
  rewrite (N.div_mod x 10) at 3 by done. lia.
Qed.

Lemma natural_pretty (x : N) : natural (pretty x) = Some (Z.of_N x).
Proof.
  unfold natural, pretty, pretty_N. case_decide as Hx; [by subst|]. rewrite bool_decide_eq_false_2; [by rewrite digits_of_pretty|].
  intros E. pose proof (digits_of_pretty x "") as H. rewrite E in H. cbn in H. injection H as H. lia.
Qed.

(** A text that starts with a digit has no sign. *)
Lemma ParseInt_natural s v : natural s = Some v → minInt64 <= v <= maxInt64 → ParseInt s = Some v.
Proof.
  unfold natural. case_bool_decide as Hs; [done|]. destruct s as [|c s]; [done|]. intros H Hv. unfold ParseInt, natural.
  assert (Ascii.eqb c (Ascii.ascii_of_nat 43) = false ∧ Ascii.eqb c (Ascii.ascii_of_nat 45) = false) as [-> ->].
  { cbn [digits_of] in H. split; apply Ascii.eqb_neq; intros ->; by vm_compute in H. }
  rewrite bool_decide_eq_false_2, H by done. cbn [mbind option_bind].
  destruct (Z.leb_spec minInt64 v), (Z.leb_spec v maxInt64); try lia. done.
Qed.

Lemma ParseInt_Itoa z : minInt64 <= z <= maxInt64 → ParseInt (Itoa z) = Some z.
Proof.
  intros Hz. destruct z as [|x|x].
  - by vm_compute.
  - apply ParseInt_natural; [exact (natural_pretty (N.pos x))|done].
  - change (Itoa (Z.neg x)) with (String.String (Ascii.ascii_of_nat 45) (pretty (N.pos x))). unfold ParseInt.
    replace (Ascii.eqb (Ascii.ascii_of_nat 45) (Ascii.ascii_of_nat 43)) with false by reflexivity.
    replace (Ascii.eqb (Ascii.ascii_of_nat 45) (Ascii.ascii_of_nat 45)) with true by reflexivity.
    rewrite natural_pretty. cbn [fmap option_fmap option_map mbind option_bind]. change (- Z.of_N (N.pos x)) with (Z.neg x).
    destruct (Z.leb_spec minInt64 (Z.neg x)), (Z.leb_spec (Z.neg x) maxInt64); try lia. done.
Qed.

Section Settings.
Context `{PF : GoParseFloat}.

(** C40. A setting takes effect or is ignored, never half taken: a seed and a
    checkpoint size in decimal, as printed, are the ones the World gets, over the
    whole range of int64; the checkpoint size and the base rate stay positive
    whatever the environment holds; with nothing set the parameters are the demo's;
    and nothing else of them ever changes. *)
Theorem settings_take_effect env p :
  (∀ z, minInt64 <= z <= maxInt64 → env "SEED" = Itoa z → P_Seed (configure env p) = z) ∧
  (∀ z, 0 < z <= maxInt64 → env "KS_WAL_AUTOCHECKPOINT" = Itoa z → P_WALAutocheckpoint (configure env p) = z) ∧
  (0 < P_WALAutocheckpoint p → 0 < P_WALAutocheckpoint (configure env p)) ∧
  (F.lt (F.of_Z 0) (P_BaseRate p) = true → F.lt (F.of_Z 0) (P_BaseRate (configure env p)) = true) ∧
  (ParseFloat "" = None → (∀ n, env n = "") → configure env p = p) ∧
  (∃ seed rate dir sync wal, configure env p = overridden seed rate dir sync wal p).
Proof.
  split_and!.
  - intros z Hz E. unfold configure, overridden. cbn [P_Seed]. by rewrite E, ParseInt_Itoa.
  - intros z Hz E. unfold configure, overridden. cbn [P_WALAutocheckpoint]. unfold Atoi. rewrite E, ParseInt_Itoa by (unfold minInt64; lia).
    by destruct (Z.ltb_spec 0 z); [|lia].
  - intros H. unfold configure, overridden. cbn [P_WALAutocheckpoint]. destruct (Atoi _) as [v|]; [|done]. by destruct (Z.ltb_spec 0 v).
  - intros H. unfold configure, overridden. cbn [P_BaseRate]. destruct (ParseFloat _) as [v|]; [|done]. by destruct (F.lt (F.of_Z 0) v) eqn:E.
  - intros Hf He. unfold configure. rewrite !He, Hf. by destruct p.
  - by eexists _, _, _, _, _.
Qed.
End Settings.

(** ** Shutdown *)

Section Shutdown.
Context `{TK : Tink} `{MR : MapRange} `{FM : Fmt}.

Lemma read_current_ok h : holder_ok h → holder_ok (read_current h).2 ∧ (read_current h).1 = ho_cur h ∧ ho_cur (read_current h).2 = ho_cur h ∧ ho_p (read_current h).2 = ho_p h.
Proof.
  intros Hok. unfold read_current, Current. pose proof (hold_cur_ok h Hok) as H1. pose proof (hold_cur_p h) as H2. unfold hold_cur in *.
  destruct (ho_cur h) as [i|] eqn:Hc; [|done]. destruct (hk_cur _ Hok _ Hc) as (s & Hs & Hst). rewrite Hs in *. cbn [hold] in *.
  set (s1 := mkSite _ _ _ _ _ _) in *. cbn [snd] in *. unfold on_site. cbn [ho_sites]. rewrite list_lookup_insert_eq by (by eapply lookup_lt_Some).
  cbn [mbind option_bind default ho_p ho_cur fst snd]. split_and!; try done.
  assert (<[i := s1]> (ho_sites h) !! i = Some s1) as Hs1 by by apply list_lookup_insert_eq, (lookup_lt_Some _ _ _ Hs).
  exact (set_site_ok _ i s1 _ H1 Hs1 (unhold_site _ _ (proj1 (hk_site _ H1 i s1 Hs1))) eq_refl).
Qed.

(** A World that was stopped: its streams are closed and its traffic paused. *)
Definition quiet_site (s : site) : Prop := h_closed (hs_hub (si_hub s)) = true ∧ si_viewers s = 0 ∧ on (w_gen (si_world s)) = false.

Lemma stopped_quiet s : site_ok s → si_stopped s = true → quiet_site s.
Proof.
  intros [Hs Hcl] Hst. rewrite Hst in Hcl. assert (si_viewers s = 0) as Hv.
  { unfold si_viewers, viewers, count. by rewrite (hi_closed _ (so_hub _ Hs) Hcl). }
  split; [done|]. split; [done|]. by rewrite (so_on _ Hs), Hv.
Qed.

(** A clean shutdown: whatever the handlers still running do between the two steps
    of the shutdown goroutine, as long as the World it read is still the current
    one, [Stop] does not panic, and afterwards every World ever built has its
    streams closed, no viewer and no traffic. *)
Theorem shutdown_quiets_every_world p os h now mid h1 :
  Forall (λ a, act_ok p a.2) os → hacts os (NewHolder p) = Some h →
  Forall (λ a, act_ok p a.2) mid → hacts mid (read_current h).2 = Some h1 → ho_cur h1 = ho_cur h →
  ∃ h2, shutdown now mid h = Some h2 ∧ ∀ i s, ho_sites h2 !! i = Some s → quiet_site s.
Proof.
  intros Ha He Hm Hmid Hcur. destruct (hacts_ok _ _ _ (NewHolder_ok p) Ha He) as [Hok HP]. cbn in HP.
  destruct (read_current_ok h Hok) as (Hok0 & Hr & _ & HP0).
  assert (holder_ok h1) as Hok1 by (eapply hacts_ok; [exact Hok0| |exact Hmid]; by rewrite HP0, HP).
  unfold shutdown. destruct (read_current h) as [cur h0]. cbn [fst snd] in *. rewrite Hmid. cbn [mbind option_bind]. subst cur. rewrite <- Hcur.
  unfold stop_read. destruct (ho_cur h1) as [i|] eqn:Hc.
  - destruct (hk_cur _ Hok1 _ Hc) as (s & Hs & _). destruct (Stop_site_ok now s (proj1 (hk_site _ Hok1 _ _ Hs))) as (s' & Hst & Hs' & Hd).
    unfold on_site. rewrite Hs. cbn [mbind option_bind]. rewrite Hst. cbn [mbind option_bind]. eexists. split; [done|]. cbn [ho_sites].
    intros j x [(<- & <- & _)|[Hne Hx]]%list_lookup_insert_Some; [by apply stopped_quiet|].
    destruct (hk_site _ Hok1 _ _ Hx) as [Hxok Hxc]. apply stopped_quiet; [done|]. destruct (si_stopped x); [done|]. specialize (Hxc eq_refl). congruence.
  - exists h1. split; [done|]. intros j x Hx. destruct (hk_site _ Hok1 _ _ Hx) as [Hxok Hxc]. apply stopped_quiet; [done|].
    destruct (si_stopped x); [done|]. specialize (Hxc eq_refl). congruence.
Qed.

(** The boot leaves no hold: the World it built is current and [Stop] need not
    wait for it. *)
Lemma boot_ok fresh h : holder_ok h → (∀ c, fresh = Some c → built_by (ho_p h) c) → ho_cur h = None →
  (boot fresh h).1 = match fresh with Some _ => Some (length (ho_sites h)) | None => None end ∧
  ∀ s, ho_sites (boot fresh h).2 !! length (ho_sites h) = Some s → si_holds s = ∅ ∧ si_stopped s = false.
Proof.
  intros Hok Hf Hn. unfold boot, Ensure, ensure_cur. rewrite Hn. unfold hold_cur, build. destruct fresh as [c|]; cbn [ho_cur ho_sites].
  - rewrite list_lookup_middle by done. cbn [hold fst snd]. unfold on_site. cbn [ho_sites].
    rewrite list_lookup_insert_eq by (rewrite length_app; cbn; lia). cbn [mbind option_bind default fst snd ho_sites]. split; [done|].
    unfold id. cbn [ho_sites]. intros s. rewrite list_lookup_insert_eq by (rewrite length_insert, length_app; cbn; lia). intros [= <-]. cbn. split; [set_solver|done].
  - split; [done|]. intros s Hs. apply lookup_lt_Some in Hs. cbn in Hs. lia.
Qed.
End Shutdown.

(** ** Runs *)
Module MainDemo.
#[export] Existing Instance SDemo.fmt.
Import SDemo HDemo.

(** The process boots, a viewer comes; the signal; the viewer's stream ends and a
    control call finishes before [Stop]. *)
Definition up : list (Time * act) := [(t0, AEnsure start); (t0, AUnhold 0 0); (t0, AAcquire start)].
Definition winding_down : list (Time * act) := [(t0 + Second, ARelease 0 0 1); (t0 + Second, AControl 0 (CStart "key_revocation"))].
(** Instead, a reset that was waiting for the holder's lock. *)
Definition resetting : list (Time * act) := [(t0 + Second, AReset start)].

Definition ends (mid : list (Time * act)) : option (list (bool * bool)) :=
  h ← hacts up (NewHolder Small); h ← shutdown (t0 + 2 * Second) mid h;
  Some ((λ s, (si_stopped s, h_closed (hs_hub (si_hub s)))) <$> ho_sites h).

(** A reset that gets the lock between the two steps leaves a World running: the
    goroutine stops the World it read, which the reset has stopped already, and
    nothing stops the one the reset built. *)
Theorem reset_at_shutdown_leaks_world : ends winding_down = Some [(true, true)] ∧ ends resetting = Some [(true, true); (false, false)].
Proof. split; vm_compute; reflexivity. Qed.

Lemma shutdown_quiets_every_world_witness :
  ∃ h h2, hacts up (NewHolder Small) = Some h ∧ shutdown (t0 + 2 * Second) winding_down h = Some h2 ∧
    ∀ i s, ho_sites h2 !! i = Some s → quiet_site s.
Proof.
  assert (reached up (λ h, match hacts winding_down (read_current h).2 with Some h1 => bool_decide (ho_cur h1 = ho_cur h) | None => false end) = true)
    as H by (vm_compute; reflexivity).
  destruct (reached_cases _ _ H) as (h & Hh & Hf). destruct (hacts winding_down (read_current h).2) as [h1|] eqn:Hm; [|discriminate Hf].
  apply bool_decide_eq_true in Hf.
  assert (Forall (λ a, act_ok Small a.2) up) as Hu by (repeat constructor; cbn; intros c; apply start_built).
  assert (Forall (λ a, act_ok Small a.2) winding_down) as Hw by (repeat constructor).
  destruct (shutdown_quiets_every_world Small up h (t0 + 2 * Second) winding_down h1 Hu Hh Hw Hm Hf) as (h2 & E & Hq).
  exists h, h2. split; [exact Hh|]. split; [exact E|exact Hq].
Defined.
End MainDemo.

Lemma settings_take_effect_witness :
  let env := setenv "SEED" (Itoa (-42)) in env "SEED" = Itoa (-42) ∧ P_Seed (configure (PF := λ _, None) env Small) = -42.
Proof.
  split; [vm_compute; reflexivity|].
  refine (proj1 (settings_take_effect (PF := λ _, None) (setenv "SEED" (Itoa (-42))) Small) (-42) _ _); [vm_compute; split; discriminate|vm_compute; reflexivity].
Defined.
