(* ===== verification/Zipf.v ===== *)
(** * internal/traffic/generator.go: the rates by rank

    [ZipfRates] over [math.Pow], whose value at a real exponent is package math's
    and a parameter, and what the demo's load comes to where the exponent is one. *)

From S2P Require Import Prelude GoLib GoFloat Lease Ingest Params.
Local Open Scope Z_scope.

Class GoPow := pow : float64 → float64 → float64.

Section Zipf.
Context `{PW : GoPow}.

(** The first loop: the terms of ranks 1 to [n] and their sum, added in order. *)
Definition zipf_terms (n : Z) (s : float64) : list float64 := (λ k, pow (F.of_Z k) (SFopp s)) <$> seqZ 1 n.
Definition zipf_sum (terms : list float64) : float64 := foldl F.add (F.of_Z 0) terms.

Definition ZipfRates (n : Z) (total s : float64) : list float64 :=
  let rates := zipf_terms n s in let sum := zipf_sum rates in (λ r, F.mul (F.div r sum) total) <$> rates.

Lemma length_rates n total s : length (ZipfRates n total s) = Z.to_nat n.
Proof. unfold ZipfRates, zipf_terms. by rewrite !length_fmap, length_seqZ. Qed.
End Zipf.

Lemma rates_ext (P1 P2 : GoPow) n total s :
  zipf_terms (PW := P1) n s = zipf_terms (PW := P2) n s → ZipfRates (PW := P1) n total s = ZipfRates (PW := P2) n total s.
Proof. unfold ZipfRates. by intros ->. Qed.

(** Go's algorithm at exponent -1 ([F.Pow]); other exponents are left out. *)
#[export] Instance reciprocal : GoPow := λ x _, F.Pow x (-1).

Fixpoint decreasing (l : list float64) : bool :=
  match l with x :: ((y :: _) as l') => F.lt y x && decreasing l' | _ => true end.

(** The demo's load, checked by computation. *)
Definition demo_rates : list float64 := ZipfRates (P_Tenants Demo) (P_BaseRate Demo) (P_ZipfExponent Demo).
Definition demo_load_ok : bool :=
  let rates := demo_rates in
  let sum := zipf_sum rates in
  let at_rank k := default (F.of_Z 0) (rates !! Z.to_nat (k - 1)) in
  decreasing rates && forallb (F.lt (F.of_Z 0)) rates
  && F.lt (F.lit (300 * 2 ^ 30 - 1) (-30)) sum && F.lt sum (F.lit (300 * 2 ^ 30 + 1) (-30))
  && F.lt (at_rank 1) (P_TenantRate Demo) && F.lt sum (P_Capacity Demo)
  && F.lt (P_TenantRate Demo) (F.mul (at_rank (P_SurgeTenantRank Demo)) (P_TenantSurgeMult Demo))
  && F.lt (P_Capacity Demo) (F.mul sum (P_GlobalSurgeMult Demo)).

Lemma demo_load_checked : demo_load_ok = true.
Proof. vm_compute. reflexivity. Qed.

(** The demo's load is what its scenarios need.  With a math.Pow that is Go's at
    exponent -1, the thousand rates are positive and fall with the rank, add up to
    the 300 events a second of [BaseRate] to within 2^-30; at rest no tenant
    exceeds its rate limit and the total is under the delivery capacity, so
    nothing is shed; the surging tenant's rate is over its limit, and the global
    surge is over the capacity. *)
Theorem demo_load_fits `{PW : GoPow} :
  (∀ k, 1 <= k <= P_Tenants Demo → pow (F.of_Z k) (SFopp (P_ZipfExponent Demo)) = F.Pow (F.of_Z k) (-1)) →
  let rates := ZipfRates (PW := PW) (P_Tenants Demo) (P_BaseRate Demo) (P_ZipfExponent Demo) in
  rates = demo_rates ∧ Z.of_nat (length rates) = P_Tenants Demo ∧ demo_load_ok = true.
Proof.
  intros Hp. cbv zeta. assert (zipf_terms (PW := PW) (P_Tenants Demo) (P_ZipfExponent Demo) = zipf_terms (PW := reciprocal) (P_Tenants Demo) (P_ZipfExponent Demo)) as E.
  { unfold zipf_terms. apply list_fmap_ext. intros i k Hk. apply lookup_seqZ in Hk as [-> Hk]. apply Hp. lia. }
  split; [exact (rates_ext _ _ _ _ _ E)|]. split; [|exact demo_load_checked].
  rewrite length_rates. reflexivity.
Qed.

Lemma demo_load_fits_witness : Z.of_nat (length demo_rates) = 1000 ∧ demo_load_ok = true.
Proof. exact (proj2 (demo_load_fits (PW := reciprocal) (λ k _, eq_refl))). Defined.
